(* ===== verification/_CoqProject ===== *)
-Q . S2P
Prelude.v
GoStrings.v
GoUnicode.v
GoQuote.v
GoHash.v
GoSort.v
GoHeap.v
GoRange.v
GoFiles.v
GoFmt.v
NativeProto.v
NativeCodec.v
NativeFrame.v
Sharding.v
ShardingProps.v
Monopath.v
Merge3.v
Merge3Props.v
Authz.v
AuthzProps.v
Codeowners.v
Ownership.v
OwnershipProps.v
MergeRequest.v
GoPath.v
Policy.v
PolicyProps.v
Pipeline.v
PipelineProps.v
PipelineOrch.v
PipelineOrchProps.v
PipelineWebhook.v
Guardian.v
GuardianProps.v
WorkspaceWAL.v
WorkspaceWALProps.v
WorkspaceStore.v
WorkspaceStoreProps.v
WorkspaceJson.v
WorkspaceDurability.v
LogQuery.v
LogQueryProps.v
LogEngine.v
LogEngineProps.v
LogEngineExact.v
GoTree.v
Overlay.v
Session.v
Mount.v
MountProps.v
MountView.v
MountReports.v
MountFaults.v
Recovery.v
PullMerge.v
PullMergeProps.v
Bundle.v
SourcePush.v
GitIndex.v
Staging.v
BundleProps.v
SourcePushProps.v
BundleSafety.v
MountIndex.v
StagingProps.v
CommitProps.v
CommitBundle.v
Publish.v
PublishFaults.v
WorkspacePolicy.v
PushGate.v
PushGateProps.v
GoTime.v
ChunkStore.v
Compaction.v
ChunkStoreProps.v
CompactionProps.v
CompactionSafety.v
CompactionBounds.v
LogStore.v
