(* ===== verification/Prelude.v ===== *)
(** * MonoFS: a verification library

    MonoFS is a distributed file system for monorepos: routers place files on
    storage nodes, clients mount the tree, and services around it control who
    may see, change, review and build what.  This library models the parts of
    it whose behaviour is decided by code rather than by a disk or a network,
    and proves what they promise.  Source paths below are relative to src/.

    ** Parts and files

    Go itself.  Prelude.v (this file): fallible results, machine integers,
    bytes, tactics, hints.  GoStrings.v, GoUnicode.v, GoQuote.v, GoFmt.v,
    GoPath.v, GoHash.v: the functions of packages strings, unicode/utf8,
    strconv and fmt, path, hash/fnv, crypto and encoding/hex the components
    call, defined on byte strings.  GoHeap.v: container/heap, with the heap
    property of each operation.  GoSort.v and GoRange.v: sort.Slice and iteration over maps,
    which Go leaves open, as classes; theorems hold for every sorting routine
    and every iteration order.  GoFiles.v: files, renames, and their failures.
    GoTree.v: a tree of files, directories and symbolic links with the calls of
    package os on it, each of which can fail.  GoTime.v: the layouts of times
    in UTC that name directories.

    Native mounts.  NativeProto.v is internal/nativeproto/protocol.go: the frame
    header, [ReadFrame], [WriteFrame], and an encoder and a decoder for each
    message.  NativeCodec.v proves the messages' round trips and that no input
    makes a decoder panic; NativeFrame.v that frames are self-delimiting and
    only well-formed ones are accepted.

    Placement.  Sharding.v is internal/sharding (hrw.go, key.go), the
    rendezvous-hashing ring with its 64-bit scores; Monopath.v is
    internal/monopath/path.go.  ShardingProps.v: which nodes are chosen, that
    all processes agree, that a change of membership moves only the keys it
    must, and that a weight does not do what it is meant to do.

    Mounts.  Overlay.v is internal/fuse/overlay_db.go, the database of a
    session, Session.v session.go and session_vcs.go, and Mount.v the FUSE
    handlers of node.go that change something or find it.  MountProps.v has the
    invariant of a session and what each handler does to it.  MountView.v: a
    session of the operations that [admissible] covers shows the tree they
    make of the cluster's.  MountReports.v: after such a session the reported
    changes are the difference, and listings agree with lookups.
    MountFaults.v: a handler that fails leaves the mount as it was, and runs
    outside of [admissible] in which the mount shows something else than asked
    for: appending to a file of the cluster, creating a file again that was
    removed, renaming directories and links, removing directories that have
    content.  Recovery.v is the recovery of a session from its directory, with
    and without its database, and the start of the session manager after it.

    Pulls.  Merge3.v is internal/fuse/merge3.go, the three-way merge.
    Merge3Props.v: it refines a merge by chunks, ignores unchanged sides, and
    marks every conflict.  PullMerge.v is pull_merge.go with the command;
    PullMergeProps.v: after a pull the mount shows the merge of every change
    with what was pulled.

    Publishing.  Bundle.v is internal/workspacebundle and the application of
    a bundle to a worktree by the fetcher; SourcePush.v the push of commits by
    internal/fetcher/workspace_source_push.go with the parts of the router and
    the client.  GitIndex.v: what git documents of its index, and that staging
    makes the index follow the worktree.  Staging.v: the commands of internal/fuse/session_socket.go and
    commit.go: add, rm, status, branches, commit, push.  BundleProps.v: the
    operations of a bundle make of a clone the tree they describe, in any order
    the sort of a commit can give them.  BundleSafety.v: they touch nothing
    outside the worktree, and how a symbolic link leads out.
    SourcePushProps.v: a push that is reported as successful is complete.
    MountIndex.v: what the handlers of a mount leave alone.
    StagingProps.v, CommitProps.v and CommitBundle.v follow the changes of a
    session into the index, into the baseline after a commit, and into the
    bundle.  Publish.v composes them: what arrives in a repository are the files
    and links the mount shows.  PublishFaults.v: runs in which a change gets stuck.

    Gates of a push.  WorkspacePolicy.v is
    internal/router/workspacepolicy/policy.go, PushGate.v the checks of a push
    in internal/router (authz_merge_gate.go, ownership.go and
    workspace_source_push.go) over Ownership.v and Guardian.v.
    PushGateProps.v: what reaches a repository was allowed by the policy, and
    a direct push changes only files that need no review by others, with two
    ways around that.

    Authorization.  Authz.v is pkg/authz (authz.go, owners.go, compiler.go,
    grants.go), Codeowners.v codeowners.go, Ownership.v resolver.go, Policy.v
    the package pkg/authz/policy.  AuthzProps.v, OwnershipProps.v,
    PolicyProps.v: compiled grants and compiled policies decide exactly what
    the documents say, indexes agree with scans, owners of a directory own its
    contents, the grant file survives failed writes.

    Reviews.  MergeRequest.v is internal/router/mergerequest/store.go over the
    ownership interface that Ownership.v implements: whatever is merged was
    approved by an owner who is not its author.

    Pipelines.  Pipeline.v is config.go, types.go and affected.go of
    internal/router/pipeline, PipelineOrch.v orchestrator.go, PipelineWebhook.v
    webhook.go.  PipelineProps.v: validation accepts exactly the acyclic
    configurations, affected packages are a closure.  PipelineOrchProps.v: runs
    complete, and the cases in which the orchestrator goes on where it should
    have stopped.

    Guardian.  Guardian.v is the versioned configuration store of
    internal/router (guardian_path_mapper.go, guardian_version_store.go, the
    upserts of guardian_paths.go), which also carries the pipeline queue.
    GuardianProps.v: the path mapping inverts, the store is a map of last
    versions, and create-only writes exclude each other only when they do not
    overlap.

    Workspaces.  WorkspaceWAL.v and WorkspaceStore.v are
    internal/storage/workspacestore: a write-ahead log at the level of bytes,
    snapshots, checkpoints, compaction, recovery.  WorkspaceWALProps.v and
    WorkspaceStoreProps.v carry the representation invariants,
    WorkspaceJson.v an instance of the encodings, WorkspaceDurability.v the
    crash theorems: no acknowledged request is lost, with one exception, which
    is a theorem too.

    Logs.  LogQuery.v is internal/storage/logquery/parser.go, the query
    language; LogEngine.v the log part of internal/storage/logengine: what a
    flush writes (rows, manifest, trace filter, label dictionaries), and a query
    from the choice of chunks over the text index and the row groups to the
    newest records or the merge.  LogQueryProps.v: parsing inverts printing.
    LogEngineProps.v: a manifest never rules out a chunk with a wanted row, where
    the dictionaries are complete.  LogEngineExact.v: a query over the chunks it
    is given answers what scanning them would.  ChunkStore.v is the directory of chunks of the three
    signals: writing, listing by time, retention; Compaction.v compactor.go,
    whose runs can stop at any write.  ChunkStoreProps.v and CompactionProps.v
    have the lemmas on them.  CompactionSafety.v: runs stopped anywhere lose no
    record and the run after them leaves each exactly once, while a third run
    deletes everything; CompactionBounds.v: the size of what a run writes.
    LogStore.v is the way of a batch of records into its chunk (row groups,
    manifest, indexed rows) and puts the engine on top of such chunks: a query
    answers what scanning the ingested batches would, and four inputs on which
    the code's shortcuts lose records.

    ** How the models correspond to the code

    A method that runs under a lock is one function from the state to the new
    state and its result; code that runs between locks is cut into steps of a
    relation whose interleavings are arbitrary.  A result with an error is
    [result E A]; error texts are constructors.  nil is [None].  Expressions
    that can panic are checked and give [None] or an error where they would.
    Integers keep their width where the code can overflow it.  The outcome of
    I/O, the clock and fresh identifiers are arguments, so that a theorem
    covers every pattern of failures.  Third-party code is a class with what
    it documents ([Difflib], the JSON and YAML encodings), and each class has an
    instance on which the witnesses run.  A function of the source that is cut
    into several definitions (a loop and its body, a comparison passed to a
    sort) is found under the definition of the same name.

    A mount and the fetcher work on a tree with a list of outcomes: each call
    on the disk or the database takes the next, and fails in the way the list
    says; after the list every call succeeds.  What git answers to the fetcher
    is a record of answers, functions of the worktree and the index;
    [git_documented] states what is relied on, and [plain_git] has it.  The
    analyzer of the text index is a class in the same way.  The composition is by these interfaces: the bundle
    the mount builds is the value the fetcher receives.

    ** Bounds and fuel

    Loops that are not structural take fuel, with a theorem or an argument
    that the fuel given is enough: decimal digits are bounded by the logarithm
    ([dec]), splitting, replacing and pattern reading consume a byte per step
    (fuel: the length of the input), [ancestors_loop] shortens its path
    ([ancestorDirs_all_prefixes]), [dfs] colours a job per level and [bfs] takes
    each package into the queue once ([validate_accepts_dags],
    [affected_closure]).  The fuel of [loadFile] is the source's own limit on the
    depth of imports.  [advance_passes] is bounded by the source itself; that the bound
    suffices is [advance_starts_all_ready].  [parse_filters] and the reader of
    quoted strings consume a byte per step ([parse_filters_fuel],
    [Unquote_quoted]); the merge takes a row per step, its fuel is the number
    of rows; sifting in a heap is bounded by its length.  At most forty symbolic links are
    followed ([resolve]), the limit of the kernel; the grouping of compacted rows
    and the cutting of a batch into row groups ([row_groups]) take a row per
    step; time directories have three levels.

    ** Not modelled

    Generated protocol buffers, command-line programs, and the code that is
    I/O around the parts above: RPC and HTTP handlers of the router and the
    storage nodes, the reads and attributes of a mount, its control socket and
    git projection, cloning and polling by the fetchers, package registries,
    search, Bazel support, telemetry.  Token verification relies on
    third-party cryptography.  Of the log engine, the caches, the Parquet files
    and the SQL engine are left out; a chunk's file is its list of row groups,
    and the text index answers with the rows a match of the analyzed filters
    finds.  Of a push, the
    upload in chunks, the streams, the job records and the pull requests are
    left out, and so are the messages shown to the user.  The sharded client's
    failover, leases and the task queue are concurrent calls to other
    processes and are not modelled. *)

From stdpp Require Export base list gmap strings fin_maps sorting.
From stdpp Require Import options.
From Stdlib Require Export Ascii ZArith Lia.

Open Scope Z_scope.

(** ** Fallible results

    A Go function returning [(T, error)] becomes a function into
    [result E T]; the component chooses the error type [E]. *)

Inductive result (E A : Type) : Type :=
| Ok (a : A)
| Err (e : E).
Arguments Ok {E A} a.
Arguments Err {E A} e.

Definition rbind {E A B : Type} (c : result E A) (k : A → result E B) : result E B :=
  match c with
  | Ok a => k a
  | Err e => Err e
  end.

Declare Scope go_scope.
Delimit Scope go_scope with go.
Notation "'let!' x ':=' c 'in' k" := (rbind c (fun x => k))
  (at level 200, x pattern, c at level 100, k at level 200, right associativity) : go_scope.
Open Scope go_scope.

Definition is_ok {E A : Type} (c : result E A) : bool :=
  match c with Ok _ => true | Err _ => false end.

(** Go's [for _, x := range l] with an early error return. *)
Fixpoint rmap {E A B : Type} (f : A → result E B) (l : list A) : result E (list B) :=
  match l with
  | [] => Ok []
  | x :: l => let! y := f x in let! ys := rmap f l in Ok (y :: ys)
  end.

(** ** Machine integers

    A [w]-bit unsigned integer is a [Z] in range; conversions wrap. *)

Definition wrap (w z : Z) : Z := z `mod` 2 ^ w.
Definition in_u (w z : Z) : Prop := 0 ≤ z < 2 ^ w.
Definition in_i64 (z : Z) : Prop := -2 ^ 63 ≤ z < 2 ^ 63.

(** [uint64(v)] for [v : int64], and [int64(v)] for [v : uint64]. *)
Definition u64_of_i64 (z : Z) : Z := wrap 64 z.
Definition i64_of_u64 (z : Z) : Z := if bool_decide (z < 2 ^ 63) then z else z - 2 ^ 64.

(** ** Bytes

    [[]byte] is [list ascii]; [PutUint16/32/64] and [Uint16/32/64] of
    encoding/binary's LittleEndian are [put_le] and [get_le]. *)

Abbreviation bytes := (list ascii).

Definition byte_of_Z (z : Z) : ascii := ascii_of_N (Z.to_N (z `mod` 256)).
Definition Z_of_byte (b : ascii) : Z := Z.of_N (N_of_ascii b).

Fixpoint put_le (n : nat) (z : Z) : bytes :=
  match n with
  | O => []
  | S n => byte_of_Z z :: put_le n (z / 256)
  end.

Fixpoint get_le (bs : bytes) : Z :=
  match bs with
  | [] => 0
  | b :: bs => Z_of_byte b + 256 * get_le bs
  end.

Definition bytes_of_string (s : string) : bytes := String.list_ascii_of_string s.
Definition string_of_bytes (bs : bytes) : string := String.string_of_list_ascii bs.

(** ** Automation *)

Create HintDb monofs discriminated.
Create Rewrite HintDb monofs.

(** Invert an equation between results of binds. *)
Ltac inv_bind H :=
  repeat match type of H with
  | rbind ?c _ = Ok _ =>
      let E := fresh "E" in
      destruct c eqn:E; cbn [rbind] in H; [| discriminate H]
  | Ok _ = Ok _ => injection H as H
  | Err _ = Ok _ => discriminate H
  end.

(** Splits on [P] and resolves every [bool_decide P] of the goal. *)
Tactic Notation "bool_case" constr(P) "as" ident(H) :=
  destruct (decide P) as [H|H];
  [rewrite ?(bool_decide_eq_true_2 P H) | rewrite ?(bool_decide_eq_false_2 P H)].

(** Split the booleans of the context into propositions. *)
Ltac bool_hyps :=
  repeat match goal with
  | H : andb _ _ = true |- _ => apply andb_true_iff in H as [? ?]
  | H : orb _ _ = false |- _ => apply orb_false_iff in H as [? ?]
  | H : negb _ = true |- _ => apply negb_true_iff in H
  | H : negb _ = false |- _ => apply negb_false_iff in H
  | H : bool_decide _ = true |- _ => apply bool_decide_eq_true in H
  | H : bool_decide _ = false |- _ => apply bool_decide_eq_false in H
  end.

(** ** Generic lemmas *)

Lemma rmap_ok_Forall2 {E A B} (f : A → result E B) l ys :
  rmap f l = Ok ys ↔ Forall2 (λ x y, f x = Ok y) l ys.
Proof.
  revert ys. induction l as [|x l IH]; intros ys; simpl.
  - split; [intros [= <-]; constructor | intros H; inversion H; done].
  - split.
    + intros H. inv_bind H. subst. constructor; [done | by apply IH].
    + intros H. inversion H as [|? y ? ys' Hx Hl]; subst.
      apply IH in Hl. by rewrite Hx, Hl.
Qed.

Lemma Z_of_byte_range b : 0 ≤ Z_of_byte b < 256.
Proof. unfold Z_of_byte. pose proof (N_ascii_bounded b). lia. Qed.

Lemma Z_of_byte_of_Z z : Z_of_byte (byte_of_Z z) = z `mod` 256.
Proof.
  unfold Z_of_byte, byte_of_Z.
  pose proof (Z.mod_pos_bound z 256 ltac:(lia)).
  rewrite N_ascii_embedding by lia. lia.
Qed.

Lemma byte_of_Z_of_byte b : byte_of_Z (Z_of_byte b) = b.
Proof.
  unfold byte_of_Z, Z_of_byte. pose proof (N_ascii_bounded b).
  rewrite Z.mod_small by lia. rewrite N2Z.id. apply ascii_N_embedding.
Qed.

Lemma length_put_le n z : length (put_le n z) = n.
Proof. revert z. induction n; intros z; simpl; auto. Qed.

Lemma get_put_le n z : get_le (put_le n z) = z `mod` 2 ^ (8 * Z.of_nat n).
Proof.
  revert z. induction n as [|n IH]; intros z; simpl.
  - by rewrite Z.mod_1_r.
  - rewrite IH, Z_of_byte_of_Z.
    replace (8 * Z.of_nat (S n)) with (8 + 8 * Z.of_nat n) by lia.
    rewrite Z.pow_add_r by lia. change (2 ^ 8) with 256.
    rewrite Z.rem_mul_r by lia. lia.
Qed.

Lemma get_le_range bs : 0 ≤ get_le bs < 2 ^ (8 * Z.of_nat (length bs)).
Proof.
  induction bs as [|b bs IH]; simpl; [done|].
  pose proof (Z_of_byte_range b).
  replace (8 * Z.of_nat (S (length bs))) with (8 + 8 * Z.of_nat (length bs)) by lia.
  rewrite Z.pow_add_r by lia. change (2 ^ 8) with 256. nia.
Qed.

Lemma put_get_le bs : put_le (length bs) (get_le bs) = bs.
Proof.
  induction bs as [|b bs IH]; simpl; [done|].
  pose proof (Z_of_byte_range b). f_equal.
  - rewrite <- (byte_of_Z_of_byte b) at 2. unfold byte_of_Z.
    by rewrite (Z.mul_comm 256), Z.mod_add by lia.
  - rewrite (Z.mul_comm 256), Z.div_add, Z.div_small by lia. by rewrite Z.add_0_l.
Qed.

Lemma string_of_bytes_of_string s : string_of_bytes (bytes_of_string s) = s.
Proof. apply String.string_of_list_ascii_of_string. Qed.

Lemma bytes_of_string_of_bytes bs : bytes_of_string (string_of_bytes bs) = bs.
Proof. apply String.list_ascii_of_string_of_list_ascii. Qed.

Lemma i64_of_u64_of_i64 z : in_i64 z → i64_of_u64 (u64_of_i64 z) = z.
Proof.
  unfold in_i64, i64_of_u64, u64_of_i64, wrap. intros Hz.
  destruct (decide (0 ≤ z)) as [H0|H0].
  - rewrite Z.mod_small by lia. by rewrite bool_decide_eq_true_2 by lia.
  - rewrite <- (Z.mod_add z 1) by lia. rewrite Z.mod_small by lia.
    rewrite bool_decide_eq_false_2 by lia. lia.
Qed.

#[export] Hint Rewrite @length_put_le string_of_bytes_of_string bytes_of_string_of_bytes : monofs.
#[export] Hint Resolve Z_of_byte_range get_le_range : monofs.

(** ** Lists *)

Lemma existsb_elem {A} (f : A → bool) l : existsb f l = true ↔ ∃ x, x ∈ l ∧ f x = true.
Proof.
  rewrite existsb_exists. split; intros (x & Hx & Hf); exists x; (split; [by apply list_elem_of_In|done]).
Qed.

Lemma bind_ext_in {A B} (f g : A → list B) l : (∀ x, x ∈ l → f x = g x) → l ≫= f = l ≫= g.
Proof.
  induction l as [|x l IH]; intros Hl; [done|]. rewrite !bind_cons, Hl by constructor. f_equal. apply IH.
  intros. apply Hl. by constructor.
Qed.

Lemma elem_of_concat {A} (x : A) ls : x ∈ concat ls ↔ ∃ l, x ∈ l ∧ l ∈ ls.
Proof.
  rewrite list_elem_of_In, in_concat.
  split; intros (l & ? & ?); exists l; rewrite ?list_elem_of_In in *; done.
Qed.
