(* ===== verification/GoStrings.v ===== *)
(** * Strings of the Go standard library

    A Go [string] is a Stdlib [string] of bytes.  This file defines the
    functions of package strings the components call, with the same
    behaviour on every byte sequence, invalid UTF-8 included, and their laws:
    splitting and joining are inverse, trimming is idempotent, prefixes and
    suffixes are what they claim. *)

From stdpp Require Import options.
From S2P Require Import Prelude.

Abbreviation slash := "/"%char.
Definition newline : ascii := "010".

(** ** Bytes of a string *)

Fixpoint str_take (n : nat) (s : string) : string :=
  match n, s with
  | S n, String a s => String a (str_take n s)
  | _, _ => ""
  end.

Fixpoint str_drop (n : nat) (s : string) : string :=
  match n, s with
  | S n, String _ s => str_drop n s
  | _, _ => s
  end.

(** [c] occurs in [s]: [strings.IndexByte(s, c) >= 0]. *)
Fixpoint has_byte (c : ascii) (s : string) : bool :=
  match s with
  | "" => false
  | String a s => bool_decide (a = c) || has_byte c s
  end.

(** [strings.LastIndexByte], [None] for -1. *)
Fixpoint LastIndexByte (s : string) (c : ascii) : option nat :=
  match s with
  | "" => None
  | String a s =>
      match LastIndexByte s c with
      | Some i => Some (S i)
      | None => if bool_decide (a = c) then Some O else None
      end
  end.

(** ** Prefixes and suffixes *)

Definition HasPrefix (s p : string) : bool := String.prefix p s.
Definition HasSuffix (s p : string) : bool :=
  bool_decide (String.length p ≤ String.length s)%nat &&
  bool_decide (str_drop (String.length s - String.length p) s = p).
Definition TrimPrefix (s p : string) : string :=
  if HasPrefix s p then str_drop (String.length p) s else s.
Definition TrimSuffix (s p : string) : string :=
  if HasSuffix s p then str_take (String.length s - String.length p) s else s.

(** [strings.Index], [None] for -1, and [strings.Contains]. *)
Definition Index (s sub : string) : option nat := String.index 0 sub s.
Definition Contains (s sub : string) : bool := bool_decide (is_Some (Index s sub)).

(** ** Trimming one byte *)

Fixpoint TrimLeft (s : string) (c : ascii) : string :=
  match s with
  | "" => ""
  | String a r => if bool_decide (a = c) then TrimLeft r c else s
  end.

Fixpoint TrimRight (s : string) (c : ascii) : string :=
  match s with
  | "" => ""
  | String a r =>
      match TrimRight r c with
      | "" => if bool_decide (a = c) then "" else String a ""
      | r => String a r
      end
  end.

Definition Trim (s : string) (c : ascii) : string := TrimRight (TrimLeft s c) c.

(** ** White space

    [unicode.IsSpace] on the UTF-8 encodings of one, two and three bytes.  A
    lead byte never occurs inside another character's encoding, so matching
    the encodings greedily is what decoding rune by rune does. *)

Definition space1 (a : ascii) : bool :=
  let n := Z_of_byte a in bool_decide (9 ≤ n ≤ 13 ∨ n = 32).
Definition space2 (a b : ascii) : bool :=
  bool_decide (Z_of_byte a = 0xc2 ∧ (Z_of_byte b = 0x85 ∨ Z_of_byte b = 0xa0)).
Definition space3 (a b c : ascii) : bool :=
  let '(x, y, z) := (Z_of_byte a, Z_of_byte b, Z_of_byte c) in
  bool_decide
    ((x = 0xe1 ∧ y = 0x9a ∧ z = 0x80) ∨
     (x = 0xe2 ∧ y = 0x80 ∧ (0x80 ≤ z ≤ 0x8a ∨ z = 0xa8 ∨ z = 0xa9 ∨ z = 0xaf)) ∨
     (x = 0xe2 ∧ y = 0x81 ∧ z = 0x9f) ∨
     (x = 0xe3 ∧ y = 0x80 ∧ z = 0x80)).

(** The number of bytes of the white-space character [bs] starts with, 0 if
    it starts with none; [rev] says that [bs] is read backwards. *)
Definition space_width (backwards : bool) (bs : bytes) : nat :=
  let '(s2, s3) := if backwards then (λ a b, space2 b a, λ a b c, space3 c b a)
                   else (space2, space3) in
  match bs with
  | [] => 0
  | [a] => if space1 a then 1 else 0
  | [a; b] => if space1 a then 1 else if s2 a b then 2 else 0
  | a :: b :: c :: _ => if space1 a then 1 else if s2 a b then 2 else if s3 a b c then 3 else 0
  end%nat.

(** Drops the white space [bs] starts with; a character of [w] bytes is
    dropped by skipping its other [w - 1] bytes. *)
Fixpoint trim_run (backwards : bool) (skip : nat) (bs : bytes) : bytes :=
  match bs with
  | [] => []
  | a :: r =>
      match skip with
      | S k => trim_run backwards k r
      | O => match space_width backwards bs with
             | O => bs
             | S k => trim_run backwards k r
             end
      end
  end.

Definition trim_space_bytes (bs : bytes) : bytes :=
  rev (trim_run true 0 (rev (trim_run false 0 bs))).

Definition TrimSpace (s : string) : string := string_of_bytes (trim_space_bytes (bytes_of_string s)).

(** [strings.Fields]: the maximal runs of bytes that are not white space. *)
Fixpoint fields_aux (skip : nat) (cur : bytes) (bs : bytes) : list string :=
  let flush := match cur with [] => [] | _ => [string_of_bytes (rev cur)] end in
  match bs with
  | [] => flush
  | a :: r =>
      match skip with
      | S k => fields_aux k cur r
      | O => match space_width false bs with
             | O => fields_aux 0 (a :: cur) r
             | S k => flush ++ fields_aux k [] r
             end
      end
  end.
Definition Fields (s : string) : list string := fields_aux 0 [] (bytes_of_string s).

(** ** Splitting and joining *)

(** [strings.Split(s, sep)] for a separator of one byte. *)
Fixpoint Split (s : string) (c : ascii) : list string :=
  match s with
  | "" => [""]
  | String a r =>
      if bool_decide (a = c) then "" :: Split r c
      else match Split r c with
           | [] => [String a ""]
           | p :: ps => String a p :: ps
           end
  end.

Definition Join (l : list string) (sep : string) : string := String.concat sep l.
Abbreviation str1 c := (String c "").

(** ** Sorting: [sort.Strings] *)

Definition sort_Strings (l : list string) : list string := merge_sort String.le l.

#[local] Arguments String.append : simpl nomatch.

(** ** Lemmas: bytes and concatenation *)

Lemma str_app_cons a s r : String a s +:+ r = String a (s +:+ r).
Proof. done. Qed.

Lemma str_app_nil_l r : "" +:+ r = r.
Proof. done. Qed.

Lemma str_app_nil_r s : s +:+ "" = s.
Proof. induction s as [|a s IH]; simpl; [done | by rewrite IH]. Qed.

Lemma str_app_assoc a b c : (a +:+ b) +:+ c = a +:+ (b +:+ c).
Proof. induction a as [|x a IH]; simpl; [done | by rewrite IH]. Qed.

Lemma str_length_app a b : String.length (a +:+ b) = (String.length a + String.length b)%nat.
Proof. induction a as [|x a IH]; simpl; [done | by rewrite IH]. Qed.

Lemma bytes_of_app a b : bytes_of_string (a +:+ b) = bytes_of_string a ++ bytes_of_string b.
Proof. unfold bytes_of_string. induction a as [|x a IH]; simpl; [done | by rewrite IH]. Qed.

Lemma bytes_of_string_inj a b : bytes_of_string a = bytes_of_string b → a = b.
Proof. intros H. by rewrite <- (string_of_bytes_of_string a), H, string_of_bytes_of_string. Qed.

Lemma length_bytes_of_string s : length (bytes_of_string s) = String.length s.
Proof. unfold bytes_of_string. induction s as [|x s IH]; simpl; [done | by rewrite IH]. Qed.

Lemma str_app_inj_r a b c : a +:+ c = b +:+ c → a = b.
Proof.
  intros H. apply (f_equal bytes_of_string) in H. rewrite !bytes_of_app in H.
  apply app_inv_tail in H. by apply bytes_of_string_inj.
Qed.

Lemma has_byte_elem c s : has_byte c s = true ↔ c ∈ bytes_of_string s.
Proof.
  unfold bytes_of_string. induction s as [|a s IH]; simpl; [by rewrite elem_of_nil|].
  rewrite elem_of_cons, orb_true_iff, bool_decide_eq_true, IH. split; (intros [?|?]; [left; congruence | by right]).
Qed.

Lemma has_byte_app c a b : has_byte c (a +:+ b) = has_byte c a || has_byte c b.
Proof. induction a as [|x a IH]; simpl; [done|]. by rewrite IH, orb_assoc. Qed.

Lemma str_take_drop n s : str_take n s +:+ str_drop n s = s.
Proof. revert s. induction n as [|n IH]; intros [|a s]; simpl; try done. by rewrite IH. Qed.

Lemma str_drop_app a b : str_drop (String.length a) (a +:+ b) = b.
Proof. by induction a as [|x a IH]; simpl; [destruct b|]. Qed.

Lemma str_take_app a b : str_take (String.length a) (a +:+ b) = a.
Proof. induction a as [|x a IH]; simpl; [done | by rewrite IH]. Qed.

(** ** Lemmas: prefixes and suffixes *)

Lemma HasPrefix_spec s p : HasPrefix s p = true ↔ ∃ r, s = p +:+ r.
Proof.
  unfold HasPrefix. revert s. induction p as [|a p IH]; intros [|b s]; simpl.
  - split; [by exists "" | done].
  - split; [by eexists | done].
  - split; [done | by intros [? ?]].
  - destruct (ascii_dec a b) as [->|Hne].
    + rewrite IH. split; intros [r Hr]; exists r; [by rewrite Hr | by injection Hr].
    + split; [done|]. intros [r [= -> ->]]. done.
Qed.

Lemma HasPrefix_app p r : HasPrefix (p +:+ r) p = true.
Proof. apply HasPrefix_spec. by exists r. Qed.

Lemma TrimPrefix_app p r : TrimPrefix (p +:+ r) p = r.
Proof. unfold TrimPrefix. by rewrite HasPrefix_app, str_drop_app. Qed.

Lemma HasSuffix_spec s p : HasSuffix s p = true ↔ ∃ r, s = r +:+ p.
Proof.
  unfold HasSuffix. rewrite andb_true_iff, !bool_decide_eq_true. split.
  - intros [Hl Hd]. exists (str_take (String.length s - String.length p) s).
    rewrite <- Hd at 2. by rewrite str_take_drop.
  - intros [r ->]. rewrite str_length_app. split; [lia|].
    replace (_ - _)%nat with (String.length r) by lia. apply str_drop_app.
Qed.

Lemma TrimSuffix_app r p : TrimSuffix (r +:+ p) p = r.
Proof.
  unfold TrimSuffix. rewrite (proj2 (HasSuffix_spec _ _)) by by exists r.
  rewrite str_length_app. replace (_ - _)%nat with (String.length r) by lia. apply str_take_app.
Qed.

(** ** Lemmas: trimming one byte *)

Lemma TrimLeft_spec s c : ∃ k, s = string_of_bytes (replicate k c) +:+ TrimLeft s c.
Proof.
  induction s as [|a s [k IH]]; simpl; [by exists O|]. case_bool_decide as Ha.
  - subst a. exists (S k). simpl. f_equal. exact IH.
  - by exists O.
Qed.

Lemma TrimLeft_head s c : HasPrefix (TrimLeft s c) (str1 c) = false.
Proof.
  induction s as [|a s IH]; simpl; [done|]. case_bool_decide as Ha; [done|].
  simpl. unfold HasPrefix; simpl. destruct (ascii_dec c a); [congruence | done].
Qed.

Lemma TrimRight_last s c : HasSuffix (TrimRight s c) (str1 c) = false.
Proof.
  apply not_true_is_false. rewrite HasSuffix_spec. intros [r Hr]. revert r Hr.
  induction s as [|a s IH]; simpl; intros r Hr; [by destruct r|].
  destruct (TrimRight s c) as [|b t] eqn:E.
  - case_bool_decide as Ha; [by destruct r|]. destruct r as [|x [|y r]]; simpl in Hr; congruence.
  - destruct r as [|x r]; simpl in Hr; [congruence|]. injection Hr as -> Hr. by eapply IH.
Qed.

Lemma TrimRight_id s c : HasSuffix s (str1 c) = false → TrimRight s c = s.
Proof.
  intros H. assert (∀ r, s ≠ r +:+ str1 c) as H'.
  { intros r ->. by rewrite (proj2 (HasSuffix_spec _ _)) in H by by exists r. }
  clear H. induction s as [|a s IH]; simpl; [done|].
  rewrite IH by (intros r ->; by apply (H' (String a r))).
  destruct s; [|done]. case_bool_decide as Ha; [|done].
  subst. by destruct (H' "").
Qed.

Lemma TrimLeft_id s c : HasPrefix s (str1 c) = false → TrimLeft s c = s.
Proof.
  destruct s as [|a s]; simpl; [done|]. unfold HasPrefix; simpl.
  destruct (ascii_dec c a); [by destruct s|]. intros _. by case_bool_decide.
Qed.

Lemma TrimRight_prefix s c : ∃ k, s = TrimRight s c +:+ string_of_bytes (replicate k c).
Proof.
  induction s as [|a s [k IH]]; simpl; [by exists O|].
  destruct (TrimRight s c) as [|b t] eqn:E; simpl in *.
  - case_bool_decide as Ha.
    + subst a. exists (S k). simpl. by rewrite IH at 1.
    + exists k. simpl. by rewrite IH at 1.
  - exists k. by rewrite IH at 1.
Qed.

Lemma TrimRight_head s c : HasPrefix s (str1 c) = false → HasPrefix (TrimRight s c) (str1 c) = false.
Proof.
  intros H. apply not_true_is_false. rewrite HasPrefix_spec. intros [r Hr].
  destruct (TrimRight_prefix s c) as [k Hk]. rewrite Hr in Hk.
  rewrite Hk in H. by rewrite str_app_assoc, HasPrefix_app in H.
Qed.

(** What [Trim] leaves neither starts nor ends with the byte, and trimming
    such a string changes nothing. *)
Lemma Trim_ends s c :
  HasPrefix (Trim s c) (str1 c) = false ∧ HasSuffix (Trim s c) (str1 c) = false.
Proof. split; [apply TrimRight_head, TrimLeft_head | apply TrimRight_last]. Qed.

Lemma Trim_id s c : HasPrefix s (str1 c) = false → HasSuffix s (str1 c) = false → Trim s c = s.
Proof. intros H1 H2. unfold Trim. by rewrite TrimLeft_id, TrimRight_id. Qed.

Lemma Trim_idem s c : Trim (Trim s c) c = Trim s c.
Proof. destruct (Trim_ends s c). by apply Trim_id. Qed.

(** ** Lemmas: splitting and joining *)

Lemma Split_ne s c : Split s c ≠ [].
Proof.
  destruct s as [|a s]; simpl; [done|].
  case_bool_decide; [done|]. by destruct (Split s c).
Qed.

Lemma Join_cons p ps sep : ps ≠ [] → Join (p :: ps) sep = p +:+ sep +:+ Join ps sep.
Proof. by destruct ps. Qed.

Lemma Join_Split s c : Join (Split s c) (str1 c) = s.
Proof.
  induction s as [|a s IH]; [done|]. cbn [Split]. pose proof (Split_ne s c) as Hne.
  case_bool_decide as Ha.
  - subst a. by rewrite Join_cons, IH by done.
  - destruct (Split s c) as [|p [|q ps]]; [done|..]; unfold Join in *; simpl in *; by rewrite IH.
Qed.

Lemma Split_no_sep s c : Forall (λ p, has_byte c p = false) (Split s c).
Proof.
  induction s as [|a s IH]; simpl; [by repeat constructor|]. case_bool_decide as Ha; [by constructor|].
  destruct (Split s c) as [|p ps]; inversion IH; subst; constructor; simpl; try done;
    by rewrite bool_decide_eq_false_2.
Qed.

Lemma Split_plain p c : has_byte c p = false → Split p c = [p].
Proof.
  induction p as [|a p IH]; simpl; [done|]. intros [Ha Hp]%orb_false_iff.
  by rewrite Ha, IH.
Qed.

Lemma Split_app p s c : has_byte c p = false → Split (p +:+ str1 c +:+ s) c = p :: Split s c.
Proof.
  induction p as [|a p IH]; simpl.
  - intros _. by rewrite bool_decide_eq_true_2.
  - intros [Ha Hp]%orb_false_iff. rewrite Ha. simpl in IH. by rewrite IH.
Qed.

Lemma Split_app_gen a b c : Split (a +:+ str1 c +:+ b) c = Split a c ++ Split b c.
Proof.
  induction a as [|x a IH].
  - rewrite str_app_nil_l. exact (Split_app "" b c eq_refl).
  - rewrite str_app_cons. cbn [Split]. rewrite IH. bool_case (x = c) as E; [done|].
    pose proof (Split_ne a c). by destruct (Split a c).
Qed.

Lemma Split_Join l c : l ≠ [] → Forall (λ p, has_byte c p = false) l → Split (Join l (str1 c)) c = l.
Proof.
  intros Hne Hl. induction Hl as [|p ps Hp Hps IH]; [done|].
  destruct ps as [|q ps]; [by apply Split_plain|].
  rewrite Join_cons by done. rewrite Split_app by done. by rewrite IH.
Qed.

Lemma Join_app l k sep : l ≠ [] → k ≠ [] → Join (l ++ k) sep = Join l sep +:+ sep +:+ Join k sep.
Proof.
  intros Hl Hk. induction l as [|p l IH]; [done|]. destruct l as [|q l].
  - apply (Join_cons p k). done.
  - rewrite <- app_comm_cons, !Join_cons by done. rewrite IH by done. by rewrite !str_app_assoc.
Qed.

Lemma Index_cons a s p :
  is_Some (Index (String a s) p) ↔ HasPrefix (String a s) p = true ∨ is_Some (Index s p).
Proof.
  unfold Index, HasPrefix. cbn [String.index]. destruct (String.prefix p (String a s)).
  - split; [auto | by eexists].
  - destruct (String.index 0 p s) as [i|]; split.
    + intros _. right. by eexists.
    + intros _. by eexists.
    + by intros [? ?].
    + intros [?|[? ?]]; done.
Qed.

Lemma Contains_spec s p : Contains s p = true ↔ ∃ a b, s = a +:+ p +:+ b.
Proof.
  unfold Contains. rewrite bool_decide_eq_true. induction s as [|c s IH].
  - split.
    + destruct p; [by exists "", ""|]. by intros [? ?].
    + intros (a & b & E). destruct a, p; [|done..]. by eexists.
  - rewrite Index_cons, HasPrefix_spec, IH. split.
    + intros [[r ->]|(a & b & ->)]; [by exists "", r | by exists (String c a), b].
    + intros ([|x a] & b & E); [left; by exists b|]. right. injection E as -> ->. by exists a, b.
Qed.

Lemma Contains_app_r a s p : Contains s p = true → Contains (a +:+ s) p = true.
Proof. rewrite !Contains_spec. intros (x & y & ->). exists (a +:+ x), y. by rewrite str_app_assoc. Qed.

Lemma Contains_app_l a s p : Contains a p = true → Contains (a +:+ s) p = true.
Proof. rewrite !Contains_spec. intros (x & y & ->). exists x, (y +:+ s). by rewrite !str_app_assoc. Qed.

(** ** Lemmas: white space *)

Lemma trim_run_start b k bs : space_width b (trim_run b k bs) = 0%nat.
Proof.
  revert k. induction bs as [|a r IH]; intros k; [by destruct b|]. cbn [trim_run].
  destruct k as [|k]; [|apply IH]. destruct (space_width b (a :: r)) eqn:E; [exact E | apply IH].
Qed.

Lemma trim_run_id b bs : space_width b bs = 0%nat → trim_run b 0 bs = bs.
Proof. intros H. destruct bs as [|a r]; [done|]. cbn [trim_run]. by rewrite H. Qed.

Lemma trim_run_suffix b k bs : trim_run b k bs `suffix_of` bs.
Proof.
  revert k. induction bs as [|a r IH]; intros k; [done|]. cbn [trim_run].
  destruct k as [|k]; [|by apply suffix_cons_r].
  destruct (space_width b (a :: r)); [done | by apply suffix_cons_r].
Qed.

(** A prefix of a list that starts with no white space starts with none. *)
Lemma space_width_prefix p bs : p `prefix_of` bs → space_width false bs = 0%nat → space_width false p = 0%nat.
Proof.
  intros [k ->]. destruct p as [|a [|b [|c p]]]; [done|..|done].
  - destruct k as [|d [|e k]]; cbn [app space_width]; by destruct (space1 a).
  - destruct k as [|d k]; cbn [app space_width]; by destruct (space1 a), (space2 a b).
Qed.

Lemma trim_right_prefix bs : rev (trim_run true 0 (rev bs)) `prefix_of` bs.
Proof.
  destruct (trim_run_suffix true 0 (rev bs)) as [k E]. exists (rev k).
  rewrite <- rev_app_distr, <- E. by rewrite rev_involutive.
Qed.

Lemma TrimSpace_idem s : TrimSpace (TrimSpace s) = TrimSpace s.
Proof.
  unfold TrimSpace. rewrite bytes_of_string_of_bytes. f_equal. unfold trim_space_bytes.
  set (l := trim_run false 0 (bytes_of_string s)).
  rewrite (trim_run_id false (rev _)).
  - by rewrite rev_involutive, (trim_run_id true) by apply trim_run_start.
  - eapply space_width_prefix; [apply trim_right_prefix | apply trim_run_start].
Qed.

Lemma TrimSpace_empty : TrimSpace "" = "".
Proof. done. Qed.

(** ** Lemmas: the last occurrence of a byte *)

Lemma LastIndexByte_none s c : has_byte c s = false → LastIndexByte s c = None.
Proof.
  induction s as [|a s IH]; simpl; [done|]. intros [Ha Hs]%orb_false_iff. by rewrite IH, Ha.
Qed.

Lemma LastIndexByte_app a b c :
  has_byte c b = false → LastIndexByte (a +:+ str1 c +:+ b) c = Some (String.length a).
Proof.
  intros Hb. induction a as [|x a IH]; simpl.
  - by rewrite LastIndexByte_none, bool_decide_eq_true_2 by done.
  - simpl in IH. by rewrite IH.
Qed.

Lemma str_app_empty a b : a +:+ b = "" → a = "" ∧ b = "".
Proof. destruct a; simpl; [done|by intros]. Qed.

(** ** Separators and substitution

    [strings.Split] on a separator of several bytes, and the replacement of
    every occurrence of a string.  Both search from the left and go on behind
    what they found; with a non-empty [sep] or [old] the length of the string
    bounds the number of rounds. *)

Fixpoint split_on (fuel : nat) (s sep : string) : list string :=
  match fuel with
  | O => [s]
  | S fuel =>
      match Index s sep with
      | None => [s]
      | Some i => str_take i s :: split_on fuel (str_drop (i + String.length sep) s) sep
      end
  end.
Definition SplitString (s sep : string) : list string := split_on (String.length s) s sep.

Fixpoint replace_on (fuel : nat) (s old new : string) : string :=
  match fuel with
  | O => s
  | S fuel =>
      match Index s old with
      | None => s
      | Some i => str_take i s +:+ new +:+ replace_on fuel (str_drop (i + String.length old) s) old new
      end
  end.
Definition ReplaceAll (s old new : string) : string := replace_on (String.length s) s old new.

Lemma Index_Some s p i : Index s p = Some i → s = str_take i s +:+ p +:+ str_drop (i + String.length p) s.
Proof.
  unfold Index. revert i. induction s as [|a s IH]; intros i E.
  - destruct p; [|done]. by injection E as <-.
  - cbn [String.index] in E. destruct (String.prefix p (String a s)) eqn:Ep.
    + injection E as <-. apply HasPrefix_spec in Ep as [r ->].
      cbn [str_take String.append Nat.add]. by rewrite str_drop_app.
    + destruct (String.index 0 p s) as [n|] eqn:En; [|done]. injection E as <-.
      cbn [str_take str_drop String.append Nat.add]. f_equal. by apply IH.
Qed.

Lemma str_length_drop n s : String.length (str_drop n s) = (String.length s - n)%nat.
Proof. revert s. induction n as [|n IH]; intros [|a s]; simpl; auto. Qed.

(** More rounds change nothing. *)
Lemma replace_on_fuel f g s old new :
  old ≠ "" → (String.length s ≤ f)%nat → (String.length s ≤ g)%nat → replace_on f s old new = replace_on g s old new.
Proof.
  intros Ho. revert g s. induction f as [|f IH]; intros g s Hf Hg.
  - destruct s; simpl in Hf; [|lia]. destruct g; [done|]. cbn [replace_on].
    destruct (Index "" old) eqn:E; [|done]. destruct old; [done|]. discriminate E.
  - destruct g as [|g].
    + destruct s; simpl in Hg; [|lia]. cbn [replace_on].
      destruct (Index "" old) eqn:E; [|done]. destruct old; [done|]. discriminate E.
    + cbn [replace_on]. destruct (Index s old) as [i|] eqn:E; [|done]. do 2 f_equal.
      assert (String.length (str_drop (i + String.length old) s) < String.length s)%nat.
      { rewrite (Index_Some _ _ _ E) at 2. rewrite !str_length_app, str_length_drop.
        destruct old; [done|]. cbn [String.length]. lia. }
      apply IH; lia.
Qed.

(** ** Lemmas: strings that start or end with a visible character *)

Definition visible (a : ascii) : bool := bool_decide (0x20 < Z_of_byte a < 0x80).

Lemma visible_width back a r : visible a = true → space_width back (a :: r) = 0%nat.
Proof.
  unfold visible. intros Ha%bool_decide_eq_true.
  assert (space1 a = false) as H1 by (apply bool_decide_eq_false; lia).
  assert (∀ b, space2 a b = false) as H2 by (intros; apply bool_decide_eq_false; lia).
  assert (∀ b, space2 b a = false) as H2' by (intros; apply bool_decide_eq_false; lia).
  assert (∀ b c, space3 a b c = false) as H3 by (intros; apply bool_decide_eq_false; lia).
  assert (∀ b c, space3 c b a = false) as H3' by (intros; apply bool_decide_eq_false; lia).
  destruct back, r as [|b [|c r]]; cbn [space_width]; by rewrite ?H1, ?H2, ?H2', ?H3, ?H3'.
Qed.

Lemma TrimSpace_visible s a r b l :
  bytes_of_string s = a :: r → bytes_of_string s = l ++ [b] → visible a = true → visible b = true → TrimSpace s = s.
Proof.
  intros Ha Hb Va Vb. unfold TrimSpace, trim_space_bytes.
  rewrite Ha, (trim_run_id false) by by apply visible_width. rewrite <- Ha, Hb, rev_app_distr. cbn [rev app].
  rewrite trim_run_id by by apply visible_width. change (b :: rev l) with (rev [b] ++ rev l).
  by rewrite <- rev_app_distr, rev_involutive, <- Hb, string_of_bytes_of_string.
Qed.

Lemma TrimSpace_space s : TrimSpace (String " " s) = TrimSpace s.
Proof.
  unfold TrimSpace, trim_space_bytes. do 3 f_equal. cbn [bytes_of_string String.list_ascii_of_string].
  by destruct s as [|x [|y s]].
Qed.

Lemma trim_run_visible k l b :
  visible b = true → (k ≤ length l)%nat → ∃ l', trim_run false k (l ++ [b]) = l' ++ [b].
Proof.
  intros Vb. revert k. induction l as [|a l IH]; intros k Hk; cbn [length] in Hk.
  - replace k with O by lia. exists []. cbn [app]. by rewrite trim_run_id by by apply visible_width.
  - cbn [app trim_run]. destruct k as [|k]; [|apply IH; lia].
    destruct (space_width false (a :: l ++ [b])) as [|w] eqn:E; [by exists (a :: l)|]. apply IH.
    unfold visible in Vb. apply bool_decide_eq_true in Vb.
    assert (∀ x, space2 x b = false) as H2 by (intros; apply bool_decide_eq_false; lia).
    assert (∀ x y, space3 x y b = false) as H3 by (intros; apply bool_decide_eq_false; lia).
    destruct l as [|c [|d l]]; cbn [app space_width] in E; rewrite ?H2, ?H3 in E; destruct (space1 a); simpl in *;
      [injection E as <-; lia|done|injection E as <-; lia|..];
      repeat match type of E with context [if ?c then _ else _] => destruct c end; simpl in *; lia.
Qed.

Lemma TrimSpace_end s b : visible b = true → TrimSpace (s +:+ str1 b) ≠ "".
Proof.
  intros Vb E. apply (f_equal bytes_of_string) in E. unfold TrimSpace, trim_space_bytes in E.
  rewrite bytes_of_string_of_bytes, bytes_of_app in E.
  destruct (trim_run_visible 0 (bytes_of_string s) b) as [l El]; [done|lia|].
  cbn [bytes_of_string String.list_ascii_of_string] in E. change (String.list_ascii_of_string s) with (bytes_of_string s) in E.
  rewrite El, rev_app_distr in E. cbn [rev app] in E. rewrite trim_run_id in E by by apply visible_width.
  cbn [rev] in E. by destruct (app_cons_not_nil (rev (rev l)) [] b).
Qed.
