(* ===== verification/GoUnicode.v ===== *)
(** * UTF-8 and case folding

    Decoding of a string into runes as Go's [range] loop and [[]rune]
    conversion do it (an invalid byte is one [RuneError]),
    [strings.EqualFold] and [strings.ToLower].  The orbits of [unicode.SimpleFold] are a table of
    the Unicode character database; the class [UnicodeFold] stands for it and
    states its ASCII part. *)

From stdpp Require Import options.
From S2P Require Import Prelude GoStrings.

Definition RuneError : Z := 0xFFFD.

Definition cont (lo hi : Z) (b : ascii) : bool := bool_decide (lo ≤ Z_of_byte b ≤ hi).

(** The first rune of a byte list and its width. *)
Definition decode_rune (bs : bytes) : Z * nat :=
  match bs with
  | [] => (RuneError, O)
  | b0 :: r =>
      let x := Z_of_byte b0 in
      let err := (RuneError, 1%nat) in
      let lo2 := if bool_decide (x = 0xE0) then 0xA0 else if bool_decide (x = 0xF0) then 0x90 else 0x80 in
      let hi2 := if bool_decide (x = 0xED) then 0x9F else if bool_decide (x = 0xF4) then 0x8F else 0xBF in
      if bool_decide (x < 0x80) then (x, 1%nat)
      else if bool_decide (0xC2 ≤ x ≤ 0xDF) then
        match r with
        | b1 :: _ => if cont 0x80 0xBF b1
                     then (Z.lor (Z.shiftl (Z.land x 0x1F) 6) (Z.land (Z_of_byte b1) 0x3F), 2%nat) else err
        | _ => err
        end
      else if bool_decide (0xE0 ≤ x ≤ 0xEF) then
        match r with
        | b1 :: b2 :: _ =>
            if cont lo2 hi2 b1 && cont 0x80 0xBF b2
            then (Z.lor (Z.shiftl (Z.land x 0x0F) 12)
                    (Z.lor (Z.shiftl (Z.land (Z_of_byte b1) 0x3F) 6) (Z.land (Z_of_byte b2) 0x3F)), 3%nat)
            else err
        | _ => err
        end
      else if bool_decide (0xF0 ≤ x ≤ 0xF4) then
        match r with
        | b1 :: b2 :: b3 :: _ =>
            if cont lo2 hi2 b1 && cont 0x80 0xBF b2 && cont 0x80 0xBF b3
            then (Z.lor (Z.shiftl (Z.land x 0x07) 18)
                    (Z.lor (Z.shiftl (Z.land (Z_of_byte b1) 0x3F) 12)
                       (Z.lor (Z.shiftl (Z.land (Z_of_byte b2) 0x3F) 6) (Z.land (Z_of_byte b3) 0x3F))), 4%nat)
            else err
        | _ => err
        end
      else err
  end.

(** The runes of a byte list; [skip] counts the bytes of the current rune
    still to be passed over. *)
Fixpoint runes_aux (skip : nat) (bs : bytes) : list Z :=
  match bs with
  | [] => []
  | _ :: r =>
      match skip with
      | S k => runes_aux k r
      | O => let '(c, w) := decode_rune bs in c :: runes_aux (w - 1) r
      end
  end.
Definition runes (s : string) : list Z := runes_aux 0 (bytes_of_string s).

(** [utf8.AppendRune]'s bytes for a valid rune. *)
Definition encode_rune (r : Z) : bytes :=
  let tail k := byte_of_Z (Z.lor 0x80 (Z.land (Z.shiftr r k) 0x3F)) in
  if bool_decide (r < 0x80) then [byte_of_Z r]
  else if bool_decide (r < 0x800) then [byte_of_Z (Z.lor 0xC0 (Z.shiftr r 6)); tail 0]
  else if bool_decide (r < 0x10000) then [byte_of_Z (Z.lor 0xE0 (Z.shiftr r 12)); tail 6; tail 0]
  else [byte_of_Z (Z.lor 0xF0 (Z.shiftr r 18)); tail 12; tail 6; tail 0].

(** ** Case folding *)

Definition ascii_lower (c : Z) : Z := if bool_decide (65 ≤ c ≤ 90) then c + 32 else c.

(** [fold] maps a rune to a representative of its [SimpleFold] orbit; two
    ASCII runes are in one orbit exactly when they are the same letter in any
    case. *)
Class UnicodeFold := {
  fold_rune : Z → Z;
  fold_ascii c d : 0 ≤ c < 128 → 0 ≤ d < 128 →
    fold_rune c = fold_rune d ↔ ascii_lower c = ascii_lower d }.

(** Folding of ASCII letters and of the two runes outside ASCII whose orbit
    meets it: the Kelvin sign and the long s. *)
Definition basic_fold (c : Z) : Z :=
  if bool_decide (c = 0x212A) then 107 else if bool_decide (c = 0x17F) then 115 else ascii_lower c.

Definition basic_unicode_fold : UnicodeFold.
Proof.
  refine {| fold_rune := basic_fold |}. intros c d Hc Hd. unfold basic_fold.
  by rewrite !bool_decide_eq_false_2 by lia.
Defined.

Definition EqualFold `{UnicodeFold} (s t : string) : bool :=
  bool_decide (fold_rune <$> runes s = fold_rune <$> runes t).

Section fold.
  Context `{UnicodeFold}.

#[export] Instance EqualFold_equiv : Equivalence (λ s t, EqualFold s t = true).
Proof.
  unfold EqualFold. split; red; intros *; rewrite !bool_decide_eq_true; congruence.
Qed.

Lemma EqualFold_empty s : EqualFold s "" = true ↔ s = "".
Proof.
  unfold EqualFold. rewrite bool_decide_eq_true. split; [|by intros ->].
  destruct s as [|a s]; [done|]. unfold runes. cbn [bytes_of_string String.list_ascii_of_string runes_aux].
  destruct (decode_rune _). done.
Qed.

End fold.

Example runes_mixed : runes (string_of_bytes (byte_of_Z <$> [0x41; 0xC3; 0xA9; 0xE2; 0x82; 0xAC; 0xF0; 0x9F; 0x98; 0x80; 0xFF; 0xC3])) =
  [0x41; 0xE9; 0x20AC; 0x1F600; RuneError; RuneError].
Proof. vm_compute. reflexivity. Qed.

(** ** Lower case *)

(** [unicode.ToLower], a table of the character database of which the class
    states the ASCII part. *)
Class UnicodeLower := {
  lower_rune : Z → Z;
  lower_ascii c : 0 ≤ c < 128 → lower_rune c = ascii_lower c }.

(** The mapping of ASCII and of the two runes outside it that map into it:
    the dotted capital I and the Kelvin sign. *)
Definition basic_lower (c : Z) : Z :=
  if bool_decide (c = 0x130) then 105 else if bool_decide (c = 0x212A) then 107 else ascii_lower c.

Definition basic_unicode_lower : UnicodeLower.
Proof.
  refine {| lower_rune := basic_lower |}. intros c Hc. unfold basic_lower.
  by rewrite !bool_decide_eq_false_2 by lia.
Defined.

(** [strings.ToLower]. *)
Definition ToLower `{UnicodeLower} (s : string) : string :=
  string_of_bytes (runes s ≫= λ r, encode_rune (lower_rune r)).

(** [utf8.ValidString]. *)
Fixpoint valid_utf8_aux (skip : nat) (bs : bytes) : bool :=
  match bs with
  | [] => true
  | b :: r =>
      match skip with
      | S k => valid_utf8_aux k r
      | O => let '(_, w) := decode_rune bs in
             (bool_decide (Z_of_byte b < 0x80) || bool_decide (w ≠ 1%nat)) && valid_utf8_aux (w - 1) r
      end
  end.
Definition ValidString (s : string) : bool := valid_utf8_aux 0 (bytes_of_string s).

(** ASCII text is valid. *)
Lemma ValidString_ascii s : Forall (λ b, Z_of_byte b < 0x80) (bytes_of_string s) → ValidString s = true.
Proof.
  unfold ValidString. induction 1 as [|b bs Hb Hbs IH]; [done|].
  cbn [valid_utf8_aux]. assert (decode_rune (b :: bs) = (Z_of_byte b, 1%nat)) as ->.
  { unfold decode_rune. by rewrite bool_decide_eq_true_2. }
  rewrite (bool_decide_eq_true_2 (Z_of_byte b < 0x80)) by done. exact IH.
Qed.
