(* ===== verification/GoQuote.v ===== *)
(** * Quoted strings

    [strconv.Unquote] on byte strings, with [strconv.UnquoteChar] and
    [utf8.AppendRune].  The function's short cut for literals without escapes
    computes the same result and is not a case of its own. *)

From stdpp Require Import options.
From S2P Require Import Prelude GoStrings GoUnicode.

(** The double quote. *)
Definition dquote : ascii := "034".
Definition squote : ascii := "'".
Definition bquote : ascii := "`".
Definition backslash : ascii := "\".
Definition carriage : ascii := "013".

Definition unhex (b : ascii) : option Z :=
  let c := Z_of_byte b in
  if bool_decide (48 ≤ c ≤ 57) then Some (c - 48)
  else if bool_decide (97 ≤ c ≤ 102) then Some (c - 87)
  else if bool_decide (65 ≤ c ≤ 70) then Some (c - 55)
  else None.

Definition unoct (b : ascii) : option Z :=
  let c := Z_of_byte b in if bool_decide (48 ≤ c ≤ 55) then Some (c - 48) else None.

(** The value of the next [n] digits of [shift] bits each, and the rest. *)
Fixpoint digits (digit : ascii → option Z) (shift : Z) (n : nat) (v : Z) (bs : bytes) : option (Z * bytes) :=
  match n with
  | O => Some (v, bs)
  | S n =>
      match bs with
      | [] => None
      | b :: bs => x ← digit b; digits digit shift n (Z.lor (Z.shiftl v shift) x) bs
      end
  end.

Definition ValidRune (r : Z) : bool := bool_decide (0 ≤ r < 0xD800 ∨ 0xDFFF < r ≤ 0x10FFFF).

(** [UnquoteChar]: the value, whether it is a rune rather than a byte, and the
    rest. *)
Definition UnquoteChar (quote : ascii) (bs : bytes) : option (Z * bool * bytes) :=
  match bs with
  | [] => None
  | b :: r =>
      if bool_decide (b = quote ∧ (quote = squote ∨ quote = dquote)) then None
      else if bool_decide (0x80 ≤ Z_of_byte b) then
        let '(rune, size) := decode_rune bs in Some (rune, true, drop size bs)
      else if bool_decide (b ≠ backslash) then Some (Z_of_byte b, false, r)
      else
        match r with
        | [] => None
        | c :: s =>
            let isc (a : ascii) := bool_decide (c = a) in
            if isc "a"%char then Some (7, false, s)
            else if isc "b"%char then Some (8, false, s)
            else if isc "f"%char then Some (12, false, s)
            else if isc "n"%char then Some (10, false, s)
            else if isc "r"%char then Some (13, false, s)
            else if isc "t"%char then Some (9, false, s)
            else if isc "v"%char then Some (11, false, s)
            else if isc "x"%char then '(v, s) ← digits unhex 4 2 0 s; Some (v, false, s)
            else if isc "u"%char then '(v, s) ← digits unhex 4 4 0 s; if ValidRune v then Some (v, true, s) else None
            else if isc "U"%char then '(v, s) ← digits unhex 4 8 0 s; if ValidRune v then Some (v, true, s) else None
            else if bool_decide (is_Some (unoct c)) then
              '(v, s) ← digits unoct 3 3 0 r; if bool_decide (255 < v) then None else Some (v, false, s)
            else if isc backslash then Some (Z_of_byte c, false, s)
            else if (isc squote || isc dquote) && bool_decide (c = quote) then Some (Z_of_byte c, false, s)
            else None
        end
  end.

(** The loop over the characters up to the closing quote: the value and what
    follows the quote.  Every character takes a byte at least. *)
Fixpoint unquote_loop (fuel : nat) (quote : ascii) (bs : bytes) : option (bytes * bytes) :=
  match fuel, bs with
  | S fuel, b :: r =>
      if bool_decide (b = quote) then Some ([], r)
      else if bool_decide (b = newline) then None
      else
        '(v, multibyte, rest) ← UnquoteChar quote bs;
        let out := if bool_decide (v < 0x80) || negb multibyte then [byte_of_Z v] else encode_rune v in
        if bool_decide (quote = squote) then
          match rest with
          | c :: rest => if bool_decide (c = quote) then Some (out, rest) else None
          | [] => None
          end
        else '(more, rest) ← unquote_loop fuel quote rest; Some (out ++ more, rest)
  | _, _ => None
  end.

(** A raw literal up to its closing quote, without carriage returns. *)
Fixpoint unquote_raw (bs : bytes) : option (bytes * bytes) :=
  match bs with
  | [] => None
  | b :: r =>
      if bool_decide (b = bquote) then Some ([], r)
      else '(more, rest) ← unquote_raw r;
           Some (if bool_decide (b = carriage) then more else b :: more, rest)
  end.

Definition Unquote (s : string) : option string :=
  match bytes_of_string s with
  | quote :: bs =>
      '(out, rest) ← (if bool_decide (quote = bquote) then unquote_raw bs
                      else if bool_decide (quote = dquote) || bool_decide (quote = squote)
                      then unquote_loop (length bs) quote bs else None);
      if bool_decide (rest = []) then Some (string_of_bytes out) else None
  | [] => None
  end.

(** ** A quoting function

    Double quotes, with escapes for quotes, backslashes and everything that is
    not printable ASCII. *)

Definition hex_digit (z : Z) : ascii := byte_of_Z (if bool_decide (z < 10) then 48 + z else 87 + z).

Definition escape (b : ascii) : bytes :=
  if bool_decide (b = dquote ∨ b = backslash) then [backslash; b]
  else if bool_decide (0x20 ≤ Z_of_byte b < 0x7F) then [b]
  else [backslash; "x"%char; hex_digit (Z_of_byte b / 16); hex_digit (Z_of_byte b `mod` 16)].

Definition escapes (v : string) : string := string_of_bytes (concat (escape <$> bytes_of_string v)).
Definition quoted (v : string) : string := str1 dquote +:+ escapes v +:+ str1 dquote.

Lemma UnquoteChar_escape b rest : UnquoteChar dquote (escape b ++ rest) = Some (Z_of_byte b, false, rest).
Proof. destruct b as [[] [] [] [] [] [] [] []]; reflexivity. Qed.

Lemma escape_start b : ∃ c r, escape b = c :: r ∧ c ≠ dquote ∧ c ≠ newline.
Proof. destruct b as [[] [] [] [] [] [] [] []]; eexists _, _; split; (reflexivity || by split). Qed.

Lemma unquote_loop_escapes vs rest fuel :
  (length (concat (escape <$> vs)) < fuel)%nat →
  unquote_loop fuel dquote (concat (escape <$> vs) ++ dquote :: rest) = Some (vs, rest).
Proof.
  revert fuel. induction vs as [|b vs IH]; intros fuel Hf.
  - destruct fuel; [simpl in Hf; lia|]. reflexivity.
  - cbn [fmap list_fmap concat] in *. destruct fuel; [lia|]. rewrite <- app_assoc.
    set (tl := concat (escape <$> vs) ++ dquote :: rest).
    pose proof (UnquoteChar_escape b tl) as HU. destruct (escape_start b) as (c & r & E & Hq & Hn).
    rewrite length_app, E in Hf. rewrite E in HU |- *. cbn [app unquote_loop] in *.
    rewrite !bool_decide_eq_false_2 by done. rewrite HU. cbn [mbind option_bind]. rewrite orb_true_r.
    unfold tl. rewrite IH by (simpl in Hf; lia).
    cbn [mbind option_bind app]. by rewrite byte_of_Z_of_byte.
Qed.

Lemma Unquote_quoted v : Unquote (quoted v) = Some v.
Proof.
  unfold Unquote, quoted, escapes. rewrite !bytes_of_app, bytes_of_string_of_bytes. cbn [bytes_of_string String.list_ascii_of_string app].
  rewrite bool_decide_eq_false_2 by done. rewrite (bool_decide_eq_true_2 (dquote = dquote)) by done. cbn [orb].
  rewrite unquote_loop_escapes by (rewrite length_app; simpl; lia). cbn [mbind option_bind].
  rewrite bool_decide_eq_true_2 by done. by rewrite string_of_bytes_of_string.
Qed.
