(* ===== verification/GoHash.v ===== *)
(** * Hash functions of the Go standard library

    hash/fnv's 64-bit FNV-1a, crypto/sha256 and encoding/hex's
    [EncodeToString], on lists of bytes, with the facts about their output
    that the components rely on.  The known-answer examples at the end pin
    the definitions to published test vectors. *)

From stdpp Require Import options.
From S2P Require Import Prelude.

(** ** hash/fnv: New64a *)

Definition fnv_offset64 : Z := 14695981039346656037.
Definition fnv_prime64 : Z := 1099511628211.

Definition fnv1a_step (h : Z) (b : ascii) : Z :=
  wrap 64 (Z.lxor h (Z_of_byte b) * fnv_prime64).
(** The hasher's state after [Write]: successive writes are one fold. *)
Definition fnv1a_write (h : Z) (bs : bytes) : Z := foldl fnv1a_step h bs.
Definition fnv1a (bs : bytes) : Z := fnv1a_write fnv_offset64 bs.

Lemma fnv1a_write_app h a b : fnv1a_write h (a ++ b) = fnv1a_write (fnv1a_write h a) b.
Proof. apply foldl_app. Qed.

Lemma fnv1a_range h bs : in_u 64 h → in_u 64 (fnv1a_write h bs).
Proof.
  revert h. induction bs as [|b bs IH]; intros h Hh; simpl; [done|].
  apply IH. unfold in_u, fnv1a_step, wrap. apply Z.mod_pos_bound. lia.
Qed.

(** [fnv.New64]: multiply first. *)
Definition fnv1 (bs : bytes) : Z := foldl (λ h b, Z.lxor (wrap 64 (h * fnv_prime64)) (Z_of_byte b)) fnv_offset64 bs.

(** ** crypto/sha256 *)

(** The round constants are the first 32 bits of the fractional parts of the
    cube roots of the first 64 primes, the initial state those of the square
    roots of the first eight. *)
Definition is_prime (n : Z) : bool := forallb (λ d, negb (n `mod` d =? 0)) (seqZ 2 (n - 2)).
Definition primes : list Z := filter (λ n, is_prime n = true) (seqZ 2 310).

(** The integer cube root of a number below 2^126, bit by bit. *)
Definition icbrt (n : Z) : Z :=
  foldl (λ r b, let r' := r + 2 ^ b in if bool_decide (r' ^ 3 ≤ n) then r' else r) 0 (rev (seqZ 0 42)).

Definition sha_K : list Z :=
  Eval vm_compute in (λ p, wrap 32 (icbrt (p * 2 ^ 96))) <$> primes.
Definition sha_init : list Z :=
  Eval vm_compute in (λ p, wrap 32 (Z.sqrt (p * 2 ^ 64))) <$> take 8 primes.

Definition add32 (a b : Z) : Z := wrap 32 (a + b).
Definition not32 (a : Z) : Z := Z.lxor a 0xffffffff.
Definition rotr32 (a n : Z) : Z := Z.lor (Z.shiftr a n) (wrap 32 (Z.shiftl a (32 - n))).

(** Big-endian words. *)
Definition put_be (n : nat) (z : Z) : bytes := rev (put_le n z).
Definition get_be (bs : bytes) : Z := get_le (rev bs).

(** Splitting into chunks of [n] elements, [fuel] bounding their number. *)
Fixpoint chunks {A} (fuel n : nat) (l : list A) : list (list A) :=
  match fuel, l with
  | O, _ | _, [] => []
  | S fuel, _ => take n l :: chunks fuel n (drop n l)
  end.

Definition sha_pad (msg : bytes) : bytes :=
  let n := length msg in
  let zeros := ((119 - n `mod` 64) `mod` 64)%nat in
  msg ++ [byte_of_Z 0x80] ++ replicate zeros (byte_of_Z 0) ++ put_be 8 (8 * Z.of_nat n).

(** The message schedule, most recent word first. *)
Fixpoint sha_schedule (n : nat) (ws : list Z) : list Z :=
  match n with
  | O => ws
  | S n =>
      let w k := nth k ws 0 in
      let s0 := Z.lxor (Z.lxor (rotr32 (w 14%nat) 7) (rotr32 (w 14%nat) 18)) (Z.shiftr (w 14%nat) 3) in
      let s1 := Z.lxor (Z.lxor (rotr32 (w 1%nat) 17) (rotr32 (w 1%nat) 19)) (Z.shiftr (w 1%nat) 10) in
      sha_schedule n (add32 (add32 (w 15%nat) s0) (add32 (w 6%nat) s1) :: ws)
  end.

Definition sha_round (st : list Z) (kw : Z * Z) : list Z :=
  match st with
  | [a; b; c; d; e; f; g; h] =>
      let S1 := Z.lxor (Z.lxor (rotr32 e 6) (rotr32 e 11)) (rotr32 e 25) in
      let ch := Z.lxor (Z.land e f) (Z.land (not32 e) g) in
      let t1 := add32 (add32 h S1) (add32 ch (add32 kw.1 kw.2)) in
      let S0 := Z.lxor (Z.lxor (rotr32 a 2) (rotr32 a 13)) (rotr32 a 22) in
      let maj := Z.lxor (Z.lxor (Z.land a b) (Z.land a c)) (Z.land b c) in
      let t2 := add32 S0 maj in
      [add32 t1 t2; a; b; c; add32 d t1; e; f; g]
  | _ => st
  end.

Definition sha_block (st : list Z) (block : bytes) : list Z :=
  let ws := get_be <$> chunks 16 4 block in
  let w := rev (sha_schedule 48 (rev ws)) in
  zip_with add32 st (foldl sha_round st (zip sha_K w)).

Definition sha256 (msg : bytes) : bytes :=
  let padded := sha_pad msg in
  let st := foldl sha_block sha_init (chunks (length padded) 64 padded) in
  concat (put_be 4 <$> st).

Lemma length_sha_round st kw : length (sha_round st kw) = length st.
Proof. by do 9 (destruct st as [|? st]; [done|]). Qed.

Lemma length_sha_block st block : length (sha_block st block) = length st.
Proof.
  unfold sha_block. rewrite length_zip_with.
  generalize (zip sha_K (rev (sha_schedule 48 (rev (get_be <$> chunks 16 4 block))))); intros kws.
  enough (∀ s, length (foldl sha_round s kws) = length s) as -> by lia.
  induction kws as [|kw kws IH]; intros s; simpl; [done|]. by rewrite IH, length_sha_round.
Qed.

Lemma length_sha256 msg : length (sha256 msg) = 32%nat.
Proof.
  unfold sha256. generalize (chunks (length (sha_pad msg)) 64 (sha_pad msg)); intros bl.
  assert (∀ s, length (foldl sha_block s bl) = length s) as Hlen.
  { induction bl as [|b bl IH]; intros s; simpl; [done|]. by rewrite IH, length_sha_block. }
  specialize (Hlen sha_init). revert Hlen. generalize (foldl sha_block sha_init bl); intros st.
  assert (length (concat (put_be 4 <$> st)) = (4 * length st)%nat) as ->; [|simpl; lia].
  induction st as [|s st IH]; [done|]. rewrite fmap_cons. cbn [concat length].
  rewrite length_app, IH. unfold put_be. rewrite length_rev, length_put_le. lia.
Qed.

(** ** encoding/hex *)

Definition hex_digit (n : Z) : ascii := byte_of_Z (if bool_decide (n < 10) then 48 + n else 87 + n).

Definition hex_encode (bs : bytes) : bytes :=
  concat ((λ b, [hex_digit (Z_of_byte b / 16); hex_digit (Z_of_byte b `mod` 16)]) <$> bs).

Definition hex_EncodeToString (bs : bytes) : string := string_of_bytes (hex_encode bs).

(** Digits and lower-case letters [a] to [f]. *)
Definition is_hex (c : ascii) : Prop :=
  48 ≤ Z_of_byte c ≤ 57 ∨ 97 ≤ Z_of_byte c ≤ 102.

Lemma hex_digit_is_hex n : 0 ≤ n < 16 → is_hex (hex_digit n).
Proof.
  intros Hn. unfold is_hex, hex_digit. case_bool_decide; rewrite Z_of_byte_of_Z, Z.mod_small; lia.
Qed.

Lemma hex_encode_is_hex bs : Forall is_hex (hex_encode bs).
Proof.
  induction bs as [|b bs IH]; [constructor|]. unfold hex_encode in *. rewrite fmap_cons. simpl.
  pose proof (Z_of_byte_range b).
  apply Forall_cons; split; [|apply Forall_cons; split; [|done]]; apply hex_digit_is_hex.
  - split; [apply Z.div_pos | apply Z.div_lt_upper_bound]; lia.
  - apply Z.mod_pos_bound; lia.
Qed.

Lemma length_hex_encode bs : length (hex_encode bs) = (2 * length bs)%nat.
Proof. induction bs as [|b bs IH]; [done|]. unfold hex_encode in *. rewrite fmap_cons. simpl. lia. Qed.

Lemma hex_digit_inj a b : 0 ≤ a < 16 → 0 ≤ b < 16 → hex_digit a = hex_digit b → a = b.
Proof.
  intros Ha Hb H. apply (f_equal Z_of_byte) in H. revert H. unfold hex_digit.
  repeat case_bool_decide; rewrite !Z_of_byte_of_Z, !Z.mod_small; lia.
Qed.

Lemma hex_encode_inj a b : hex_encode a = hex_encode b → a = b.
Proof.
  revert b. induction a as [|x a IH]; intros [|y b]; unfold hex_encode; rewrite ?fmap_cons; simpl; try done.
  intros [= H1 H2 H3]. pose proof (Z_of_byte_range x). pose proof (Z_of_byte_range y).
  f_equal; [|by apply IH].
  rewrite <- (byte_of_Z_of_byte x), <- (byte_of_Z_of_byte y). f_equal.
  apply hex_digit_inj in H1; [|split; [apply Z.div_pos | apply Z.div_lt_upper_bound]; lia..].
  apply hex_digit_inj in H2; [|apply Z.mod_pos_bound; lia..].
  rewrite (Z.div_mod (Z_of_byte x) 16), (Z.div_mod (Z_of_byte y) 16); lia.
Qed.

(** ** Known answers *)

Example fnv1a_foobar : fnv1a (bytes_of_string "foobar") = 0x85944171f73967e8.
Proof. vm_compute. reflexivity. Qed.

Example sha256_abc : hex_EncodeToString (sha256 (bytes_of_string "abc")) =
  "ba7816bf8f01cfea414140de5dae2223b00361a396177a9cb410ff61f20015ad"%string.
Proof. vm_compute. reflexivity. Qed.

Example sha256_two_blocks :
  hex_EncodeToString (sha256 (bytes_of_string "abcdbcdecdefdefgefghfghighijhijkijkljklmklmnlmnomnopnopq")) =
  "248d6a61d20638b8e5c026930c3e6039a33ce45964ff2167f6ecedd419db06c1"%string.
Proof. vm_compute. reflexivity. Qed.
