(* ===== verification/GoSort.v ===== *)
(** * Sorting and map iteration in Go

    [sort.Slice] is not stable and the order of [range] over a map is
    unspecified.  The components take the sorting routine as a class
    [GoSort] that states only what package sort documents; theorems proved
    against the class hold for every implementation, and [insertion_sort]
    shows that one exists and lets the models run. *)

From stdpp Require Import options.
From S2P Require Import Prelude.

(** What [sort.Slice] requires of [less]. *)
Record WeakOrder {A} (less : A → A → bool) : Prop := {
  less_irrefl x : less x x = false;
  less_trans x y z : less x y = true → less y z = true → less x z = true;
  less_incomp x y z : less y x = false → less z y = false → less z x = false }.

(** No element is less than an earlier one. *)
Definition sorted_by {A} (less : A → A → bool) : list A → Prop :=
  StronglySorted (λ x y, less y x = false).

Class GoSort := {
  sort_slice {A} (less : A → A → bool) (l : list A) : list A;
  sort_slice_perm {A} (less : A → A → bool) (l : list A) : sort_slice less l ≡ₚ l;
  sort_slice_sorted {A} (less : A → A → bool) (l : list A) :
    WeakOrder less → sorted_by less (sort_slice less l) }.

(** ** An implementation *)

Fixpoint insert_by {A} (less : A → A → bool) (x : A) (l : list A) : list A :=
  match l with
  | [] => [x]
  | y :: l => if less x y then x :: y :: l else y :: insert_by less x l
  end.

Definition insertion_sort {A} (less : A → A → bool) (l : list A) : list A :=
  foldr (insert_by less) [] l.

Lemma insert_by_perm {A} (less : A → A → bool) x l : insert_by less x l ≡ₚ x :: l.
Proof. induction l as [|y l IH]; simpl; [done|]. destruct (less x y); [done|]. rewrite IH. constructor. Qed.

Lemma insertion_sort_perm {A} (less : A → A → bool) l : insertion_sort less l ≡ₚ l.
Proof. induction l as [|x l IH]; simpl; [done|]. by rewrite insert_by_perm, IH. Qed.

Lemma insert_by_sorted {A} (less : A → A → bool) x l :
  WeakOrder less → sorted_by less l → sorted_by less (insert_by less x l).
Proof.
  intros Hw Hl. induction Hl as [|y l Hl IH Hy]; simpl; [by repeat constructor|].
  destruct (less x y) eqn:Hxy.
  - assert (less y x = false) as Hyx.
    { destruct (less y x) eqn:E; [|done].
      by rewrite <- (less_irrefl less Hw x), (less_trans less Hw x y x). }
    repeat constructor; [done..|]. eapply Forall_impl; [done|].
    intros z Hz. by apply (less_incomp less Hw x y z).
  - constructor; [done|]. by rewrite insert_by_perm, Forall_cons.
Qed.

Lemma insertion_sort_sorted {A} (less : A → A → bool) l :
  WeakOrder less → sorted_by less (insertion_sort less l).
Proof.
  intros Hw. induction l as [|x l IH]; simpl; [constructor | by apply insert_by_sorted].
Qed.

Definition go_insertion_sort : GoSort := {|
  sort_slice := @insertion_sort;
  sort_slice_perm := @insertion_sort_perm;
  sort_slice_sorted := @insertion_sort_sorted |}.

(** ** Facts for every sorting routine *)

Section facts.
  Context `{GoSort} {A : Type}.
  Implicit Types (less : A → A → bool) (l : list A).

Lemma elem_of_sort_slice less l x : x ∈ sort_slice less l ↔ x ∈ l.
Proof. by rewrite sort_slice_perm. Qed.

Lemma length_sort_slice less l : length (sort_slice less l) = length l.
Proof. apply Permutation_length, sort_slice_perm. Qed.

(** When [less] separates distinct elements of the list the result does not
    depend on the routine. *)
Lemma sorted_by_unique less l1 l2 :
  WeakOrder less →
  (∀ x y, x ∈ l1 → y ∈ l1 → less x y = false → less y x = false → x = y) →
  sorted_by less l1 → sorted_by less l2 → l1 ≡ₚ l2 → l1 = l2.
Proof.
  intros Hw Hsep Hs1. revert l2.
  induction Hs1 as [|x l1 Hs1 IH Hx]; intros l2 Hs2 Hp.
  - by apply Permutation_nil_l in Hp.
  - destruct Hs2 as [|y l2 Hs2 Hy]; [by apply Permutation_sym, Permutation_nil_cons in Hp|].
    assert (x = y) as ->.
    { assert (y ∈ x :: l1) as Hyin by (rewrite Hp; by left).
      assert (x ∈ y :: l2) as Hxin by (rewrite <- Hp; by left).
      apply Hsep; [by left | done | |].
      - apply elem_of_cons in Hxin as [->|Hxin]; [by apply less_irrefl|].
        rewrite Forall_forall in Hy. by apply Hy.
      - apply elem_of_cons in Hyin as [->|Hyin]; [by apply less_irrefl|].
        rewrite Forall_forall in Hx. by apply Hx. }
    f_equal. apply IH; [|done|by apply Permutation_cons_inv in Hp].
    intros; apply Hsep; try done; by right.
Qed.

End facts.

(** A [less] that compares a key in [Z] or in byte order is a weak order. *)
Lemma WeakOrder_Z {A} (f : A → Z) : WeakOrder (λ x y, bool_decide (f x < f y)).
Proof.
  split; intros *; rewrite ?bool_decide_eq_true, ?bool_decide_eq_false; lia.
Qed.

Lemma WeakOrder_flip {A} (less : A → A → bool) : WeakOrder less → WeakOrder (flip less).
Proof.
  intros [Hi Ht Hn]. split; unfold flip; [done | intros x y z H1 H2; by apply (Ht z y x) |].
  intros x y z H1 H2. by apply (Hn z y x).
Qed.

Definition str_lt (a b : string) : bool := bool_decide (String.le a b ∧ a ≠ b).

Lemma WeakOrder_str {A} (f : A → string) : WeakOrder (λ x y, str_lt (f x) (f y)).
Proof.
  unfold str_lt. split; intros *; rewrite ?bool_decide_eq_true, ?bool_decide_eq_false.
  - by intros [_ ?].
  - intros [H1 N1] [H2 N2]. split; [by etrans|]. intros E. rewrite <- E in H2.
    apply N1. by apply (anti_symm String.le).
  - intros H1 H2 [H3 H4]. destruct (total String.le (f x) (f y)) as [Hxy|Hyx].
    + destruct (decide (f z = f y)) as [E|E].
      * rewrite E in H3, H4. apply H1. by split.
      * apply H2. split; [by etrans | done].
    + destruct (decide (f y = f x)) as [E|E]; [|by apply H1].
      rewrite E in H2. by apply H2.
Qed.

(** ** [sort.SliceStable]

    The stable order is unique; merging takes the earlier of two equal
    elements first. *)

Definition sort_stable {A} (less : A → A → bool) (l : list A) : list A := merge_sort (λ x y, Is_true (negb (less y x))) l.

Lemma sort_stable_perm {A} (less : A → A → bool) (l : list A) : sort_stable less l ≡ₚ l.
Proof. apply merge_sort_Permutation. Qed.
