(* ===== verification/GoHeap.v ===== *)
(** * Package container/heap

    [Push], [Pop] and [Fix] on a slice, with the loops [up] and [down] of the
    package.  The first element of a heap is a least one; the operations keep
    the heap and add, remove or replace one element. *)

From stdpp Require Import options.
From Stdlib Require Import ZifyNat.
From S2P Require Import Prelude GoSort.

#[local] Ltac Zify.zify_post_hook ::= Z.to_euclidean_division_equations.

Section heap.
  Context {A : Type} `{!Inhabited A} (less : A → A → bool).

Definition parent (j : nat) : nat := (j - 1) / 2.

Definition Swap (i j : nat) (h : list A) : list A := <[i := h !!! j]> (<[j := h !!! i]> h).

(** [up(h, j)]: [j] decreases. *)
Fixpoint up (fuel j : nat) (h : list A) : list A :=
  match fuel with
  | O => h
  | S fuel =>
      let i := parent j in
      if bool_decide (i = j) || negb (less (h !!! j) (h !!! i)) then h
      else up fuel i (Swap i j h)
  end.

(** The lesser child of [i] among the first [n] elements. *)
Definition lesser_child (i n : nat) (h : list A) : option nat :=
  let j1 := (2 * i + 1)%nat in
  if bool_decide (n ≤ j1)%nat then None
  else if bool_decide (j1 + 1 < n)%nat && less (h !!! (j1 + 1)%nat) (h !!! j1) then Some (j1 + 1)%nat else Some j1.

(** [down(h, i, n)]: the slice and the index the element came to; [i]
    increases and stays below [n]. *)
Fixpoint down (fuel i n : nat) (h : list A) : list A * nat :=
  match fuel with
  | O => (h, i)
  | S fuel =>
      match lesser_child i n h with
      | None => (h, i)
      | Some j => if negb (less (h !!! j) (h !!! i)) then (h, i) else down fuel j n (Swap i j h)
      end
  end.

Definition heap_Push (x : A) (h : list A) : list A := up (S (length h)) (length h) (h ++ [x]).

(** [None] where [Pop] panics on an empty heap. *)
Definition heap_Pop (h : list A) : option (A * list A) :=
  match length h with
  | O => None
  | S n => let h := (down (S n) 0 n (Swap 0 n h)).1 in Some (h !!! n, take n h)
  end.

Definition heap_Fix (i : nat) (h : list A) : list A :=
  let '(h', k) := down (length h) i (length h) h in
  if bool_decide (i < k)%nat then h' else up (S i) i h'.

(** ** Invariant *)

(** No element is less than its parent, among the first [n]. *)
Definition is_heap (n : nat) (h : list A) : Prop :=
  ∀ k, (0 < k < n)%nat → less (h !!! k) (h !!! parent k) = false.

Context (Hw : WeakOrder less).

Lemma less_asym x y : less x y = true → less y x = false.
Proof using Hw.
  intros Hxy. destruct (less y x) eqn:E; [|done]. pose proof (less_trans _ Hw x y x Hxy E). by rewrite less_irrefl in H.
Qed.

Lemma le_trans x y z : less y x = false → less z y = false → less z x = false.
Proof using Hw. apply (less_incomp _ Hw). Qed.

Lemma length_Swap i j h : length (Swap i j h) = length h.
Proof. unfold Swap. by rewrite !length_insert. Qed.

Lemma Swap_lookup i j k h : (i < length h)%nat → (j < length h)%nat →
  Swap i j h !!! k = if decide (k = i) then h !!! j else if decide (k = j) then h !!! i else h !!! k.
Proof.
  intros Hi Hj. unfold Swap. destruct (decide (k = i)) as [->|Hki].
  - apply list_lookup_total_insert_eq. by rewrite length_insert.
  - rewrite list_lookup_total_insert_ne by done. destruct (decide (k = j)) as [->|Hkj].
    + by apply list_lookup_total_insert_eq.
    + by apply list_lookup_total_insert_ne.
Qed.

Lemma Swap_perm i j h : (i < length h)%nat → (j < length h)%nat → Swap i j h ≡ₚ h.
Proof.
  intros Hi Hj. unfold Swap. destruct (decide (i = j)) as [->|Hne].
  - rewrite list_insert_insert_eq. by rewrite list_insert_id by by apply list_lookup_lookup_total_lt.
  - by apply Permutation_insert_swap; try apply list_lookup_lookup_total_lt.
Qed.

(** ** [up] *)

(** A heap except that the element at [j] may be less than its ancestors. *)
Definition rising (j : nat) (h : list A) : Prop :=
  (∀ k, (0 < k < length h)%nat → k ≠ j → less (h !!! k) (h !!! parent k) = false) ∧
  (∀ k, (0 < k < length h)%nat → parent k = j → (0 < j)%nat → less (h !!! k) (h !!! parent j) = false).

Lemma rising_step j h :
  rising j h → (0 < j < length h)%nat → less (h !!! j) (h !!! parent j) = true → rising (parent j) (Swap (parent j) j h).
Proof using Hw.
  intros [Ha Hb] Hj Hlt. set (i := parent j). assert (i < j)%nat as Hij by (unfold i, parent; lia).
  assert (∀ k, (0 < k < length h)%nat → parent k = i → less (h !!! k) (h !!! i) = false ∨ k = j) as Hi.
  { intros k Hk E. destruct (decide (k = j)); [by right|]. left. rewrite <- E. by apply Ha. }
  unfold rising. rewrite length_Swap. split; intros k Hk.
  - intros Hki. rewrite !Swap_lookup by lia. rewrite (decide_False (P := k = i)) by done.
    assert (parent k < k)%nat by (unfold parent; lia).
    destruct (decide (k = j)) as [->|Hkj].
    + fold i. rewrite decide_True by done. by apply less_asym.
    + destruct (decide (parent k = i)) as [E|E].
      * destruct (Hi k Hk E) as [?|?]; [|done]. by eapply le_trans; [apply less_asym, Hlt|].
      * destruct (decide (parent k = j)) as [E'|E']; [|by apply Ha]. apply Hb; [done..|lia].
  - intros Hki Hi0. assert (parent i < i)%nat by (unfold parent; lia).
    assert (less (h !!! i) (h !!! parent i) = false) as Hii by (apply Ha; lia).
    rewrite !Swap_lookup by lia. rewrite (decide_False (P := parent i = i)), (decide_False (P := parent i = j)) by lia.
    rewrite (decide_False (P := k = i)) by (unfold parent in *; lia). destruct (decide (k = j)) as [->|Hkj]; [done|].
    destruct (Hi k Hk Hki) as [?|?]; [|done]. by eapply le_trans.
Qed.

Lemma up_spec fuel j h :
  (j < fuel)%nat → (j < length h)%nat → rising j h → is_heap (length h) (up fuel j h) ∧ up fuel j h ≡ₚ h.
Proof using Hw.
  revert j h. induction fuel as [|fuel IH]; intros j h Hf Hj Hr; [lia|]. cbn [up].
  destruct (_ || _) eqn:E.
  - split; [|done]. intros k Hk. destruct (decide (k = j)) as [->|]; [|by apply Hr].
    apply orb_true_iff in E as [E|E]; bool_hyps; [unfold parent in E; lia|done].
  - apply orb_false_iff in E as [E1 E2]. bool_hyps. assert (0 < j)%nat by (unfold parent in E1; destruct j; [done|lia]).
    assert (parent j < j)%nat by (unfold parent; lia).
    destruct (IH (parent j) (Swap (parent j) j h)) as [H1 H2]; [lia|rewrite length_Swap; lia|by apply rising_step|].
    rewrite length_Swap in H1. split; [done|]. by rewrite H2, Swap_perm by lia.
Qed.

(** ** [down] *)

(** A heap among the first [n] except that the element at [i] may be greater
    than its descendants. *)
Definition sinking (i n : nat) (h : list A) : Prop :=
  (∀ k, (0 < k < n)%nat → parent k ≠ i → less (h !!! k) (h !!! parent k) = false) ∧
  (∀ k, (0 < k < n)%nat → parent k = i → (0 < i)%nat → less (h !!! k) (h !!! parent i) = false).

Lemma lesser_child_spec i n h j :
  lesser_child i n h = Some j →
  (i < j < n)%nat ∧ parent j = i ∧ ∀ k, (0 < k < n)%nat → parent k = i → less (h !!! k) (h !!! j) = false.
Proof using Hw.
  unfold lesser_child. case_bool_decide; [done|].
  assert (∀ k, (0 < k)%nat → parent k = i → k = (2 * i + 1)%nat ∨ k = (2 * i + 1 + 1)%nat) as Hk by (unfold parent; lia).
  destruct (_ && _) eqn:E; intros [= <-].
  - bool_hyps. split_and!; [lia..|unfold parent; lia|]. intros k Hk' [->| ->]%Hk; [|by apply less_irrefl|lia]. by apply less_asym.
  - split_and!; [lia..|unfold parent; lia|]. intros k Hk' [->| ->]%Hk; [by apply less_irrefl| |lia].
    apply andb_false_iff in E as [E|E]; [bool_hyps; lia|done].
Qed.

Lemma lesser_child_None i n h k : lesser_child i n h = None → (0 < k < n)%nat → parent k ≠ i.
Proof.
  unfold lesser_child. case_bool_decide; [intros _; unfold parent; lia|]. destruct (_ && _); done.
Qed.

Lemma sinking_step i n j h :
  sinking i n h → (n ≤ length h)%nat → lesser_child i n h = Some j → less (h !!! j) (h !!! i) = true → sinking j n (Swap i j h).
Proof using Hw.
  intros [Ha Hb] Hn (Hij & Hp & Hmin)%lesser_child_spec Hlt. split; intros k Hk.
  - intros Hkj. rewrite !Swap_lookup by lia. assert (parent k < k)%nat by (unfold parent; lia).
    destruct (decide (k = i)) as [->|Hki].
    + rewrite (decide_False (P := parent i = i)), (decide_False (P := parent i = j)) by lia. apply Hb; [lia|done|lia].
    + destruct (decide (parent k = i)) as [E|E].
      * destruct (decide (k = j)) as [->|]; [by apply less_asym|]. by apply Hmin.
      * rewrite (decide_False (P := parent k = j)) by done. destruct (decide (k = j)) as [->|]; [done|]. by apply Ha.
  - intros E _. rewrite !Swap_lookup by lia. rewrite Hp, (decide_True (P := i = i)) by done.
    assert (parent k < k)%nat by (unfold parent; lia).
    rewrite (decide_False (P := k = i)), (decide_False (P := k = j)) by lia. rewrite <- E. apply Ha; [done|]. lia.
Qed.

Lemma down_spec fuel i n h :
  (n ≤ i + fuel)%nat → (n ≤ length h)%nat → sinking i n h →
  is_heap n (down fuel i n h).1 ∧ (down fuel i n h).1 ≡ₚ h ∧ (∀ k, (n ≤ k)%nat → (down fuel i n h).1 !!! k = h !!! k) ∧
  (i ≤ (down fuel i n h).2)%nat ∧ ((down fuel i n h).2 = i → (down fuel i n h).1 = h).
Proof using Hw.
  revert i h. induction fuel as [|fuel IH]; intros i h Hf Hn Hs; cbn [down].
  - split_and!; [|done..]. intros k Hk. apply Hs; [done|]. unfold parent; lia.
  - destruct (lesser_child i n h) as [j|] eqn:E.
    + destruct (negb _) eqn:El; bool_hyps.
      * split_and!; [|done..]. intros k Hk. destruct (decide (parent k = i)) as [Ei|]; [|by apply Hs].
        rewrite Ei. apply lesser_child_spec in E as (_ & _ & Hmin). by eapply le_trans; [|apply Hmin].
      * pose proof (sinking_step _ _ _ _ Hs Hn E El) as Hs'. apply lesser_child_spec in E as (Hij & _).
        destruct (IH j (Swap i j h)) as (H1 & H2 & H3 & H4 & _); [lia|by rewrite length_Swap|done|].
        split_and!; [done| |intros k Hk; rewrite H3 by done|lia|lia].
        -- by rewrite H2, Swap_perm by lia.
        -- rewrite Swap_lookup by lia. by rewrite !decide_False by lia.
    + split_and!; [|done..]. intros k Hk. apply Hs; [done|]. by eapply lesser_child_None.
Qed.

(** ** The operations *)

Lemma heap_root n h k : is_heap n h → (k < n)%nat → less (h !!! k) (h !!! 0%nat) = false.
Proof using Hw.
  intros Hh. induction k as [k IH] using (well_founded_induction lt_wf). intros Hk.
  destruct (decide (k = O)) as [->|]; [by apply less_irrefl|].
  eapply le_trans; [apply (IH (parent k)); unfold parent; lia|]. apply Hh. lia.
Qed.

(** The first element of a heap is a least one. *)
Lemma heap_head x h y : is_heap (length (x :: h)) (x :: h) → y ∈ x :: h → less y x = false.
Proof using Hw.
  intros Hh [k Hk]%list_elem_of_lookup_1. pose proof (lookup_lt_Some _ _ _ Hk).
  pose proof (heap_root _ _ k Hh ltac:(done)) as Hr. apply list_lookup_total_correct in Hk. by rewrite Hk in Hr.
Qed.

Lemma heap_Push_spec x h :
  is_heap (length h) h → is_heap (length (heap_Push x h)) (heap_Push x h) ∧ heap_Push x h ≡ₚ x :: h.
Proof using Hw.
  intros Hh. unfold heap_Push. assert (length (h ++ [x]) = S (length h)) as El by (rewrite length_app; simpl; lia).
  destruct (up_spec (S (length h)) (length h) (h ++ [x])) as [H1 H2]; [lia..| |].
  - split; intros k Hk; rewrite El in Hk.
    + intros Hkl. assert (parent k < k)%nat by (unfold parent; lia).
      rewrite !lookup_total_app_l by lia. apply Hh. lia.
    + unfold parent. lia.
  - rewrite El in H1. split; [by rewrite (Permutation_length H2), El|]. rewrite H2. by rewrite Permutation_app_comm.
Qed.

Lemma heap_Pop_spec h :
  is_heap (length h) h → h ≠ [] →
  ∃ x h', heap_Pop h = Some (x, h') ∧ h ≡ₚ x :: h' ∧ is_heap (length h') h' ∧ head h = Some x.
Proof using Hw.
  intros Hh Hne. unfold heap_Pop. destruct (length h) as [|n] eqn:El; [by destruct h|].
  destruct (down_spec (S n) 0 n (Swap 0 n h)) as (H1 & H2 & H3 & _); [lia|by rewrite length_Swap, El; lia| |].
  - split; intros k Hk; [|lia]. intros Hp. assert (parent k < k)%nat by (unfold parent; lia).
    rewrite !Swap_lookup by lia. rewrite !decide_False by lia. apply Hh. lia.
  - set (h1 := (down (S n) 0 n (Swap 0 n h)).1) in *.
    assert (length h1 = S n) as El1 by (rewrite (Permutation_length H2), length_Swap; done).
    assert (h1 !!! n = h !!! 0%nat) as Er.
    { rewrite H3 by done. rewrite Swap_lookup by lia. destruct (decide (n = O)) as [->|]; [done|]. by rewrite decide_True. }
    eexists _, _. split; [done|].
    assert (h1 = take n h1 ++ [h1 !!! n]) as E.
    { rewrite <- (take_drop n h1) at 1. f_equal. rewrite (drop_S h1 (h1 !!! n)) by (apply list_lookup_lookup_total_lt; lia).
      by rewrite drop_ge by lia. }
    split_and!.
    + rewrite <- (Swap_perm 0 n h), <- H2 by lia. rewrite E at 1. by rewrite Permutation_app_comm.
    + rewrite length_take, El1. intros k Hk. assert (parent k < k)%nat by (unfold parent; lia).
      rewrite !lookup_total_take, !decide_True by lia. apply H1. lia.
    + rewrite Er. by destruct h.
Qed.

(** [Fix(h, 0)] after the first element was replaced. *)
Lemma heap_Fix_spec x y h :
  is_heap (length (y :: h)) (y :: h) →
  is_heap (length (heap_Fix 0 (x :: h))) (heap_Fix 0 (x :: h)) ∧ heap_Fix 0 (x :: h) ≡ₚ x :: h.
Proof using Hw.
  intros Hh. unfold heap_Fix. destruct (down_spec (length (x :: h)) 0 (length (x :: h)) (x :: h)) as (H1 & H2 & _); [lia..| |].
  - split; intros k Hk; [|lia]. intros Hp. destruct k as [|k]; [lia|]. destruct (parent (S k)) as [|p] eqn:Ep; [done|].
    pose proof (Hh (S k) Hk) as Hl. by rewrite Ep in Hl.
  - destruct (down _ _ _ _) as [h1 k]. cbn [fst] in *. case_bool_decide.
    + by rewrite (Permutation_length H2).
    + cbn [up parent]. change (parent 0) with O. rewrite bool_decide_eq_true_2 by done. cbn [orb]. by rewrite (Permutation_length H2).
Qed.

End heap.
