(* ===== verification/GoRange.v ===== *)
(** * Iteration over maps

    [for k, v := range m] visits every entry of [m] once, in an order the
    language leaves open and which may differ from one loop to the next.  The
    models of loops over maps are written against the class [GoRange]; its
    argument [n] tells the loops of one program apart. *)

From stdpp Require Import options.
From S2P Require Import Prelude.

Class GoRange := {
  range : nat → ∀ A, gmap string A → list (string * A);
  range_perm n A (m : gmap string A) : range n A m ≡ₚ map_to_list m }.
Arguments range {_} n {A} m.

(** The order of [map_to_list]. *)
Definition go_map_to_list : GoRange :=
  {| range _ A m := map_to_list m; range_perm _ _ _ := Permutation_refl _ |}.

Section range.
  Context `{GoRange}.

Lemma elem_of_range n {A} (m : gmap string A) k v : (k, v) ∈ range n m ↔ m !! k = Some v.
Proof. rewrite range_perm. apply elem_of_map_to_list. Qed.

Lemma elem_of_range_keys n {A} (m : gmap string A) k : k ∈ (range n m).*1 ↔ is_Some (m !! k).
Proof.
  rewrite list_elem_of_fmap. split.
  - intros ([k' v] & -> & Hkv). exists v. by apply elem_of_range in Hkv.
  - intros [v Hv]. exists (k, v). split; [done|]. by apply elem_of_range.
Qed.

Lemma NoDup_range_keys n {A} (m : gmap string A) : NoDup (range n m).*1.
Proof. rewrite range_perm. apply NoDup_fst_map_to_list. Qed.

Lemma length_range n {A} (m : gmap string A) : length (range n m) = size m.
Proof. rewrite range_perm. apply length_map_to_list. Qed.

End range.
