(* ===== verification/GoFiles.v ===== *)
(** * Files

    The part of package os the stores use.  A [disk] maps paths to contents.
    A call that may fail takes its outcome as an argument, so that theorems
    quantify over every pattern of failures; a failed [WriteFile] may leave
    the file as it was or with any content. *)

From stdpp Require Import options.
From S2P Require Import Prelude.

Abbreviation disk := (gmap string string).

Inductive outcome : Type :=
| Done
| Failed (left_behind : option string).

Definition WriteFile (o : outcome) (path data : string) (d : disk) : disk * bool :=
  match o with
  | Done => (<[path := data]> d, true)
  | Failed None => (d, false)
  | Failed (Some c) => (<[path := c]> d, false)
  end.

(** [os.Rename]: atomic; fails when [ok] says so or when the source is missing. *)
Definition Rename (ok : bool) (src dst : string) (d : disk) : disk * bool :=
  match ok, d !! src with
  | true, Some c => (<[dst := c]> (delete src d), true)
  | _, _ => (d, false)
  end.

(** The outcomes of writing a file through a temporary one and renaming it. *)
Record save_io := mkSaveIo { io_write : outcome; io_rename : bool }.

(** Both calls in order, stopping at the first failure. *)
Definition replace_file (io : save_io) (tmp path data : string) (d : disk) : disk * bool * bool :=
  let '(d, wok) := WriteFile (io_write io) tmp data d in
  if wok then let '(d, rok) := Rename (io_rename io) tmp path d in (d, true, rok)
  else (d, false, false).

(** The target holds the new data when both calls succeeded, and what it held
    before in every other case. *)
Lemma replace_file_spec io tmp path data d d' wok rok :
  tmp ≠ path → replace_file io tmp path data d = (d', wok, rok) →
  d' !! path = (if wok && rok then Some data else d !! path) ∧
  ∀ p, p ≠ tmp → p ≠ path → d' !! p = d !! p.
Proof.
  intros Hne. unfold replace_file, WriteFile, Rename.
  destruct (io_write io) as [|[c|]].
  - rewrite lookup_insert_eq. destruct (io_rename io); intros [= <- <- <-]; simpl.
    + split; [by rewrite lookup_insert_eq|]. intros p Hp Hp'.
      by rewrite lookup_insert_ne, lookup_delete_ne, lookup_insert_ne by congruence.
    + split; [by rewrite lookup_insert_ne | intros; by rewrite lookup_insert_ne by congruence].
  - intros [= <- <- <-]; simpl.
    split; [by rewrite lookup_insert_ne | intros; by rewrite lookup_insert_ne by congruence].
  - by intros [= <- <- <-].
Qed.

(** ** A serialiser for any countable type

    Marshalling is a parameter of the models; this instance shows that the
    round trips they assume can hold, and lets them run on examples. *)

Fixpoint bits (p : positive) : string :=
  match p with
  | xH => ""
  | xO p => String "0" (bits p)
  | xI p => String "1" (bits p)
  end.

Fixpoint unbits (s : string) : positive :=
  match s with
  | "" => xH
  | String a s => if bool_decide (a = "1"%char) then xI (unbits s) else xO (unbits s)
  end.

Lemma unbits_bits p : unbits (bits p) = p.
Proof. induction p as [p IH|p IH|]; simpl; by rewrite ?IH. Qed.

Definition marshal_any `{Countable A} (a : A) : string := bits (encode a).
Definition unmarshal_any `{Countable A} (s : string) : option A := decode (unbits s).

Lemma unmarshal_marshal `{Countable A} (a : A) : unmarshal_any (marshal_any a) = Some a.
Proof. unfold unmarshal_any, marshal_any. by rewrite unbits_bits, decode_encode. Qed.
