(* ===== verification/GoFmt.v ===== *)
(** * Decimal numbers

    [fmt.Sprintf] with ["%d"] and ["%0wd"], and [strconv.ParseUint] in base
    10 for 64 bits, with the round trip between them. *)

From stdpp Require Import options.
From S2P Require Import Prelude GoStrings.

Definition digit (d : Z) : ascii := byte_of_Z (48 + d).

Fixpoint dec_aux (fuel : nat) (n : Z) (acc : string) : string :=
  match fuel with
  | O => acc
  | S fuel =>
      let acc := String (digit (n `mod` 10)) acc in
      if bool_decide (n < 10) then acc else dec_aux fuel (n / 10) acc
  end.

(** ["%d"] of a non-negative number: it has at most [log2 n + 1] digits. *)
Definition dec (n : Z) : string := dec_aux (S (Z.to_nat (Z.log2 n))) n "".

Fixpoint zeros (k : nat) : string := match k with O => "" | S k => String "0" (zeros k) end.

(** ["%0wd"]. *)
Definition dec_pad (w : nat) (n : Z) : string := zeros (w - String.length (dec n)) +:+ dec n.

Fixpoint parse_digits (acc : Z) (s : string) : option Z :=
  match s with
  | "" => Some acc
  | String a s =>
      let d := Z_of_byte a - 48 in
      if bool_decide (0 ≤ d ≤ 9) then parse_digits (acc * 10 + d) s else None
  end.

(** [strconv.ParseUint(s, 10, 64)]; the accumulated value only grows, so that
    checking the range at the end is checking it at every step. *)
Definition ParseUint (s : string) : option Z :=
  match s with
  | "" => None
  | _ => match parse_digits 0 s with
         | Some n => if bool_decide (n < 2 ^ 64) then Some n else None
         | None => None
         end
  end.

(** [strconv.ParseInt(s, 10, 64)]: an optional sign in front. *)
Definition ParseInt (s : string) : option Z :=
  let '(neg, ds) := match s with
                    | String "+" s => (false, s)
                    | String "-" s => (true, s)
                    | _ => (false, s)
                    end in
  match ds with
  | "" => None
  | _ => n ← parse_digits 0 ds;
         let z := if neg then - n else n in
         if bool_decide (-2 ^ 63 ≤ z < 2 ^ 63) then Some z else None
  end.

Lemma parse_digit acc d s :
  0 ≤ d ≤ 9 → parse_digits acc (String (digit d) s) = parse_digits (acc * 10 + d) s.
Proof.
  intros Hd. cbn [parse_digits]. unfold digit. rewrite Z_of_byte_of_Z, Z.mod_small by lia.
  replace (48 + d - 48) with d by lia. by rewrite bool_decide_eq_true_2.
Qed.

Lemma parse_dec_aux fuel n acc :
  0 ≤ n < 2 ^ Z.of_nat fuel → parse_digits 0 (dec_aux fuel n acc) = parse_digits n acc.
Proof.
  revert n acc. induction fuel as [|fuel IH]; intros n acc Hn.
  - simpl. change (2 ^ Z.of_nat 0) with 1 in Hn. by replace n with 0 by lia.
  - cbn [dec_aux]. pose proof (Z.mod_pos_bound n 10). case_bool_decide.
    + rewrite parse_digit by lia. rewrite Z.mod_small by lia. done.
    + rewrite Nat2Z.inj_succ, Z.pow_succ_r in Hn by lia.
      rewrite IH, parse_digit by (try split; try apply Z.div_pos; try apply Z.div_lt_upper_bound; lia).
      f_equal. rewrite (Z.div_mod n 10) at 3 by lia. lia.
Qed.

Lemma parse_dec n : 0 ≤ n → parse_digits 0 (dec n) = Some n.
Proof.
  intros Hn. unfold dec. rewrite parse_dec_aux; [done|].
  rewrite Nat2Z.inj_succ, Z2Nat.id by apply Z.log2_nonneg.
  destruct (decide (n = 0)) as [->|]; [done|]. split; [done|]. apply Z.log2_spec. lia.
Qed.

Lemma parse_zeros k s : parse_digits 0 (zeros k +:+ s) = parse_digits 0 s.
Proof.
  induction k as [|k IH]; [done|]. cbn [zeros]. change (String "0" (zeros k) +:+ s) with (String (digit 0) (zeros k +:+ s)).
  rewrite parse_digit by lia. exact IH.
Qed.

Lemma dec_aux_ne f n a acc : dec_aux f n (String a acc) ≠ "".
Proof.
  revert n a acc. induction f as [|f IH]; intros n a acc; cbn [dec_aux]; [done|].
  case_bool_decide; [done|apply IH].
Qed.

Lemma dec_ne n : dec n ≠ "".
Proof. unfold dec. cbn [dec_aux]. case_bool_decide; [done|apply dec_aux_ne]. Qed.

Lemma ParseUint_dec_pad w n : 0 ≤ n < 2 ^ 64 → ParseUint (dec_pad w n) = Some n.
Proof.
  intros Hn. unfold ParseUint, dec_pad. rewrite parse_zeros, parse_dec by lia.
  rewrite bool_decide_eq_true_2 by lia.
  destruct (zeros _ +:+ dec n) eqn:E; [|done].
  apply str_app_empty in E as [_ E]. by apply dec_ne in E.
Qed.

Lemma dec_pad_inj w n m : 0 ≤ n → 0 ≤ m → dec_pad w n = dec_pad w m → n = m.
Proof.
  intros Hn Hm E. apply (f_equal (parse_digits 0)) in E. unfold dec_pad in E.
  rewrite !parse_zeros, !parse_dec in E by done. congruence.
Qed.

Lemma dec_aux_ascii fuel n acc :
  Forall (λ b, Z_of_byte b < 128) (bytes_of_string acc) → Forall (λ b, Z_of_byte b < 128) (bytes_of_string (dec_aux fuel n acc)).
Proof.
  revert n acc. induction fuel as [|fuel IH]; intros n acc Hacc; [done|]. cbn [dec_aux].
  assert (Forall (λ b, Z_of_byte b < 128) (bytes_of_string (String (digit (n `mod` 10)) acc))) as Hd.
  { constructor; [|done]. unfold digit. rewrite Z_of_byte_of_Z. pose proof (Z.mod_pos_bound n 10). rewrite Z.mod_small; lia. }
  case_bool_decide; [done|]. by apply IH.
Qed.

Lemma dec_pad_ascii w n : Forall (λ b, Z_of_byte b < 128) (bytes_of_string (dec_pad w n)).
Proof.
  unfold dec_pad. rewrite bytes_of_app. apply Forall_app. split; [|by apply dec_aux_ascii].
  generalize (w - String.length (dec n))%nat. intros k. induction k; [done|]. by constructor.
Qed.
