(* ===== verification/NativeProto.v ===== *)
(** * The native mount protocol

    Model of internal/nativeproto/protocol.go: the 52-byte frame header,
    [ReadFrame]/[WriteFrame] over a byte stream, the [encoder]/[decoder]
    primitives, and one encode/decode pair per message of the protocol the
    kernel client speaks to the router.

    A buffer is a [bytes]; the bytes an encoder method appends are the value
    of the corresponding [enc_*] function.  A decoder is the pair of its data
    and its offset, as in the source, and every slice expression of the source
    goes through [slice], which yields [Panic] where Go would panic, so that
    the absence of panics is a theorem and not a modelling choice. *)

From stdpp Require Import options.
From S2P Require Import Prelude.


Abbreviation FrameMagic := 0x53464e4d (only parsing).
Abbreviation Version1 := 1 (only parsing).
Abbreviation HeaderSize := 52 (only parsing).
Abbreviation MaxFrameBytes := (Z.shiftl 1 20) (only parsing).

Definition ObjectIDLen : nat := 16.
Abbreviation ObjectID := bytes.
Definition zeroObjectID : ObjectID := replicate ObjectIDLen (byte_of_Z 0).

Record Header := mkHeader {
  h_Magic : Z; h_Version : Z; h_Opcode : Z; h_Flags : Z; h_HeaderLen : Z;
  h_BodyLen : Z; h_RequestID : Z; h_SessionID : Z; h_Status : Z;
  h_Reserved : Z; h_Generation : Z }.

Record Attr := mkAttr {
  a_Ino : Z; a_Mode : Z; a_Size : Z; a_Mtime : Z; a_Atime : Z; a_Ctime : Z;
  a_Nlink : Z; a_UID : Z; a_GID : Z }.
Definition zeroAttr : Attr := mkAttr 0 0 0 0 0 0 0 0 0.

Record HelloRequest := mkHelloRequest {
  hq_MinVersion : Z; hq_MaxVersion : Z; hq_RequestedCaps : Z;
  hq_ClientKind : string; hq_ClientVersion : string; hq_KernelRelease : string }.

Record HelloResponse := mkHelloResponse {
  hp_SelectedVersion : Z; hp_ServerCaps : Z; hp_MaxFrameBytes : Z; hp_MaxReadBytes : Z }.

Record MountRequest := mkMountRequest {
  mq_ClientID : string; mq_Hostname : string; mq_AuthToken : string; mq_MountFlags : Z }.

Record MountResponse := mkMountResponse {
  mp_ClusterVersion : Z; mp_NamespaceGeneration : Z; mp_GuardianVisible : bool;
  mp_RootObjectID : ObjectID; mp_Root : Attr; mp_EntryTTLMS : Z; mp_AttrTTLMS : Z;
  mp_DirTTLMS : Z; mp_RouteTTLMS : Z }.

Record LookupRequest := mkLookupRequest { lq_ParentObjectID : ObjectID; lq_Name : string }.

Record LookupResponse := mkLookupResponse {
  lp_Found : bool; lp_EntryTTLMS : Z; lp_ObjectID : ObjectID; lp_Attr : Attr }.

Record GetAttrRequest := mkGetAttrRequest { gq_ObjectID : ObjectID }.

Record GetAttrResponse := mkGetAttrResponse {
  gp_Found : bool; gp_AttrTTLMS : Z; gp_Attr : Attr }.

Record DirEntry := mkDirEntry {
  de_Name : string; de_ObjectID : ObjectID; de_Ino : Z; de_Mode : Z }.

Record ReadDirRequest := mkReadDirRequest {
  rdq_DirObjectID : ObjectID; rdq_Cookie : Z; rdq_MaxEntries : Z; rdq_MaxBytes : Z }.

Record ReadDirResponse := mkReadDirResponse {
  rdp_DirTTLMS : Z; rdp_NextCookie : Z; rdp_EOF : bool; rdp_Entries : list DirEntry }.

Record StatFSResponse := mkStatFSResponse {
  sp_Blocks : Z; sp_Bfree : Z; sp_Bavail : Z; sp_Files : Z; sp_Ffree : Z;
  sp_Bsize : Z; sp_Frsize : Z; sp_NameLen : Z }.

Record OpenReadRequest := mkOpenReadRequest { oq_ObjectID : ObjectID }.

Record OpenReadResponse := mkOpenReadResponse {
  op_HandleID : Z; op_Attr : Attr; op_RouteTTLMS : Z }.

Record ReadRequest := mkReadRequest { rq_HandleID : Z; rq_Offset : Z; rq_Length : Z }.

Record ReadResponse := mkReadResponse { rp_EOF : bool; rp_Data : bytes }.

Record CloseRequest := mkCloseRequest { cq_HandleID : Z }.

(** ** Frames *)

Inductive frame_error : Type :=
| FrameEOF | FrameUnexpectedEOF
| InvalidMagic (v : Z) | UnsupportedVersion (v : Z)
| UnexpectedHeaderLength (v : Z) | BodyTooLarge (v : Z)
| WriteFailed.

(** The stream's reader is the list of bytes it will still deliver;
    [io.ReadFull] reports [EOF] when nothing could be read and
    [ErrUnexpectedEOF] when the stream ends inside the buffer. *)
Definition ReadFull (r : bytes) (n : nat) : result frame_error (bytes * bytes) :=
  if bool_decide (n ≤ length r)%nat then Ok (take n r, drop n r)
  else match r with [] => Err FrameEOF | _ => Err FrameUnexpectedEOF end.

(** [raw[lo:hi]] of the fixed-size header array. *)
Definition raw_slice (raw : bytes) (lo hi : nat) : bytes := take (hi - lo) (drop lo raw).

Definition parse_header (raw : bytes) : Header :=
  {| h_Magic := get_le (raw_slice raw 0 4);
     h_Version := get_le (raw_slice raw 4 6);
     h_Opcode := get_le (raw_slice raw 6 8);
     h_Flags := get_le (raw_slice raw 8 12);
     h_HeaderLen := get_le (raw_slice raw 12 16);
     h_BodyLen := get_le (raw_slice raw 16 20);
     h_RequestID := get_le (raw_slice raw 20 28);
     h_SessionID := get_le (raw_slice raw 28 36);
     h_Status := get_le (raw_slice raw 36 40);
     h_Reserved := get_le (raw_slice raw 40 44);
     h_Generation := get_le (raw_slice raw 44 52) |}.

Definition ReadFrame (r : bytes) : result frame_error (Header * bytes * bytes) :=
  let! (raw, r) := ReadFull r (Z.to_nat HeaderSize) in
  let hdr := parse_header raw in
  if negb (bool_decide (h_Magic hdr = FrameMagic)) then Err (InvalidMagic (h_Magic hdr))
  else if negb (bool_decide (h_Version hdr = Version1)) then Err (UnsupportedVersion (h_Version hdr))
  else if negb (bool_decide (h_HeaderLen hdr = HeaderSize)) then Err (UnexpectedHeaderLength (h_HeaderLen hdr))
  else if bool_decide (h_BodyLen hdr > MaxFrameBytes) then Err (BodyTooLarge (h_BodyLen hdr))
  else
    let! (body, r) := ReadFull r (Z.to_nat (h_BodyLen hdr)) in
    Ok (hdr, body, r).

(** An [io.Writer]: a state and a [Write] that may fail. *)
Class Writer (W : Type) := write : W → bytes → result frame_error W.

(** The writer that never fails: a growing buffer. *)
#[export] Instance buffer_writer : Writer bytes := λ w bs, Ok (w ++ bs).

Definition header_bytes (hdr : Header) : bytes :=
  put_le 4 (h_Magic hdr) ++ put_le 2 (h_Version hdr) ++ put_le 2 (h_Opcode hdr) ++
  put_le 4 (h_Flags hdr) ++ put_le 4 (h_HeaderLen hdr) ++ put_le 4 (h_BodyLen hdr) ++
  put_le 8 (h_RequestID hdr) ++ put_le 8 (h_SessionID hdr) ++ put_le 4 (h_Status hdr) ++
  put_le 4 (h_Reserved hdr) ++ put_le 8 (h_Generation hdr).

(** The header with the fields [WriteFrame] fills in. *)
Definition stamp_header (hdr : Header) (body : bytes) : Header :=
  {| h_Magic := FrameMagic; h_Version := Version1; h_Opcode := h_Opcode hdr;
     h_Flags := h_Flags hdr; h_HeaderLen := HeaderSize;
     h_BodyLen := wrap 32 (Z.of_nat (length body));
     h_RequestID := h_RequestID hdr; h_SessionID := h_SessionID hdr;
     h_Status := h_Status hdr; h_Reserved := h_Reserved hdr;
     h_Generation := h_Generation hdr |}.

Definition WriteFrame `{Writer W} (w : W) (hdr : Header) (body : bytes) : result frame_error W :=
  if bool_decide (Z.of_nat (length body) > MaxFrameBytes)
  then Err (BodyTooLarge (Z.of_nat (length body)))
  else
    let! w := write w (header_bytes (stamp_header hdr body)) in
    match body with
    | [] => Ok w
    | _ => write w body
    end.

(** ** Encoder *)

Definition enc_u8 (v : Z) : bytes := put_le 1 v.
Definition enc_u16 (v : Z) : bytes := put_le 2 v.
Definition enc_u32 (v : Z) : bytes := put_le 4 v.
Definition enc_u64 (v : Z) : bytes := put_le 8 v.
Definition enc_i64 (v : Z) : bytes := enc_u64 (u64_of_i64 v).
Definition enc_bool (v : bool) : bytes := if v then enc_u8 1 else enc_u8 0.
Definition enc_objectID (id : ObjectID) : bytes := id.
Definition enc_str (v : string) : bytes :=
  let b := bytes_of_string v in enc_u32 (wrap 32 (Z.of_nat (length b))) ++ b.

(** ** Decoder *)

Inductive dec_error : Type := ErrUnexpectedEOF | Panic.

Record decoder := mkDecoder { data : bytes; off : nat }.

Definition D (A : Type) : Type := decoder → result dec_error (A * decoder).
Definition dret {A} (a : A) : D A := λ d, Ok (a, d).
Definition dbind {A B} (m : D A) (k : A → D B) : D B :=
  λ d, let! (a, d) := m d in k a d.
Notation "x <- m ;; k" := (dbind m (λ x, k)) (at level 100, m at next level, right associativity) : go_scope.

Definition remaining (d : decoder) : Z := Z.of_nat (length (data d)) - Z.of_nat (off d).

(** [d.data[lo:hi]]; Go panics when the bounds are out of range. *)
Definition slice (bs : bytes) (lo hi : nat) : result dec_error bytes :=
  if bool_decide (lo ≤ hi ∧ hi ≤ length bs)%nat then Ok (take (hi - lo) (drop lo bs))
  else Err Panic.

(** The shape the integer and object-id readers share: the bounds test, the
    slice, the advance of the offset. *)
Definition dec_take (n : nat) : D bytes := λ d,
  if bool_decide (remaining d < Z.of_nat n) then Err ErrUnexpectedEOF
  else let! v := slice (data d) (off d) (off d + n) in
       Ok (v, mkDecoder (data d) (off d + n)).

Definition dec_u8 : D Z := λ d,
  if bool_decide (remaining d < 1) then Err ErrUnexpectedEOF
  else match data d !! off d with
       | Some v => Ok (Z_of_byte v, mkDecoder (data d) (off d + 1))
       | None => Err Panic
       end.
Definition dec_u16 : D Z := v <- dec_take 2 ;; dret (get_le v).
Definition dec_u32 : D Z := v <- dec_take 4 ;; dret (get_le v).
Definition dec_u64 : D Z := v <- dec_take 8 ;; dret (get_le v).
Definition dec_i64 : D Z := v <- dec_u64 ;; dret (i64_of_u64 v).
Definition dec_bool : D bool := v <- dec_u8 ;; dret (negb (bool_decide (v = 0))).
Definition dec_objectID : D ObjectID := dec_take ObjectIDLen.
Definition dec_str : D string := size <- dec_u32 ;; b <- dec_take (Z.to_nat size) ;; dret (string_of_bytes b).

(** The functions [DecodeX] below are programs of the decoder; [DecodeX(data)]
    is [run DecodeX data]: from offset 0, dropping the decoder at the end. *)
Definition run {A} (m : D A) (bs : bytes) : result dec_error A :=
  let! (a, _) := m (mkDecoder bs 0) in Ok a.

(** ** Messages *)

Definition encodeAttr (a : Attr) : bytes :=
  enc_u64 (a_Ino a) ++ enc_u32 (a_Mode a) ++ enc_u64 (a_Size a) ++ enc_i64 (a_Mtime a) ++
  enc_i64 (a_Atime a) ++ enc_i64 (a_Ctime a) ++ enc_u32 (a_Nlink a) ++ enc_u32 (a_UID a) ++
  enc_u32 (a_GID a).

Definition decodeAttr : D Attr :=
  ino <- dec_u64 ;; mode <- dec_u32 ;; size <- dec_u64 ;; mtime <- dec_i64 ;;
  atime <- dec_i64 ;; ctime <- dec_i64 ;; nlink <- dec_u32 ;; uid <- dec_u32 ;;
  gid <- dec_u32 ;; dret (mkAttr ino mode size mtime atime ctime nlink uid gid).

Definition EncodeHelloRequest (r : HelloRequest) : bytes :=
  enc_u16 (hq_MinVersion r) ++ enc_u16 (hq_MaxVersion r) ++ enc_u64 (hq_RequestedCaps r) ++
  enc_str (hq_ClientKind r) ++ enc_str (hq_ClientVersion r) ++ enc_str (hq_KernelRelease r).

Definition DecodeHelloRequest : D HelloRequest :=
  mn <- dec_u16 ;; mx <- dec_u16 ;; caps <- dec_u64 ;; kind <- dec_str ;; ver <- dec_str ;;
  rel <- dec_str ;; dret (mkHelloRequest mn mx caps kind ver rel).

Definition EncodeHelloResponse (r : HelloResponse) : bytes :=
  enc_u16 (hp_SelectedVersion r) ++ enc_u64 (hp_ServerCaps r) ++
  enc_u32 (hp_MaxFrameBytes r) ++ enc_u32 (hp_MaxReadBytes r).

Definition EncodeMountRequest (r : MountRequest) : bytes :=
  enc_u32 (mq_MountFlags r) ++ enc_str (mq_ClientID r) ++ enc_str (mq_Hostname r) ++
  enc_str (mq_AuthToken r).

Definition DecodeMountRequest : D MountRequest :=
  fl <- dec_u32 ;; id <- dec_str ;; host <- dec_str ;; tok <- dec_str ;;
  dret (mkMountRequest id host tok fl).

Definition EncodeMountResponse (r : MountResponse) : bytes :=
  enc_u64 (mp_ClusterVersion r) ++ enc_u64 (mp_NamespaceGeneration r) ++
  enc_bool (mp_GuardianVisible r) ++ enc_objectID (mp_RootObjectID r) ++
  encodeAttr (mp_Root r) ++ enc_u32 (mp_EntryTTLMS r) ++ enc_u32 (mp_AttrTTLMS r) ++
  enc_u32 (mp_DirTTLMS r) ++ enc_u32 (mp_RouteTTLMS r).

Definition DecodeMountResponse : D MountResponse :=
  cv <- dec_u64 ;; ng <- dec_u64 ;; gv <- dec_bool ;; root <- dec_objectID ;; attr <- decodeAttr ;;
  ettl <- dec_u32 ;; attl <- dec_u32 ;; dttl <- dec_u32 ;; rttl <- dec_u32 ;;
  dret (mkMountResponse cv ng gv root attr ettl attl dttl rttl).

Definition EncodeLookupRequest (r : LookupRequest) : bytes :=
  enc_objectID (lq_ParentObjectID r) ++ enc_str (lq_Name r).

Definition DecodeLookupRequest : D LookupRequest :=
  id <- dec_objectID ;; name <- dec_str ;; dret (mkLookupRequest id name).

Definition EncodeLookupResponse (r : LookupResponse) : bytes :=
  enc_bool (lp_Found r) ++ enc_u32 (lp_EntryTTLMS r) ++
  (if lp_Found r then enc_objectID (lp_ObjectID r) ++ encodeAttr (lp_Attr r) else []).

Definition DecodeLookupResponse : D LookupResponse :=
  found <- dec_bool ;; ttl <- dec_u32 ;;
  if found : bool then
    id <- dec_objectID ;; attr <- decodeAttr ;; dret (mkLookupResponse found ttl id attr)
  else dret (mkLookupResponse found ttl zeroObjectID zeroAttr).

Definition EncodeGetAttrRequest (r : GetAttrRequest) : bytes := enc_objectID (gq_ObjectID r).

Definition DecodeGetAttrRequest : D GetAttrRequest := id <- dec_objectID ;; dret (mkGetAttrRequest id).

Definition EncodeGetAttrResponse (r : GetAttrResponse) : bytes :=
  enc_bool (gp_Found r) ++ enc_u32 (gp_AttrTTLMS r) ++
  (if gp_Found r then encodeAttr (gp_Attr r) else []).

Definition EncodeReadDirRequest (r : ReadDirRequest) : bytes :=
  enc_objectID (rdq_DirObjectID r) ++ enc_u64 (rdq_Cookie r) ++ enc_u32 (rdq_MaxEntries r) ++
  enc_u32 (rdq_MaxBytes r).

Definition DecodeReadDirRequest : D ReadDirRequest :=
  id <- dec_objectID ;; ck <- dec_u64 ;; me <- dec_u32 ;; mb <- dec_u32 ;;
  dret (mkReadDirRequest id ck me mb).

Definition encEntry (e : DirEntry) : bytes :=
  enc_str (de_Name e) ++ enc_objectID (de_ObjectID e) ++ enc_u64 (de_Ino e) ++ enc_u32 (de_Mode e).

Definition EncodeReadDirResponse (r : ReadDirResponse) : bytes :=
  enc_u32 (rdp_DirTTLMS r) ++ enc_u64 (rdp_NextCookie r) ++ enc_bool (rdp_EOF r) ++
  enc_u32 (wrap 32 (Z.of_nat (length (rdp_Entries r)))) ++ concat (encEntry <$> rdp_Entries r).

Definition decEntry : D DirEntry :=
  name <- dec_str ;; id <- dec_objectID ;; ino <- dec_u64 ;; mode <- dec_u32 ;;
  dret (mkDirEntry name id ino mode).

(** The [for i := uint32(0); i < count; i++] loop. *)
Fixpoint decEntries (count : nat) : D (list DirEntry) :=
  match count with
  | O => dret []
  | S count => e <- decEntry ;; es <- decEntries count ;; dret (e :: es)
  end.

(** The guard that rejects a count larger than the remaining frame. *)
Definition check_count (count : Z) : D unit := λ d,
  if bool_decide (count > remaining d) then Err ErrUnexpectedEOF else Ok (tt, d).

Definition DecodeReadDirResponse : D ReadDirResponse :=
  ttl <- dec_u32 ;; ck <- dec_u64 ;; eof <- dec_bool ;; count <- dec_u32 ;;
  _ <- check_count count ;; es <- decEntries (Z.to_nat count) ;;
  dret (mkReadDirResponse ttl ck eof es).

Definition EncodeStatFSResponse (r : StatFSResponse) : bytes :=
  enc_u64 (sp_Blocks r) ++ enc_u64 (sp_Bfree r) ++ enc_u64 (sp_Bavail r) ++ enc_u64 (sp_Files r) ++
  enc_u64 (sp_Ffree r) ++ enc_u32 (sp_Bsize r) ++ enc_u32 (sp_Frsize r) ++ enc_u32 (sp_NameLen r).

Definition DecodeStatFSResponse : D StatFSResponse :=
  bl <- dec_u64 ;; bf <- dec_u64 ;; ba <- dec_u64 ;; fi <- dec_u64 ;; ff <- dec_u64 ;;
  bs <- dec_u32 ;; fr <- dec_u32 ;; nl <- dec_u32 ;; dret (mkStatFSResponse bl bf ba fi ff bs fr nl).

Definition EncodeOpenReadRequest (r : OpenReadRequest) : bytes := enc_objectID (oq_ObjectID r).

Definition DecodeOpenReadRequest : D OpenReadRequest := id <- dec_objectID ;; dret (mkOpenReadRequest id).

Definition EncodeOpenReadResponse (r : OpenReadResponse) : bytes :=
  enc_u64 (op_HandleID r) ++ encodeAttr (op_Attr r) ++ enc_u32 (op_RouteTTLMS r).

Definition DecodeOpenReadResponse : D OpenReadResponse :=
  h <- dec_u64 ;; attr <- decodeAttr ;; ttl <- dec_u32 ;; dret (mkOpenReadResponse h attr ttl).

Definition EncodeReadRequest (r : ReadRequest) : bytes :=
  enc_u64 (rq_HandleID r) ++ enc_u64 (rq_Offset r) ++ enc_u32 (rq_Length r).

Definition DecodeReadRequest : D ReadRequest :=
  h <- dec_u64 ;; o <- dec_u64 ;; l <- dec_u32 ;; dret (mkReadRequest h o l).

Definition EncodeReadResponse (r : ReadResponse) : bytes :=
  enc_bool (rp_EOF r) ++ enc_u32 (wrap 32 (Z.of_nat (length (rp_Data r)))) ++ rp_Data r.

Definition DecodeReadResponse : D ReadResponse :=
  eof <- dec_bool ;; size <- dec_u32 ;; d <- dec_take (Z.to_nat size) ;;
  dret (mkReadResponse eof d).

Definition EncodeCloseRequest (r : CloseRequest) : bytes := enc_u64 (cq_HandleID r).

Definition DecodeCloseRequest : D CloseRequest := h <- dec_u64 ;; dret (mkCloseRequest h).
