(* ===== verification/NativeCodec.v ===== *)
(** * Laws of the native protocol's codecs

    Three laws of a decoder of NativeProto.v, each closed under sequencing,
    and the theorems they give for every message: a message survives encoding
    and decoding whatever follows it, a cut encoding is refused, and no input
    makes a decoder panic. *)

From stdpp Require Import options.
From S2P Require Import Prelude NativeProto.

(** ** The laws *)

(** [Codec m bs a]: at any position of any buffer, [m] reads [bs] as [a] and
    stops right after it, and fails on every proper prefix of [bs] that ends
    the buffer. *)
Record Codec {A} (m : D A) (bs : bytes) (a : A) : Prop := {
  codec_reads pre post :
    m (mkDecoder (pre ++ bs ++ post) (length pre)) =
    Ok (a, mkDecoder (pre ++ bs ++ post) (length pre + length bs));
  codec_cut pre n :
    (n < length bs)%nat →
    m (mkDecoder (pre ++ take n bs) (length pre)) = Err ErrUnexpectedEOF }.

Definition wf_decoder (d : decoder) : Prop := (off d ≤ length (data d))%nat.

(** [Safe m]: from a decoder whose offset is within its data, [m] never
    panics, keeps the data and only moves forward, within bounds. *)
Definition Safe {A} (m : D A) : Prop := ∀ d, wf_decoder d →
  match m d with
  | Ok (_, d') => wf_decoder d' ∧ data d' = data d ∧ (off d ≤ off d')%nat
  | Err e => e = ErrUnexpectedEOF
  end.

(** ** Well-formed message fields: what the Go types guarantee *)

Definition wf_str (s : string) : Prop := Z.of_nat (length (bytes_of_string s)) < 2 ^ 32.
Definition wf_id (id : ObjectID) : Prop := length id = ObjectIDLen.
Definition wf_Attr (a : Attr) : Prop :=
  in_u 64 (a_Ino a) ∧ in_u 32 (a_Mode a) ∧ in_u 64 (a_Size a) ∧ in_i64 (a_Mtime a) ∧
  in_i64 (a_Atime a) ∧ in_i64 (a_Ctime a) ∧ in_u 32 (a_Nlink a) ∧ in_u 32 (a_UID a) ∧
  in_u 32 (a_GID a).
Definition wf_HelloRequest (r : HelloRequest) : Prop :=
  in_u 16 (hq_MinVersion r) ∧ in_u 16 (hq_MaxVersion r) ∧ in_u 64 (hq_RequestedCaps r) ∧
  wf_str (hq_ClientKind r) ∧ wf_str (hq_ClientVersion r) ∧ wf_str (hq_KernelRelease r).
Definition wf_MountRequest (r : MountRequest) : Prop :=
  wf_str (mq_ClientID r) ∧ wf_str (mq_Hostname r) ∧ wf_str (mq_AuthToken r) ∧
  in_u 32 (mq_MountFlags r).
Definition wf_MountResponse (r : MountResponse) : Prop :=
  in_u 64 (mp_ClusterVersion r) ∧ in_u 64 (mp_NamespaceGeneration r) ∧
  wf_id (mp_RootObjectID r) ∧ wf_Attr (mp_Root r) ∧ in_u 32 (mp_EntryTTLMS r) ∧
  in_u 32 (mp_AttrTTLMS r) ∧ in_u 32 (mp_DirTTLMS r) ∧ in_u 32 (mp_RouteTTLMS r).
Definition wf_LookupRequest (r : LookupRequest) : Prop :=
  wf_id (lq_ParentObjectID r) ∧ wf_str (lq_Name r).
(** A response that found nothing carries no object and no attributes. *)
Definition wf_LookupResponse (r : LookupResponse) : Prop :=
  in_u 32 (lp_EntryTTLMS r) ∧
  if lp_Found r then wf_id (lp_ObjectID r) ∧ wf_Attr (lp_Attr r)
  else lp_ObjectID r = zeroObjectID ∧ lp_Attr r = zeroAttr.
Definition wf_ReadDirRequest (r : ReadDirRequest) : Prop :=
  wf_id (rdq_DirObjectID r) ∧ in_u 64 (rdq_Cookie r) ∧ in_u 32 (rdq_MaxEntries r) ∧
  in_u 32 (rdq_MaxBytes r).
Definition wf_DirEntry (e : DirEntry) : Prop :=
  wf_str (de_Name e) ∧ wf_id (de_ObjectID e) ∧ in_u 64 (de_Ino e) ∧ in_u 32 (de_Mode e).
Definition wf_ReadDirResponse (r : ReadDirResponse) : Prop :=
  in_u 32 (rdp_DirTTLMS r) ∧ in_u 64 (rdp_NextCookie r) ∧
  Z.of_nat (length (rdp_Entries r)) < 2 ^ 32 ∧ Forall wf_DirEntry (rdp_Entries r).
Definition wf_StatFSResponse (r : StatFSResponse) : Prop :=
  in_u 64 (sp_Blocks r) ∧ in_u 64 (sp_Bfree r) ∧ in_u 64 (sp_Bavail r) ∧ in_u 64 (sp_Files r) ∧
  in_u 64 (sp_Ffree r) ∧ in_u 32 (sp_Bsize r) ∧ in_u 32 (sp_Frsize r) ∧ in_u 32 (sp_NameLen r).
Definition wf_OpenReadResponse (r : OpenReadResponse) : Prop :=
  in_u 64 (op_HandleID r) ∧ wf_Attr (op_Attr r) ∧ in_u 32 (op_RouteTTLMS r).
Definition wf_ReadRequest (r : ReadRequest) : Prop :=
  in_u 64 (rq_HandleID r) ∧ in_u 64 (rq_Offset r) ∧ in_u 32 (rq_Length r).
Definition wf_ReadResponse (r : ReadResponse) : Prop := Z.of_nat (length (rp_Data r)) < 2 ^ 32.
Definition wf_CloseRequest (r : CloseRequest) : Prop := in_u 64 (cq_HandleID r).

(** ** Sequencing *)

Lemma Codec_bind {A B} (m : D A) (k : A → D B) bs bs' a b :
  Codec m bs a → Codec (k a) bs' b → Codec (dbind m k) (bs ++ bs') b.
Proof.
  intros [Hr Hc] [Hr' Hc']. split.
  - intros pre post. unfold dbind. rewrite <- app_assoc, Hr. simpl.
    specialize (Hr' (pre ++ bs) post). rewrite <- !app_assoc, !length_app in Hr'.
    rewrite Hr'. by rewrite length_app, Nat.add_assoc.
  - intros pre n Hn. unfold dbind. rewrite take_app. rewrite length_app in Hn.
    destruct (decide (n < length bs)%nat) as [Hlt|Hge].
    + replace (n - length bs)%nat with 0%nat by lia.
      by rewrite take_0, app_nil_r, Hc by lia.
    + rewrite take_ge by lia. rewrite Hr. simpl.
      specialize (Hc' (pre ++ bs) (n - length bs)%nat).
      rewrite <- app_assoc, length_app in Hc'. by apply Hc'; lia.
Qed.

Lemma Codec_last {A B} (m : D A) (k : A → D B) bs a b :
  Codec m bs a → k a = dret b → Codec (dbind m k) bs b.
Proof.
  intros [Hr Hc] Hk. split.
  - intros pre post. unfold dbind. rewrite Hr. simpl. by rewrite Hk.
  - intros pre n Hn. unfold dbind. by rewrite Hc.
Qed.

Lemma Codec_nil {A} (a : A) : Codec (dret a) [] a.
Proof. split; [intros; simpl; by rewrite Nat.add_0_r | intros ? n Hn; simpl in Hn; lia]. Qed.

Lemma Safe_ret {A} (a : A) : Safe (dret a).
Proof. intros d Hd. simpl. auto. Qed.

Lemma Safe_bind {A B} (m : D A) (k : A → D B) :
  Safe m → (∀ a, Safe (k a)) → Safe (dbind m k).
Proof.
  intros Hm Hk d Hd. specialize (Hm d Hd). unfold dbind.
  destruct (m d) as [[a d']|e]; simpl; [|done].
  destruct Hm as (Hwf & Hdata & Hoff). specialize (Hk a d' Hwf).
  destruct (k a d') as [[b d'']|e]; [|done].
  destruct Hk as (? & ? & ?). split_and!; [done | congruence | lia].
Qed.

(** ** Primitives *)

Lemma slice_middle pre bs post :
  slice (pre ++ bs ++ post) (length pre) (length pre + length bs) = Ok bs.
Proof.
  unfold slice. rewrite bool_decide_eq_true_2 by (rewrite !length_app; lia).
  replace (length pre + length bs - length pre)%nat with (length bs) by lia.
  by rewrite drop_app_length, take_app_length.
Qed.

Lemma Codec_take n bs : length bs = n → Codec (dec_take n) bs bs.
Proof.
  intros <-. split.
  - intros pre post. unfold dec_take, remaining; simpl.
    rewrite bool_decide_eq_false_2 by (rewrite !length_app; lia).
    by rewrite slice_middle.
  - intros pre n Hn. unfold dec_take, remaining; simpl.
    rewrite bool_decide_eq_true_2; [done|].
    rewrite length_app, length_take. lia.
Qed.

Lemma Codec_le n v : in_u (8 * Z.of_nat n) v →
  Codec (x <- dec_take n ;; dret (get_le x)) (put_le n v) v.
Proof.
  intros Hv. eapply Codec_last; [apply Codec_take, length_put_le|].
  by rewrite get_put_le, Z.mod_small.
Qed.

Lemma Codec_u16 v : in_u 16 v → Codec dec_u16 (enc_u16 v) v.
Proof. apply (Codec_le 2). Qed.
Lemma Codec_u32 v : in_u 32 v → Codec dec_u32 (enc_u32 v) v.
Proof. apply (Codec_le 4). Qed.
Lemma Codec_u64 v : in_u 64 v → Codec dec_u64 (enc_u64 v) v.
Proof. apply (Codec_le 8). Qed.

Lemma Codec_i64 v : in_i64 v → Codec dec_i64 (enc_i64 v) v.
Proof.
  intros Hv. eapply Codec_last.
  - apply Codec_u64. unfold in_u, u64_of_i64, wrap. apply Z.mod_pos_bound. lia.
  - by rewrite i64_of_u64_of_i64.
Qed.

Lemma Codec_u8 v : in_u 8 v → Codec dec_u8 (enc_u8 v) v.
Proof.
  intros Hv. change (enc_u8 v) with [byte_of_Z v]. split.
  - intros pre post. unfold dec_u8, remaining; simpl.
    rewrite bool_decide_eq_false_2 by (rewrite length_app; simpl; lia).
    rewrite lookup_app_r, Nat.sub_diag by lia. simpl.
    rewrite Z_of_byte_of_Z. by rewrite Z.mod_small.
  - intros pre n Hn. simpl in Hn. replace n with 0%nat by lia.
    unfold dec_u8, remaining; simpl. rewrite app_nil_r.
    by rewrite bool_decide_eq_true_2 by lia.
Qed.

Lemma Codec_bool v : Codec dec_bool (enc_bool v) v.
Proof. destruct v; (eapply Codec_last; [by apply Codec_u8 | done]). Qed.

Lemma Codec_objectID id : wf_id id → Codec dec_objectID (enc_objectID id) id.
Proof. apply Codec_take. Qed.

Lemma in_u_len32 {A} (l : list A) :
  Z.of_nat (length l) < 2 ^ 32 → wrap 32 (Z.of_nat (length l)) = Z.of_nat (length l).
Proof. intros. unfold wrap. apply Z.mod_small. lia. Qed.

Lemma Codec_str v : wf_str v → Codec dec_str (enc_str v) v.
Proof.
  intros Hv. unfold enc_str. eapply Codec_bind.
  - apply Codec_u32. unfold in_u. rewrite in_u_len32 by done. unfold wf_str in Hv. lia.
  - eapply Codec_last; [apply Codec_take|].
    + rewrite in_u_len32 by done. lia.
    + by rewrite string_of_bytes_of_string.
Qed.

Lemma Safe_take n : Safe (dec_take n).
Proof.
  intros d Hd. unfold dec_take, remaining. unfold wf_decoder in *.
  case_bool_decide as Hlt; simpl; [done|].
  unfold slice. rewrite bool_decide_eq_true_2 by lia. simpl. split_and!; [lia|done|lia].
Qed.

Lemma Safe_u8 : Safe dec_u8.
Proof.
  intros d Hd. unfold dec_u8, remaining, wf_decoder in *.
  case_bool_decide as Hlt; simpl; [done|].
  destruct (lookup_lt_is_Some_2 (data d) (off d)) as [v ->]; [lia|]. simpl.
  split_and!; [lia|done|lia].
Qed.

#[export] Hint Resolve Codec_u8 Codec_u16 Codec_u32 Codec_u64 Codec_i64 Codec_bool
  Codec_objectID Codec_str Codec_nil Codec_take : monofs.
#[export] Hint Resolve Safe_ret Safe_take Safe_u8 : monofs.

(** Walk a decoder against its encoding, field by field. *)
Ltac codec :=
  repeat first
    [ eapply Codec_last; [by auto with monofs | reflexivity]
    | eapply Codec_bind; [by auto with monofs |]; cbn beta iota ].

(** Walk a decoder for safety. *)
Ltac safe :=
  repeat first
    [ solve [auto with monofs]
    | apply Safe_bind; [| intros ?]
    | match goal with |- Safe (if ?b then _ else _) => destruct b end ].

(** ** Messages *)

Lemma Codec_Attr a : wf_Attr a → Codec decodeAttr (encodeAttr a) a.
Proof. destruct a. intros (?&?&?&?&?&?&?&?&?); simpl in *. codec. Qed.
#[export] Hint Resolve Codec_Attr : monofs.

Lemma Codec_HelloRequest r : wf_HelloRequest r → Codec DecodeHelloRequest (EncodeHelloRequest r) r.
Proof. destruct r. intros (?&?&?&?&?&?); simpl in *. codec. Qed.
Lemma Codec_MountRequest r : wf_MountRequest r → Codec DecodeMountRequest (EncodeMountRequest r) r.
Proof. destruct r. intros (?&?&?&?); simpl in *. codec. Qed.
Lemma Codec_MountResponse r : wf_MountResponse r → Codec DecodeMountResponse (EncodeMountResponse r) r.
Proof. destruct r. intros (?&?&?&?&?&?&?&?); simpl in *. codec. Qed.
Lemma Codec_LookupRequest r : wf_LookupRequest r → Codec DecodeLookupRequest (EncodeLookupRequest r) r.
Proof. destruct r. intros (?&?); simpl in *. codec. Qed.
Lemma Codec_LookupResponse r : wf_LookupResponse r → Codec DecodeLookupResponse (EncodeLookupResponse r) r.
Proof.
  destruct r as [[] ttl id at_]; intros (Httl&Hid&Hat); simpl in *;
    unfold EncodeLookupResponse; cbn [lp_Found lp_EntryTTLMS lp_ObjectID lp_Attr].
  - codec.
  - subst. rewrite app_nil_r. codec.
Qed.
Lemma Codec_GetAttrRequest r : wf_id (gq_ObjectID r) → Codec DecodeGetAttrRequest (EncodeGetAttrRequest r) r.
Proof. destruct r. intros; unfold EncodeGetAttrRequest; simpl in *. codec. Qed.
Lemma Codec_ReadDirRequest r : wf_ReadDirRequest r → Codec DecodeReadDirRequest (EncodeReadDirRequest r) r.
Proof. destruct r. intros (?&?&?&?); simpl in *. codec. Qed.
Lemma Codec_DirEntry e : wf_DirEntry e → Codec decEntry (encEntry e) e.
Proof. destruct e. intros (?&?&?&?); simpl in *. codec. Qed.
Lemma Codec_StatFSResponse r : wf_StatFSResponse r → Codec DecodeStatFSResponse (EncodeStatFSResponse r) r.
Proof. destruct r. intros (?&?&?&?&?&?&?&?); simpl in *. codec. Qed.
Lemma Codec_OpenReadRequest r : wf_id (oq_ObjectID r) → Codec DecodeOpenReadRequest (EncodeOpenReadRequest r) r.
Proof. destruct r. intros; unfold EncodeOpenReadRequest; simpl in *. codec. Qed.
Lemma Codec_OpenReadResponse r : wf_OpenReadResponse r → Codec DecodeOpenReadResponse (EncodeOpenReadResponse r) r.
Proof. destruct r. intros (?&?&?); simpl in *. codec. Qed.
Lemma Codec_ReadRequest r : wf_ReadRequest r → Codec DecodeReadRequest (EncodeReadRequest r) r.
Proof. destruct r. intros (?&?&?); simpl in *. codec. Qed.
Lemma Codec_CloseRequest r : wf_CloseRequest r → Codec DecodeCloseRequest (EncodeCloseRequest r) r.
Proof. destruct r. intros; unfold EncodeCloseRequest, wf_CloseRequest in *; simpl in *. codec. Qed.

Lemma Codec_ReadResponse r : wf_ReadResponse r → Codec DecodeReadResponse (EncodeReadResponse r) r.
Proof.
  destruct r as [eof d]. intros Hd; unfold wf_ReadResponse, EncodeReadResponse in *;
    cbn [rp_EOF rp_Data] in *.
  rewrite in_u_len32 by done.
  eapply Codec_bind; [by auto with monofs|].
  eapply Codec_bind; [apply Codec_u32; unfold in_u; lia|].
  eapply Codec_last; [apply Codec_take; lia | done].
Qed.

Lemma Codec_entries es : Forall wf_DirEntry es →
  Codec (decEntries (length es)) (concat (encEntry <$> es)) es.
Proof.
  induction 1 as [|e es He _ IH]; rewrite ?fmap_cons; cbn [length decEntries concat];
    [apply Codec_nil|].
  eapply Codec_bind; [by apply Codec_DirEntry|].
  eapply Codec_last; [exact IH | done].
Qed.

(** Every entry takes at least its fixed 32 bytes, so the count guard lets
    every honest encoding through. *)
Lemma length_encEntry e : wf_id (de_ObjectID e) → (32 ≤ length (encEntry e))%nat.
Proof.
  unfold wf_id, encEntry, enc_str, enc_objectID, enc_u32, enc_u64, ObjectIDLen. intros Hid.
  rewrite !length_app, !length_put_le. lia.
Qed.

Lemma length_entries es : Forall wf_DirEntry es →
  (length es ≤ length (concat (encEntry <$> es)))%nat.
Proof.
  induction 1 as [|e es (_&He&_) _ IH]; rewrite ?fmap_cons; cbn [length concat]; [lia|].
  rewrite length_app. pose proof (length_encEntry e He). lia.
Qed.

Lemma Codec_check_entries es : Forall wf_DirEntry es →
  Codec (_ <- check_count (Z.of_nat (length es)) ;; decEntries (length es))
        (concat (encEntry <$> es)) es.
Proof.
  intros Hes. pose proof (length_entries es Hes) as Hlen.
  destruct (Codec_entries es Hes) as [Hr Hc]. split.
  - intros pre post. unfold dbind, check_count, remaining; simpl.
    rewrite bool_decide_eq_false_2 by (rewrite !length_app; lia). simpl. apply Hr.
  - intros pre n Hn. unfold dbind, check_count, remaining; simpl.
    case_bool_decide; simpl; [done|]. by apply Hc.
Qed.

Lemma Codec_ReadDirResponse r : wf_ReadDirResponse r → Codec DecodeReadDirResponse (EncodeReadDirResponse r) r.
Proof.
  destruct r as [ttl ck eof es]. intros (?&?&Hlen&Hes); unfold EncodeReadDirResponse;
    cbn [rdp_DirTTLMS rdp_NextCookie rdp_EOF rdp_Entries] in *.
  rewrite in_u_len32 by done.
  do 3 (eapply Codec_bind; [by auto with monofs|]).
  eapply Codec_bind; [apply Codec_u32; unfold in_u; lia|].
  rewrite Nat2Z.id. destruct (Codec_check_entries es Hes) as [Hr Hc]. split.
  - intros pre post. specialize (Hr pre post). unfold dbind in *.
    destruct (check_count _ _) as [[[] d]|]; simpl in *; [|done]. by rewrite Hr.
  - intros pre n Hn. specialize (Hc pre n Hn). unfold dbind in *.
    destruct (check_count _ _) as [[[] d]|e]; simpl in *; [|congruence]. by rewrite Hc.
Qed.

Lemma Safe_u16 : Safe dec_u16. Proof. unfold dec_u16. safe. Qed.
Lemma Safe_u32 : Safe dec_u32. Proof. unfold dec_u32. safe. Qed.
Lemma Safe_u64 : Safe dec_u64. Proof. unfold dec_u64. safe. Qed.
#[export] Hint Resolve Safe_u16 Safe_u32 Safe_u64 : monofs.
Lemma Safe_i64 : Safe dec_i64. Proof. unfold dec_i64. safe. Qed.
Lemma Safe_bool : Safe dec_bool. Proof. unfold dec_bool. safe. Qed.
Lemma Safe_objectID : Safe dec_objectID. Proof. unfold dec_objectID. safe. Qed.
Lemma Safe_str : Safe dec_str. Proof. unfold dec_str. safe. Qed.
#[export] Hint Resolve Safe_i64 Safe_bool Safe_objectID Safe_str : monofs.
Lemma Safe_Attr : Safe decodeAttr. Proof. unfold decodeAttr. safe. Qed.
#[export] Hint Resolve Safe_Attr : monofs.

Lemma Safe_check_count n : Safe (check_count n).
Proof. intros d Hd. unfold check_count. case_bool_decide; simpl; auto. Qed.
Lemma Safe_entries n : Safe (decEntries n).
Proof.
  induction n as [|n IH]; simpl; [safe|].
  apply Safe_bind; [unfold decEntry; safe | intros ?; apply Safe_bind; [done | intros ?; safe]].
Qed.
#[export] Hint Resolve Safe_check_count Safe_entries : monofs.

(** ** From laws to the exported functions *)

Lemma run_codec {A} (m : D A) bs a rest : Codec m bs a → run m (bs ++ rest) = Ok a.
Proof. intros [Hr _]. specialize (Hr [] rest). unfold run. simpl in Hr. by rewrite Hr. Qed.

Lemma run_cut {A} (m : D A) bs a n : Codec m bs a → (n < length bs)%nat →
  run m (take n bs) = Err ErrUnexpectedEOF.
Proof. intros [_ Hc] Hn. specialize (Hc [] n Hn). unfold run. simpl in Hc. by rewrite Hc. Qed.

Lemma run_safe {A} (m : D A) bs : Safe m → run m bs ≠ Err Panic.
Proof.
  intros Hs. specialize (Hs (mkDecoder bs 0) ltac:(unfold wf_decoder; simpl; lia)).
  unfold run. destruct (m _) as [[a d]|e]; simpl; [done | by subst].
Qed.

(** What a message's pair of functions promises for a message [r]: decoding
    its encoding, whatever bytes follow, gives [r] back, and decoding any
    proper prefix of the encoding reports [ErrUnexpectedEOF]. *)
Definition Transmits {A} (enc : A → bytes) (dec : D A) (r : A) : Prop :=
  (∀ rest, run dec (enc r ++ rest) = Ok r) ∧
  (∀ n, (n < length (enc r))%nat → run dec (take n (enc r)) = Err ErrUnexpectedEOF).

Lemma Transmits_codec {A} (enc : A → bytes) (m : D A) r :
  Codec m (enc r) r → Transmits enc m r.
Proof. intros H. split; [intros; by apply run_codec | intros n; by apply run_cut with r]. Qed.

(** C19: every request of the native protocol, encoded and then decoded by the
    server from a buffer that may hold more bytes after it, is the request
    that was sent, and a request cut short anywhere is refused. *)
Theorem request_roundtrip :
  (∀ r, wf_HelloRequest r → Transmits EncodeHelloRequest DecodeHelloRequest r) ∧
  (∀ r, wf_MountRequest r → Transmits EncodeMountRequest DecodeMountRequest r) ∧
  (∀ r, wf_LookupRequest r → Transmits EncodeLookupRequest DecodeLookupRequest r) ∧
  (∀ r, wf_id (gq_ObjectID r) → Transmits EncodeGetAttrRequest DecodeGetAttrRequest r) ∧
  (∀ r, wf_ReadDirRequest r → Transmits EncodeReadDirRequest DecodeReadDirRequest r) ∧
  (∀ r, wf_id (oq_ObjectID r) → Transmits EncodeOpenReadRequest DecodeOpenReadRequest r) ∧
  (∀ r, wf_ReadRequest r → Transmits EncodeReadRequest DecodeReadRequest r) ∧
  (∀ r, wf_CloseRequest r → Transmits EncodeCloseRequest DecodeCloseRequest r).
Proof.
  split_and!; intros r Hr; apply Transmits_codec;
    auto using Codec_HelloRequest, Codec_MountRequest, Codec_LookupRequest,
      Codec_GetAttrRequest, Codec_ReadDirRequest, Codec_OpenReadRequest,
      Codec_ReadRequest, Codec_CloseRequest.
Qed.

Lemma request_roundtrip_witness :
  Transmits EncodeLookupRequest DecodeLookupRequest (mkLookupRequest zeroObjectID "main.go").
Proof. apply request_roundtrip. split; [reflexivity | vm_compute; reflexivity]. Defined.

(** C37: every response of the native protocol that has a decoder, directory
    listings with any number of entries included, decodes to the response
    that was encoded, and a response cut short anywhere is refused. *)
Theorem response_roundtrip :
  (∀ r, wf_MountResponse r → Transmits EncodeMountResponse DecodeMountResponse r) ∧
  (∀ r, wf_LookupResponse r → Transmits EncodeLookupResponse DecodeLookupResponse r) ∧
  (∀ r, wf_ReadDirResponse r → Transmits EncodeReadDirResponse DecodeReadDirResponse r) ∧
  (∀ r, wf_StatFSResponse r → Transmits EncodeStatFSResponse DecodeStatFSResponse r) ∧
  (∀ r, wf_OpenReadResponse r → Transmits EncodeOpenReadResponse DecodeOpenReadResponse r) ∧
  (∀ r, wf_ReadResponse r → Transmits EncodeReadResponse DecodeReadResponse r).
Proof.
  split_and!; intros r Hr; apply Transmits_codec;
    auto using Codec_MountResponse, Codec_LookupResponse, Codec_ReadDirResponse,
      Codec_StatFSResponse, Codec_OpenReadResponse, Codec_ReadResponse.
Qed.

Lemma response_roundtrip_witness :
  Transmits EncodeReadDirResponse DecodeReadDirResponse
    (mkReadDirResponse 1000 2 true
       [mkDirEntry "src" zeroObjectID 7 16877; mkDirEntry "go.mod" zeroObjectID 8 33188]).
Proof.
  apply response_roundtrip. unfold wf_ReadDirResponse; simpl.
  split_and!; [done | done | done |]. repeat constructor; done.
Defined.

(** C36: no decoder of the protocol panics, whatever bytes it is given: every
    slice and index it evaluates is within its buffer. *)
Theorem decoders_never_panic bs :
  run DecodeHelloRequest bs ≠ Err Panic ∧ run DecodeMountRequest bs ≠ Err Panic ∧
  run DecodeMountResponse bs ≠ Err Panic ∧ run DecodeLookupRequest bs ≠ Err Panic ∧
  run DecodeLookupResponse bs ≠ Err Panic ∧ run DecodeGetAttrRequest bs ≠ Err Panic ∧
  run DecodeReadDirRequest bs ≠ Err Panic ∧ run DecodeReadDirResponse bs ≠ Err Panic ∧
  run DecodeStatFSResponse bs ≠ Err Panic ∧ run DecodeOpenReadRequest bs ≠ Err Panic ∧
  run DecodeOpenReadResponse bs ≠ Err Panic ∧ run DecodeReadRequest bs ≠ Err Panic ∧
  run DecodeReadResponse bs ≠ Err Panic ∧ run DecodeCloseRequest bs ≠ Err Panic.
Proof.
  split_and!; apply run_safe;
    unfold DecodeHelloRequest, DecodeMountRequest, DecodeMountResponse, DecodeLookupRequest,
      DecodeLookupResponse, DecodeGetAttrRequest, DecodeReadDirRequest, DecodeReadDirResponse,
      DecodeStatFSResponse, DecodeOpenReadRequest, DecodeOpenReadResponse, DecodeReadRequest,
      DecodeReadResponse, DecodeCloseRequest; safe.
Qed.
