(* ===== verification/NativeFrame.v ===== *)
(** * Framing of the native protocol

    Theorems about [ReadFrame] and [WriteFrame] of NativeProto.v: the frame
    format is self-delimiting, what is accepted is exactly what [WriteFrame]
    produces, and a cut frame is refused. *)

From stdpp Require Import options.
From S2P Require Import Prelude NativeProto.

(** What the Go field types guarantee of the caller's header fields. *)
Definition wf_Header (h : Header) : Prop :=
  in_u 32 (h_Magic h) ∧ in_u 16 (h_Version h) ∧ in_u 16 (h_Opcode h) ∧ in_u 32 (h_Flags h) ∧
  in_u 32 (h_HeaderLen h) ∧ in_u 32 (h_BodyLen h) ∧ in_u 64 (h_RequestID h) ∧
  in_u 64 (h_SessionID h) ∧ in_u 32 (h_Status h) ∧ in_u 32 (h_Reserved h) ∧
  in_u 64 (h_Generation h).

(** The bytes of one frame. *)
Definition frame_bytes (hdr : Header) (body : bytes) : bytes :=
  header_bytes (stamp_header hdr body) ++ body.

(** A connection's sender: successive [WriteFrame]s on one writer. *)
Fixpoint WriteFrames `{Writer W} (w : W) (fs : list (Header * bytes)) : result frame_error W :=
  match fs with
  | [] => Ok w
  | (hdr, body) :: fs => let! w := WriteFrame w hdr body in WriteFrames w fs
  end.

(** Its receiver: [n] successive [ReadFrame]s. *)
Fixpoint ReadFrames (n : nat) (r : bytes) : result frame_error (list (Header * bytes) * bytes) :=
  match n with
  | O => Ok ([], r)
  | S n => let! (hdr, body, r) := ReadFrame r in
           let! (fs, r) := ReadFrames n r in Ok ((hdr, body) :: fs, r)
  end.

(** ** Headers *)

Lemma length_header_bytes h : length (header_bytes h) = 52%nat.
Proof. unfold header_bytes. by rewrite !length_app, !length_put_le. Qed.

Lemma parse_header_bytes h : wf_Header h → parse_header (header_bytes h) = h.
Proof.
  intros (?&?&?&?&?&?&?&?&?&?&?).
  change (parse_header (header_bytes h)) with
    (mkHeader (get_le (put_le 4 (h_Magic h))) (get_le (put_le 2 (h_Version h)))
       (get_le (put_le 2 (h_Opcode h))) (get_le (put_le 4 (h_Flags h)))
       (get_le (put_le 4 (h_HeaderLen h))) (get_le (put_le 4 (h_BodyLen h)))
       (get_le (put_le 8 (h_RequestID h))) (get_le (put_le 8 (h_SessionID h)))
       (get_le (put_le 4 (h_Status h))) (get_le (put_le 4 (h_Reserved h)))
       (get_le (put_le 8 (h_Generation h)))).
  rewrite !get_put_le. destruct h; unfold in_u in *; simpl in *.
  f_equal; by apply Z.mod_small.
Qed.

Lemma length_raw_slice raw lo hi :
  (lo ≤ hi ≤ length raw)%nat → length (raw_slice raw lo hi) = (hi - lo)%nat.
Proof. intros. unfold raw_slice. rewrite length_take, length_drop. lia. Qed.

Lemma raw_slice_app raw a b c :
  (a ≤ b ≤ c)%nat → raw_slice raw a b ++ raw_slice raw b c = raw_slice raw a c.
Proof.
  intros. unfold raw_slice. replace (c - a)%nat with ((b - a) + (c - b))%nat by lia.
  rewrite <- take_take_drop, drop_drop. repeat f_equal. lia.
Qed.

Lemma put_get_slice raw lo hi n :
  (lo ≤ hi ≤ length raw)%nat → (hi - lo)%nat = n →
  put_le n (get_le (raw_slice raw lo hi)) = raw_slice raw lo hi.
Proof. intros Hr <-. rewrite <- (length_raw_slice raw lo hi) at 1 by done. apply put_get_le. Qed.

Lemma header_bytes_parse raw : length raw = 52%nat → header_bytes (parse_header raw) = raw.
Proof.
  intros Hlen. unfold header_bytes, parse_header.
  cbn [h_Magic h_Version h_Opcode h_Flags h_HeaderLen h_BodyLen h_RequestID h_SessionID
       h_Status h_Reserved h_Generation].
  repeat rewrite put_get_slice by lia.
  repeat rewrite raw_slice_app by lia.
  unfold raw_slice. rewrite drop_0, take_ge by lia. done.
Qed.

Lemma wf_stamp hdr body : wf_Header hdr → wf_Header (stamp_header hdr body).
Proof.
  intros (?&?&?&?&?&?&?&?&?&?&?). unfold wf_Header, stamp_header; simpl.
  split_and!; try done. unfold in_u, wrap. apply Z.mod_pos_bound. lia.
Qed.

Lemma stamp_BodyLen hdr body :
  Z.of_nat (length body) ≤ MaxFrameBytes →
  h_BodyLen (stamp_header hdr body) = Z.of_nat (length body).
Proof. intros H. change MaxFrameBytes with 1048576 in H. simpl. unfold wrap. rewrite Z.mod_small by lia. done. Qed.

(** ** Reading *)

Lemma ReadFull_app bs rest : ReadFull (bs ++ rest) (length bs) = Ok (bs, rest).
Proof.
  unfold ReadFull. rewrite bool_decide_eq_true_2 by (rewrite length_app; lia).
  by rewrite take_app_length, drop_app_length.
Qed.

Lemma ReadFull_header h rest : ReadFull (header_bytes h ++ rest) 52 = Ok (header_bytes h, rest).
Proof. rewrite <- (length_header_bytes h). apply ReadFull_app. Qed.

Lemma ReadFull_ok r n bs rest : ReadFull r n = Ok (bs, rest) → r = bs ++ rest ∧ length bs = n.
Proof.
  unfold ReadFull. case_bool_decide as Hn.
  - intros [= <- <-]. rewrite take_drop, length_take. split; [done | lia].
  - destruct r; discriminate.
Qed.

Lemma ReadFull_short r n : (length r < n)%nat →
  ReadFull r n = Err (match r with [] => FrameEOF | _ => FrameUnexpectedEOF end).
Proof. intros. unfold ReadFull. rewrite bool_decide_eq_false_2 by lia. by destruct r. Qed.

(** The header of a frame passes every check of [ReadFrame]. *)
Lemma ReadFrame_stamped hdr body r :
  wf_Header hdr → Z.of_nat (length body) ≤ MaxFrameBytes →
  ReadFrame (header_bytes (stamp_header hdr body) ++ r) =
  let! (body, r) := ReadFull r (length body) in Ok (stamp_header hdr body, body, r).
Proof.
  intros Hwf Hlen. unfold ReadFrame. change (Z.to_nat HeaderSize) with 52%nat.
  rewrite ReadFull_header. cbn [rbind].
  rewrite parse_header_bytes by by apply wf_stamp.
  rewrite stamp_BodyLen by done. rewrite Nat2Z.id.
  cbn [h_Magic h_Version h_HeaderLen stamp_header].
  rewrite !(bool_decide_eq_true_2 (_ = _)) by done.
  rewrite bool_decide_eq_false_2 by lia. cbn [negb].
  destruct (ReadFull r (length body)) as [[body' r']|e] eqn:E; [|done].
  cbn [rbind]. apply ReadFull_ok in E as [_ E].
  unfold stamp_header. by rewrite E.
Qed.

Lemma WriteFrame_buffer (w : bytes) hdr body :
  Z.of_nat (length body) ≤ MaxFrameBytes →
  WriteFrame w hdr body = Ok (w ++ frame_bytes hdr body).
Proof.
  intros H. unfold WriteFrame. rewrite bool_decide_eq_false_2 by lia.
  unfold write, buffer_writer, frame_bytes; cbn [rbind].
  destruct body; [by rewrite app_nil_r | by rewrite app_assoc].
Qed.

Lemma ReadFrame_frame hdr body rest :
  wf_Header hdr → Z.of_nat (length body) ≤ MaxFrameBytes →
  ReadFrame (frame_bytes hdr body ++ rest) = Ok (stamp_header hdr body, body, rest).
Proof.
  intros Hwf Hlen. unfold frame_bytes. rewrite <- app_assoc, ReadFrame_stamped by done.
  by rewrite ReadFull_app.
Qed.

(** ** Properties *)

Definition sample_header : Header := mkHeader 0 0 1 0 0 0 1 0 0 0 0.

(** C20: frames written back to back on one connection are read back one by
    one: same order, same bodies, headers as sent with the fields the writer
    fills in, and nothing of the bytes that follow is consumed. *)
Theorem frame_stream_roundtrip (fs : list (Header * bytes)) (w rest : bytes) :
  Forall (λ f, wf_Header f.1 ∧ Z.of_nat (length f.2) ≤ MaxFrameBytes) fs →
  ∃ sent, WriteFrames w fs = Ok (w ++ sent) ∧
    ReadFrames (length fs) (sent ++ rest) =
      Ok ((λ f, (stamp_header f.1 f.2, f.2)) <$> fs, rest).
Proof.
  intros Hfs. revert w. induction Hfs as [|[hdr body] fs [Hwf Hlen] _ IH]; intros w.
  - exists []. simpl. by rewrite app_nil_r.
  - destruct (IH (w ++ frame_bytes hdr body)) as (sent & Hw & Hr).
    exists (frame_bytes hdr body ++ sent). cbn [WriteFrames ReadFrames length fst snd] in *.
    rewrite WriteFrame_buffer by done. cbn [rbind]. rewrite Hw, <- app_assoc.
    split; [done|]. rewrite <- app_assoc, ReadFrame_frame by done. cbn [rbind].
    by rewrite Hr.
Qed.

Lemma frame_stream_roundtrip_witness :
  ∃ sent, WriteFrames [] [(sample_header, []); (sample_header, bytes_of_string "abc")] = Ok ([] ++ sent) ∧
    ReadFrames 2 (sent ++ bytes_of_string "next") =
      Ok ([(stamp_header sample_header [], []);
           (stamp_header sample_header (bytes_of_string "abc"), bytes_of_string "abc")],
          bytes_of_string "next").
Proof.
  apply (frame_stream_roundtrip
    [(sample_header, []); (sample_header, bytes_of_string "abc")] [] (bytes_of_string "next")).
  repeat constructor; done.
Defined.

(** C28: [ReadFrame] accepts nothing but what [WriteFrame] writes: an accepted
    frame has the protocol's magic, version and header length, a body of the
    announced length within the bound, and writing it again yields exactly
    the bytes that were consumed. *)
Theorem frame_accept_canonical (r : bytes) hdr body rest :
  ReadFrame r = Ok (hdr, body, rest) →
  h_Magic hdr = FrameMagic ∧ h_Version hdr = Version1 ∧ h_HeaderLen hdr = HeaderSize ∧
  Z.of_nat (length body) = h_BodyLen hdr ∧ h_BodyLen hdr ≤ MaxFrameBytes ∧
  ∃ used, r = used ++ rest ∧ WriteFrame [] hdr body = Ok used.
Proof.
  unfold ReadFrame. change (Z.to_nat HeaderSize) with 52%nat.
  destruct (ReadFull r 52) as [[raw r1]|] eqn:E1; cbn [rbind]; [|done].
  apply ReadFull_ok in E1 as [-> Hraw].
  repeat (case_bool_decide; cbn [negb]; [|done || idtac]); try done.
  destruct (ReadFull r1 _) as [[body' r2]|] eqn:E2; cbn [rbind]; [|done].
  apply ReadFull_ok in E2 as [-> Hbody]. intros [= <- <- <-].
  assert (0 ≤ h_BodyLen (parse_header raw)) by apply get_le_range.
  split_and!; [done..| lia | lia |].
  exists (raw ++ body'). split; [by rewrite app_assoc|].
  rewrite WriteFrame_buffer by lia. unfold frame_bytes. rewrite app_nil_l. do 2 f_equal.
  rewrite <- (header_bytes_parse raw) at 2 by done. f_equal.
  assert (MaxFrameBytes = 1048576) as HM by done.
  destruct (parse_header raw) eqn:Ep; unfold stamp_header; simpl in *. f_equal; try done.
  unfold wrap. rewrite Z.mod_small; lia.
Qed.

Lemma frame_accept_canonical_witness :
  ∃ used, frame_bytes sample_header (bytes_of_string "abc") ++ [] = used ++ [] ∧
    WriteFrame [] (stamp_header sample_header (bytes_of_string "abc")) (bytes_of_string "abc") = Ok used.
Proof. eapply frame_accept_canonical. vm_compute. reflexivity. Defined.

(** A connection that ends inside a frame never yields a frame: every
    proper prefix of a written frame is refused, as [EOF] when the stream
    ended before the header or exactly between header and body and as
    [ErrUnexpectedEOF] anywhere else. *)
Theorem frame_cut_refused hdr body n :
  wf_Header hdr → Z.of_nat (length body) ≤ MaxFrameBytes →
  (n < length (frame_bytes hdr body))%nat →
  ReadFrame (take n (frame_bytes hdr body)) =
    Err (if bool_decide (n = 0 ∨ n = 52)%nat then FrameEOF else FrameUnexpectedEOF).
Proof.
  intros Hwf Hlen Hn. unfold frame_bytes in *. rewrite length_app, length_header_bytes in Hn.
  rewrite take_app, length_header_bytes.
  destruct (decide (n < 52)%nat) as [Hlt|Hge].
  - replace (n - 52)%nat with 0%nat by lia. rewrite take_0, app_nil_r.
    unfold ReadFrame. change (Z.to_nat HeaderSize) with 52%nat.
    rewrite ReadFull_short by (rewrite length_take, length_header_bytes; lia). cbn [rbind].
    destruct n as [|n]; [done|].
    rewrite bool_decide_eq_false_2 by lia. done.
  - rewrite (take_ge (header_bytes _)) by (rewrite length_header_bytes; lia).
    rewrite ReadFrame_stamped by done.
    rewrite ReadFull_short by (rewrite length_take; lia). cbn [rbind].
    destruct (decide (n = 52)%nat) as [->|Hne].
    + by rewrite Nat.sub_diag, take_0.
    + rewrite bool_decide_eq_false_2 by lia.
      destruct body; simpl in *; [lia|]. by destruct (n - 52)%nat eqn:?; [lia|].
Qed.

Lemma frame_cut_refused_witness :
  ReadFrame (take 54 (frame_bytes sample_header (bytes_of_string "abc"))) = Err FrameUnexpectedEOF.
Proof.
  apply (frame_cut_refused sample_header (bytes_of_string "abc") 54); [| vm_compute; congruence | vm_compute; lia].
  repeat split; done.
Defined.
