(* ===== verification/Sharding.v ===== *)
(** * Placement: rendezvous hashing and shard keys

    Model of internal/sharding/hrw.go (the [HRW] ring) and of
    internal/sharding/key.go (storage identifiers and shard keys).

    [HRW] holds the node list; every method runs under the ring's lock, so a
    method is one function from state to state or result.  A [*pb.NodeInfo]
    slice is a list of [option NodeInfo] ([None] for nil). *)

From stdpp Require Import options.
From S2P Require Import Prelude GoStrings GoHash GoSort.

(** ** Nodes *)

Record Node := mkNode { ID : string; Address : string; Weight : Z; Healthy : bool }.
#[export] Instance Node_eq_dec : EqDecision Node.
Proof. solve_decision. Defined.

(** The fields of [pb.NodeInfo] that the ring reads. *)
Record NodeInfo := mkNodeInfo {
  ni_NodeId : string; ni_Address : string; ni_Weight : Z; ni_Healthy : bool }.

Record HRW := mkHRW { nodes : list Node }.

Definition NewHRW (ns : list Node) : HRW := mkHRW ns.

Definition node_of_info (n : NodeInfo) : Node :=
  mkNode (ni_NodeId n) (ni_Address n) (ni_Weight n) (ni_Healthy n).

(** The conversion loop: nil entries are skipped. *)
Definition convert_nodes (ns : list (option NodeInfo)) : list Node := node_of_info <$> omap id ns.

Definition NewHRWFromProto (ns : list (option NodeInfo)) : HRW := NewHRW (convert_nodes ns).
Definition UpdateNodes (h : HRW) (ns : list Node) : HRW := mkHRW ns.
Definition UpdateNodesFromProto (h : HRW) (ns : list (option NodeInfo)) : HRW :=
  UpdateNodes h (convert_nodes ns).

(** [UpdateNodeHealthFromProto]: the lookup map of the update, later entries
    overwriting earlier ones with the same identifier. *)
Definition incoming_map (ns : list (option NodeInfo)) : gmap string NodeInfo :=
  foldl (λ m n, <[ni_NodeId n := n]> m) ∅ (omap id ns).

(** The loop over the existing nodes, in place, collecting [seen]. *)
Fixpoint update_existing (incoming : gmap string NodeInfo) (seen : gset string) (ns : list Node)
    : list Node * gset string :=
  match ns with
  | [] => ([], seen)
  | n :: ns =>
      match incoming !! ID n with
      | Some info =>
          let '(ns', seen') := update_existing incoming ({[ID n]} ∪ seen) ns in
          (mkNode (ID n) (ni_Address info) (ni_Weight info) (ni_Healthy info) :: ns', seen')
      | None =>
          let '(ns', seen') := update_existing incoming seen ns in
          (mkNode (ID n) (Address n) (Weight n) false :: ns', seen')
      end
  end.

(** The loop that appends the nodes the ring does not have yet. *)
Definition append_new (seen : gset string) (hn : list Node) (n : NodeInfo) : list Node :=
  if bool_decide (ni_NodeId n ∈ seen) then hn
  else if existsb (λ e, bool_decide (ID e = ni_NodeId n)) hn then hn
  else hn ++ [node_of_info n].

Definition UpdateNodeHealthFromProto (h : HRW) (ns : list (option NodeInfo)) : HRW :=
  let '(hn, seen) := update_existing (incoming_map ns) ∅ (nodes h) in
  mkHRW (foldl (append_new seen) hn (omap id ns)).

Fixpoint set_health (nodeID : string) (healthy : bool) (ns : list Node) : list Node * bool :=
  match ns with
  | [] => ([], false)
  | n :: ns =>
      if bool_decide (ID n = nodeID) then (mkNode (ID n) (Address n) (Weight n) healthy :: ns, true)
      else let '(ns', ok) := set_health nodeID healthy ns in (n :: ns', ok)
  end.
Definition SetNodeHealth (h : HRW) (nodeID : string) (healthy : bool) : HRW * bool :=
  let '(ns, ok) := set_health nodeID healthy (nodes h) in (mkHRW ns, ok).

(** [hash * weight] in [uint64]. *)
Definition weighted_score (hash weight : Z) : Z :=
  wrap 64 (hash * (if bool_decide (weight = 0) then 1 else weight)).
Definition computeScore (key : string) (n : Node) : Z :=
  let hash := fnv1a_write (fnv1a_write fnv_offset64 (bytes_of_string key)) (bytes_of_string (ID n)) in
  weighted_score hash (Weight n).

(** One iteration of [GetNode]'s loop on [(bestNode, bestScore)]. *)
Definition better (key : string) (best : option (Node * Z)) (n : Node) : option (Node * Z) :=
  if negb (Healthy n) then best
  else
    let score := computeScore key n in
    match best with
    | None => Some (n, score)
    | Some (_, bestScore) => if bool_decide (score > bestScore) then Some (n, score) else best
    end.
Definition GetNode (h : HRW) (key : string) : option Node := fst <$> foldl (better key) None (nodes h).

Definition GetHealthyNodes (h : HRW) : list Node := filter (λ n, Healthy n = true) (nodes h).
Definition GetAllNodes (h : HRW) : list Node := nodes h.
Definition NodeCount (h : HRW) : nat := length (nodes h).
Definition HealthyNodeCount (h : HRW) : nat :=
  foldl (λ count n, if Healthy n then S count else count) O (nodes h).
Definition GetNodeByID (h : HRW) (nodeID : string) : option Node :=
  snd <$> list_find (λ n, ID n = nodeID) (nodes h).

(** [GetNodes]: [None] where [make([]Node, n)] panics on a negative [n]. *)
Definition GetNodes `{GoSort} (h : HRW) (key : string) (n : Z) : option (list Node) :=
  let candidates := (λ nd, (nd, computeScore key nd)) <$> GetHealthyNodes h in
  let candidates := sort_slice (λ a b, bool_decide (a.2 > b.2)) candidates in
  let n := if bool_decide (n > Z.of_nat (length candidates)) then Z.of_nat (length candidates) else n in
  if bool_decide (n < 0) then None else Some (take (Z.to_nat n) (candidates.*1)).

(** ** Keys *)

Definition GenerateStorageID (displayPath : string) : string :=
  hex_EncodeToString (sha256 (bytes_of_string displayPath)).

Definition BuildShardKey (storageID filePath : string) : string := storageID +:+ ":" +:+ filePath.

(** ** The chosen node *)

(** [n] is the first of the nodes [hs] with the highest score for [key]. *)
Definition first_max (key : string) (hs : list Node) (n : Node) : Prop :=
  ∃ l1 l2, hs = l1 ++ n :: l2 ∧
    Forall (λ m, computeScore key m < computeScore key n) l1 ∧
    Forall (λ m, computeScore key m ≤ computeScore key n) l2.

Lemma first_max_elem key hs n : first_max key hs n → n ∈ hs.
Proof. intros (l1 & l2 & -> & _). rewrite elem_of_app, elem_of_cons. auto. Qed.

Lemma first_max_ge key hs n m :
  first_max key hs n → m ∈ hs → computeScore key m ≤ computeScore key n.
Proof.
  intros (l1 & l2 & -> & H1 & H2). rewrite elem_of_app, elem_of_cons. rewrite Forall_forall in H1, H2.
  intros [H%H1|[->|H%H2]]; lia.
Qed.

Lemma first_max_unique key hs n m : first_max key hs n → first_max key hs m → n = m.
Proof.
  intros Hn Hm.
  pose proof (first_max_ge key hs n m Hn (first_max_elem _ _ _ Hm)) as Hmn.
  pose proof (first_max_ge key hs m n Hm (first_max_elem _ _ _ Hn)) as Hnm.
  destruct Hn as (l1 & l2 & -> & H1 & _), Hm as (k1 & k2 & E & K1 & _).
  rewrite Forall_forall in H1, K1.
  apply app_eq_inv in E as [([|x l] & -> & E)|([|x l] & -> & E)]; injection E as ??; subst; try done.
  - assert (computeScore key x < computeScore key n); [|lia].
    apply H1. rewrite elem_of_app, elem_of_cons. auto.
  - assert (computeScore key x < computeScore key m); [|lia].
    apply K1. rewrite elem_of_app, elem_of_cons. auto.
Qed.

Lemma first_max_snoc key hs n m :
  first_max key hs n →
  first_max key (hs ++ [m]) (if bool_decide (computeScore key m > computeScore key n) then m else n).
Proof.
  intros Hn. pose proof (λ x, first_max_ge key hs n x Hn) as Hge.
  destruct Hn as (l1 & l2 & -> & H1 & H2). case_bool_decide.
  - exists (l1 ++ n :: l2), []. split_and!; [done | | done].
    apply Forall_forall. intros x Hx%Hge. lia.
  - exists l1, (l2 ++ [m]). rewrite <- app_assoc. split_and!; [done..|].
    apply Forall_app; split; [done|]. repeat constructor. lia.
Qed.

Lemma better_unhealthy key best n : Healthy n = false → better key best n = best.
Proof. intros H. unfold better. by rewrite H. Qed.

Lemma fold_better key ns :
  match foldl (better key) None ns with
  | None => filter (λ n, Healthy n = true) ns = []
  | Some (n, s) => first_max key (filter (λ n, Healthy n = true) ns) n ∧ s = computeScore key n
  end.
Proof.
  induction ns as [|m ns IH] using rev_ind; [done|].
  rewrite foldl_snoc, filter_app, filter_cons, filter_nil.
  destruct (Healthy m) eqn:Hm.
  - rewrite decide_True by done. unfold better at 1. rewrite Hm. simpl.
    destruct (foldl (better key) None ns) as [[n s]|].
    + destruct IH as [IH ->]. apply (first_max_snoc key _ n m) in IH.
      by case_bool_decide.
    + rewrite IH. split; [|done]. by exists [], [].
  - rewrite decide_False by congruence. rewrite better_unhealthy, app_nil_r by done. exact IH.
Qed.

(** [GetNode] computes the first healthy node of highest score. *)
Lemma GetNode_Some h key n : GetNode h key = Some n ↔ first_max key (GetHealthyNodes h) n.
Proof.
  unfold GetNode, GetHealthyNodes. pose proof (fold_better key (nodes h)) as H.
  destruct (foldl (better key) None (nodes h)) as [[m s]|]; simpl.
  - destruct H as [H _]. split; [by intros [= <-] | intros Hn; f_equal; by eapply first_max_unique].
  - rewrite H. split; [done|]. by intros ?%first_max_elem%elem_of_nil.
Qed.

Lemma GetNode_None h key : GetNode h key = None ↔ GetHealthyNodes h = [].
Proof.
  unfold GetNode, GetHealthyNodes. pose proof (fold_better key (nodes h)) as H.
  destruct (foldl (better key) None (nodes h)) as [[m s]|]; simpl; [|done].
  split; [done|]. intros E. rewrite E in H. destruct H as [H%first_max_elem%elem_of_nil _]. done.
Qed.

(** The choice among a sub-list that keeps the chosen node is the same. *)
Lemma first_max_sublist key hs hs' n :
  NoDup hs → hs' `sublist_of` hs → n ∈ hs' → first_max key hs n → first_max key hs' n.
Proof.
  intros Hnd Hsub Hin (l1 & l2 & -> & H1 & H2). rewrite Forall_forall in H1, H2.
  apply sublist_app_cons_r in Hsub as [Hsub|(k1 & k2 & -> & Hk1 & Hk2)].
  - exfalso. eapply elem_of_sublist in Hin; [|exact Hsub].
    apply NoDup_app in Hnd as (_ & Hdis & Hnd%NoDup_cons).
    apply elem_of_app in Hin as [Hin|Hin]; [|by destruct Hnd].
    apply (Hdis n Hin). by left.
  - exists k1, k2. split_and!; [done|..]; apply Forall_forall; intros x Hx.
    + apply H1. by eapply elem_of_sublist.
    + apply H2. by eapply elem_of_sublist.
Qed.
