(* ===== verification/ShardingProps.v ===== *)
(** * What placement promises

    Theorems about Sharding.v: which node a key goes to, that the ranking
    does not depend on the order in which a process learnt the nodes or on
    its sorting routine, that a node leaving or joining moves only its own
    keys, what a topology update does to the ring, and that shard keys and
    storage identifiers are unambiguous. *)

From stdpp Require Import options.
From Stdlib Require Import Znumtheory Zpow_facts.
From S2P Require Import Prelude GoStrings GoHash GoSort Sharding.

(** ** Ranking *)

(** Nodes by decreasing score. *)
Definition ranked (key : string) : list Node → Prop :=
  StronglySorted (λ a b, computeScore key b ≤ computeScore key a).

(** No two different nodes of [hs] tie. *)
Definition distinct_scores (key : string) (hs : list Node) : Prop :=
  ∀ x y, x ∈ hs → y ∈ hs → computeScore key x = computeScore key y → x = y.

Definition score_gt (key : string) (a b : Node) : bool :=
  bool_decide (computeScore key b < computeScore key a).

Lemma score_gt_weak key : WeakOrder (score_gt key).
Proof. apply WeakOrder_flip, (WeakOrder_Z (computeScore key)). Qed.

Lemma ranked_sorted_by key l : ranked key l ↔ sorted_by (score_gt key) l.
Proof.
  unfold ranked, sorted_by, score_gt. split; intros H; induction H; constructor; try done;
    (eapply Forall_impl; [done|]); intros y; rewrite bool_decide_eq_false; lia.
Qed.

Section ranking.
  Context `{GoSort} (key : string).

Definition candidates (hs : list Node) : list (Node * Z) :=
  sort_slice (λ a b, bool_decide (a.2 > b.2)) ((λ nd, (nd, computeScore key nd)) <$> hs).

Lemma candidates_perm hs : (candidates hs).*1 ≡ₚ hs.
Proof.
  unfold candidates. rewrite sort_slice_perm, <- list_fmap_compose. by rewrite list_fmap_id.
Qed.

Lemma candidates_score hs c : c ∈ candidates hs → c.2 = computeScore key c.1.
Proof. intros (nd & -> & _)%elem_of_sort_slice%list_elem_of_fmap. done. Qed.

Lemma candidates_ranked hs : ranked key (candidates hs).*1.
Proof.
  pose proof (candidates_score hs) as Hsc.
  assert (sorted_by (λ a b : Node * Z, bool_decide (a.2 > b.2)) (candidates hs)) as Hs.
  { apply sort_slice_sorted.
    split; intros *; rewrite ?bool_decide_eq_true, ?bool_decide_eq_false; lia. }
  revert Hsc Hs. generalize (candidates hs). intros l Hsc Hs.
  induction Hs as [|c l Hs IH Hc]; simpl; constructor.
  - apply IH. intros c' Hc'. apply Hsc. by right.
  - apply Forall_fmap, Forall_forall. intros c' Hc'. rewrite Forall_forall in Hc.
    specialize (Hc c' Hc'). apply bool_decide_eq_false in Hc. simpl.
    rewrite <- (Hsc c), <- (Hsc c') by (by left || by right). lia.
Qed.

Lemma GetNodes_candidates h n : 0 ≤ n →
  GetNodes h key n = Some (take (Z.to_nat n) (candidates (GetHealthyNodes h)).*1).
Proof.
  intros Hn. unfold GetNodes; cbv zeta. fold (candidates (GetHealthyNodes h)).
  set (cs := candidates (GetHealthyNodes h)). destruct (decide (n > Z.of_nat (length cs))) as [Hgt|Hgt];
    [rewrite !(bool_decide_eq_true_2 (n > _)) by done | rewrite !(bool_decide_eq_false_2 (n > _)) by done].
  - rewrite bool_decide_eq_false_2 by lia. rewrite Nat2Z.id.
    rewrite !take_ge; [done | rewrite length_fmap; lia..].
  - by rewrite bool_decide_eq_false_2 by lia.
Qed.

End ranking.

Lemma first_max_intro key hs n :
  distinct_scores key hs → n ∈ hs → (∀ m, m ∈ hs → computeScore key m ≤ computeScore key n) →
  first_max key hs n.
Proof.
  intros Hd (l1 & l2 & -> & Hn)%list_elem_of_split_l Hmax.
  exists l1, l2. split_and!; [done|..]; apply Forall_forall; intros m Hm.
  - assert (m ∈ l1 ++ n :: l2) as Hin by (rewrite elem_of_app; auto).
    specialize (Hmax m Hin). destruct (decide (computeScore key m = computeScore key n)) as [E|]; [|lia].
    apply Hd in E; [by subst | done|]. rewrite elem_of_app, elem_of_cons. auto.
  - apply Hmax. rewrite elem_of_app, elem_of_cons. auto.
Qed.

Lemma ranked_unique key l1 l2 :
  distinct_scores key l1 → ranked key l1 → ranked key l2 → l1 ≡ₚ l2 → l1 = l2.
Proof.
  rewrite !ranked_sorted_by. intros Hd H1 H2. apply (sorted_by_unique (score_gt key)); [apply score_gt_weak| |done..].
  unfold score_gt. intros x y Hx Hy. rewrite !bool_decide_eq_false. intros ??. apply Hd; [done..|lia].
Qed.

Lemma first_max_perm key hs hs' n :
  distinct_scores key hs → hs ≡ₚ hs' → first_max key hs n → first_max key hs' n.
Proof.
  intros Hd Hp Hn. pose proof (first_max_ge key hs n) as Hge. apply first_max_intro.
  - intros x y. rewrite <- Hp. apply Hd.
  - rewrite <- Hp. by eapply first_max_elem.
  - intros m. rewrite <- Hp. auto.
Qed.

(** ** Properties of the ranking *)

(** C26: [GetNodes] returns the best nodes: for every sorting routine, the
    healthy nodes can be listed by decreasing score so that the result is the
    first [n] of the list (all of them when there are fewer); without ties
    its first element is the node [GetNode] chooses. *)
Theorem GetNodes_top `{GoSort} h key n :
  0 ≤ n →
  ∃ all, GetNodes h key n = Some (take (Z.to_nat n) all) ∧
    all ≡ₚ GetHealthyNodes h ∧ ranked key all ∧
    (distinct_scores key (GetHealthyNodes h) → GetNode h key = head all).
Proof.
  intros Hn. exists (candidates key (GetHealthyNodes h)).*1.
  pose proof (candidates_perm key (GetHealthyNodes h)) as Hp.
  pose proof (candidates_ranked key (GetHealthyNodes h)) as Hr.
  split_and!; [by apply GetNodes_candidates | done..|]. intros Hd.
  revert Hp Hr. generalize (candidates key (GetHealthyNodes h)).*1. intros [|x l] Hp Hr; simpl.
  - apply GetNode_None. by apply Permutation_nil_l in Hp.
  - apply GetNode_Some, first_max_intro; [done | rewrite <- Hp; by left|].
    intros m. rewrite <- Hp. inversion_clear Hr as [|?? _ Hx]. rewrite Forall_forall in Hx.
    intros [->|Hm%Hx]%elem_of_cons; [done|lia].
Qed.

(** C39: two processes that know the same nodes, in any order and with any two
    sorting routines, place a key on the same node and rank the replicas the
    same way, as long as no two healthy nodes tie. *)
Theorem placement_agreement (S1 S2 : GoSort) h1 h2 key :
  nodes h1 ≡ₚ nodes h2 → distinct_scores key (GetHealthyNodes h1) →
  GetNode h1 key = GetNode h2 key ∧
  ∀ n, @GetNodes S1 h1 key n = @GetNodes S2 h2 key n.
Proof.
  intros Hp Hd.
  assert (GetHealthyNodes h1 ≡ₚ GetHealthyNodes h2) as Hh by (unfold GetHealthyNodes; by rewrite Hp).
  split.
  - destruct (GetNode h1 key) as [n|] eqn:E; symmetry.
    + apply GetNode_Some in E. apply GetNode_Some. by eapply first_max_perm.
    + apply GetNode_None in E. apply GetNode_None. rewrite E in Hh. by apply Permutation_nil_l in Hh.
  - assert ((@candidates S1 key (GetHealthyNodes h1)).*1 = (@candidates S2 key (GetHealthyNodes h2)).*1) as E.
    { apply (ranked_unique key); [|apply candidates_ranked..|by rewrite !candidates_perm].
      intros x y. rewrite !candidates_perm. apply Hd. }
    intros n. destruct (decide (0 ≤ n)) as [Hn|Hn].
    + rewrite !GetNodes_candidates by done. by rewrite E.
    + unfold GetNodes; cbv zeta. by rewrite !(bool_decide_eq_false_2 (n > _)), !bool_decide_eq_true_2 by lia.
Qed.

(** ** Membership changes *)

Lemma set_health_notin x b ns : x ∉ ID <$> ns → set_health x b ns = (ns, false).
Proof.
  induction ns as [|n ns IH]; [done|]. rewrite fmap_cons, not_elem_of_cons. intros [Hx Hns]. simpl.
  rewrite bool_decide_eq_false_2 by congruence. by rewrite IH.
Qed.

(** Marking a node down removes it, and nothing else, from the healthy ones. *)
Lemma set_health_down x ns :
  NoDup (ID <$> ns) →
  filter (λ n, Healthy n = true) (set_health x false ns).1 =
  filter (λ n, ID n ≠ x) (filter (λ n, Healthy n = true) ns).
Proof.
  induction ns as [|n ns IH]; [done|]. rewrite fmap_cons. intros [Hn Hnd]%NoDup_cons. simpl.
  specialize (IH Hnd). case_bool_decide as Hx; simpl.
  - subst x. rewrite filter_cons_False by done.
    assert (filter (λ m, ID m ≠ ID n) (filter (λ m, Healthy m = true) ns) =
            filter (λ m, Healthy m = true) ns) as E.
    { rewrite <- IH. by rewrite set_health_notin. }
    rewrite filter_cons. destruct (decide (Healthy n = true)); [|done].
    by rewrite filter_cons_False by (intros ?; done).
  - destruct (set_health x false ns) as [ns' ok]; simpl in *.
    rewrite !(filter_cons (λ m, Healthy m = true)). destruct (decide (Healthy n = true)); [|done].
    by rewrite filter_cons_True, IH by done.
Qed.

Lemma NoDup_nodes (ns : list Node) : NoDup (ID <$> ns) → NoDup ns.
Proof. apply NoDup_fmap_1. Qed.

Lemma NoDup_healthy h : NoDup (ID <$> nodes h) → NoDup (GetHealthyNodes h).
Proof. intros H. unfold GetHealthyNodes. by apply NoDup_filter, NoDup_nodes. Qed.

Lemma filter_sublist_of {A} (P : A → Prop) `{∀ x, Decision (P x)} (l k : list A) :
  l `sublist_of` k → filter P l `sublist_of` filter P k.
Proof.
  induction 1 as [|x l k _ IH|x l k _ IH]; [done|..]; rewrite ?filter_cons; case_decide;
    first [done | by apply sublist_skip | by apply sublist_cons].
Qed.

(** C10: rendezvous hashing moves as little as possible.  When nodes are
    removed from the ring, or one is marked unhealthy, a key whose node stays
    keeps its node; when a node joins, a key either stays where it was or
    moves to the new node. *)
Theorem placement_minimal_disruption h key :
  NoDup (ID <$> nodes h) →
  (∀ ns n, ns `sublist_of` nodes h → GetNode h key = Some n → n ∈ ns →
     GetNode (UpdateNodes h ns) key = Some n) ∧
  (∀ x n, GetNode h key = Some n → ID n ≠ x →
     GetNode (SetNodeHealth h x false).1 key = Some n) ∧
  (∀ x, GetNode (UpdateNodes h (nodes h ++ [x])) key = GetNode h key ∨
        GetNode (UpdateNodes h (nodes h ++ [x])) key = Some x).
Proof.
  intros Hnd. pose proof (NoDup_healthy h Hnd) as Hndh. split_and!.
  - intros ns n Hsub Hn Hin. apply GetNode_Some in Hn. apply GetNode_Some.
    eapply first_max_sublist; [done | | |done]; unfold GetHealthyNodes; simpl.
    + by apply filter_sublist_of.
    + apply list_elem_of_filter. split; [|done].
      apply first_max_elem in Hn. by apply list_elem_of_filter in Hn as [Hh _].
  - intros x n Hn Hx. apply GetNode_Some in Hn. apply GetNode_Some.
    unfold SetNodeHealth. pose proof (set_health_down x (nodes h) Hnd) as Hd.
    destruct (set_health x false (nodes h)) as [ns ok]. unfold GetHealthyNodes at 1; simpl in *.
    rewrite Hd. eapply first_max_sublist; [done | apply sublist_filter | | done].
    apply list_elem_of_filter. split; [done | by eapply first_max_elem].
  - intros x. unfold UpdateNodes, GetNode; simpl. rewrite foldl_snoc.
    destruct (foldl (better key) None (nodes h)) as [[n s]|]; unfold better; destruct (Healthy x); simpl; auto.
    case_bool_decide; auto.
Qed.

(** ** Topology updates *)

Definition refreshed (incoming : gmap string NodeInfo) (n : Node) : Node :=
  match incoming !! ID n with
  | Some info => mkNode (ID n) (ni_Address info) (ni_Weight info) (ni_Healthy info)
  | None => mkNode (ID n) (Address n) (Weight n) false
  end.

Lemma ID_refreshed inc n : ID (refreshed inc n) = ID n.
Proof. unfold refreshed. by destruct (inc !! ID n). Qed.

Lemma IDs_refreshed inc (ns : list Node) : ID <$> (refreshed inc <$> ns) = ID <$> ns.
Proof. rewrite <- list_fmap_compose. apply list_fmap_ext. intros ???. apply ID_refreshed. Qed.

Lemma update_existing_spec inc seen ns :
  (update_existing inc seen ns).1 = refreshed inc <$> ns ∧
  (update_existing inc seen ns).2 ⊆ seen ∪ list_to_set (ID <$> ns).
Proof.
  revert seen. induction ns as [|n ns IH]; intros seen; [set_solver|].
  rewrite fmap_cons. simpl. unfold refreshed at 1. destruct (inc !! ID n) as [info|].
  - specialize (IH ({[ID n]} ∪ seen)). destruct (update_existing _ _ ns). simpl in *.
    destruct IH as [-> IH]. split; [done|set_solver].
  - specialize (IH seen). destruct (update_existing _ _ ns). simpl in *.
    destruct IH as [-> IH]. split; [done|set_solver].
Qed.

(** [find_id] is [GetNodeByID] on a list. *)
Definition find_id (x : string) (ns : list Node) : option Node := snd <$> list_find (λ n, ID n = x) ns.

Lemma find_id_cons x n ns : find_id x (n :: ns) = if decide (ID n = x) then Some n else find_id x ns.
Proof. unfold find_id. simpl. case_decide; [done|]. by destruct (list_find _ ns) as [[]|]. Qed.

Lemma find_id_None x ns : find_id x ns = None ↔ x ∉ ID <$> ns.
Proof.
  induction ns as [|n ns IH]; [split; [intros _; apply not_elem_of_nil|done]|].
  rewrite find_id_cons, fmap_cons, not_elem_of_cons. case_decide; [split; [done|by intros []]|].
  rewrite IH. split; [by split | by intros []].
Qed.

Lemma find_id_app x l k : find_id x (l ++ k) = find_id x l ∪ find_id x k.
Proof.
  induction l as [|n l IH]; [by rewrite app_nil_l; destruct (find_id x k)|].
  rewrite <- app_comm_cons, !find_id_cons. case_decide; [by destruct (find_id x k)|done].
Qed.

Lemma find_id_refreshed inc x (ns : list Node) : find_id x (refreshed inc <$> ns) = refreshed inc <$> find_id x ns.
Proof.
  induction ns as [|n ns IH]; [done|]. rewrite fmap_cons, !find_id_cons, ID_refreshed.
  by case_decide.
Qed.

(** When every node in [seen] is in the ring, appending adds exactly the
    entries whose identifier the ring lacks. *)
Lemma append_new_eq seen hn n :
  (∀ x, x ∈ seen → x ∈ ID <$> hn) →
  append_new seen hn n = if decide (ni_NodeId n ∈ ID <$> hn) then hn else hn ++ [node_of_info n].
Proof.
  intros Hseen. unfold append_new. case_bool_decide as Hs.
  - rewrite decide_True; [done | by apply Hseen].
  - destruct (existsb _ hn) eqn:E; case_decide as Hin; try done.
    + apply existsb_exists in E as (e & He & Hid%bool_decide_eq_true). destruct Hin.
      rewrite <- Hid. apply list_elem_of_fmap_2. by apply list_elem_of_In.
    + apply list_elem_of_fmap in Hin as (e & Hid & He). apply not_true_iff_false in E. destruct E.
      apply existsb_exists. exists e. split; [by apply list_elem_of_In|]. by apply bool_decide_eq_true.
Qed.

Lemma fold_append seen hn infos :
  (∀ x, x ∈ seen → x ∈ ID <$> hn) → NoDup (ID <$> hn) →
  let hn' := foldl (append_new seen) hn infos in
  hn `prefix_of` hn' ∧ NoDup (ID <$> hn') ∧
  ∀ x, find_id x hn' = find_id x hn ∪ find_id x (node_of_info <$> infos).
Proof.
  revert hn. induction infos as [|i infos IH]; intros hn Hseen Hnd.
  { simpl. split_and!; [done..|]. intros x. by destruct (find_id x hn). }
  cbn [foldl]. rewrite append_new_eq by done. rewrite fmap_cons. case_decide as Hin.
  - destruct (IH hn Hseen Hnd) as (Hp & Hn & Hf). split_and!; [done..|].
    intros x. rewrite Hf, find_id_cons. case_decide as Hid; [|done]. simpl in Hid. subst x.
    destruct (find_id (ni_NodeId i) hn) eqn:E; [by rewrite !union_Some_l|]. by apply find_id_None in E.
  - destruct (IH (hn ++ [node_of_info i])) as (Hp & Hn & Hf).
    + intros x Hx. rewrite fmap_app, elem_of_app. left. by apply Hseen.
    + rewrite fmap_app. apply NoDup_app. split_and!; [done| |apply NoDup_singleton].
      intros x Hx ->%list_elem_of_singleton. done.
    + split_and!; [|done|].
      * etrans; [|exact Hp]. by eexists.
      * intros x. rewrite Hf, find_id_app, !find_id_cons.
        change (find_id x []) with (@None Node).
        destruct (find_id x hn), (find_id x (node_of_info <$> infos)); by case_decide.
Qed.

(** a topology update keeps the ring's order and appends what is new.
    Identifiers stay unique; a node the update names carries the update's
    data, a node it does not name stays in place and becomes unhealthy, and a
    new node is appended as its first entry describes it. *)
Theorem UpdateNodeHealth_spec h ns :
  NoDup (ID <$> nodes h) →
  let h' := UpdateNodeHealthFromProto h ns in
  (ID <$> nodes h) `prefix_of` (ID <$> nodes h') ∧
  NoDup (ID <$> nodes h') ∧
  ∀ x, GetNodeByID h' x =
    match GetNodeByID h x, incoming_map ns !! x with
    | Some n, Some info => Some (mkNode x (ni_Address info) (ni_Weight info) (ni_Healthy info))
    | Some n, None => Some (mkNode x (Address n) (Weight n) false)
    | None, _ => GetNodeByID (NewHRWFromProto ns) x
    end.
Proof.
  intros Hnd. unfold UpdateNodeHealthFromProto.
  destruct (update_existing_spec (incoming_map ns) ∅ (nodes h)) as [E1 E2].
  destruct (update_existing (incoming_map ns) ∅ (nodes h)) as [hn seen]. simpl in E1, E2. subst hn.
  destruct (fold_append seen (refreshed (incoming_map ns) <$> nodes h) (omap id ns)) as (Hp & Hn & Hf).
  { rewrite IDs_refreshed. set_solver. }
  { by rewrite IDs_refreshed. }
  cbn [nodes]. split_and!; [|done|].
  - rewrite <- (IDs_refreshed (incoming_map ns)). destruct Hp as [k ->]. rewrite fmap_app. by eexists.
  - intros x. specialize (Hf x). rewrite find_id_refreshed in Hf.
    unfold GetNodeByID; cbn [nodes]; fold (find_id x (nodes h)). etrans; [exact Hf|].
    destruct (find_id x (nodes h)) as [n|] eqn:E.
    + assert (ID n = x) as Hid.
      { unfold find_id in E. apply fmap_Some in E as ([i m] & E & ->).
        by apply list_find_Some in E as (_ & ? & _). }
      simpl. rewrite union_Some_l. unfold refreshed. rewrite Hid. by destruct (incoming_map ns !! x).
    + simpl. unfold NewHRWFromProto, NewHRW, convert_nodes; simpl. fold (find_id x (node_of_info <$> omap id ns)).
      by destruct (find_id x (node_of_info <$> omap id ns)).
Qed.

(** ** Weights *)

Lemma odd_inverse w : Z.odd w = true → ∃ u v, u * w + v * 2 ^ 64 = 1.
Proof.
  intros Hw. apply Z.gcd_bezout, Zgcd_1_rel_prime, rel_prime_Zpower_r; [done|].
  apply Zgcd_1_rel_prime. rewrite Z.gcd_comm, <- Z.gcd_mod by lia. by rewrite Zmod_odd, Hw.
Qed.

(** the score is [hash * weight] modulo 2^64, and for an odd weight this
    is a permutation of the 64-bit hashes: every score is reached from
    exactly one hash.  A node's scores are thus spread over the 64-bit range
    the same way whatever its odd weight is, so that a larger weight does not
    enlarge the share of keys the node receives. *)
Theorem odd_weight_permutes_scores w :
  in_u 64 w → Z.odd w = true →
  ∀ s, in_u 64 s → ∃ hash, in_u 64 hash ∧ weighted_score hash w = s ∧
    ∀ hash', in_u 64 hash' → weighted_score hash' w = s → hash' = hash.
Proof.
  intros _ Hodd s Hs. destruct (odd_inverse w Hodd) as (u & v & Huv).
  unfold weighted_score. rewrite bool_decide_eq_false_2 by (by intros ->).
  unfold wrap, in_u in *. exists ((s * u) `mod` 2 ^ 64).
  split_and!; [apply Z.mod_pos_bound; lia.. | |].
  - rewrite Z.mul_mod_idemp_l by lia. replace (s * u * w) with (s + (- s * v) * 2 ^ 64) by nia.
    rewrite Z.mod_add by lia. by apply Z.mod_small.
  - intros h' Hh' <-. rewrite Z.mul_mod_idemp_l by lia.
    replace (h' * w * u) with (h' + (- h' * v) * 2 ^ 64) by nia.
    rewrite Z.mod_add by lia. symmetry. by apply Z.mod_small.
Qed.

Lemma odd_weight_permutes_scores_witness :
  ∃ hash, in_u 64 hash ∧ weighted_score hash 3 = 7 ∧
    ∀ hash', in_u 64 hash' → weighted_score hash' 3 = 7 → hash' = hash.
Proof. apply (odd_weight_permutes_scores 3); done. Defined.

(** ** Keys *)

Lemma GenerateStorageID_length dp : String.length (GenerateStorageID dp) = 64%nat.
Proof.
  unfold GenerateStorageID, hex_EncodeToString.
  by rewrite <- length_bytes_of_string, bytes_of_string_of_bytes, length_hex_encode, length_sha256.
Qed.

Lemma GenerateStorageID_no_colon dp : has_byte ":" (GenerateStorageID dp) = false.
Proof.
  apply not_true_is_false. unfold GenerateStorageID, hex_EncodeToString.
  rewrite has_byte_elem, bytes_of_string_of_bytes. intros H.
  pose proof (hex_encode_is_hex (sha256 (bytes_of_string dp))) as Hh. rewrite Forall_forall in Hh.
  apply Hh in H. destruct H as [H|H]; vm_compute in H; intuition congruence.
Qed.

Lemma GenerateStorageID_inj dp dp' :
  GenerateStorageID dp = GenerateStorageID dp' → sha256 (bytes_of_string dp) = sha256 (bytes_of_string dp').
Proof.
  unfold GenerateStorageID, hex_EncodeToString. intros H. apply (f_equal bytes_of_string) in H.
  rewrite !bytes_of_string_of_bytes in H. by apply hex_encode_inj.
Qed.

Lemma BuildShardKey_inj s1 s2 f1 f2 :
  has_byte ":" s1 = false → has_byte ":" s2 = false →
  BuildShardKey s1 f1 = BuildShardKey s2 f2 → s1 = s2 ∧ f1 = f2.
Proof.
  unfold BuildShardKey. intros H1 H2 E. apply (f_equal (λ s, Split s ":")) in E.
  rewrite !(Split_app _ _ ":"%char) in E by done. injection E as -> E. split; [done|].
  by rewrite <- (Join_Split f1 ":"), E, Join_Split.
Qed.

(** ** Witnesses *)

Definition sample_ring : HRW := NewHRW
  [mkNode "node-a" "10.0.0.1:9000" 1 true; mkNode "node-b" "10.0.0.2:9000" 2 true;
   mkNode "node-c" "10.0.0.3:9000" 1 false].

Lemma sample_ring_distinct : distinct_scores "k" (GetHealthyNodes sample_ring).
Proof.
  change (GetHealthyNodes sample_ring) with
    [mkNode "node-a" "10.0.0.1:9000" 1 true; mkNode "node-b" "10.0.0.2:9000" 2 true].
  intros x y. rewrite !elem_of_cons, !elem_of_nil. intros [->|[->|[]]] [->|[->|[]]]; vm_compute; congruence.
Qed.

Lemma sample_ring_NoDup : NoDup (ID <$> nodes sample_ring).
Proof. apply (bool_decide_unpack _). vm_compute. exact I. Qed.

Lemma GetNodes_top_witness :
  ∃ all, @GetNodes go_insertion_sort sample_ring "k" 1 = Some (take 1 all) ∧
    all ≡ₚ GetHealthyNodes sample_ring ∧ ranked "k" all ∧
    (distinct_scores "k" (GetHealthyNodes sample_ring) → GetNode sample_ring "k" = head all).
Proof. apply (@GetNodes_top go_insertion_sort sample_ring "k" 1). lia. Defined.

Lemma placement_agreement_witness :
  GetNode sample_ring "k" = GetNode (NewHRW (rev (nodes sample_ring))) "k".
Proof.
  apply (placement_agreement go_insertion_sort go_insertion_sort sample_ring (NewHRW (rev (nodes sample_ring))) "k").
  - apply Permutation_rev.
  - apply sample_ring_distinct.
Defined.

Lemma placement_minimal_disruption_witness :
  GetNode sample_ring "k" = Some (mkNode "node-b" "10.0.0.2:9000" 2 true) ∧
  GetNode (SetNodeHealth sample_ring "node-a" false).1 "k" = Some (mkNode "node-b" "10.0.0.2:9000" 2 true).
Proof.
  split; [vm_compute; reflexivity|].
  apply (placement_minimal_disruption sample_ring "k" sample_ring_NoDup); [vm_compute; reflexivity | done].
Defined.

Lemma UpdateNodeHealth_spec_witness :
  GetNodeByID (UpdateNodeHealthFromProto sample_ring [Some (mkNodeInfo "node-a" "10.0.0.9:9000" 5 true); None]) "node-b" =
  Some (mkNode "node-b" "10.0.0.2:9000" 2 false).
Proof.
  destruct (UpdateNodeHealth_spec sample_ring [Some (mkNodeInfo "node-a" "10.0.0.9:9000" 5 true); None]
              sample_ring_NoDup) as (_ & _ & H).
  rewrite H. vm_compute. reflexivity.
Defined.
