(* ===== verification/Monopath.v ===== *)
(** * Paths: package monopath

    Model of internal/monopath/path.go: how a user-visible path splits into
    the display path of a mounted namespace and a file path inside it, and
    how both become a shard key.  [None] is the source's [ok = false]. *)

From stdpp Require Import options.
From S2P Require Import Prelude GoStrings GoHash Sharding ShardingProps.

Definition SplitDisplayPath (fullPath : string) : option (string * string) :=
  if bool_decide (fullPath = "" ∨ fullPath = "/") then None
  else
    let trimmed := Trim fullPath slash in
    if bool_decide (trimmed = "") then None
    else
      let parts := Split trimmed slash in
      let first := default "" (head parts) in
      if bool_decide (first = "dependency" ∨ first = "guardian-system") then
        Some (first, if bool_decide (1 < length parts)%nat then Join (drop 1 parts) "/" else "")
      else if bool_decide (first = "guardian" ∨ first = "doctor") then
        if bool_decide (length parts < 2)%nat then None
        else Some (Join (take 2 parts) "/",
                   if bool_decide (2 < length parts)%nat then Join (drop 2 parts) "/" else "")
      else
        if bool_decide (length parts < 3)%nat then None
        else Some (Join (take 3 parts) "/",
                   if bool_decide (3 < length parts)%nat then Join (drop 3 parts) "/" else "").

Definition BuildShardKey (fullPath : string) : string :=
  if bool_decide (fullPath = "" ∨ fullPath = "/") then fullPath
  else
    match SplitDisplayPath fullPath with
    | None => fullPath
    | Some (displayPath, filePath) =>
        let storageID := GenerateStorageID displayPath in
        if bool_decide (filePath = "") then storageID
        else Sharding.BuildShardKey storageID filePath
    end.


(** ** Splitting *)

(** The path a split describes. *)
Definition rejoin (d : string * string) : string :=
  if bool_decide (d.2 = "") then d.1 else d.1 +:+ "/" +:+ d.2.

Lemma SplitDisplayPath_Trim p : SplitDisplayPath p = SplitDisplayPath (Trim p slash).
Proof.
  unfold SplitDisplayPath. rewrite Trim_idem.
  destruct (decide (Trim p slash = "")) as [E|E].
  - rewrite E. simpl. by repeat case_bool_decide.
  - rewrite (bool_decide_eq_false_2 (p = "" ∨ p = "/")) by (intros [->| ->]; by apply E).
    rewrite (bool_decide_eq_false_2 (Trim p slash = "" ∨ Trim p slash = "/")); [done|].
    intros [?|E']; [done|]. destruct (Trim_ends p slash) as [H _]. by rewrite E' in H.
Qed.

(** The two halves of the parts of a trimmed path. *)
Definition cut (k : nat) (parts : list string) : string * string :=
  (Join (take k parts) "/", if bool_decide (k < length parts)%nat then Join (drop k parts) "/" else "").

Lemma rejoin_cut p k :
  (0 < k ≤ length (Split (Trim p slash) slash))%nat →
  rejoin (cut k (Split (Trim p slash) slash)) = Trim p slash.
Proof.
  intros Hk. pose proof (Join_Split (Trim p slash) slash) as HJ. revert Hk HJ. unfold rejoin, cut; simpl.
  generalize (Split (Trim p slash) slash). intros parts Hk HJ. bool_case (k < length parts)%nat as Hlt.
  - assert (drop k parts ≠ []) as Hd by (intros E%(f_equal length); rewrite length_drop in E; simpl in E; lia).
    assert (take k parts ≠ []) as Ht by (intros E%(f_equal length); rewrite length_take in E; simpl in E; lia).
    case_bool_decide as E; [exfalso|by rewrite <- Join_app, take_drop by done].
    destruct (Trim_ends p slash) as [_ H]. rewrite <- HJ in H. rewrite <- (take_drop k parts) in H.
    rewrite Join_app, E, str_app_nil_r in H by done.
    by rewrite (proj2 (HasSuffix_spec _ _)) in H by by eexists.
  - rewrite bool_decide_eq_true_2, take_ge by (done || lia). done.
Qed.

Lemma SplitDisplayPath_cut p d :
  SplitDisplayPath p = Some d →
  ∃ k, (0 < k ≤ length (Split (Trim p slash) slash))%nat ∧ d = cut k (Split (Trim p slash) slash).
Proof.
  unfold SplitDisplayPath. pose proof (Split_ne (Trim p slash) slash) as Hne. revert Hne.
  generalize (Split (Trim p slash) slash). intros parts Hne.
  assert (0 < length parts)%nat by (destruct parts; simpl; [done | lia]).
  destruct (bool_decide (p = "" ∨ p = "/")); [done|].
  destruct (bool_decide (Trim p slash = "")); [done|].
  destruct (bool_decide (_ = "dependency" ∨ _)).
  { intros [= <-]. exists 1%nat. split; [lia|]. by destruct parts. }
  destruct (bool_decide (_ = "guardian" ∨ _)).
  - bool_case (length parts < 2)%nat as H2; [done|]. intros [= <-]. exists 2%nat. split; [lia|done].
  - bool_case (length parts < 3)%nat as H3; [done|]. intros [= <-]. exists 3%nat. split; [lia|done].
Qed.

(** splitting a path into display path and file path loses nothing but
    the slashes around it: the two parts joined are the trimmed path, and
    splitting them again gives the same parts. *)
Theorem split_display_path p d :
  SplitDisplayPath p = Some d →
  rejoin d = Trim p slash ∧ SplitDisplayPath (rejoin d) = Some d.
Proof.
  intros H. destruct (SplitDisplayPath_cut p d H) as (k & Hk & ->).
  rewrite rejoin_cut by done. split; [done|]. by rewrite <- SplitDisplayPath_Trim.
Qed.

Lemma split_display_path_witness :
  rejoin ("github.com/acme/app", "cmd/main.go") = Trim "/github.com/acme/app/cmd/main.go/" slash ∧
  SplitDisplayPath (rejoin ("github.com/acme/app", "cmd/main.go")) = Some ("github.com/acme/app", "cmd/main.go").
Proof. apply (split_display_path "/github.com/acme/app/cmd/main.go/"). vm_compute. reflexivity. Defined.

Lemma rejoin_of_split p d : SplitDisplayPath p = Some d → rejoin d = Trim p slash.
Proof. intros (k & Hk & ->)%SplitDisplayPath_cut. by apply rejoin_cut. Qed.

(** The key of a path that splits. *)
Lemma BuildShardKey_split p dp fp :
  SplitDisplayPath p = Some (dp, fp) →
  BuildShardKey p =
    if bool_decide (fp = "") then GenerateStorageID dp
    else Sharding.BuildShardKey (GenerateStorageID dp) fp.
Proof.
  intros H. unfold BuildShardKey. rewrite H. bool_case (p = "" ∨ p = "/") as Hp; [|done].
  exfalso. revert H. unfold SplitDisplayPath. by rewrite bool_decide_eq_true_2.
Qed.

Lemma shard_key_parts dp fp dq fq :
  (if bool_decide (fp = "") then GenerateStorageID dp else Sharding.BuildShardKey (GenerateStorageID dp) fp) =
  (if bool_decide (fq = "") then GenerateStorageID dq else Sharding.BuildShardKey (GenerateStorageID dq) fq) →
  GenerateStorageID dp = GenerateStorageID dq ∧ fp = fq.
Proof.
  pose proof (GenerateStorageID_no_colon dp) as Hp. pose proof (GenerateStorageID_no_colon dq) as Hq.
  assert (∀ s f, has_byte ":" (Sharding.BuildShardKey s f) = true) as Hk.
  { intros s f. unfold Sharding.BuildShardKey. rewrite !has_byte_app. apply orb_true_r. }
  repeat case_bool_decide; subst; intros E.
  - done.
  - rewrite E in Hp. by rewrite Hk in Hp.
  - rewrite <- E in Hq. by rewrite Hk in Hq.
  - by apply BuildShardKey_inj in E.
Qed.

(** The shard key identifies the file: two paths inside mounted
    namespaces whose display paths do not collide under SHA-256 have the same
    shard key exactly when they are the same path up to slashes around it. *)
Theorem shard_key_identifies_file p q dp fp dq fq :
  SplitDisplayPath p = Some (dp, fp) → SplitDisplayPath q = Some (dq, fq) →
  (sha256 (bytes_of_string dp) = sha256 (bytes_of_string dq) → dp = dq) →
  BuildShardKey p = BuildShardKey q ↔ Trim p slash = Trim q slash.
Proof.
  intros Hp Hq Hcol. rewrite (BuildShardKey_split p dp fp), (BuildShardKey_split q dq fq) by done.
  split.
  - rewrite <- (rejoin_of_split _ _ Hp), <- (rejoin_of_split _ _ Hq).
    intros [Hs ->]%shard_key_parts. apply GenerateStorageID_inj in Hs. by rewrite Hcol.
  - intros E. rewrite SplitDisplayPath_Trim, E, <- SplitDisplayPath_Trim, Hq in Hp.
    by injection Hp as -> ->.
Qed.

Lemma shard_key_identifies_file_witness :
  BuildShardKey "guardian/prod/a" = BuildShardKey "/doctor/logs" ↔
  Trim "guardian/prod/a" slash = Trim "/doctor/logs" slash.
Proof.
  apply (shard_key_identifies_file "guardian/prod/a" "/doctor/logs" "guardian/prod" "a" "doctor/logs" "");
    [vm_compute; reflexivity.. | vm_compute; discriminate].
Defined.
