(* ===== verification/Merge3.v ===== *)
(** * Three-way merge

    Model of internal/fuse/merge3.go: the line-based three-way merge that
    reconciles a session's local changes with refreshed upstream content.

    The longest-matching-blocks routine is the third-party package difflib;
    it is the class [Difflib], which states what that package documents of
    [GetMatchingBlocks] and of [Ratio].  Slice expressions are checked:
    [None] is a Go panic. *)

From stdpp Require Import options.
From S2P Require Import Prelude GoStrings.

Definition nl : string := str1 newline.

Abbreviation mergeConflictStart := "<<<<<<< MONOFS-LOCAL" (only parsing).
Abbreviation mergeConflictBase := "||||||| BASE" (only parsing).
Abbreviation mergeConflictSep := "=======" (only parsing).
Abbreviation mergeConflictEnd := ">>>>>>> MONOFS-UPSTREAM" (only parsing).

(** ** Slices *)

(** [l[lo:hi]]. *)
Definition zslice {A} (l : list A) (lo hi : Z) : option (list A) :=
  if bool_decide (0 ≤ lo ∧ lo ≤ hi ∧ hi ≤ Z.of_nat (length l))
  then Some (take (Z.to_nat (hi - lo)) (drop (Z.to_nat lo) l))
  else None.

(** The [n] elements of [l] from [i] on. *)
Definition sub {A} (l : list A) (i n : Z) : list A := take (Z.to_nat n) (drop (Z.to_nat i) l).

(** ** difflib *)

Record Match := mkMatch { mA : Z; mB : Z; mSize : Z }.

(** Triples [(i, j, n)] with [a[i:i+n] == b[j:j+n]], increasing in [i] and in
    [j], from positions [pa] and [pb] on. *)
Fixpoint valid_blocks (a b : list string) (pa pb : Z) (ms : list Match) : Prop :=
  match ms with
  | [] => True
  | m :: ms =>
      pa ≤ mA m ∧ pb ≤ mB m ∧ 0 ≤ mSize m ∧
      mA m + mSize m ≤ Z.of_nat (length a) ∧ mB m + mSize m ≤ Z.of_nat (length b) ∧
      sub a (mA m) (mSize m) = sub b (mB m) (mSize m) ∧
      valid_blocks a b (mA m + mSize m) (mB m + mSize m) ms
  end.

Definition total_size (ms : list Match) : Z := foldr (λ m n, mSize m + n) 0 ms.

(** [blocks_identical]: the documented ratio [2 M / T] of the number of
    matched elements to the total length is 1 for identical sequences. *)
Class Difflib := {
  GetMatchingBlocks : list string → list string → list Match;
  blocks_valid a b : valid_blocks a b 0 0 (GetMatchingBlocks a b);
  blocks_identical a : total_size (GetMatchingBlocks a a) = Z.of_nat (length a) }.

(** ** Lines *)

(** [splitLines]: the parts around newlines, each but the last with its
    newline put back, an empty tail dropped. *)
Fixpoint relines (parts : list string) : list string :=
  match parts with
  | [] => []
  | [tail] => if bool_decide (tail = "") then [] else [tail]
  | p :: ps => (p +:+ nl) :: relines ps
  end.
Definition splitLines (content : string) : list string :=
  if bool_decide (content = "") then [] else relines (Split content newline).

Fixpoint equalLines (a b : list string) : bool :=
  match a, b with
  | [], [] => true
  | x :: a, y :: b => bool_decide (x = y) && equalLines a b
  | _, _ => false
  end.

Definition conflictRegion (base ours theirs : list string) : list string :=
  [mergeConflictStart +:+ nl] ++ ours ++ [mergeConflictBase +:+ nl] ++ base ++
  [mergeConflictSep +:+ nl] ++ theirs ++ [mergeConflictEnd +:+ nl].

(** The lines and the number of conflicts of one region. *)
Definition mergeUnsyncedRegion (base ours theirs : list string) : list string * nat :=
  let oursChanged := negb (equalLines base ours) in
  let theirsChanged := negb (equalLines base theirs) in
  if negb oursChanged && negb theirsChanged then (base, O)
  else if negb oursChanged then (theirs, O)
  else if negb theirsChanged then (ours, O)
  else if equalLines ours theirs then (ours, O)
  else (conflictRegion base ours theirs, 1%nat).

(** ** Synchronised regions *)

Record syncRegion := mkRegion {
  BaseStart : Z; BaseEnd : Z; OursStart : Z; OursEnd : Z; TheirsStart : Z; TheirsEnd : Z }.

(** The intersection of two blocks, if it is not empty. *)
Definition intersect (om tm : Match) : list syncRegion :=
  let start := Z.max (mA om) (mA tm) in
  let end_ := Z.min (mA om + mSize om) (mA tm + mSize tm) in
  if bool_decide (end_ > start) then
    [mkRegion start end_
       (mB om + (start - mA om)) (mB om + (end_ - mA om))
       (mB tm + (start - mA tm)) (mB tm + (end_ - mA tm))]
  else [].

(** The loop over both block lists: advance the one whose block ends first. *)
Fixpoint sync_loop (oms : list Match) : list Match → list syncRegion :=
  match oms with
  | [] => λ _, []
  | om :: oms' =>
      fix inner (tms : list Match) : list syncRegion :=
        match tms with
        | [] => []
        | tm :: tms' =>
            let oe := mA om + mSize om in
            let te := mA tm + mSize tm in
            intersect om tm ++
            (if bool_decide (oe < te) then sync_loop oms' tms
             else if bool_decide (oe > te) then inner tms'
             else sync_loop oms' tms')
        end
  end.

Definition contiguous (l r : syncRegion) : bool :=
  bool_decide (BaseEnd l = BaseStart r) && bool_decide (OursEnd l = OursStart r) &&
  bool_decide (TheirsEnd l = TheirsStart r).
Definition extend (l r : syncRegion) : syncRegion :=
  mkRegion (BaseStart l) (BaseEnd r) (OursStart l) (OursEnd r) (TheirsStart l) (TheirsEnd r).

(** One iteration of the coalescing loop on [merged], last element first. *)
Definition coalesce_step (merged : list syncRegion) (region : syncRegion) : list syncRegion :=
  match merged with
  | last :: rest => if contiguous last region then extend last region :: rest else region :: merged
  | [] => [region]
  end.
Definition coalesce (regions : list syncRegion) : list syncRegion :=
  rev (foldl coalesce_step [] regions).

(** ** The merge *)

Section merge.
  Context `{Difflib}.

Definition findSyncRegions (base ours theirs : list string) : list syncRegion :=
  coalesce (sync_loop (GetMatchingBlocks base ours) (GetMatchingBlocks base theirs)).

(** The loop over the regions from the three positions on, and the trailing
    region after it. *)
Fixpoint merge_loop (base ours theirs : list string) (basePos oursPos theirsPos : Z)
    (regions : list syncRegion) : option (list string * nat) :=
  match regions with
  | [] =>
      b ← zslice base basePos (Z.of_nat (length base));
      o ← zslice ours oursPos (Z.of_nat (length ours));
      t ← zslice theirs theirsPos (Z.of_nat (length theirs));
      Some (mergeUnsyncedRegion b o t)
  | r :: regions =>
      b ← zslice base basePos (BaseStart r);
      o ← zslice ours oursPos (OursStart r);
      t ← zslice theirs theirsPos (TheirsStart r);
      let unsynced := mergeUnsyncedRegion b o t in
      agreed ← zslice base (BaseStart r) (BaseEnd r);
      '(lines, conflicts) ← merge_loop base ours theirs (BaseEnd r) (OursEnd r) (TheirsEnd r) regions;
      Some (unsynced.1 ++ agreed ++ lines, (unsynced.2 + conflicts)%nat)
  end.

Definition merge3Lines (base ours theirs : list string) : option (list string * nat) :=
  merge_loop base ours theirs 0 0 0 (findSyncRegions base ours theirs).

Definition Merge3 (base ours theirs : string) : option (string * nat) :=
  '(result, conflicts) ← merge3Lines (splitLines base) (splitLines ours) (splitLines theirs);
  Some (Join result "", conflicts).

End merge.

Definition hasConflictMarkers (content : string) : bool :=
  Contains content mergeConflictStart || Contains content mergeConflictEnd.
