(* ===== verification/Merge3Props.v ===== *)
(** * What the three-way merge promises

    The merge of Merge3.v refines a specification by chunks: the three inputs
    are cut at the same places into chunks, each chunk is resolved on its own,
    and the results are concatenated.  From it follow that no slice is out of
    range, that a side that did not change anything never affects the result,
    and that every conflict is visible to [hasConflictMarkers]. *)

From stdpp Require Import options.
From S2P Require Import Prelude GoStrings Merge3.

(** ** The specification *)

(** Corresponding parts of base, ours and theirs. *)
Record chunk := mkChunk { c_base : list string; c_ours : list string; c_theirs : list string }.

(** A chunk one side left alone becomes the other side's version, a change
    made by both sides is taken once, anything else is a conflict. *)
Definition resolve (c : chunk) : list string * nat :=
  if decide (c_ours c = c_base c) then (c_theirs c, O)
  else if decide (c_theirs c = c_base c) then (c_ours c, O)
  else if decide (c_ours c = c_theirs c) then (c_ours c, O)
  else (conflictRegion (c_base c) (c_ours c) (c_theirs c), 1%nat).

Definition resolve_all (cs : list chunk) : list string * nat :=
  (concat ((resolve <$> cs).*1), sum_list ((resolve <$> cs).*2)).

(** [cs] cuts the three line lists. *)
Definition cuts (base ours theirs : list string) (cs : list chunk) : Prop :=
  concat (c_base <$> cs) = base ∧ concat (c_ours <$> cs) = ours ∧ concat (c_theirs <$> cs) = theirs.

(** ** Lines and regions *)

Lemma equalLines_eq a b : equalLines a b = bool_decide (a = b).
Proof.
  revert b. induction a as [|x a IH]; intros [|y b]; simpl; try done.
  rewrite IH. repeat case_bool_decide; simpl; congruence.
Qed.

Lemma mergeUnsyncedRegion_resolve b o t : mergeUnsyncedRegion b o t = resolve (mkChunk b o t).
Proof.
  unfold mergeUnsyncedRegion, resolve; cbn [c_base c_ours c_theirs]. rewrite !equalLines_eq.
  repeat case_bool_decide; repeat case_decide; simpl; congruence.
Qed.

Lemma Join_empty_app l k : Join (l ++ k) "" = Join l "" +:+ Join k "".
Proof.
  destruct l as [|x l]; [done|]. destruct k as [|y k]; [by rewrite app_nil_r, str_app_nil_r|].
  by rewrite Join_app.
Qed.

Lemma Join_relines parts : parts ≠ [] → Join (relines parts) "" = Join parts nl.
Proof.
  induction parts as [|p ps IH]; [done|]. intros _. destruct ps as [|q ps].
  - simpl. by case_bool_decide; subst.
  - rewrite Join_cons by done. rewrite <- IH by done.
    change (relines (p :: q :: ps)) with ([p +:+ nl] ++ relines (q :: ps)).
    rewrite Join_empty_app. by rewrite <- str_app_assoc.
Qed.

Lemma Join_splitLines s : Join (splitLines s) "" = s.
Proof.
  unfold splitLines. case_bool_decide; [by subst|].
  rewrite Join_relines by apply Split_ne. apply Join_Split.
Qed.

(** ** Sub-lists *)

Section sublists.
  Context {A : Type}.
  Implicit Types l : list A.

Lemma zslice_sub l lo hi :
  0 ≤ lo → lo ≤ hi → hi ≤ Z.of_nat (length l) → zslice l lo hi = Some (sub l lo (hi - lo)).
Proof. intros. unfold zslice. by rewrite bool_decide_eq_true_2. Qed.

Lemma sub_sub l i n k m : 0 ≤ i → 0 ≤ k → 0 ≤ m → k + m ≤ n → sub l (i + k) m = sub (sub l i n) k m.
Proof.
  intros. unfold sub.
  rewrite skipn_firstn_comm, drop_drop, take_take. f_equal; [lia|]. f_equal. lia.
Qed.

Lemma sub_app l i n m : 0 ≤ i → 0 ≤ n → 0 ≤ m → sub l i n ++ sub l (i + n) m = sub l i (n + m).
Proof.
  intros. unfold sub. rewrite !Z2Nat.inj_add by lia. rewrite <- drop_drop, take_take_drop. done.
Qed.

Lemma sub_0_all l : sub l 0 (Z.of_nat (length l)) = l.
Proof. unfold sub. rewrite Nat2Z.id, drop_0. by apply take_ge. Qed.

End sublists.

(** ** Blocks *)

Lemma valid_blocks_in a b pa pb ms m :
  valid_blocks a b pa pb ms → m ∈ ms →
  pa ≤ mA m ∧ pb ≤ mB m ∧ 0 ≤ mSize m ∧
  mA m + mSize m ≤ Z.of_nat (length a) ∧ mB m + mSize m ≤ Z.of_nat (length b) ∧
  sub a (mA m) (mSize m) = sub b (mB m) (mSize m).
Proof.
  revert pa pb. induction ms as [|m' ms IH]; intros pa pb; [by intros _ ?%elem_of_nil|].
  intros (?&?&?&?&?&?&Hv) [->|Hin]%elem_of_cons; [done|].
  destruct (IH _ _ Hv Hin) as (?&?&?&?&?&?). split_and!; try done; lia.
Qed.

(** The image in [b] of a later part of [a] lies later. *)
Lemma valid_blocks_mono a b pa pb ms m m' s e s' e' :
  valid_blocks a b pa pb ms → m ∈ ms → m' ∈ ms →
  mA m ≤ s → s < e → e ≤ mA m + mSize m →
  mA m' ≤ s' → s' < e' → e' ≤ mA m' + mSize m' → e ≤ s' →
  mB m + (e - mA m) ≤ mB m' + (s' - mA m').
Proof.
  revert pa pb. induction ms as [|x ms IH]; intros pa pb; [by intros _ ?%elem_of_nil|].
  intros (?&?&?&?&?&?&Hv) Hm Hm' ???????.
  apply elem_of_cons in Hm as [->|Hm]; apply elem_of_cons in Hm' as [->|Hm'].
  - lia.
  - apply (valid_blocks_in _ _ _ _ _ _ Hv) in Hm'. lia.
  - apply (valid_blocks_in _ _ _ _ _ _ Hv) in Hm. lia.
  - by eapply IH.
Qed.

Lemma total_size_bound a b pa pb ms :
  valid_blocks a b pa pb ms → pa ≤ Z.of_nat (length a) → pb ≤ Z.of_nat (length b) →
  total_size ms ≤ Z.of_nat (length a) - pa ∧ total_size ms ≤ Z.of_nat (length b) - pb.
Proof.
  revert pa pb. induction ms as [|m ms IH]; intros pa pb; simpl; [lia|].
  intros (?&?&?&?&?&?&Hv) ??. specialize (IH _ _ Hv). lia.
Qed.

(** Blocks that cover all of two sequences of the same length are on the
    diagonal. *)
Lemma full_blocks_diagonal a b p ms :
  valid_blocks a b p p ms → length a = length b → p ≤ Z.of_nat (length a) →
  total_size ms = Z.of_nat (length a) - p → Forall (λ m, mA m = mB m) ms.
Proof.
  revert p. induction ms as [|m ms IH]; intros p; [constructor|]. simpl.
  intros (?&?&?&?&?&?&Hv) Hl ? Ht.
  pose proof (total_size_bound _ _ _ _ _ Hv) as Hb.
  assert (mA m = p) as HA by lia. assert (mB m = p) as HB by lia. rewrite HA, HB in *.
  constructor; [lia|]. apply (IH (p + mSize m)); [done..|lia|lia].
Qed.

(** ** The synchronised regions *)

Definition region_of (om tm : Match) (r : syncRegion) : Prop :=
  BaseStart r = Z.max (mA om) (mA tm) ∧
  BaseEnd r = Z.min (mA om + mSize om) (mA tm + mSize tm) ∧
  BaseStart r < BaseEnd r ∧
  OursStart r = mB om + (BaseStart r - mA om) ∧ OursEnd r = mB om + (BaseEnd r - mA om) ∧
  TheirsStart r = mB tm + (BaseStart r - mA tm) ∧ TheirsEnd r = mB tm + (BaseEnd r - mA tm).

Lemma elem_of_intersect om tm r : r ∈ intersect om tm → region_of om tm r.
Proof.
  unfold intersect. case_bool_decide; [|by intros ?%elem_of_nil].
  intros ->%list_elem_of_singleton. unfold region_of; simpl. lia.
Qed.

Lemma sync_loop_cons om oms tm tms :
  sync_loop (om :: oms) (tm :: tms) =
  intersect om tm ++
  (if bool_decide (mA om + mSize om < mA tm + mSize tm) then sync_loop oms (tm :: tms)
   else if bool_decide (mA om + mSize om > mA tm + mSize tm) then sync_loop (om :: oms) tms
   else sync_loop oms tms).
Proof. done. Qed.

(** Induction over both lists, as the loop runs. *)
Lemma sync_loop_ind (P : list Match → list Match → list syncRegion → Prop) :
  (∀ tms, P [] tms []) → (∀ oms, P oms [] []) →
  (∀ om oms tm tms rs, mA om + mSize om ≤ mA tm + mSize tm → P oms (tm :: tms) rs →
     P (om :: oms) (tm :: tms) (intersect om tm ++ rs)) →
  (∀ om oms tm tms rs, mA tm + mSize tm < mA om + mSize om → P (om :: oms) tms rs →
     P (om :: oms) (tm :: tms) (intersect om tm ++ rs)) →
  (∀ om oms tm tms rs, mA om + mSize om = mA tm + mSize tm → P oms tms rs →
     P (om :: oms) (tm :: tms) (intersect om tm ++ rs)) →
  ∀ oms tms, P oms tms (sync_loop oms tms).
Proof.
  intros H1 H2 H3 H4 H5. induction oms as [|om oms IHo]; intros tms; [apply H1|].
  induction tms as [|tm tms IHt]; [apply H2|]. rewrite sync_loop_cons.
  repeat case_bool_decide; [apply H3 | apply H4 | apply H5]; auto with lia.
Qed.

Lemma sync_loop_in oms tms r :
  r ∈ sync_loop oms tms → ∃ om tm, om ∈ oms ∧ tm ∈ tms ∧ region_of om tm r.
Proof.
  revert r. apply (sync_loop_ind (λ oms tms rs, ∀ r, r ∈ rs → ∃ om tm, om ∈ oms ∧ tm ∈ tms ∧ region_of om tm r)).
  1-2: by intros ? r ?%elem_of_nil.
  all: intros om os tm ts rs _ IH r [Hr|Hr]%elem_of_app;
      [apply elem_of_intersect in Hr | apply IH in Hr as (?&?&?&?&?)];
      eauto 10 using list_elem_of_here, list_elem_of_further.
Qed.

Definition base_before (r r' : syncRegion) : Prop := BaseEnd r ≤ BaseStart r'.

Lemma StronglySorted_intersect om tm rs :
  StronglySorted base_before rs →
  (∀ r, r ∈ rs → Z.min (mA om + mSize om) (mA tm + mSize tm) ≤ BaseStart r) →
  StronglySorted base_before (intersect om tm ++ rs).
Proof.
  intros Hs Hr. apply StronglySorted_app_2; [|unfold intersect; case_bool_decide; by repeat constructor|done].
  intros r r' (_ & He & _)%elem_of_intersect Hr'%Hr. unfold base_before. lia.
Qed.

Lemma sync_loop_sorted base ours theirs pa pb pc pd oms tms :
  valid_blocks base ours pa pb oms → valid_blocks base theirs pc pd tms →
  StronglySorted base_before (sync_loop oms tms).
Proof.
  revert pa pb pc pd tms. induction oms as [|om oms IHo]; intros pa pb pc pd tms Ho; [constructor|].
  revert pc pd. induction tms as [|tm tms IHt]; intros pc pd Ht; [constructor|]. rewrite sync_loop_cons.
  destruct Ho as (?&?&?&?&?&?&Ho') eqn:E, Ht as (?&?&?&?&?&?&Ht') eqn:E'.
  apply StronglySorted_intersect.
  - repeat case_bool_decide; eauto.
  - intros r. repeat case_bool_decide; intros (om' & tm' & Hom & Htm & Hr)%sync_loop_in; destruct Hr as (Hr & _).
    + apply (valid_blocks_in _ _ _ _ _ _ Ho') in Hom. lia.
    + apply (valid_blocks_in _ _ _ _ _ _ Ht') in Htm. lia.
    + apply (valid_blocks_in _ _ _ _ _ _ Ht') in Htm. lia.
Qed.

(** Regions from positions [pb], [po], [pt] on that are in order in all three
    inputs and on which the three agree. *)
Fixpoint valid_regions (base ours theirs : list string) (pb po pt : Z) (rs : list syncRegion) : Prop :=
  0 ≤ pb ≤ Z.of_nat (length base) ∧ 0 ≤ po ≤ Z.of_nat (length ours) ∧ 0 ≤ pt ≤ Z.of_nat (length theirs) ∧
  match rs with
  | [] => True
  | r :: rs =>
      let n := BaseEnd r - BaseStart r in
      pb ≤ BaseStart r ∧ po ≤ OursStart r ∧ pt ≤ TheirsStart r ∧ 0 ≤ n ∧
      OursEnd r = OursStart r + n ∧ TheirsEnd r = TheirsStart r + n ∧
      sub base (BaseStart r) n = sub ours (OursStart r) n ∧
      sub base (BaseStart r) n = sub theirs (TheirsStart r) n ∧
      valid_regions base ours theirs (BaseEnd r) (OursEnd r) (TheirsEnd r) rs
  end.

Lemma region_of_agrees base other ms m r s :
  valid_blocks base other 0 0 ms → m ∈ ms → mA m ≤ BaseStart r → BaseEnd r ≤ mA m + mSize m →
  BaseStart r < BaseEnd r → s = mB m + (BaseStart r - mA m) →
  0 ≤ s ∧ s + (BaseEnd r - BaseStart r) ≤ Z.of_nat (length other) ∧
  sub base (BaseStart r) (BaseEnd r - BaseStart r) = sub other s (BaseEnd r - BaseStart r).
Proof.
  intros Hv Hm ??? ->. destruct (valid_blocks_in _ _ _ _ _ _ Hv Hm) as (?&?&?&?&?&Heq).
  split_and!; [lia|lia|].
  replace (BaseStart r) with (mA m + (BaseStart r - mA m)) at 1 by lia.
  rewrite (sub_sub base _ (mSize m)), Heq, <- sub_sub by lia. done.
Qed.

Lemma sync_regions_valid base ours theirs oms tms pb po pt rs :
  valid_blocks base ours 0 0 oms → valid_blocks base theirs 0 0 tms →
  StronglySorted base_before rs →
  (∀ r, r ∈ rs → ∃ om tm, om ∈ oms ∧ tm ∈ tms ∧ region_of om tm r) →
  0 ≤ pb ≤ Z.of_nat (length base) → 0 ≤ po ≤ Z.of_nat (length ours) → 0 ≤ pt ≤ Z.of_nat (length theirs) →
  (∀ r, r ∈ rs → pb ≤ BaseStart r ∧ po ≤ OursStart r ∧ pt ≤ TheirsStart r) →
  valid_regions base ours theirs pb po pt rs.
Proof.
  intros Ho Ht Hs. revert pb po pt. induction Hs as [|r rs Hs IH Hr]; intros pb po pt Hin Hb Hoo Htt Hpos; [done|].
  rewrite Forall_forall in Hr.
  destruct (Hin r) as (om & tm & Hom & Htm & (?&?&?&?&?&?&?)); [by left|].
  destruct (Hpos r) as (?&?&?); [by left|].
  destruct (region_of_agrees base ours oms om r (OursStart r)) as (?&?&?); [done|done|lia..|].
  destruct (region_of_agrees base theirs tms tm r (TheirsStart r)) as (?&?&?); [done|done|lia..|].
  pose proof (valid_blocks_in _ _ _ _ _ _ Ho Hom). pose proof (valid_blocks_in _ _ _ _ _ _ Ht Htm).
  cbn [valid_regions]. split_and!; try done; try lia.
  apply IH; [intros; apply Hin; by right | lia.. |].
  intros r' Hr'. specialize (Hr r' Hr'). unfold base_before in Hr.
  destruct (Hin r') as (om' & tm' & Hom' & Htm' & (?&?&?&?&?&?&?)); [by right|].
  pose proof (valid_blocks_mono _ _ _ _ _ om om' (BaseStart r) (BaseEnd r) (BaseStart r') (BaseEnd r') Ho Hom Hom').
  pose proof (valid_blocks_mono _ _ _ _ _ tm tm' (BaseStart r) (BaseEnd r) (BaseStart r') (BaseEnd r') Ht Htm Htm').
  lia.
Qed.

(** ** Coalescing *)

Fixpoint coalesce_from (last : syncRegion) (rs : list syncRegion) : list syncRegion :=
  match rs with
  | [] => [last]
  | r :: rs => if contiguous last r then coalesce_from (extend last r) rs else last :: coalesce_from r rs
  end.

Lemma fold_coalesce_step acc last rs :
  rev (foldl coalesce_step (last :: acc) rs) = rev acc ++ coalesce_from last rs.
Proof.
  revert acc last. induction rs as [|r rs IH]; intros acc last; simpl; [done|].
  destruct (contiguous last r); rewrite IH; [done|]. simpl. by rewrite <- app_assoc.
Qed.

Lemma coalesce_cons r rs : coalesce (r :: rs) = coalesce_from r rs.
Proof. unfold coalesce. simpl. by rewrite fold_coalesce_step. Qed.

Lemma Forall_coalesce (P : syncRegion → Prop) rs :
  (∀ l r, P l → P r → P (extend l r)) → Forall P rs → Forall P (coalesce rs).
Proof.
  intros Hext Hrs. destruct Hrs as [|r rs Hr Hrs]; [constructor|]. rewrite coalesce_cons.
  revert r Hr. induction Hrs as [|r' rs Hr' _ IH]; intros r Hr; simpl; [by repeat constructor|].
  destruct (contiguous r r'); [apply IH, Hext; done | constructor; auto].
Qed.

Lemma valid_regions_extend base ours theirs pb po pt l r rs :
  contiguous l r = true →
  valid_regions base ours theirs pb po pt (l :: r :: rs) →
  valid_regions base ours theirs pb po pt (extend l r :: rs).
Proof.
  unfold contiguous. intros Hc. bool_hyps.
  intros (?&?&?&?&?&?&?&Ho&Ht&El&El'&?&?&?&?&?&?&?&Ho'&Ht'&Er&Er'&Hv).
  unfold extend. cbn [valid_regions BaseStart BaseEnd OursStart OursEnd TheirsStart TheirsEnd].
  split_and!; try done; try lia.
  all: replace (BaseEnd r - BaseStart l) with ((BaseEnd l - BaseStart l) + (BaseEnd r - BaseStart r)) by lia.
  all: rewrite <- !sub_app by lia; replace (BaseStart l + (BaseEnd l - BaseStart l)) with (BaseStart r) by lia.
  - rewrite El, Er. do 2 f_equal. lia.
  - rewrite El', Er'. do 2 f_equal. lia.
Qed.

Lemma valid_regions_coalesce base ours theirs pb po pt rs :
  valid_regions base ours theirs pb po pt rs → valid_regions base ours theirs pb po pt (coalesce rs).
Proof.
  destruct rs as [|r rs]; [done|]. rewrite coalesce_cons. revert pb po pt r.
  induction rs as [|r' rs IH]; intros pb po pt r Hv; cbn [coalesce_from]; [done|].
  destruct (contiguous r r') eqn:Hc.
  - apply IH. by apply valid_regions_extend.
  - destruct Hv as (?&?&?&?&?&?&?&?&?&?&?&Hv). cbn [valid_regions]. split_and!; try done; try lia. by apply IH.
Qed.

Lemma findSyncRegions_valid `{Difflib} base ours theirs :
  valid_regions base ours theirs 0 0 0 (findSyncRegions base ours theirs).
Proof.
  apply valid_regions_coalesce.
  pose proof (blocks_valid base ours) as Ho. pose proof (blocks_valid base theirs) as Ht.
  eapply sync_regions_valid; [exact Ho | exact Ht | by eapply sync_loop_sorted | apply sync_loop_in | lia.. |].
  intros r (om & tm & Hom & Htm & (?&?&?&?&?&?&?))%sync_loop_in.
  pose proof (valid_blocks_in _ _ _ _ _ _ Ho Hom). pose proof (valid_blocks_in _ _ _ _ _ _ Ht Htm). lia.
Qed.

(** ** The chunks of a merge *)

Definition tail_from {A} (l : list A) (p : Z) : list A := sub l p (Z.of_nat (length l) - p).

Fixpoint chunks_of (base ours theirs : list string) (pb po pt : Z) (rs : list syncRegion) : list chunk :=
  match rs with
  | [] => [mkChunk (tail_from base pb) (tail_from ours po) (tail_from theirs pt)]
  | r :: rs =>
      let n := BaseEnd r - BaseStart r in
      mkChunk (sub base pb (BaseStart r - pb)) (sub ours po (OursStart r - po)) (sub theirs pt (TheirsStart r - pt)) ::
      mkChunk (sub base (BaseStart r) n) (sub ours (OursStart r) n) (sub theirs (TheirsStart r) n) ::
      chunks_of base ours theirs (BaseEnd r) (OursEnd r) (TheirsEnd r) rs
  end.

Lemma valid_regions_pos base ours theirs pb po pt rs :
  valid_regions base ours theirs pb po pt rs →
  0 ≤ pb ≤ Z.of_nat (length base) ∧ 0 ≤ po ≤ Z.of_nat (length ours) ∧ 0 ≤ pt ≤ Z.of_nat (length theirs).
Proof. destruct rs; intros (?&?&?&?); done. Qed.

Lemma merge_loop_chunks base ours theirs pb po pt rs :
  valid_regions base ours theirs pb po pt rs →
  merge_loop base ours theirs pb po pt rs = Some (resolve_all (chunks_of base ours theirs pb po pt rs)).
Proof.
  revert pb po pt. induction rs as [|r rs IH]; intros pb po pt; cbn [valid_regions merge_loop chunks_of].
  - intros (?&?&?&_). rewrite !zslice_sub by lia. simpl. rewrite mergeUnsyncedRegion_resolve.
    unfold resolve_all, tail_from; simpl. rewrite app_nil_r, Nat.add_0_r. by destruct (resolve _).
  - intros (?&?&?&?&?&?&?&?&?&Eo&Et&Hv). pose proof (valid_regions_pos _ _ _ _ _ _ _ Hv).
    rewrite !zslice_sub by lia. cbn [mbind option_bind]. rewrite IH by done. cbn [mbind option_bind].
    rewrite mergeUnsyncedRegion_resolve. unfold resolve_all. rewrite !fmap_cons. cbn [concat sum_list].
    assert (resolve (mkChunk (sub base (BaseStart r) (BaseEnd r - BaseStart r))
      (sub ours (OursStart r) (BaseEnd r - BaseStart r)) (sub theirs (TheirsStart r) (BaseEnd r - BaseStart r)))
      = (sub base (BaseStart r) (BaseEnd r - BaseStart r), O)) as ->; [|done].
    unfold resolve; cbn [c_base c_ours c_theirs]. by rewrite decide_True, Et by done.
Qed.

Lemma tail_from_sub {A} (l : list A) p s n :
  0 ≤ p → p ≤ s → 0 ≤ n → s + n ≤ Z.of_nat (length l) →
  sub l p (s - p) ++ sub l s n ++ tail_from l (s + n) = tail_from l p.
Proof.
  intros. unfold tail_from. rewrite sub_app by lia.
  replace s with (p + (s - p)) at 2 by lia. rewrite sub_app by lia. f_equal. lia.
Qed.

Lemma chunks_of_cuts base ours theirs pb po pt rs :
  valid_regions base ours theirs pb po pt rs →
  cuts (tail_from base pb) (tail_from ours po) (tail_from theirs pt) (chunks_of base ours theirs pb po pt rs).
Proof.
  unfold cuts. revert pb po pt. induction rs as [|r rs IH]; intros pb po pt; cbn [valid_regions chunks_of].
  - intros _. simpl. by rewrite !app_nil_r.
  - intros (?&?&?&?&?&?&?&Ho&Ht&?&?&Hv). pose proof (valid_regions_pos _ _ _ _ _ _ _ Hv).
    destruct (IH _ _ _ Hv) as (E1 & E2 & E3). rewrite !fmap_cons. cbn [concat c_base c_ours c_theirs].
    rewrite E1, E2, E3, Ho, Ht.
    replace (BaseEnd r) with (BaseStart r + (BaseEnd r - BaseStart r)) at 2 by lia.
    by rewrite !tail_from_sub by lia.
Qed.

Lemma merge3Lines_chunks `{Difflib} base ours theirs :
  let cs := chunks_of base ours theirs 0 0 0 (findSyncRegions base ours theirs) in
  merge3Lines base ours theirs = Some (resolve_all cs) ∧ cuts base ours theirs cs.
Proof.
  intros cs. pose proof (findSyncRegions_valid base ours theirs) as Hv. split.
  - by apply merge_loop_chunks.
  - pose proof (chunks_of_cuts _ _ _ _ _ _ _ Hv) as Hc. unfold tail_from in Hc.
    by rewrite !Z.sub_0_r, !sub_0_all in Hc.
Qed.

(** ** When one side is trivial *)

Lemma resolve_all_side (f : chunk → list string) cs :
  Forall (λ c, resolve c = (f c, O)) cs → resolve_all cs = (concat (f <$> cs), O).
Proof.
  intros H. unfold resolve_all. induction H as [|c cs Hc _ IH]; [done|].
  rewrite !fmap_cons, Hc. cbn [concat sum_list fst snd]. by injection IH as -> ->.
Qed.

Lemma resolve_same_change c : c_ours c = c_theirs c → resolve c = (c_ours c, O).
Proof. intros E. unfold resolve. rewrite <- E. by repeat case_decide. Qed.
Lemma resolve_ours_unchanged c : c_base c = c_ours c → resolve c = (c_theirs c, O).
Proof. intros E. unfold resolve. by rewrite decide_True. Qed.
Lemma resolve_theirs_unchanged c : c_base c = c_theirs c → resolve c = (c_ours c, O).
Proof. intros E. unfold resolve. case_decide as Ho; [congruence|]. by rewrite decide_True. Qed.

Lemma chunks_ours_theirs base x pb p rs :
  Forall (λ r, OursStart r = TheirsStart r ∧ OursEnd r = TheirsEnd r) rs →
  Forall (λ c, c_ours c = c_theirs c) (chunks_of base x x pb p p rs).
Proof.
  intros Hrs. revert pb p. induction Hrs as [|r rs [Es Ee] _ IH]; intros pb p; simpl; [by repeat constructor|].
  rewrite Es, Ee. by repeat constructor.
Qed.

Lemma chunks_base_ours x theirs p pt rs :
  Forall (λ r, BaseStart r = OursStart r ∧ BaseEnd r = OursEnd r) rs →
  Forall (λ c, c_base c = c_ours c) (chunks_of x x theirs p p pt rs).
Proof.
  intros Hrs. revert pt p. induction Hrs as [|r rs [Es Ee] _ IH]; intros pt p; simpl; [by repeat constructor|].
  rewrite Es, Ee. by repeat constructor.
Qed.

Lemma chunks_base_theirs x ours p po rs :
  Forall (λ r, BaseStart r = TheirsStart r ∧ BaseEnd r = TheirsEnd r) rs →
  Forall (λ c, c_base c = c_theirs c) (chunks_of x ours x p po p rs).
Proof.
  intros Hrs. revert po p. induction Hrs as [|r rs [Es Ee] _ IH]; intros po p; simpl; [by repeat constructor|].
  rewrite Es, Ee. by repeat constructor.
Qed.

Lemma sync_loop_same ms :
  Forall (λ r, OursStart r = TheirsStart r ∧ OursEnd r = TheirsEnd r) (sync_loop ms ms).
Proof.
  induction ms as [|m ms IH]; [constructor|]. rewrite sync_loop_cons.
  rewrite !bool_decide_eq_false_2 by lia. apply Forall_app. split; [|done].
  apply Forall_forall. intros r (?&?&?&?&?&?&?)%elem_of_intersect. lia.
Qed.

Section trivial.
  Context `{Difflib}.

Lemma blocks_diagonal x m : m ∈ GetMatchingBlocks x x → mA m = mB m.
Proof.
  intros Hm. pose proof (blocks_valid x x) as Hv.
  apply full_blocks_diagonal in Hv; [|done|lia|rewrite blocks_identical; lia].
  rewrite Forall_forall in Hv. auto.
Qed.

Lemma merge3Lines_same base x : merge3Lines base x x = Some (x, O).
Proof.
  destruct (merge3Lines_chunks base x x) as [-> (_ & E & _)]. f_equal.
  rewrite (resolve_all_side c_ours); [by rewrite E|].
  eapply Forall_impl; [|apply resolve_same_change]. apply chunks_ours_theirs, Forall_coalesce.
  - intros l r [] []. done.
  - apply sync_loop_same.
Qed.

Lemma merge3Lines_ours_base base theirs : merge3Lines base base theirs = Some (theirs, O).
Proof.
  destruct (merge3Lines_chunks base base theirs) as [-> (_ & _ & E)]. f_equal.
  rewrite (resolve_all_side c_theirs); [by rewrite E|].
  eapply Forall_impl; [|apply resolve_ours_unchanged]. apply chunks_base_ours, Forall_coalesce.
  - intros l r [] []. done.
  - apply Forall_forall. intros r (om & tm & Hom%blocks_diagonal & _ & (?&?&?&?&?&?&?))%sync_loop_in. lia.
Qed.

Lemma merge3Lines_theirs_base base ours : merge3Lines base ours base = Some (ours, O).
Proof.
  destruct (merge3Lines_chunks base ours base) as [-> (_ & E & _)]. f_equal.
  rewrite (resolve_all_side c_ours); [by rewrite E|].
  eapply Forall_impl; [|apply resolve_theirs_unchanged]. apply chunks_base_theirs, Forall_coalesce.
  - intros l r [] []. done.
  - apply Forall_forall. intros r (om & tm & _ & Htm%blocks_diagonal & (?&?&?&?&?&?&?))%sync_loop_in. lia.
Qed.

End trivial.

(** ** Properties *)

(** C9: [Merge3] refines the chunk-wise specification.  It always returns (no
    slice expression is out of range), its three inputs are cut into the same
    number of corresponding chunks, the merged content is the concatenation
    of the resolved chunks and the conflict count is the number of chunks
    both sides changed in different ways. *)
Theorem merge3_refines_chunks `{Difflib} base ours theirs :
  ∃ cs, cuts (splitLines base) (splitLines ours) (splitLines theirs) cs ∧
    Merge3 base ours theirs = Some (Join (resolve_all cs).1 "", (resolve_all cs).2).
Proof.
  destruct (merge3Lines_chunks (splitLines base) (splitLines ours) (splitLines theirs)) as [E Hc].
  eexists. split; [exact Hc|]. unfold Merge3. rewrite E. cbn [mbind option_bind]. by destruct (resolve_all _).
Qed.

(** a side that changed nothing never affects the merge: with ours equal
    to base the result is theirs, with theirs equal to base it is ours, and
    when both sides hold the same content it is that content, byte for byte
    and without conflicts. *)
Theorem merge3_unchanged_side `{Difflib} base x :
  Merge3 base base x = Some (x, O) ∧ Merge3 base x base = Some (x, O) ∧ Merge3 base x x = Some (x, O).
Proof.
  unfold Merge3. rewrite merge3Lines_ours_base, merge3Lines_theirs_base, merge3Lines_same.
  cbn [mbind option_bind]. by rewrite Join_splitLines.
Qed.

Lemma Join_empty_elem l x : x ∈ l → ∃ a b, Join l "" = a +:+ x +:+ b.
Proof.
  intros (l1 & l2 & ->)%list_elem_of_split. exists (Join l1 ""), (Join l2 "").
  rewrite Join_empty_app. f_equal. change (x :: l2) with ([x] ++ l2). by rewrite Join_empty_app.
Qed.

Lemma resolve_conflict c : (0 < (resolve c).2)%nat → (mergeConflictStart +:+ nl) ∈ (resolve c).1.
Proof. unfold resolve. repeat case_decide; simpl; try lia. intros _. by left. Qed.

Lemma resolve_all_conflict cs :
  (0 < (resolve_all cs).2)%nat → (mergeConflictStart +:+ nl) ∈ (resolve_all cs).1.
Proof.
  unfold resolve_all; cbn [fst snd]. induction cs as [|c cs IH]; [simpl; lia|].
  rewrite !fmap_cons. cbn [concat sum_list_with id]. intros Hn.
  apply elem_of_app. destruct (decide (0 < (resolve c).2)%nat) as [Hc|Hc].
  - left. by apply resolve_conflict.
  - right. apply IH. lia.
Qed.

(** C33: a merge that reports a conflict leaves a marker that
    [hasConflictMarkers] finds, so unresolved content cannot be staged
    unnoticed. *)
Theorem conflicts_are_marked `{Difflib} base ours theirs merged n :
  Merge3 base ours theirs = Some (merged, n) → (0 < n)%nat → hasConflictMarkers merged = true.
Proof.
  destruct (merge3Lines_chunks (splitLines base) (splitLines ours) (splitLines theirs)) as [E _].
  unfold Merge3. rewrite E. cbn [mbind option_bind]. destruct (resolve_all _) as [ls k] eqn:Er.
  intros [= <- <-] Hk. unfold hasConflictMarkers. apply orb_true_iff. left.
  rewrite <- (f_equal snd Er : _ = k) in Hk. apply resolve_all_conflict in Hk. rewrite Er in Hk.
  apply Join_empty_elem in Hk as (a & b & E'). apply Contains_spec. exists a, (nl +:+ b).
  simpl in E'. by rewrite E', str_app_assoc.
Qed.

(** ** A routine that meets [Difflib], and witnesses *)

Fixpoint common_prefix (a b : list string) : nat :=
  match a, b with
  | x :: a, y :: b => if decide (x = y) then S (common_prefix a b) else O
  | _, _ => O
  end.

Definition prefix_blocks (a b : list string) : list Match :=
  [mkMatch 0 0 (Z.of_nat (common_prefix a b)); mkMatch (Z.of_nat (length a)) (Z.of_nat (length b)) 0].

Lemma common_prefix_spec a b :
  (common_prefix a b ≤ length a)%nat ∧ (common_prefix a b ≤ length b)%nat ∧
  take (common_prefix a b) a = take (common_prefix a b) b.
Proof.
  revert b. induction a as [|x a IH]; intros [|y b]; simpl; try (split_and!; done || lia).
  case_decide; simpl; [|split_and!; done || lia]. destruct (IH b) as (?&?&E). subst.
  split_and!; [lia..|]. by rewrite E.
Qed.

Lemma common_prefix_refl a : common_prefix a a = length a.
Proof. induction a as [|x a IH]; simpl; [done|]. by rewrite decide_True, IH. Qed.

Definition prefix_difflib : Difflib.
Proof.
  refine {| GetMatchingBlocks := prefix_blocks |}.
  - intros a b. destruct (common_prefix_spec a b) as (?&?&E). unfold prefix_blocks.
    cbn [valid_blocks mA mB mSize]. unfold sub. change (Z.to_nat 0) with O. rewrite !drop_0, Nat2Z.id.
    split_and!; try done; lia.
  - intros a. unfold total_size, prefix_blocks; simpl. rewrite common_prefix_refl. lia.
Defined.

Lemma merge3_refines_chunks_witness :
  ∃ cs, cuts (splitLines "a") (splitLines "b") (splitLines "c") cs ∧
    @Merge3 prefix_difflib "a" "b" "c" = Some (Join (resolve_all cs).1 "", (resolve_all cs).2).
Proof. apply (@merge3_refines_chunks prefix_difflib "a" "b" "c"). Defined.

Lemma merge3_unchanged_side_witness :
  @Merge3 prefix_difflib "one" "one" "two" = Some ("two", O).
Proof. apply (@merge3_unchanged_side prefix_difflib "one" "two"). Defined.

Lemma conflicts_are_marked_witness :
  hasConflictMarkers (default "" (fst <$> @Merge3 prefix_difflib "a" "b" "c")) = true.
Proof.
  eapply (@conflicts_are_marked prefix_difflib "a" "b" "c" _ 1%nat); [vm_compute; reflexivity | lia].
Defined.
