(* ===== verification/Authz.v ===== *)
(** * Identities, roles, OWNERS files and grants

    Model of pkg/authz: authz.go (identity model and role vocabulary),
    owners.go (OWNERS documents), compiler.go (team mapping and compilation of
    OWNERS into grants) and grants.go (the grant store with its file).

    YAML and JSON decoding are third-party or reflective code: they are
    function arguments, with a round trip as hypothesis where it is needed.
    A file system is a map from paths to contents; every call that may fail
    takes its outcome as an argument. *)

From stdpp Require Import options.
From S2P Require Import Prelude GoStrings GoUnicode GoFiles.

(** ** authz.go *)

Abbreviation Action := string (only parsing).
Abbreviation ActionView := "view" (only parsing).
Abbreviation ActionIngest := "ingest" (only parsing).
Abbreviation ActionModify := "modify" (only parsing).

Abbreviation Role := string (only parsing).
Abbreviation RoleViewer := "viewer" (only parsing).
Abbreviation RoleIngester := "ingester" (only parsing).
Abbreviation RoleMaintainer := "maintainer" (only parsing).
Abbreviation RoleAdmin := "admin" (only parsing).

Definition roleActions : gmap Role (gset Action) :=
  {[ RoleViewer := {[ActionView]};
     RoleIngester := {[ActionView; ActionIngest]};
     RoleMaintainer := {[ActionView; ActionIngest; ActionModify]};
     RoleAdmin := {[ActionView; ActionIngest; ActionModify]} ]}.

(** [r.Allows(action)]: indexing a missing role gives the empty map. *)
Definition Allows (r : Role) (action : Action) : bool :=
  bool_decide (action ∈ default ∅ (roleActions !! r)).
Definition Valid (r : Role) : bool := bool_decide (is_Some (roleActions !! r)).

Record Identity := mkIdentity {
  id_Subject : string; id_Email : string; id_Groups : list string; id_ClientID : string }.

Definition IsAnonymous (id : Identity) : bool :=
  bool_decide (id_Subject id = "") && bool_decide (id_ClientID id = "").

Definition HasGroup `{UnicodeFold} (id : Identity) (group : string) : bool :=
  let group := TrimSpace group in
  if bool_decide (group = "") then false
  else existsb (λ g, EqualFold (TrimSpace g) group) (id_Groups id).

Definition PrincipalID (id : Identity) : string :=
  if bool_decide (id_ClientID id ≠ "") then id_ClientID id else id_Subject id.

(** The errors the package returns, by case. *)
Inductive authz_error : Type :=
| EmptyOwner | EmptyTeam (raw : string) | ParseFailed | UnsupportedVersion (v : Z) | NoOwners
| CodeownersLine (line : nat) | NoRules
| OneOfSubjectGroup | PartitionRequired | InvalidRole (r : Role)
| MkdirFailed | ReadFailed | DecodeFailed | EncodeFailed | WriteTmpFailed | RenameFailed
| LoadFailed.

(** ** owners.go *)

Record OwnerRef := mkOwnerRef { Team : string; Subject : string }.
#[export] Instance OwnerRef_eq_dec : EqDecision OwnerRef.
Proof. solve_decision. Defined.

Definition IsTeam (r : OwnerRef) : bool := bool_decide (Team r ≠ "").
Definition OwnerRef_String (r : OwnerRef) : string := if IsTeam r then "@" +:+ Team r else Subject r.

Definition parseOwnerRef (raw : string) : result authz_error OwnerRef :=
  let s := TrimSpace raw in
  if bool_decide (s = "") then Err EmptyOwner
  else if HasPrefix s "@" then
    let team := TrimSpace (TrimPrefix s "@") in
    if bool_decide (team = "") then Err (EmptyTeam raw) else Ok (mkOwnerRef team "")
  else Ok (mkOwnerRef "" s).

Record OwnersFile := mkOwnersFile {
  of_Version : Z; Viewers : list OwnerRef; Ingesters : list OwnerRef; Maintainers : list OwnerRef }.

Record ownersYAML := mkOwnersYAML {
  oy_Version : Z; oy_Viewers : list string; oy_Ingesters : list string; oy_Maintainers : list string }.

(** [o.ByRole()[role]]. *)
Definition ByRole (o : OwnersFile) : gmap Role (list OwnerRef) :=
  {[ RoleViewer := Viewers o; RoleIngester := Ingesters o; RoleMaintainer := Maintainers o ]}.

(** [unmarshal] is [yaml.Unmarshal] into [ownersYAML]. *)
Definition ParseOwners (unmarshal : string → option ownersYAML) (data : string)
    : result authz_error OwnersFile :=
  match unmarshal data with
  | None => Err ParseFailed
  | Some doc =>
      if bool_decide (oy_Version doc ≠ 1) then Err (UnsupportedVersion (oy_Version doc))
      else
        let! viewers := rmap parseOwnerRef (oy_Viewers doc) in
        let! ingesters := rmap parseOwnerRef (oy_Ingesters doc) in
        let! maintainers := rmap parseOwnerRef (oy_Maintainers doc) in
        if bool_decide (length viewers + length ingesters + length maintainers = 0)%nat then Err NoOwners
        else Ok (mkOwnersFile (oy_Version doc) viewers ingesters maintainers)
  end.

(** ** compiler.go *)

(** A nil mapping is the empty map. *)
Abbreviation TeamMapping := (gmap string string).

Record teamMappingYAML := mkTeamMappingYAML { ty_Version : Z; ty_Teams : gmap string string }.

Definition ParseTeamMapping (unmarshal : string → option teamMappingYAML) (data : string)
    : result authz_error TeamMapping :=
  match unmarshal data with
  | None => Err ParseFailed
  | Some doc =>
      if bool_decide (ty_Version doc ≠ 1) then Err (UnsupportedVersion (ty_Version doc))
      else Ok (ty_Teams doc)
  end.

Definition GroupFor (m : TeamMapping) (team : string) : string * bool :=
  match m !! team with
  | Some g => (g, true)
  | None => (team, false)
  end.

Record Grant := mkGrant { g_Subject : string; g_Group : string; g_Partition : string; g_Role : Role }.

(** A warning names the team and the partition. *)
Definition compile_ref (partition : string) (mapping : TeamMapping) (role : Role) (ref : OwnerRef)
    : Grant * list (string * string) :=
  if IsTeam ref then
    let '(group, ok) := GroupFor mapping (Team ref) in
    (mkGrant "" group partition role, if ok then [] else [(Team ref, partition)])
  else (mkGrant (Subject ref) "" partition role, []).

Definition CompileGrants (partition : string) (owners : option OwnersFile) (mapping : TeamMapping)
    : list Grant * list (string * string) :=
  match owners with
  | None => ([], [])
  | Some o =>
      let byRole := ByRole o in
      let out := concat ((λ role, compile_ref partition mapping role <$> default [] (byRole !! role))
                   <$> [RoleViewer; RoleIngester; RoleMaintainer]) in
      (out.*1, concat out.*2)
  end.

(** ** grants.go *)

Abbreviation WildcardPartition := "*" (only parsing).

Definition Validate (g : Grant) : result authz_error unit :=
  let hasSubject := bool_decide (TrimSpace (g_Subject g) ≠ "") in
  let hasGroup := bool_decide (TrimSpace (g_Group g) ≠ "") in
  if bool_decide (hasSubject = hasGroup) then Err OneOfSubjectGroup
  else if bool_decide (TrimSpace (g_Partition g) = "") then Err PartitionRequired
  else if negb (Valid (g_Role g)) then Err (InvalidRole (g_Role g))
  else Ok tt.

Definition matchesPartition (g : Grant) (partition : string) : bool :=
  bool_decide (g_Partition g = WildcardPartition) || bool_decide (g_Partition g = partition).

Definition subject_matches (s : string) (id : Identity) : bool :=
  bool_decide (s = id_Subject id) || bool_decide (s = id_ClientID id) ||
  (bool_decide (id_Email id ≠ "") && bool_decide (s = id_Email id)).

Definition matchesIdentity `{UnicodeFold} (g : Grant) (id : Identity) : bool :=
  let s := TrimSpace (g_Subject g) in
  let grp := TrimSpace (g_Group g) in
  if bool_decide (s ≠ "") then subject_matches s id
  else if bool_decide (grp ≠ "") then HasGroup id grp
  else false.

Record GrantStore := mkGrantStore { gs_grants : list Grant; gs_persistPath : string }.

Section store.
  (** [json.MarshalIndent] and [json.Unmarshal] of a grant list. *)
  Context (encode : list Grant → option string) (decode : string → option (list Grant)).

Definition load (s : GrantStore) (read_ok : bool) (d : disk) : result authz_error GrantStore :=
  if negb read_ok then Err ReadFailed
  else match d !! gs_persistPath s with
       | None => Ok s
       | Some data =>
           match decode data with
           | None => Err DecodeFailed
           | Some grants => Ok (mkGrantStore grants (gs_persistPath s))
           end
       end.

Definition NewGrantStore (persistPath : string) (mkdir_ok read_ok : bool) (d : disk)
    : result authz_error GrantStore :=
  let s := mkGrantStore [] (TrimSpace persistPath) in
  if bool_decide (gs_persistPath s = "") then Ok s
  else if negb mkdir_ok then Err MkdirFailed
  else load s read_ok d.

Definition tmp_path (s : GrantStore) : string := gs_persistPath s +:+ ".tmp".

Definition saveLocked (s : GrantStore) (io : save_io) (d : disk) : disk * result authz_error unit :=
  if bool_decide (gs_persistPath s = "") then (d, Ok tt)
  else match encode (gs_grants s) with
       | None => (d, Err EncodeFailed)
       | Some data =>
           let '(d, wok, rok) := replace_file io (tmp_path s) (gs_persistPath s) data d in
           (d, if negb wok then Err WriteTmpFailed else if negb rok then Err RenameFailed else Ok tt)
       end.

(** The store, the disk and the error after [Add] and [Replace]. *)
Definition Add (s : GrantStore) (g : Grant) (io : save_io) (d : disk)
    : GrantStore * disk * result authz_error unit :=
  match Validate g with
  | Err e => (s, d, Err e)
  | Ok _ =>
      let s := mkGrantStore (gs_grants s ++ [g]) (gs_persistPath s) in
      let '(d, r) := saveLocked s io d in (s, d, r)
  end.

Definition Replace (s : GrantStore) (grants : list Grant) (io : save_io) (d : disk)
    : GrantStore * disk * result authz_error unit :=
  match rmap Validate grants with
  | Err e => (s, d, Err e)
  | Ok _ =>
      let s := mkGrantStore grants (gs_persistPath s) in
      let '(d, r) := saveLocked s io d in (s, d, r)
  end.

End store.

Definition Grants (s : GrantStore) : list Grant := gs_grants s.

Definition Can `{UnicodeFold} (s : GrantStore) (id : Identity) (partition : string) (action : Action) : bool :=
  if IsAnonymous id then false
  else existsb (λ g, matchesPartition g partition && matchesIdentity g id && Allows (g_Role g) action) (gs_grants s).

(** ** resolver.go: matching an owner reference *)

Definition ownerRefMatchesIdentity `{UnicodeFold} (ref : OwnerRef) (id : Identity) (mapping : TeamMapping) : bool :=
  if IsAnonymous id then false
  else if IsTeam ref then HasGroup id (GroupFor mapping (Team ref)).1
  else subject_matches (Subject ref) id.
