(* ===== verification/AuthzProps.v ===== *)
(** * What identities, OWNERS files and grants promise

    Theorems about Authz.v: owner references are well formed and survive
    printing, compiled grants decide exactly what the OWNERS file says, and
    the grant store's file always holds a complete, previously accepted set
    of grants. *)

From stdpp Require Import options.
From S2P Require Import Prelude GoStrings GoUnicode GoFiles Authz.

(** ** Owner references *)

(** What parsing guarantees: exactly one of the two fields, trimmed, and a
    subject that cannot be read as a team. *)
Definition wf_ref (r : OwnerRef) : Prop :=
  (Team r ≠ "" ∧ TrimSpace (Team r) = Team r ∧ Subject r = "") ∨
  (Team r = "" ∧ Subject r ≠ "" ∧ TrimSpace (Subject r) = Subject r ∧ HasPrefix (Subject r) "@" = false).

Lemma parseOwnerRef_wf raw r : parseOwnerRef raw = Ok r → wf_ref r.
Proof.
  unfold parseOwnerRef, wf_ref. case_bool_decide as Hs; [done|].
  destruct (HasPrefix (TrimSpace raw) "@") eqn:Hp.
  - case_bool_decide; [done|]. intros [= <-]. left. simpl. by rewrite TrimSpace_idem.
  - intros [= <-]. right. simpl. by rewrite TrimSpace_idem.
Qed.

Lemma rmap_parse_wf l refs : rmap parseOwnerRef l = Ok refs → Forall wf_ref refs.
Proof.
  intros H%rmap_ok_Forall2. induction H; constructor; [by eapply parseOwnerRef_wf | done].
Qed.

Lemma wf_ref_IsTeam r : wf_ref r → IsTeam r = bool_decide (Subject r = "").
Proof. unfold IsTeam. intros [(?&_&->)|(->&?&_)]; by repeat case_bool_decide. Qed.

Lemma HasPrefix_at t : HasPrefix ("@" +:+ t) "@" = true.
Proof. apply HasPrefix_app. Qed.

Lemma OwnerRef_String_inj r r' :
  wf_ref r → wf_ref r' → OwnerRef_String r = OwnerRef_String r' → r = r'.
Proof.
  unfold OwnerRef_String. intros Hr Hr'. rewrite !wf_ref_IsTeam by done.
  destruct r as [t s], r' as [t' s'], Hr as [(?&_&Es)|(Et&?&_&Hs)], Hr' as [(?&_&Es')|(Et'&?&_&Hs')];
    simpl in *; subst; repeat case_bool_decide; try done; intros E.
  - apply (inj (String.append "@")) in E. by subst.
  - rewrite <- E in Hs'. by rewrite HasPrefix_at in Hs'.
  - rewrite E in Hs. by rewrite HasPrefix_at in Hs.
  - by subst.
Qed.

Lemma ParseOwners_wf unmarshal data o role :
  ParseOwners unmarshal data = Ok o → Forall wf_ref (default [] (ByRole o !! role)).
Proof.
  unfold ParseOwners. destruct (unmarshal data) as [doc|]; [|done].
  case_bool_decide; [done|]. intros Hp. inv_bind Hp. case_bool_decide; [done|]. injection Hp as <-.
  apply rmap_parse_wf in E, E0, E1. unfold ByRole; simpl.
  destruct ({[RoleViewer := a; RoleIngester := a0; RoleMaintainer := a1]} !! role) as [l|] eqn:El; simpl; [|constructor].
  apply lookup_insert_Some in El as [[_ <-]|[_ El]]; [done|].
  apply lookup_insert_Some in El as [[_ <-]|[_ El]]; [done|].
  by apply lookup_singleton_Some in El as [_ <-].
Qed.

(** ** Compiled grants *)

Section grants.
  Context `{UnicodeFold}.

Lemma HasGroup_TrimSpace id g : HasGroup id (TrimSpace g) = HasGroup id g.
Proof. unfold HasGroup. by rewrite TrimSpace_idem. Qed.

Lemma HasGroup_blank id g : TrimSpace g = "" → HasGroup id g = false.
Proof. intros E. unfold HasGroup. by rewrite E. Qed.

(** A compiled grant matches the identities its owner reference matches. *)
Lemma compile_ref_matches partition mapping role ref id :
  wf_ref ref → IsAnonymous id = false →
  matchesIdentity (compile_ref partition mapping role ref).1 id = ownerRefMatchesIdentity ref id mapping.
Proof.
  intros Hwf Ha. unfold ownerRefMatchesIdentity, compile_ref, matchesIdentity. rewrite Ha.
  destruct (IsTeam ref) eqn:Ht.
  - destruct (GroupFor mapping (Team ref)) as [group ok]. cbn [fst g_Subject g_Group].
    rewrite TrimSpace_empty, (bool_decide_eq_false_2 ("" ≠ "")) by (by intros []).
    bool_case (TrimSpace group ≠ "") as Hg; [apply HasGroup_TrimSpace|].
    symmetry. apply HasGroup_blank. by apply dec_stable.
  - unfold IsTeam in Ht. apply bool_decide_eq_false, dec_stable in Ht.
    destruct Hwf as [[? _]|(_ & Hs & Htr & _)]; [done|]. cbn [fst g_Subject g_Group].
    by rewrite Htr, bool_decide_eq_true_2.
Qed.

Lemma compile_ref_role partition mapping role ref :
  g_Role (compile_ref partition mapping role ref).1 = role ∧
  g_Partition (compile_ref partition mapping role ref).1 = partition.
Proof. unfold compile_ref. by destruct (IsTeam ref), (GroupFor mapping (Team ref)). Qed.

Lemma elem_of_compiled partition o mapping g :
  g ∈ (CompileGrants partition (Some o) mapping).1 ↔
  ∃ role ref, role ∈ [RoleViewer; RoleIngester; RoleMaintainer] ∧
    ref ∈ default [] (ByRole o !! role) ∧ g = (compile_ref partition mapping role ref).1.
Proof.
  unfold CompileGrants; cbn [fst]. rewrite list_elem_of_fmap. split.
  - intros ([g' w] & -> & (l & Hl & (role & -> & Hrole)%list_elem_of_fmap)%elem_of_concat).
    apply list_elem_of_fmap in Hl as (ref & E & Href). exists role, ref. by rewrite <- E.
  - intros (role & ref & Hrole & Href & ->). eexists. split; [reflexivity|].
    apply elem_of_concat. eexists. split; [|by apply list_elem_of_fmap_2].
    by apply list_elem_of_fmap_2.
Qed.

Lemma ByRole_roles o role : default [] (ByRole o !! role) ≠ [] → role ∈ [RoleViewer; RoleIngester; RoleMaintainer].
Proof.
  unfold ByRole. rewrite !elem_of_cons.
  destruct (decide (role = RoleViewer)); [auto|]. destruct (decide (role = RoleIngester)); [auto|].
  destruct (decide (role = RoleMaintainer)); [auto|].
  by rewrite !lookup_insert_ne, lookup_singleton_ne by done.
Qed.

(** C21: compiling an OWNERS file into grants and evaluating the grants is the
    same as reading the OWNERS file: an identity may perform an action on a
    partition exactly when the grants' partition covers it and some owner
    reference listed under a role that allows the action matches it. *)
Theorem compiled_grants_decide_owners unmarshal data o partition mapping id q action :
  ParseOwners unmarshal data = Ok o →
  Can (mkGrantStore (CompileGrants partition (Some o) mapping).1 "") id q action = true ↔
  (partition = WildcardPartition ∨ partition = q) ∧
  ∃ role ref, ref ∈ default [] (ByRole o !! role) ∧ Allows role action = true ∧
    ownerRefMatchesIdentity ref id mapping = true.
Proof.
  intros Hp. unfold Can; cbn [gs_grants]. destruct (IsAnonymous id) eqn:Ha.
  { split; [done|]. intros (_ & role & ref & _ & _ & Hm). unfold ownerRefMatchesIdentity in Hm. by rewrite Ha in Hm. }
  rewrite existsb_elem. setoid_rewrite elem_of_compiled.
  assert (∀ role ref, ref ∈ default [] (ByRole o !! role) → wf_ref ref) as Hwf.
  { intros role ref. pose proof (ParseOwners_wf _ _ _ role Hp) as Hf. rewrite Forall_forall in Hf. apply Hf. }
  split.
  - intros (g & (role & ref & _ & Href & ->) & Hc). bool_hyps.
    destruct (compile_ref_role partition mapping role ref) as [Er Ep].
    rewrite compile_ref_matches in * by eauto. unfold matchesPartition in *. rewrite Er, Ep in *.
    split; [|by exists role, ref].
    match goal with Hor : _ || _ = true |- _ => apply orb_true_iff in Hor as [Hor|Hor]; bool_hyps; auto end.
  - intros (Hq & role & ref & Href & Hal & Hm). eexists. split.
    + exists role, ref. split_and!; [|done|reflexivity]. apply (ByRole_roles o). intros E. rewrite E in Href.
      by apply elem_of_nil in Href.
    + destruct (compile_ref_role partition mapping role ref) as [Er Ep].
      rewrite compile_ref_matches, Er, Hal, Hm by eauto. unfold matchesPartition. rewrite Ep, !andb_true_r.
      apply orb_true_iff. rewrite !bool_decide_eq_true. done.
Qed.

End grants.

(** ** The grant store's file *)

Definition utf8_grant (g : Grant) : Prop :=
  ValidString (g_Subject g) = true ∧ ValidString (g_Group g) = true ∧
  ValidString (g_Partition g) = true ∧ ValidString (g_Role g) = true.

Section durable.
  Context (encode : list Grant → option string) (decode : string → option (list Grant)).
  (** encoding/json: what is marshalled from valid UTF-8 is read back. *)
  Hypothesis json_grants : ∀ gs, Forall utf8_grant gs → ∃ data, encode gs = Some data ∧ decode data = Some gs.

Lemma tmp_path_ne s : tmp_path s ≠ gs_persistPath s.
Proof.
  unfold tmp_path. intros E. apply (f_equal String.length) in E. rewrite str_length_app in E. simpl in E. lia.
Qed.

Lemma saveLocked_restart s io d d' r :
  Forall utf8_grant (gs_grants s) → gs_persistPath s ≠ "" → TrimSpace (gs_persistPath s) = gs_persistPath s →
  saveLocked encode s io d = (d', r) →
  NewGrantStore decode (gs_persistPath s) true true d' =
    match r with
    | Ok _ => Ok s
    | Err _ => NewGrantStore decode (gs_persistPath s) true true d
    end.
Proof using json_grants.
  intros Hu Hne Htr. unfold saveLocked. rewrite bool_decide_eq_false_2 by done.
  destruct (json_grants _ Hu) as (data & Henc & Hdec). rewrite Henc.
  destruct (replace_file io (tmp_path s) (gs_persistPath s) data d) as [[d1 wok] rok] eqn:Er.
  intros [= <- <-]. apply replace_file_spec in Er as [Hl _]; [|apply tmp_path_ne].
  unfold NewGrantStore, load; simpl. rewrite Htr, bool_decide_eq_false_2 by done. rewrite Hl.
  destruct wok, rok; simpl; try done. rewrite Hdec. by destruct s.
Qed.

(** C30: the store's file is replaced atomically.  After [Add] or [Replace]
    reports success, opening the store again yields exactly the grants held
    in memory; after it reports an error, for an invalid grant or because any
    of the file operations failed, opening it again yields what it would have
    yielded before. *)
Theorem grant_store_durable s d io s' d' r :
  gs_persistPath s ≠ "" → TrimSpace (gs_persistPath s) = gs_persistPath s →
  Forall utf8_grant (gs_grants s') →
  (∃ g, Add encode s g io d = (s', d', r)) ∨ (∃ gs, Replace encode s gs io d = (s', d', r)) →
  NewGrantStore decode (gs_persistPath s) true true d' =
    match r with
    | Ok _ => Ok s'
    | Err _ => NewGrantStore decode (gs_persistPath s) true true d
    end.
Proof using json_grants.
  intros Hne Htr Hu [[g Hop]|[gs Hop]]; revert Hop; unfold Add, Replace.
  - destruct (Validate g) as [[]|e]; [|by intros [= <- <- <-]].
    destruct (saveLocked _ _ _ _) as [d1 r1] eqn:Es. intros [= <- <- <-].
    apply saveLocked_restart in Es; done.
  - destruct (rmap Validate gs) as [l|e]; [|by intros [= <- <- <-]].
    destruct (saveLocked _ _ _ _) as [d1 r1] eqn:Es. intros [= <- <- <-].
    apply saveLocked_restart in Es; done.
Qed.

End durable.

(** ** Witnesses *)

Definition sample_unmarshal (data : string) : option ownersYAML :=
  if bool_decide (data = "owners") then Some (mkOwnersYAML 1 ["@team"] [] [" alice "]) else None.
Definition sample_owners : OwnersFile :=
  mkOwnersFile 1 [mkOwnerRef "team" ""] [] [mkOwnerRef "" "alice"].
Definition sample_alice : Identity := mkIdentity "alice" "" [] "".

Lemma compiled_grants_decide_owners_witness :
  @Can basic_unicode_fold (mkGrantStore (CompileGrants "prod" (Some sample_owners) ∅).1 "") sample_alice "prod" ActionModify = true.
Proof.
  apply (@compiled_grants_decide_owners basic_unicode_fold sample_unmarshal "owners" sample_owners);
    [vm_compute; reflexivity|].
  split; [by right|]. exists RoleMaintainer, (mkOwnerRef "" "alice").
  split_and!; [vm_compute; constructor | vm_compute; reflexivity | vm_compute; reflexivity].
Defined.

#[export] Instance Grant_eq_dec : EqDecision Grant.
Proof. solve_decision. Defined.
#[export] Instance Grant_countable : Countable Grant.
Proof.
  apply (inj_countable' (λ g, (g_Subject g, g_Group g, g_Partition g, g_Role g))
    (λ '(a, b, c, d), mkGrant a b c d)). by intros [].
Defined.

Lemma grant_store_durable_witness :
  ∃ s' d' r,
    Add (λ gs, Some (marshal_any gs)) (mkGrantStore [] "grants.json") (mkGrant "alice" "" "*" RoleViewer)
      (mkSaveIo Done true) ∅ = (s', d', r) ∧
    NewGrantStore unmarshal_any "grants.json" true true d' = Ok s'.
Proof.
  eexists _, _, _. split; [reflexivity|].
  apply (grant_store_durable (λ gs, Some (marshal_any gs)) unmarshal_any) with
    (s := mkGrantStore [] "grants.json") (d := ∅) (io := mkSaveIo Done true) (r := Ok tt).
  - intros gs _. eexists. split; [reflexivity | apply unmarshal_marshal].
  - done.
  - vm_compute. reflexivity.
  - repeat constructor; vm_compute; reflexivity.
  - left. exists (mkGrant "alice" "" "*" RoleViewer). reflexivity.
Defined.
