(* ===== verification/Codeowners.v ===== *)
(** * CODEOWNERS files

    Model of pkg/authz/codeowners.go: parsing, the choice of the governing
    rule, and the glob matcher with its dynamic-programming match of one
    segment.  The matcher is proved equal to a declarative reading of globs:
    a path is a concatenation of pieces, one per element of the pattern. *)

From stdpp Require Import options.
From S2P Require Import Prelude GoStrings GoUnicode GoFiles Authz AuthzProps.

Record CodeownersRule := mkRule { Pattern : string; Owners : list OwnerRef }.
Record CodeownersFile := mkCodeownersFile { Rules : list CodeownersRule }.

(** The rule of one line: [None] for blank lines and comments. *)
Definition parse_line (lineNo : nat) (raw : string) : result authz_error (option CodeownersRule) :=
  let line := TrimSpace raw in
  if bool_decide (line = "") || HasPrefix line "#" then Ok None
  else
    match Fields line with
    | pattern :: ((_ :: _) as owners) =>
        if bool_decide (pattern = "") then Err (CodeownersLine (S lineNo))
        else match rmap parseOwnerRef owners with
             | Err _ => Err (CodeownersLine (S lineNo))
             | Ok refs => Ok (Some (mkRule pattern refs))
             end
    | _ => Err (CodeownersLine (S lineNo))
    end.

Fixpoint parse_lines (lineNo : nat) (ls : list string) : result authz_error (list CodeownersRule) :=
  match ls with
  | [] => Ok []
  | raw :: ls =>
      let! rule := parse_line lineNo raw in
      let! rules := parse_lines (S lineNo) ls in
      Ok (option_list rule ++ rules)
  end.

Definition ParseCodeowners (data : string) : result authz_error CodeownersFile :=
  let! rules := parse_lines 0 (Split data newline) in
  if bool_decide (rules = []) then Err NoRules else Ok (mkCodeownersFile rules).

(** ** Matching *)

Definition star : Z := 42.
Definition question : Z := 63.

(** One row of the table: [dp[j]] says that the pattern so far matches the
    first [j] runes of the segment. *)
Fixpoint cover (covered : bool) (dp : list bool) : list bool :=
  match dp with
  | [] => []
  | d :: dp => let covered := covered || d in covered :: cover covered dp
  end.
Definition dp_step (sv : list Z) (dp : list bool) (p : Z) : list bool :=
  if bool_decide (p = star) then cover false dp
  else if bool_decide (p = question) then false :: take (length sv) dp
  else false :: zip_with (λ d c, d && bool_decide (c = p)) dp sv.

Definition codeownersMatchSegment (pattern segment : string) : bool :=
  let sv := runes segment in
  let dp := true :: replicate (length sv) false in
  nth (length sv) (foldl (dp_step sv) dp (runes pattern)) false.

Fixpoint codeownersMatchSegments (pattern path : list string) : bool :=
  match pattern with
  | [] => bool_decide (path = [])
  | p :: ps =>
      if bool_decide (p = "**")
      then existsb (λ skip, codeownersMatchSegments ps (drop skip path)) (seq 0 (S (length path)))
      else match path with
           | [] => false
           | x :: xs => if negb (codeownersMatchSegment p x) then false else codeownersMatchSegments ps xs
           end
  end.

Definition codeownersGlobMatch (pattern path : string) : bool :=
  codeownersMatchSegments (Split pattern slash) (Split path slash).

(** The suffixes [segments[i:]] joined, for every [i]. *)
Definition suffixes (path : string) : list string :=
  let segments := Split path slash in
  (λ i, Join (drop i segments) "/") <$> seq 0 (length segments).

Definition ContainsAny_wild (s : string) : bool := has_byte "*" s || has_byte "?" s.

Definition CodeownersPatternMatches (pattern path : string) : bool :=
  let pattern := TrimSpace pattern in
  let path := Trim (TrimSpace path) slash in
  if bool_decide (pattern = "") || bool_decide (path = "") then false
  else
    let anchored := HasPrefix pattern "/" in
    let pattern := if HasSuffix pattern "/" then Trim pattern slash +:+ "/**" else pattern in
    let pattern := Trim pattern slash in
    if bool_decide (pattern = "*") || bool_decide (pattern = "**") then true
    else if bool_decide (pattern ≠ "") && negb (ContainsAny_wild pattern) then
      let under p := bool_decide (p = pattern) || HasPrefix p (pattern +:+ "/") in
      if anchored then under path else existsb under (suffixes path)
    else if anchored then codeownersGlobMatch pattern path
    else existsb (codeownersGlobMatch pattern) (suffixes path).

(** The last matching rule's owners; a nil file has no rules. *)
Definition OwnersFor (f : option CodeownersFile) (path : string) : list OwnerRef :=
  match f with
  | None => []
  | Some f =>
      let path := Trim (TrimSpace path) slash in
      foldl (λ matched rule, if CodeownersPatternMatches (Pattern rule) path then Owners rule else matched)
        [] (Rules f)
  end.

(** ** Globs, declaratively *)

(** What one pattern rune matches. *)
Definition rune_matches (p : Z) (piece : list Z) : Prop :=
  if decide (p = star) then True
  else if decide (p = question) then length piece = 1%nat
  else piece = [p].

(** [s] is a concatenation of pieces matching the pattern's runes in turn. *)
Definition glob (pattern s : list Z) : Prop :=
  ∃ pieces, Forall2 rune_matches pattern pieces ∧ s = concat pieces.

(** What one pattern segment matches: ["**"] any number of path segments, any
    other segment one path segment, by its glob. *)
Definition segment_matches (p : string) (piece : list string) : Prop :=
  if decide (p = "**") then True
  else ∃ x, piece = [x] ∧ glob (runes p) (runes x).

Definition glob_path (pattern path : list string) : Prop :=
  ∃ pieces, Forall2 segment_matches pattern pieces ∧ path = concat pieces.

Lemma glob_nil s : glob [] s ↔ s = [].
Proof.
  split.
  - intros (pieces & ->%Forall2_nil_inv_l & ->). done.
  - intros ->. by exists [].
Qed.

Lemma glob_snoc p x s : glob (p ++ [x]) s ↔ ∃ a b, s = a ++ b ∧ glob p a ∧ rune_matches x b.
Proof.
  split.
  - intros (pieces & (ps & qs & Hp & Hq & ->)%Forall2_app_inv_l & ->).
    apply Forall2_cons_inv_l in Hq as (b & bs & Hb & ->%Forall2_nil_inv_l & ->).
    exists (concat ps), b. rewrite concat_app. simpl. rewrite app_nil_r. split_and!; [done|by exists ps|done].
  - intros (a & b & -> & (ps & Hp & ->) & Hb). exists (ps ++ [b]).
    rewrite concat_app. simpl. rewrite app_nil_r. split; [|done].
    apply Forall2_app; [done|]. by repeat constructor.
Qed.

(** ** The table *)

(** The row after the pattern prefix [p]. *)
Definition row (p sv : list Z) (dp : list bool) : Prop :=
  length dp = S (length sv) ∧
  ∀ j, (j ≤ length sv)%nat → nth j dp false = true ↔ glob p (take j sv).

Lemma nth_cover c dp j :
  (j < length dp)%nat →
  nth j (cover c dp) false = true ↔ c = true ∨ ∃ i, (i ≤ j)%nat ∧ nth i dp false = true.
Proof.
  revert c j. induction dp as [|d dp IH]; intros c j Hj; simpl in Hj; [lia|].
  destruct j as [|j]; simpl.
  - rewrite orb_true_iff. split.
    + intros [?|?]; [by left|]. right. by exists O.
    + intros [?|([|i] & ? & ?)]; [by left | by right | lia].
  - rewrite IH by lia. rewrite orb_true_iff. split.
    + intros [[?|?]|(i & ? & ?)]; [by left | right; exists O; split; [lia|done] |].
      right. exists (S i). split; [lia|done].
    + intros [?|([|i] & ? & ?)]; [by left; left | by left; right |].
      right. exists i. split; [lia|done].
Qed.

Lemma length_cover c dp : length (cover c dp) = length dp.
Proof. revert c. induction dp as [|d dp IH]; intros c; simpl; [done|]. by rewrite IH. Qed.

Lemma take_split {A} (sv a b : list A) j : take j sv = a ++ b → a = take (length a) sv ∧ (length a ≤ j)%nat.
Proof.
  intros E. assert (length (take j sv) = length (a ++ b)) as El by by rewrite E.
  rewrite length_take, length_app in El. split; [|lia].
  rewrite <- (take_app_length a b), <- E at 1. rewrite take_take. f_equal. lia.
Qed.

Lemma take_split_last {A} (sv a : list A) c j :
  take (S j) sv = a ++ [c] → (S j ≤ length sv)%nat → a = take j sv ∧ sv !! j = Some c.
Proof.
  intros E Hj. destruct (lookup_lt_is_Some_2 sv j) as [x Hx]; [lia|].
  rewrite (take_S_r _ _ x) in E by done. apply app_inj_tail in E as [-> ->]. done.
Qed.

Lemma row_star p sv dp : row p sv dp → row (p ++ [star]) sv (cover false dp).
Proof.
  intros [Hl Hdp]. split; [by rewrite length_cover|]. intros j Hj. rewrite nth_cover, glob_snoc by lia. split.
  - intros [?|(i & Hi & Hn)]; [done|]. apply Hdp in Hn; [|lia].
    exists (take i sv), (drop i (take j sv)). split_and!; [|done|done].
    rewrite <- (take_drop i (take j sv)) at 1. by rewrite take_take, Nat.min_l by lia.
  - intros (a & b & E & Ha & _). right. apply take_split in E as [E Hlen].
    exists (length a). split; [done|]. apply Hdp; [lia|]. by rewrite <- E.
Qed.

Lemma row_single p sv dp x next :
  x ≠ star → row p sv dp → length next = S (length sv) → nth 0 next false = false →
  (∀ j c, sv !! j = Some c →
     nth (S j) next false = true ↔ nth j dp false = true ∧ rune_matches x [c]) →
  row (p ++ [x]) sv next.
Proof.
  intros Hx [Hl Hdp] Hn H0 HS. split; [done|].
  assert (∀ b, rune_matches x b → ∃ c, b = [c]) as Hone.
  { intros b. unfold rune_matches. rewrite decide_False by done. case_decide.
    - destruct b as [|c [|]]; [done| by exists c | done].
    - intros ->. by eexists. }
  intros [|j] Hj; rewrite glob_snoc.
  - rewrite H0. split; [done|]. intros (a & b & E & _ & [c ->]%Hone). by destruct a.
  - destruct (lookup_lt_is_Some_2 sv j) as [c Hc]; [lia|]. rewrite (HS j c Hc), Hdp by lia. split.
    + intros [Hg Hm]. exists (take j sv), [c]. by rewrite (take_S_r _ _ c).
    + intros (a & b & E & Ha & Hb). destruct (Hone b Hb) as [c' ->].
      apply take_split_last in E as [-> Hc']; [|done]. split; [done|]. congruence.
Qed.

Lemma row_step p sv dp x : row p sv dp → row (p ++ [x]) sv (dp_step sv dp x).
Proof.
  intros Hrow. pose proof Hrow as [Hl _]. unfold dp_step. case_bool_decide as Hs; [subst; by apply row_star|].
  case_bool_decide as Hq.
  - apply (row_single p sv dp); [done|done| |done|].
    + simpl. rewrite length_take. lia.
    + intros j c Hc. cbn [nth]. rewrite !nth_lookup, lookup_take_lt by (by eapply lookup_lt_Some).
      unfold rune_matches. rewrite decide_False, decide_True by done. split; [by split | by intros []].
  - apply (row_single p sv dp); [done|done| |done|].
    + simpl. rewrite length_zip_with. lia.
    + intros j c Hc. cbn [nth]. rewrite !nth_lookup, lookup_zip_with, Hc.
      unfold rune_matches. rewrite !decide_False by done.
      assert (is_Some (dp !! j)) as [d Hd] by (apply lookup_lt_is_Some_2; apply lookup_lt_Some in Hc; lia).
      rewrite Hd. simpl. rewrite andb_true_iff, bool_decide_eq_true. split; intros [? ?]; split; congruence.
Qed.

Lemma row_fold sv p q dp : row p sv dp → row (p ++ q) sv (foldl (dp_step sv) dp q).
Proof.
  revert p dp. induction q as [|x q IH]; intros p dp Hr; [by rewrite app_nil_r|].
  cbn [foldl]. rewrite (app_assoc p [x] q : p ++ x :: q = _). by apply IH, row_step.
Qed.

Lemma row_init sv : row [] sv (true :: replicate (length sv) false).
Proof.
  split; [simpl; by rewrite length_replicate|]. intros j Hj. rewrite glob_nil. destruct j as [|j]; simpl; [done|].
  rewrite nth_lookup, lookup_replicate_2 by lia. simpl. split; [done|].
  intros E. apply (f_equal length) in E. rewrite length_take in E. cbn [length] in E. lia.
Qed.

Lemma codeownersMatchSegment_glob pattern segment :
  codeownersMatchSegment pattern segment = true ↔ glob (runes pattern) (runes segment).
Proof.
  destruct (row_fold (runes segment) [] (runes pattern) _ (row_init (runes segment))) as [_ H].
  unfold codeownersMatchSegment. rewrite H by done. by rewrite take_ge.
Qed.

Lemma codeownersMatchSegments_glob pattern path :
  codeownersMatchSegments pattern path = true ↔ glob_path pattern path.
Proof.
  unfold glob_path. revert path. induction pattern as [|p ps IH]; intros path; cbn [codeownersMatchSegments].
  - rewrite bool_decide_eq_true. split; [intros ->; by exists [] | by intros (? & ->%Forall2_nil_inv_l & ->)].
  - case_bool_decide as Hp.
    + rewrite existsb_elem. setoid_rewrite IH. split.
      * intros (skip & _ & pieces & HF & E). exists (take skip path :: pieces).
        split; [constructor; [|done]|]; [unfold segment_matches; by rewrite decide_True|].
        simpl. by rewrite <- E, take_drop.
      * intros (pieces & (x & xs & _ & HF & ->)%Forall2_cons_inv_l & ->). exists (length x).
        rewrite elem_of_seq. simpl. rewrite length_app. split; [lia|]. exists xs. by rewrite drop_app_length.
    + split.
      * destruct path as [|x xs]; [done|]. destruct (codeownersMatchSegment p x) eqn:Em; simpl; [|done].
        intros (pieces & HF & ->)%IH. exists ([x] :: pieces). split; [|done]. constructor; [|done].
        unfold segment_matches. rewrite decide_False by done. exists x. by rewrite <- codeownersMatchSegment_glob.
      * intros (pieces & (y & ys & Hy & HF & ->)%Forall2_cons_inv_l & ->).
        unfold segment_matches in Hy. rewrite decide_False in Hy by done. destruct Hy as (x & -> & Hg).
        simpl. rewrite (proj2 (codeownersMatchSegment_glob _ _)) by done. simpl. apply IH. by exists ys.
Qed.

(** C29: the glob matcher means what globs mean: a pattern matches a path
    exactly when the path's segments can be cut into consecutive pieces, one
    per pattern segment, where ["**"] takes any number of segments and every
    other pattern segment takes one whose runes can be cut into pieces in the
    same way, ["*"] taking any runes, ["?"] one rune and any other rune
    itself. *)
Theorem codeowners_glob_correct pattern path :
  codeownersGlobMatch pattern path = true ↔ glob_path (Split pattern slash) (Split path slash).
Proof. apply codeownersMatchSegments_glob. Qed.

(** ** The governing rule *)

Definition governing_rule (f : CodeownersFile) (path : string) : option CodeownersRule :=
  last (filter (λ r, CodeownersPatternMatches (Pattern r) (Trim (TrimSpace path) slash) = true) (Rules f)).

Lemma OwnersFor_governing f path :
  OwnersFor (Some f) path = from_option Owners [] (governing_rule f path).
Proof.
  unfold OwnersFor, governing_rule. induction (Rules f) as [|r rs IH] using rev_ind; [done|].
  rewrite foldl_snoc, filter_app, filter_cons, filter_nil.
  destruct (CodeownersPatternMatches _ _) eqn:E; [rewrite decide_True by done | rewrite decide_False by congruence].
  - by rewrite last_snoc.
  - by rewrite app_nil_r.
Qed.

Definition wf_rule (r : CodeownersRule) : Prop := Owners r ≠ [] ∧ Forall wf_ref (Owners r).

Lemma parse_line_wf n raw r : parse_line n raw = Ok (Some r) → wf_rule r.
Proof.
  unfold parse_line. destruct (_ || _); [done|]. destruct (Fields _) as [|p [|o os]]; [done|done|].
  case_bool_decide; [done|]. destruct (rmap parseOwnerRef (o :: os)) as [refs|] eqn:E; [|done].
  intros [= <-]. split; [|by eapply rmap_parse_wf]. simpl. intros ->.
  apply rmap_ok_Forall2 in E. by inversion E.
Qed.

Lemma parse_lines_wf n ls rules : parse_lines n ls = Ok rules → Forall wf_rule rules.
Proof.
  revert n rules. induction ls as [|raw ls IH]; intros n rules; cbn [parse_lines]; [intros [= <-]; constructor|].
  intros Hp. inv_bind Hp. subst rules. apply Forall_app. split; [|by eapply IH].
  destruct a as [r|]; [|constructor]. repeat constructor; by eapply parse_line_wf.
Qed.

Lemma ParseCodeowners_wf data f : ParseCodeowners data = Ok f → Forall wf_rule (Rules f).
Proof.
  unfold ParseCodeowners. intros Hp. inv_bind Hp. case_bool_decide; [done|]. injection Hp as <-.
  by eapply parse_lines_wf.
Qed.

(** in a parsed CODEOWNERS file the last rule whose pattern matches a
    path decides its owners, and a path has owners exactly when some rule
    matches it: no rule can match and leave the path without owners. *)
Theorem codeowners_last_rule_governs data f path :
  ParseCodeowners data = Ok f →
  OwnersFor (Some f) path = from_option Owners [] (governing_rule f path) ∧
  Forall wf_ref (OwnersFor (Some f) path) ∧
  (OwnersFor (Some f) path = [] ↔
   ∀ r, r ∈ Rules f → CodeownersPatternMatches (Pattern r) (Trim (TrimSpace path) slash) = false).
Proof.
  intros Hwf%ParseCodeowners_wf. rewrite Forall_forall in Hwf. rewrite OwnersFor_governing. split; [done|].
  unfold governing_rule.
  destruct (last (filter _ (Rules f))) as [r|] eqn:E; simpl.
  - apply last_Some in E as [l E].
    assert (r ∈ filter (λ r, CodeownersPatternMatches (Pattern r) (Trim (TrimSpace path) slash) = true) (Rules f)) as Hr.
    { rewrite E, elem_of_app, elem_of_cons. auto. }
    apply list_elem_of_filter in Hr as [Hm Hr]. destruct (Hwf r Hr) as [Hne Hrefs]. split; [done|].
    split; [done|]. intros Hall. by rewrite Hall in Hm.
  - apply last_None in E. split; [constructor|]. split; [|done]. intros _ r Hr. apply not_true_is_false. intros Hm.
    apply (elem_of_nil r). rewrite <- E. by apply list_elem_of_filter.
Qed.

Definition sample_codeowners : string :=
  "# owners" +:+ str1 newline +:+ "* @everyone" +:+ str1 newline +:+ "/docs/ alice @docs".

Lemma codeowners_last_rule_governs_witness :
  ∃ f, ParseCodeowners sample_codeowners = Ok f ∧ OwnersFor (Some f) "docs/a/b.md" = [mkOwnerRef "" "alice"; mkOwnerRef "docs" ""].
Proof.
  eexists. split; [vm_compute; reflexivity|].
  rewrite (proj1 (codeowners_last_rule_governs sample_codeowners _ "docs/a/b.md" ltac:(vm_compute; reflexivity))).
  vm_compute. reflexivity.
Defined.
