(* ===== verification/Ownership.v ===== *)
(** * Subtree ownership

    Model of pkg/authz/resolver.go.  An [OwnersSource] and a
    [CodeownersProvider] are interfaces of the source; the resolver holds
    what they answer during a call: a function from directories, and the
    result of loading the CODEOWNERS document when a provider is installed. *)

From stdpp Require Import options.
From S2P Require Import Prelude GoStrings GoUnicode GoFiles Authz AuthzProps Codeowners.

Abbreviation OwnersFileName := "OWNERS" (only parsing).
Abbreviation OwnersDir := ".guardian" (only parsing).

Definition OwnersPath (dir : string) : string :=
  let dir := Trim (TrimSpace dir) slash in
  if bool_decide (dir = "") then OwnersDir +:+ "/" +:+ OwnersFileName
  else dir +:+ "/" +:+ OwnersDir +:+ "/" +:+ OwnersFileName.

(** The loop of [ancestorDirs]; each iteration shortens [p], so that
    [S (length p)] iterations reach the root. *)
Fixpoint ancestors_loop (fuel : nat) (p : string) : list string :=
  match fuel with
  | O => []
  | S fuel =>
      p :: (if bool_decide (p = "") then []
            else match LastIndexByte p slash with
                 | Some idx => ancestors_loop fuel (str_take idx p)
                 | None => ancestors_loop fuel ""
                 end)
  end.
Definition ancestorDirs (path : string) : list string :=
  let p := Trim (TrimSpace path) slash in ancestors_loop (S (String.length p)) p.

Record OwnershipResolver := mkResolver {
  LoadOwners : string → result authz_error (option OwnersFile);
  mapping : TeamMapping;
  LoadCodeowners : option (result authz_error (option CodeownersFile)) }.

Definition NewOwnershipResolver (source : string → result authz_error (option OwnersFile)) (m : TeamMapping)
    : OwnershipResolver := mkResolver source m None.
Definition SetCodeownersProvider (r : OwnershipResolver)
    (provider : option (result authz_error (option CodeownersFile))) : OwnershipResolver :=
  mkResolver (LoadOwners r) (mapping r) provider.

Section resolver.
  Context `{UnicodeFold}.

(** The first of [refs] that matches. *)
Definition some_ref_matches (r : OwnershipResolver) (id : Identity) (refs : list OwnerRef) : bool :=
  existsb (λ ref, ownerRefMatchesIdentity ref id (mapping r)) refs.

(** [IsOwner]'s loop: the directory that grants ownership, or whether any
    OWNERS file was seen. *)
Fixpoint owner_loop (r : OwnershipResolver) (id : Identity) (governed : bool) (dirs : list string)
    : result authz_error (string + bool) :=
  match dirs with
  | [] => Ok (inr governed)
  | dir :: dirs =>
      let! owners := LoadOwners r dir in
      match owners with
      | None => owner_loop r id governed dirs
      | Some o => if some_ref_matches r id (Maintainers o) then Ok (inl dir) else owner_loop r id true dirs
      end
  end.

Definition load_codeowners (r : OwnershipResolver) : result authz_error (option CodeownersFile) :=
  match LoadCodeowners r with None => Ok None | Some res => res end.

Definition IsOwner (r : OwnershipResolver) (path : string) (id : Identity) : result authz_error (bool * string) :=
  let! found := owner_loop r id false (ancestorDirs path) in
  match found with
  | inl dir => Ok (true, dir)
  | inr true => Ok (false, "")
  | inr false =>
      let! codeowners := load_codeowners r in
      match codeowners with
      | None => Ok (false, "")
      | Some f => if some_ref_matches r id (OwnersFor (Some f) path) then Ok (true, "CODEOWNERS") else Ok (false, "")
      end
  end.

Fixpoint governed_loop (r : OwnershipResolver) (dirs : list string) : result authz_error bool :=
  match dirs with
  | [] => Ok false
  | dir :: dirs =>
      let! owners := LoadOwners r dir in
      match owners with Some _ => Ok true | None => governed_loop r dirs end
  end.

Definition Governed (r : OwnershipResolver) (path : string) : result authz_error bool :=
  let! g := governed_loop r (ancestorDirs path) in
  if g then Ok true
  else
    let! codeowners := load_codeowners r in
    match codeowners with
    | None => Ok false
    | Some f => Ok (bool_decide (0 < length (OwnersFor (Some f) path))%nat)
    end.

Fixpoint owns_loop (r : OwnershipResolver) (paths : list string) (id : Identity) (unowned : list string)
    : result authz_error (list string) :=
  match paths with
  | [] => Ok unowned
  | p :: paths =>
      let! (owned, _) := IsOwner r p id in
      owns_loop r paths id (if owned then unowned else unowned ++ [p])
  end.
Definition OwnsAll (r : OwnershipResolver) (paths : list string) (id : Identity)
    : result authz_error (bool * list string) :=
  let! unowned := owns_loop r paths id [] in
  Ok (bool_decide (length unowned = 0%nat), unowned).

(** [addRefs] on the pair of [seen] and [refs]. *)
Definition add_ref (st : gset string * list OwnerRef) (ref : OwnerRef) : gset string * list OwnerRef :=
  let '(seen, refs) := st in
  let key := OwnerRef_String ref in
  if bool_decide (key ∈ seen) then st else ({[key]} ∪ seen, refs ++ [ref]).
Definition addRefs (st : gset string * list OwnerRef) (candidates : list OwnerRef) : gset string * list OwnerRef :=
  foldl add_ref st candidates.

(** The loop over the directories of one path, with [governed]. *)
Fixpoint owners_loop (r : OwnershipResolver) (st : gset string * list OwnerRef) (governed : bool) (dirs : list string)
    : result authz_error (gset string * list OwnerRef * bool) :=
  match dirs with
  | [] => Ok (st, governed)
  | dir :: dirs =>
      let! owners := LoadOwners r dir in
      match owners with
      | None => owners_loop r st governed dirs
      | Some o => owners_loop r (addRefs st (Maintainers o)) true dirs
      end
  end.

Fixpoint owners_of_paths (r : OwnershipResolver) (codeowners : option CodeownersFile)
    (st : gset string * list OwnerRef) (paths : list string) : result authz_error (gset string * list OwnerRef) :=
  match paths with
  | [] => Ok st
  | p :: paths =>
      let! (st, governed) := owners_loop r st false (ancestorDirs p) in
      let st := match governed, codeowners with
                | false, Some f => addRefs st (OwnersFor (Some f) p)
                | _, _ => st
                end in
      owners_of_paths r codeowners st paths
  end.

Definition OwnersOf (r : OwnershipResolver) (paths : list string) : result authz_error (list OwnerRef) :=
  let! codeowners := load_codeowners r in
  let! (_, refs) := owners_of_paths r codeowners (∅, []) paths in
  Ok refs.

End resolver.
