(* ===== verification/OwnershipProps.v ===== *)
(** * What ownership resolution promises

    Theorems about Ownership.v: the ancestor chain is the list of all
    prefixes of a path, owners of a directory own what is below it, OWNERS
    files override CODEOWNERS, and the reviewers proposed for a change are
    exactly those who own part of it. *)

From stdpp Require Import options.
From S2P Require Import Prelude GoStrings GoUnicode GoFiles Authz AuthzProps Codeowners Ownership.

(** ** The ancestor chain *)

Definition path_segments (path : string) : list string :=
  let t := Trim (TrimSpace path) slash in if decide (t = "") then [] else Split t slash.

(** The joined prefixes of [segs], from all of it to none. *)
Definition prefixes_desc (segs : list string) : list string :=
  (λ k, Join (take k segs) "/") <$> rev (seq 0 (S (length segs))).

Lemma prefixes_desc_snoc segs x :
  prefixes_desc (segs ++ [x]) = Join (segs ++ [x]) "/" :: prefixes_desc segs.
Proof.
  unfold prefixes_desc. rewrite length_app. cbn [length]. rewrite Nat.add_1_r, (seq_S (S (length segs))).
  rewrite rev_app_distr, fmap_app.
  change (rev [(0 + S (length segs))%nat]) with [S (length segs)]. cbn [fmap list_fmap app]. f_equal.
  - rewrite take_ge; [done|]. rewrite length_app. simpl. lia.
  - apply list_fmap_ext. intros i k Hk. apply list_elem_of_lookup_2, list_elem_of_In, in_rev, in_seq in Hk.
    f_equal. rewrite take_app_le by lia. done.
Qed.

Lemma prefixes_desc_app segs rest d : d ∈ prefixes_desc segs → d ∈ prefixes_desc (segs ++ rest).
Proof.
  intros Hd. induction rest as [|x rest IH] using rev_ind; [by rewrite app_nil_r|].
  rewrite app_assoc, prefixes_desc_snoc. by right.
Qed.

Definition plain_segs (segs : list string) : Prop :=
  Forall (λ p, has_byte slash p = false) segs ∧ head segs ≠ Some "".

Lemma Join_ne segs : plain_segs segs → segs ≠ [] → Join segs "/" ≠ "".
Proof.
  intros [_ Hh] Hne. destruct segs as [|s segs]; [done|]. destruct segs as [|s' segs].
  - change (Join [s] "/") with s. intros ->. done.
  - rewrite Join_cons by done. intros [-> _]%str_app_empty. done.
Qed.

Lemma ancestors_loop_chain segs fuel :
  plain_segs segs → (String.length (Join segs "/") < fuel)%nat →
  ancestors_loop fuel (Join segs "/") = prefixes_desc segs.
Proof.
  revert fuel. induction segs as [|x segs IH] using rev_ind; intros fuel Hp Hf.
  { destruct fuel; [simpl in Hf; lia|]. done. }
  rewrite prefixes_desc_snoc. destruct fuel as [|fuel]; [lia|]. cbn [ancestors_loop]. f_equal.
  rewrite bool_decide_eq_false_2 by (apply Join_ne; [done | by destruct segs]).
  destruct Hp as [[Hs Hx]%Forall_app Hh]. apply Forall_cons in Hx as [Hx _].
  destruct (decide (segs = [])) as [->|Hne].
  - rewrite app_nil_l in *. change (Join [x] "/") with x in *. rewrite LastIndexByte_none by done.
    change "" with (Join [] "/"). apply IH; [by split; [|done]|].
    destruct x; [done|]. simpl in *. lia.
  - rewrite Join_app in * by done. change (Join [x] "/") with x in *.
    rewrite LastIndexByte_app, str_take_app by done. apply IH.
    + split; [done|]. by destruct segs.
    + rewrite !str_length_app in Hf. simpl in Hf. lia.
Qed.

Lemma plain_path_segments path : plain_segs (path_segments path).
Proof.
  unfold path_segments. case_decide as Ht; [by split|]. split; [apply Split_no_sep|].
  destruct (Trim_ends (TrimSpace path) slash) as [Hh _]. intros E.
  pose proof (Join_Split (Trim (TrimSpace path) slash) slash) as HJ.
  destruct (Split _ slash) as [|s ss]; [done|]. injection E as ->. destruct ss as [|s ss].
  - by rewrite <- HJ in Ht.
  - rewrite Join_cons in HJ by done. rewrite <- HJ in Hh. simpl in Hh. by rewrite HasPrefix_app in Hh.
Qed.

Lemma Join_path_segments path : Join (path_segments path) "/" = Trim (TrimSpace path) slash.
Proof. unfold path_segments. case_decide as Ht; [by rewrite Ht | apply Join_Split]. Qed.

Lemma ancestorDirs_chain path : ancestorDirs path = prefixes_desc (path_segments path).
Proof.
  unfold ancestorDirs. rewrite <- Join_path_segments.
  apply ancestors_loop_chain; [apply plain_path_segments | lia].
Qed.

(** [ancestorDirs] terminates with the path itself and each of its
    ancestors, deepest first and ending in the root: one entry per prefix of
    the path's segments. *)
Theorem ancestorDirs_all_prefixes path :
  ancestorDirs path = prefixes_desc (path_segments path) ∧
  length (ancestorDirs path) = S (length (path_segments path)) ∧
  head (ancestorDirs path) = Some (Trim (TrimSpace path) slash) ∧ last (ancestorDirs path) = Some "".
Proof.
  rewrite ancestorDirs_chain. split; [done|]. rewrite <- Join_path_segments.
  generalize (path_segments path). intros segs. split_and!.
  - unfold prefixes_desc. by rewrite length_fmap, length_rev, length_seq.
  - destruct segs as [|x segs _] using rev_ind; [done|]. by rewrite prefixes_desc_snoc.
  - induction segs as [|x segs IH] using rev_ind; [done|]. rewrite prefixes_desc_snoc.
    destruct (prefixes_desc segs); done.
Qed.

(** ** Owners *)

Section owners.
  Context `{UnicodeFold}.
  Implicit Types (r : OwnershipResolver) (id : Identity).

Definition has_owners r (dir : string) : Prop := ∃ o, LoadOwners r dir = Ok (Some o).
Definition loads r (dir : string) : Prop := is_ok (LoadOwners r dir) = true.
Definition maintains r id (dir : string) : Prop :=
  ∃ o, LoadOwners r dir = Ok (Some o) ∧ some_ref_matches r id (Maintainers o) = true.

Lemma owner_loop_inl r id g dirs d :
  owner_loop r id g dirs = Ok (inl d) → d ∈ dirs ∧ maintains r id d.
Proof.
  revert g. induction dirs as [|dir dirs IH]; intros g; cbn [owner_loop]; [done|].
  destruct (LoadOwners r dir) as [[o|]|e] eqn:El; cbn [rbind]; [| |done].
  - destruct (some_ref_matches r id (Maintainers o)) eqn:Em.
    + intros [= <-]. split; [by left|]. by exists o.
    + intros [Hin Hm]%IH. split; [by right|done].
  - intros [Hin Hm]%IH. split; [by right|done].
Qed.

Lemma owner_loop_inr r id g dirs b :
  owner_loop r id g dirs = Ok (inr b) →
  (∀ x, x ∈ dirs → loads r x ∧ ¬ maintains r id x) ∧
  (b = true ↔ g = true ∨ ∃ x, x ∈ dirs ∧ has_owners r x).
Proof.
  unfold loads, maintains, has_owners. revert g. induction dirs as [|dir dirs IH]; intros g; cbn [owner_loop].
  { intros [= ->]. split; [by intros x ?%elem_of_nil|]. split; [auto|]. by intros [?|(x & ?%elem_of_nil & _)]. }
  destruct (LoadOwners r dir) as [[o|]|e] eqn:El; cbn [rbind]; [| |done].
  - destruct (some_ref_matches r id (Maintainers o)) eqn:Em; [done|]. intros [Hl Hb]%IH. split.
    + intros x [->|Hx]%elem_of_cons; [|by apply Hl]. rewrite El. split; [done|]. intros (o' & [= <-] & Hm). congruence.
    + split; [|intros _; apply Hb; by left]. intros _. right. exists dir. split; [by left|by exists o].
  - intros [Hl Hb]%IH. split.
    + intros x [->|Hx]%elem_of_cons; [|by apply Hl]. rewrite El. split; [done|]. by intros (o' & ? & _).
    + rewrite Hb. split; (intros [?|(x & Hx & Ho)]; [by left|right]).
      * exists x. split; [by right|done].
      * apply elem_of_cons in Hx as [->|Hx]; [|by exists x]. destruct Ho as [o' ?]. congruence.
Qed.

Lemma owner_loop_ok r id g dirs : (∀ x, x ∈ dirs → loads r x) → is_ok (owner_loop r id g dirs) = true.
Proof.
  unfold loads. revert g. induction dirs as [|dir dirs IH]; intros g Hl; cbn [owner_loop]; [done|].
  specialize (Hl dir (list_elem_of_here _ _)) as Hd.
  assert (∀ x, x ∈ dirs → is_ok (LoadOwners r x) = true) as Hl' by (intros; apply Hl; by right).
  destruct (LoadOwners r dir) as [[o|]|e]; cbn [rbind]; [|by apply IH|done].
  case_match; [done | by apply IH].
Qed.

(** Ownership of a path some OWNERS file governs comes from an OWNERS file. *)
Lemma IsOwner_governed r p id d dir :
  dir ∈ ancestorDirs p → has_owners r dir → IsOwner r p id = Ok (true, d) →
  d ∈ ancestorDirs p ∧ maintains r id d.
Proof.
  intros Hin Ho. unfold IsOwner. destruct (owner_loop r id false (ancestorDirs p)) as [[d'|[]]|e] eqn:E;
    cbn [rbind]; try done.
  - intros [= <-]. by apply owner_loop_inl in E.
  - apply owner_loop_inr in E as [_ [_ Hb]]. by discriminate Hb; right; exists dir.
Qed.

Lemma IsOwner_maintains r q id d :
  (∀ x, x ∈ ancestorDirs q → loads r x) → d ∈ ancestorDirs q → maintains r id d →
  ∃ d', IsOwner r q id = Ok (true, d').
Proof.
  intros Hl Hd Hm. unfold IsOwner. pose proof (owner_loop_ok r id false _ Hl) as Hok.
  destruct (owner_loop r id false (ancestorDirs q)) as [[d'|b]|e] eqn:E; [by exists d'| |done].
  apply owner_loop_inr in E as [Hn _]. by destruct (Hn d Hd).
Qed.

(** The paths of a change that are not owned are collected. *)
Lemma owns_loop_spec r paths id acc unowned :
  owns_loop r paths id acc = Ok unowned →
  ∃ rest, unowned = acc ++ rest ∧
    ∀ p, p ∈ paths → p ∈ rest ∨ ∃ d, IsOwner r p id = Ok (true, d).
Proof.
  revert acc. induction paths as [|p paths IH]; intros acc; cbn [owns_loop].
  { intros [= <-]. exists []. rewrite app_nil_r. split; [done|]. by intros ? ?%elem_of_nil. }
  destruct (IsOwner r p id) as [[owned d]|e] eqn:Eo; [|done]. cbn [rbind].
  intros (rest & -> & Hrest)%IH. destruct owned.
  - exists rest. split; [done|]. intros q [->|Hq]%elem_of_cons; [right; by exists d | by apply Hrest].
  - exists (p :: rest). rewrite <- app_assoc. split; [done|].
    intros q [->|Hq]%elem_of_cons; [left; by left|]. destruct (Hrest q Hq); [left; by right | by right].
Qed.

(** C38: whoever owns a directory through an OWNERS file owns everything below
    it: if an OWNERS file governs [p] and [id] owns [p], then [id] owns every
    path whose segments extend those of [p], whatever OWNERS files lie
    further down, as long as the OWNERS files on the way can be read. *)
Theorem directory_owner_owns_contents r id p q rest d dir :
  path_segments q = path_segments p ++ rest →
  (∀ x, x ∈ ancestorDirs q → loads r x) →
  dir ∈ ancestorDirs p → has_owners r dir →
  IsOwner r p id = Ok (true, d) →
  ∃ d', IsOwner r q id = Ok (true, d').
Proof.
  intros Hseg Hl Hdir Ho Hp. destruct (IsOwner_governed r p id d dir Hdir Ho Hp) as [Hd Hm].
  apply (IsOwner_maintains r q id d); [done| |done].
  rewrite ancestorDirs_chain in *. rewrite Hseg. by apply prefixes_desc_app.
Qed.

(** OWNERS files win over CODEOWNERS: on a path with an OWNERS file
    anywhere on its ancestor chain, the answer of [IsOwner] is the same
    whatever CODEOWNERS provider is installed, failing ones included. *)
Theorem owners_override_codeowners r id p dir provider :
  dir ∈ ancestorDirs p → has_owners r dir →
  IsOwner (SetCodeownersProvider r provider) p id = IsOwner r p id.
Proof.
  intros Hin Ho. unfold IsOwner.
  assert (owner_loop (SetCodeownersProvider r provider) id false (ancestorDirs p) =
          owner_loop r id false (ancestorDirs p)) as ->.
  { clear. generalize false. induction (ancestorDirs p) as [|x dirs IH]; intros g; cbn [owner_loop]; [done|].
    cbn [LoadOwners SetCodeownersProvider]. destruct (LoadOwners r x) as [[o|]|e]; cbn [rbind]; [|done|done].
    unfold some_ref_matches; cbn [mapping]. by rewrite IH. }
  destruct (owner_loop r id false (ancestorDirs p)) as [[d|[]]|e] eqn:E; cbn [rbind]; try done.
  apply owner_loop_inr in E as [_ [_ Hb]]. by discriminate Hb; right; exists dir.
Qed.

(** ** Reviewers *)

(** Every reference the sources hold came out of a parser. *)
Definition parsed_sources r : Prop :=
  (∀ dir o, LoadOwners r dir = Ok (Some o) → Forall wf_ref (Maintainers o)) ∧
  (∀ f, load_codeowners r = Ok (Some f) → Forall wf_rule (Rules f)).

Definition st_ok (st : gset string * list OwnerRef) : Prop :=
  (∀ k, k ∈ st.1 ↔ ∃ ref, ref ∈ st.2 ∧ OwnerRef_String ref = k) ∧ Forall wf_ref st.2.

Lemma add_ref_spec st c :
  st_ok st → wf_ref c → st_ok (add_ref st c) ∧ ∀ ref, ref ∈ (add_ref st c).2 ↔ ref ∈ st.2 ∨ ref = c.
Proof.
  destruct st as [seen refs]. intros [Hs Hw] Hc. simpl in *. case_bool_decide as Hin.
  - split; [done|]. intros ref. split; [by left|]. intros [?| ->]; [done|].
    apply Hs in Hin as (ref' & Href' & E). rewrite Forall_forall in Hw.
    apply OwnerRef_String_inj in E; [by subst | by apply Hw | done].
  - split; [split; simpl|].
    + intros k. rewrite elem_of_union, elem_of_singleton, Hs. setoid_rewrite elem_of_app.
      setoid_rewrite list_elem_of_singleton. split.
      * intros [->|(ref & ? & ?)]; [by exists c; auto | by exists ref; auto].
      * intros (ref & [?| ->] & <-); [right; by exists ref | by left].
    + apply Forall_app. split; [done|]. by apply Forall_singleton.
    + intros ref. simpl. by rewrite elem_of_app, list_elem_of_singleton.
Qed.

Lemma addRefs_spec st cs :
  st_ok st → Forall wf_ref cs → st_ok (addRefs st cs) ∧ ∀ ref, ref ∈ (addRefs st cs).2 ↔ ref ∈ st.2 ∨ ref ∈ cs.
Proof.
  intros Hst Hcs. revert st Hst. induction Hcs as [|c cs Hc _ IH]; intros st Hst; unfold addRefs; cbn [foldl].
  { split; [done|]. intros ref. rewrite elem_of_nil. tauto. }
  destruct (add_ref_spec st c Hst Hc) as [Hst' Hel]. destruct (IH _ Hst') as [Hst'' Hel'].
  split; [exact Hst''|]. intros ref. etrans; [apply Hel'|]. rewrite Hel, elem_of_cons. tauto.
Qed.

Definition listed r (dirs : list string) (ref : OwnerRef) : Prop :=
  ∃ dir o, dir ∈ dirs ∧ LoadOwners r dir = Ok (Some o) ∧ ref ∈ Maintainers o.

Lemma listed_cons_some r dir dirs o ref :
  LoadOwners r dir = Ok (Some o) → listed r (dir :: dirs) ref ↔ ref ∈ Maintainers o ∨ listed r dirs ref.
Proof.
  intros El. unfold listed. split.
  - intros (x & o' & [->|Hx]%elem_of_cons & El' & Hr); [left; congruence | right; by exists x, o'].
  - intros [Hr|(x & o' & Hx & El' & Hr)]; [exists dir, o | exists x, o']; rewrite elem_of_cons; auto.
Qed.

Lemma listed_cons_none r dir dirs ref :
  LoadOwners r dir = Ok None → listed r (dir :: dirs) ref ↔ listed r dirs ref.
Proof.
  intros El. unfold listed. split.
  - intros (x & o' & [->|Hx]%elem_of_cons & El' & Hr); [congruence | by exists x, o'].
  - intros (x & o' & Hx & El' & Hr). exists x, o'. rewrite elem_of_cons. auto.
Qed.

Lemma owners_loop_spec r st g dirs st' g' :
  parsed_sources r → st_ok st → owners_loop r st g dirs = Ok (st', g') →
  st_ok st' ∧ (∀ x, x ∈ dirs → loads r x) ∧
  (g' = true ↔ g = true ∨ ∃ x, x ∈ dirs ∧ has_owners r x) ∧
  ∀ ref, ref ∈ st'.2 ↔ ref ∈ st.2 ∨ listed r dirs ref.
Proof.
  intros [Hw _]. unfold loads, has_owners. revert st g.
  induction dirs as [|dir dirs IH]; intros st g Hst; cbn [owners_loop].
  { intros [= <- <-]. split_and!; [done | by intros x ?%elem_of_nil | |].
    - split; [auto|]. by intros [?|(x & ?%elem_of_nil & _)].
    - intros ref. split; [auto|]. by intros [?|(x & o & ?%elem_of_nil & _)]. }
  destruct (LoadOwners r dir) as [[o|]|e] eqn:El; cbn [rbind]; [| |done].
  - destruct (addRefs_spec st (Maintainers o) Hst (Hw _ _ El)) as [Hst' Hel].
    intros (Hst'' & Hl & Hg & Href)%IH; [|done]. split_and!; [done| | |].
    + intros x [->|Hx]%elem_of_cons; [by rewrite El | by apply Hl].
    + rewrite Hg. split; [|by left]. intros _. right. exists dir. split; [by left | by exists o].
    + intros ref. rewrite Href, Hel, listed_cons_some by done. tauto.
  - intros (Hst'' & Hl & Hg & Href)%IH; [|done]. split_and!; [done| | |].
    + intros x [->|Hx]%elem_of_cons; [by rewrite El | by apply Hl].
    + rewrite Hg. split; (intros [?|(x & Hx & Ho)]; [by left|right]).
      * exists x. split; [by right|done].
      * apply elem_of_cons in Hx as [->|Hx]; [|by exists x]. destruct Ho as [o' ?]. congruence.
    + intros ref. by rewrite Href, listed_cons_none.
Qed.

(** The references that govern [p]. *)
Definition governs r (codeowners : option CodeownersFile) (p : string) (ref : OwnerRef) : Prop :=
  listed r (ancestorDirs p) ref ∨
  ((¬ ∃ x, x ∈ ancestorDirs p ∧ has_owners r x) ∧ ref ∈ OwnersFor codeowners p).

Lemma OwnersFor_wf f p : Forall wf_rule (Rules f) → Forall wf_ref (OwnersFor (Some f) p).
Proof.
  intros Hw. rewrite OwnersFor_governing. destruct (governing_rule f p) as [rule|] eqn:E; [|constructor].
  unfold governing_rule in E. apply last_Some in E as [l E]. rewrite Forall_forall in Hw.
  assert (rule ∈ l ++ [rule]) as Hr by (rewrite elem_of_app, elem_of_cons; auto).
  rewrite <- E in Hr. apply list_elem_of_filter in Hr as [_ Hr]. by apply Hw.
Qed.

Lemma owners_of_paths_spec r codeowners st paths st' :
  parsed_sources r → load_codeowners r = Ok codeowners → st_ok st →
  owners_of_paths r codeowners st paths = Ok st' →
  (∀ p x, p ∈ paths → x ∈ ancestorDirs p → loads r x) ∧
  ∀ ref, ref ∈ st'.2 ↔ ref ∈ st.2 ∨ ∃ p, p ∈ paths ∧ governs r codeowners p ref.
Proof.
  intros Hsrc Hco. revert st. induction paths as [|p paths IH]; intros st Hst; cbn [owners_of_paths].
  { intros [= <-]. split; [by intros ?? ?%elem_of_nil|]. intros ref. split; [auto|].
    by intros [?|(? & ?%elem_of_nil & _)]. }
  destruct (owners_loop r st false (ancestorDirs p)) as [[st1 g]|e] eqn:El; cbn [rbind]; [|done].
  apply owners_loop_spec in El as (Hst1 & Hl & Hg & Href); [|done..].
  set (st2 := match g, codeowners with false, Some f => _ | _, _ => st1 end).
  assert (st_ok st2 ∧ ∀ ref, ref ∈ st2.2 ↔ ref ∈ st.2 ∨ governs r codeowners p ref) as [Hst2 Href2].
  { unfold governs. assert (g = false → ¬ ∃ x, x ∈ ancestorDirs p ∧ has_owners r x) as Hno.
    { intros -> Hx. by assert (false = true) by (apply Hg; auto). }
    subst st2. destruct g, codeowners as [f|].
    3: { destruct (addRefs_spec st1 (OwnersFor (Some f) p) Hst1) as [Ha Hb]; [apply OwnersFor_wf; by apply Hsrc|].
         split; [done|]. intros ref. rewrite Hb, Href. specialize (Hno eq_refl). tauto. }
    1-2: split; [done|]; intros ref; rewrite Href; assert (∃ x, x ∈ ancestorDirs p ∧ has_owners r x)
           by (by destruct (proj1 Hg eq_refl)); tauto.
    split; [done|]. intros ref. rewrite Href. unfold OwnersFor. rewrite elem_of_nil. tauto. }
  intros [Hl' Hel]%IH; [|done]. split.
  - intros p' x [->|Hp']%elem_of_cons Hx; [by apply Hl | by eapply Hl'].
  - intros ref. rewrite Hel, Href2. split.
    + intros [[?|?]|(p' & ? & ?)]; [by left | right; exists p; by rewrite elem_of_cons; auto | right; exists p'; rewrite elem_of_cons; auto].
    + intros [?|(p' & [->|?]%elem_of_cons & ?)]; [by left; left | by left; right | right; by exists p'].
Qed.

Lemma some_ref_matches_true r id refs :
  some_ref_matches r id refs = true ↔ ∃ ref, ref ∈ refs ∧ ownerRefMatchesIdentity ref id (mapping r) = true.
Proof. apply existsb_elem. Qed.

Lemma IsOwner_governs r codeowners p id :
  (∀ x, x ∈ ancestorDirs p → loads r x) → load_codeowners r = Ok codeowners →
  (∃ d, IsOwner r p id = Ok (true, d)) ↔
  ∃ ref, governs r codeowners p ref ∧ ownerRefMatchesIdentity ref id (mapping r) = true.
Proof.
  intros Hl Hco. unfold IsOwner, governs. pose proof (owner_loop_ok r id false _ Hl) as Hok.
  destruct (owner_loop r id false (ancestorDirs p)) as [[d|b]|e] eqn:E; [| |done]; cbn [rbind].
  - apply owner_loop_inl in E as [Hd (o & El & (ref & Href & Hm)%some_ref_matches_true)].
    split; [|by eexists]. intros _. exists ref. split; [|done]. left. by exists d, o.
  - apply owner_loop_inr in E as [Hn Hb].
    assert (∀ ref, listed r (ancestorDirs p) ref → ownerRefMatchesIdentity ref id (mapping r) = true → False) as Hnl.
    { intros ref (x & o & Hx & El & Hr) Hm. destruct (Hn x Hx) as [_ Hx']. apply Hx'. exists o. split; [done|].
      apply some_ref_matches_true. by exists ref. }
    destruct b.
    + split; [by intros [? ?]|]. intros (ref & [Hr|[Hno _]] & Hm); [by destruct (Hnl ref)|].
      destruct Hno. by destruct (proj1 Hb eq_refl).
    + rewrite Hco. cbn [rbind].
      assert (¬ ∃ x, x ∈ ancestorDirs p ∧ has_owners r x) as Hno by (intros Hx; by discriminate (proj2 Hb (or_intror Hx))).
      destruct codeowners as [f|].
      * destruct (some_ref_matches r id (OwnersFor (Some f) p)) eqn:Es.
        -- split; [|by eexists]. intros _. apply some_ref_matches_true in Es as (ref & ? & ?). exists ref. auto.
        -- split; [by intros [? ?]|]. intros (ref & [Hr|[_ Hr]] & Hm); [by destruct (Hnl ref)|].
           apply not_true_iff_false in Es. destruct Es. apply some_ref_matches_true. by exists ref.
      * split; [by intros [? ?]|]. intros (ref & [Hr|[_ Hr%elem_of_nil]] & Hm); [by destruct (Hnl ref)|done].
Qed.

(** The reviewers assigned to a change are the people who can approve
    part of it: an identity matches one of the references [OwnersOf] returns
    for a set of paths exactly when [IsOwner] says that it owns one of the
    paths. *)
Theorem reviewers_are_owners r paths refs id :
  parsed_sources r → OwnersOf r paths = Ok refs →
  (∃ ref, ref ∈ refs ∧ ownerRefMatchesIdentity ref id (mapping r) = true) ↔
  ∃ p d, p ∈ paths ∧ IsOwner r p id = Ok (true, d).
Proof.
  intros Hsrc. unfold OwnersOf. destruct (load_codeowners r) as [codeowners|e] eqn:Hco; [|done].
  cbn [rbind]. destruct (owners_of_paths r codeowners (∅, []) paths) as [[seen refs']|e] eqn:E; [|done].
  intros [= <-]. apply owners_of_paths_spec in E as [Hl Hel]; [|done|done|].
  2: { split; [|constructor]. intros k. simpl. split; [by intros ?%elem_of_empty | by intros (? & ?%elem_of_nil & _)]. }
  simpl in Hel. split.
  - intros (ref & [?%elem_of_nil|(p & Hp & Hg)]%Hel & Hm); [done|].
    destruct (proj2 (IsOwner_governs r codeowners p id (λ x, Hl p x Hp) Hco)) as [d Hd]; [by exists ref|].
    by exists p, d.
  - intros (p & d & Hp & Ho).
    destruct (proj1 (IsOwner_governs r codeowners p id (λ x, Hl p x Hp) Hco)) as (ref & Hg & Hm); [by exists d|].
    exists ref. split; [|done]. apply Hel. right. by exists p.
Qed.

End owners.

(** ** Witnesses *)

Definition sample_source (dir : string) : result authz_error (option OwnersFile) :=
  if bool_decide (dir = "team") then Ok (Some (mkOwnersFile 1 [] [] [mkOwnerRef "" "alice"; mkOwnerRef "leads" ""]))
  else Ok None.
Definition sample_resolver : OwnershipResolver := NewOwnershipResolver sample_source ∅.
Definition sample_bob : Identity := mkIdentity "bob" "bob@example.com" ["Leads"] "".

Lemma sample_loads x : loads sample_resolver x.
Proof. unfold loads, sample_resolver, sample_source; simpl. by case_bool_decide. Qed.

Lemma sample_has_owners : has_owners sample_resolver "team".
Proof. eexists. vm_compute. reflexivity. Qed.

Lemma sample_parsed : parsed_sources sample_resolver.
Proof.
  split; [|done]. intros dir o. unfold sample_resolver, sample_source; simpl. case_bool_decide; [|done].
  intros [= <-]. simpl. apply Forall_cons. split; [right|apply Forall_singleton; left]; vm_compute; done.
Qed.

Lemma directory_owner_owns_contents_witness :
  ∃ d', @IsOwner basic_unicode_fold sample_resolver "/team/src/main.go" sample_bob = Ok (true, d').
Proof.
  apply (@directory_owner_owns_contents basic_unicode_fold sample_resolver sample_bob "team" "/team/src/main.go"
           ["src"; "main.go"] "team" "team").
  - vm_compute. reflexivity.
  - intros x _. apply sample_loads.
  - vm_compute. left.
  - apply sample_has_owners.
  - vm_compute. reflexivity.
Defined.

Lemma owners_override_codeowners_witness :
  @IsOwner basic_unicode_fold (SetCodeownersProvider sample_resolver (Some (Err LoadFailed))) "team/x" sample_bob =
  @IsOwner basic_unicode_fold sample_resolver "team/x" sample_bob.
Proof.
  apply (@owners_override_codeowners basic_unicode_fold sample_resolver sample_bob "team/x" "team").
  - vm_compute. right. left.
  - apply sample_has_owners.
Defined.

Lemma reviewers_are_owners_witness :
  (∃ ref, ref ∈ [mkOwnerRef "" "alice"; mkOwnerRef "leads" ""] ∧
     @ownerRefMatchesIdentity basic_unicode_fold ref sample_bob ∅ = true) ↔
  ∃ p d, p ∈ ["team/x"; "other"] ∧ @IsOwner basic_unicode_fold sample_resolver p sample_bob = Ok (true, d).
Proof.
  apply (@reviewers_are_owners basic_unicode_fold sample_resolver ["team/x"; "other"]).
  - apply sample_parsed.
  - vm_compute. reflexivity.
Defined.
