(* ===== verification/MergeRequest.v ===== *)
(** * Merge requests

    Model of internal/router/mergerequest/store.go: proposals to change a
    partition, reviewed by the owners of the affected paths.

    The store talks to ownership through the source's [OwnershipChecker]
    interface, here a class that also states what an answer means; the
    resolver of Ownership.v is an instance.  Every method runs under the
    store's lock, so a method is one step.  The clock and the checker (nil or
    not, and with whatever it answers at that moment) are arguments of a
    step. *)

From stdpp Require Import options pretty.
From S2P Require Import Prelude GoStrings GoUnicode GoFiles Authz AuthzProps Codeowners Ownership OwnershipProps.

(** [owns] is the meaning of a positive answer: the identity may modify the
    path directly. *)
Class OwnershipChecker (C : Type) := {
  check_owns_all : C → list string → Identity → result authz_error (bool * list string);
  owns : C → string → Identity → Prop;
  check_sound c paths id unowned p :
    check_owns_all c paths id = Ok (true, unowned) → p ∈ paths → owns c p id }.

Inductive State := StateOpen | StateApproved | StateMerged | StateRejected.
#[export] Instance State_eq_dec : EqDecision State.
Proof. solve_decision. Defined.

Record Proposal := mkProposal {
  pr_ID : string; pr_Partition : string; pr_Paths : list string; pr_Author : string;
  pr_Title : string; pr_Description : string; pr_State : State; pr_Approvals : list string;
  pr_CreatedAt : Z; pr_UpdatedAt : Z }.

(** The counter is a Go [int]; [2^63] proposals are out of reach. *)
Record Store := mkStore { proposals : gmap string Proposal; seq : Z }.

Definition NewStore : Store := mkStore ∅ 0.

Inductive mr_error :=
| AuthorRequired | PathRequired | ApproverRequired | NotFound (id : string)
| NotOpen (id : string) (s : State) | OwnProposal | NotApproved (id : string) (s : State)
| AlreadyMerged (id : string) | NoChecker | CheckFailed (e : authz_error)
| NotOwner (principal : string) (unowned : list string).

(** [fmt.Sprintf("mr-%d", s.seq)]. *)
Definition proposal_id (n : Z) : string := "mr-" +:+ pretty n.

Definition Create (s : Store) (author partition : string) (paths : list string) (title description : string)
    (now : Z) : Store * result mr_error Proposal :=
  if bool_decide (author = "") then (s, Err AuthorRequired)
  else if bool_decide (length paths = 0%nat) then (s, Err PathRequired)
  else
    let seq := seq s + 1 in
    let p := mkProposal (proposal_id seq) partition paths author title description StateOpen [] now now in
    (mkStore (<[pr_ID p := p]> (proposals s)) seq, Ok p).

Definition Get (s : Store) (id : string) : option Proposal := proposals s !! id.

(** [List] in the order in which the map happens to be traversed. *)
Definition List_ (s : Store) (partition : string) (order : list string) : list Proposal :=
  filter (λ p, partition = "" ∨ pr_Partition p = partition) (omap (λ id, proposals s !! id) order).

Definition with_state (p : Proposal) (st : State) (approvals : list string) (now : Z) : Proposal :=
  mkProposal (pr_ID p) (pr_Partition p) (pr_Paths p) (pr_Author p) (pr_Title p) (pr_Description p)
    st approvals (pr_CreatedAt p) now.

Definition contains (items : list string) (want : string) : bool := existsb (λ item, bool_decide (item = want)) items.

Section ops.
  Context `{OwnershipChecker C}.

Definition requireOwner (owners : option C) (p : Proposal) (id : Identity) : result mr_error unit :=
  match owners with
  | None => Err NoChecker
  | Some c =>
      match check_owns_all c (pr_Paths p) id with
      | Err e => Err (CheckFailed e)
      | Ok (ownsAll, unowned) => if ownsAll then Ok tt else Err (NotOwner (PrincipalID id) unowned)
      end
  end.

(** Storing the changed proposal. *)
Definition put (s : Store) (id : string) (p : Proposal) : Store * result mr_error Proposal :=
  (mkStore (<[id := p]> (proposals s)) (seq s), Ok p).

Definition Approve (s : Store) (owners : option C) (id : string) (approver : Identity) (now : Z)
    : Store * result mr_error Proposal :=
  let approverID := PrincipalID approver in
  if bool_decide (approverID = "") then (s, Err ApproverRequired)
  else
    match proposals s !! id with
    | None => (s, Err (NotFound id))
    | Some p =>
        if bool_decide (pr_State p ≠ StateOpen) then (s, Err (NotOpen id (pr_State p)))
        else if bool_decide (approverID = pr_Author p) then (s, Err OwnProposal)
        else
          match requireOwner owners p approver with
          | Err e => (s, Err e)
          | Ok _ =>
              let approvals := if contains (pr_Approvals p) approverID then pr_Approvals p
                               else pr_Approvals p ++ [approverID] in
              put s id (with_state p StateApproved approvals now)
          end
    end.

Definition Merge (s : Store) (owners : option C) (id : string) (merger : Identity) (now : Z)
    : Store * result mr_error Proposal :=
  match proposals s !! id with
  | None => (s, Err (NotFound id))
  | Some p =>
      if bool_decide (pr_State p ≠ StateApproved) then (s, Err (NotApproved id (pr_State p)))
      else
        match requireOwner owners p merger with
        | Err e => (s, Err e)
        | Ok _ => put s id (with_state p StateMerged (pr_Approvals p) now)
        end
  end.

Definition Reject (s : Store) (owners : option C) (id : string) (by_ : Identity) (now : Z)
    : Store * result mr_error Proposal :=
  match proposals s !! id with
  | None => (s, Err (NotFound id))
  | Some p =>
      if bool_decide (pr_State p = StateMerged) then (s, Err (AlreadyMerged id))
      else
        match requireOwner owners p by_ with
        | Err e => (s, Err e)
        | Ok _ => put s id (with_state p StateRejected (pr_Approvals p) now)
        end
  end.

(** ** Executions *)

Inductive op :=
| OpCreate (author partition : string) (paths : list string) (title description : string)
| OpApprove (id : string) (approver : Identity)
| OpMerge (id : string) (merger : Identity)
| OpReject (id : string) (by_ : Identity).

Definition exec (s : Store) (owners : option C) (now : Z) (o : op) : Store * result mr_error Proposal :=
  match o with
  | OpCreate author partition paths title description => Create s author partition paths title description now
  | OpApprove id approver => Approve s owners id approver now
  | OpMerge id merger => Merge s owners id merger now
  | OpReject id by_ => Reject s owners id by_ now
  end.

(** What happened: each executed operation with the checker it consulted and
    whether it succeeded. *)
Record event := mkEvent { ev_op : op; ev_owners : option C; ev_ok : bool }.

(** The stores reachable from an empty one, with their history. *)
Inductive reachable : Store → list event → Prop :=
| reach_new : reachable NewStore []
| reach_step s h owners now o :
    reachable s h →
    reachable (exec s owners now o).1 (mkEvent o owners (is_ok (exec s owners now o).2) :: h).

End ops.

(** ** The ownership resolver is a checker *)

Definition resolver_owns `{UnicodeFold} (r : OwnershipResolver) (p : string) (id : Identity) : Prop :=
  ∃ d, IsOwner r p id = Ok (true, d).

#[export] Instance resolver_checker `{UnicodeFold} : OwnershipChecker OwnershipResolver.
Proof.
  refine {| check_owns_all := OwnsAll; owns := resolver_owns |}.
  unfold OwnsAll. intros r paths id unowned p. destruct (owns_loop r paths id []) as [un|e] eqn:E; [|done].
  cbn [rbind]. intros [= Hb <-] Hp. apply bool_decide_eq_true, nil_length_inv in Hb. subst un.
  apply owns_loop_spec in E as (rest & E & Hrest). rewrite app_nil_l in E. subst rest.
  by destruct (Hrest p Hp) as [?%elem_of_nil|].
Defined.

(** ** Review *)

Section review.
  Context `{OwnershipChecker C}.
  Implicit Types (s : Store) (h : list (@event C)) (p : Proposal).

(** Some step of [h] was a successful approval of [id] by somebody else than
    the author who owned every path at that moment. *)
Definition reviewed h (id : string) p : Prop :=
  ∃ approver c, mkEvent (OpApprove id approver) (Some c) true ∈ h ∧
    PrincipalID approver ≠ pr_Author p ∧ PrincipalID approver ∈ pr_Approvals p ∧
    ∀ path, path ∈ pr_Paths p → owns c path approver.

Definition merged_by_owner h (id : string) p : Prop :=
  ∃ merger c, mkEvent (OpMerge id merger) (Some c) true ∈ h ∧
    ∀ path, path ∈ pr_Paths p → owns c path merger.

Definition review_inv h (id : string) p : Prop :=
  ((pr_State p = StateApproved ∨ pr_State p = StateMerged) → reviewed h id p) ∧
  (pr_State p = StateMerged → merged_by_owner h id p).

Lemma review_inv_mono h e id p : review_inv h id p → review_inv (e :: h) id p.
Proof.
  intros [H1 H2]. split.
  - intros (a & c & Hin & Hr)%H1. exists a, c. split; [by right|done].
  - intros (a & c & Hin & Hr)%H2. exists a, c. split; [by right|done].
Qed.

Lemma requireOwner_ok owners p id u :
  requireOwner owners p id = Ok u → ∃ c, owners = Some c ∧ ∀ path, path ∈ pr_Paths p → owns c path id.
Proof.
  unfold requireOwner. destruct owners as [c|]; [|done].
  destruct (check_owns_all c (pr_Paths p) id) as [[[] un]|e] eqn:E; try done.
  intros _. exists c. split; [done|]. intros path Hp. by eapply check_sound.
Qed.

Lemma contains_elem l x : contains l x = true → x ∈ l.
Proof. unfold contains. rewrite existsb_elem. intros (y & Hy & ->%bool_decide_eq_true). done. Qed.

(** One step keeps the invariant of every proposal. *)
Lemma exec_review s h owners now o :
  (∀ id p, proposals s !! id = Some p → review_inv h id p) →
  ∀ id p, proposals (exec s owners now o).1 !! id = Some p →
    review_inv (mkEvent o owners (is_ok (exec s owners now o).2) :: h) id p.
Proof.
  intros Hinv. assert (∀ e id p, proposals s !! id = Some p → review_inv (e :: h) id p) as Hold.
  { intros e id p Hp. by apply review_inv_mono, Hinv. }
  destruct o as [author partition paths title desc|oid approver|oid merger|oid by_]; cbn [exec];
    unfold Create, Approve, Merge, Reject, put; intros id p.
  - repeat case_bool_decide; cbn [fst proposals]; try apply Hold.
    intros [[_ <-]|[_ Hp]]%lookup_insert_Some; [|by apply Hold].
    split; simpl; [by intros [?|?] | done].
  - case_bool_decide; [apply Hold|]. destruct (proposals s !! oid) as [q|] eqn:Eq; [|apply Hold].
    case_bool_decide as Hopen; [apply Hold|]. case_bool_decide as Hauth; [apply Hold|].
    destruct (requireOwner owners q approver) as [u|e] eqn:Er; [|apply Hold]. cbn [fst snd proposals is_ok].
    apply requireOwner_ok in Er as (c & -> & Hown).
    intros [[<- <-]|[_ Hp]]%lookup_insert_Some; [|by apply Hold].
    split; simpl; [|done]. intros _. exists approver, c. split_and!; [by left|done| |done].
    destruct (contains (pr_Approvals q) (PrincipalID approver)) eqn:Ec; [by apply contains_elem|].
    apply elem_of_app. right. by left.
  - destruct (proposals s !! oid) as [q|] eqn:Eq; [|apply Hold].
    case_bool_decide as Hst; [apply Hold|].
    destruct (requireOwner owners q merger) as [u|e] eqn:Er; [|apply Hold]. cbn [fst snd proposals is_ok].
    apply requireOwner_ok in Er as (c & -> & Hown).
    intros [[<- <-]|[_ Hp]]%lookup_insert_Some; [|by apply Hold].
    split; simpl; intros _.
    + destruct (proj1 (Hold (mkEvent (OpMerge oid merger) (Some c) true) _ _ Eq)) as (a & ca & Ha); [by left|].
      by exists a, ca.
    + exists merger, c. split; [by left|done].
  - destruct (proposals s !! oid) as [q|] eqn:Eq; [|apply Hold].
    case_bool_decide as Hst; [apply Hold|].
    destruct (requireOwner owners q by_) as [u|e] eqn:Er; [|apply Hold]. cbn [fst snd proposals is_ok].
    intros [[<- <-]|[_ Hp]]%lookup_insert_Some; [|by apply Hold].
    split; simpl; [by intros [?|?] | done].
Qed.

(** C22: nothing is merged without review.  In every reachable store, an
    approved or merged proposal was approved by a principal other than its
    author, recorded among its approvals, who owned every affected path when
    approving; and a merged proposal was merged by someone who owned every
    affected path when merging. *)
Theorem merged_was_reviewed s h id p :
  reachable s h → proposals s !! id = Some p →
  ((pr_State p = StateApproved ∨ pr_State p = StateMerged) → reviewed h id p) ∧
  (pr_State p = StateMerged → merged_by_owner h id p).
Proof.
  intros Hr. revert id p. induction Hr as [|s h owners now o Hr IH]; [done|].
  apply exec_review. exact IH.
Qed.

(** ** Lifecycle *)

Definition ids_bounded s : Prop :=
  0 ≤ seq s ∧ ∀ id p, proposals s !! id = Some p → ∃ n, 0 < n ≤ seq s ∧ id = proposal_id n.

Lemma proposal_id_inj n m : proposal_id n = proposal_id m → n = m.
Proof. unfold proposal_id. intros E. apply (inj (String.append "mr-")) in E. by apply (inj pretty) in E. Qed.

Lemma put_bounded s id p : ids_bounded s → is_Some (proposals s !! id) → ids_bounded (put s id p).1.
Proof.
  intros [Hs Hb] [q Hq]. split; [done|]. cbn [put fst proposals]. intros id' p' [[<- _]|[_ Hp]]%lookup_insert_Some; by eapply Hb.
Qed.

Lemma exec_bounded s owners now o : ids_bounded s → ids_bounded (exec s owners now o).1.
Proof.
  intros Hb. destruct o as [author partition paths title desc|oid approver|oid merger|oid by_]; cbn [exec];
    unfold Create, Approve, Merge, Reject.
  { repeat case_bool_decide; [done..|]. destruct Hb as [Hs Hb]. split; cbn [fst seq proposals pr_ID]; [lia|].
    intros id p [[<- _]|[_ Hp]]%lookup_insert_Some.
    - exists (seq s + 1). split; [lia|done].
    - destruct (Hb id p Hp) as (n & ? & ?). exists n. split; [lia|done]. }
  all: repeat case_bool_decide; try done;
    destruct (proposals s !! oid) as [q|] eqn:Eq; try done;
    repeat case_bool_decide; try done;
    destruct (requireOwner owners q _); try done; apply put_bounded; [done | by eexists].
Qed.

Lemma reachable_bounded s h : reachable s h → ids_bounded s.
Proof. induction 1 as [|s h owners now o Hr IH]; [by split | by apply exec_bounded]. Qed.

(** The transitions of the lifecycle; a merged proposal has none. *)
Definition may_become (a b : State) : Prop :=
  match a, b with
  | StateOpen, StateApproved | StateOpen, StateRejected
  | StateApproved, StateMerged | StateApproved, StateRejected
  | StateRejected, StateRejected => True
  | _, _ => False
  end.

Definition same_proposal p p' : Prop :=
  pr_ID p' = pr_ID p ∧ pr_Partition p' = pr_Partition p ∧ pr_Paths p' = pr_Paths p ∧
  pr_Author p' = pr_Author p ∧ pr_CreatedAt p' = pr_CreatedAt p ∧
  pr_Approvals p `prefix_of` pr_Approvals p'.

(** C32: a step never loses, replaces or rewrites a proposal: every stored
    proposal stays stored under its identifier with the same author,
    partition and paths and with its approvals kept, and its state moves only
    along the lifecycle, in which merged is final and rejected cannot be
    left. *)
Theorem proposal_lifecycle s h owners now o id p :
  reachable s h → proposals s !! id = Some p →
  ∃ p', proposals (exec s owners now o).1 !! id = Some p' ∧ same_proposal p p' ∧
    (p' = p ∨ may_become (pr_State p) (pr_State p')).
Proof.
  intros Hr Hp. assert (∃ p', proposals s !! id = Some p' ∧ same_proposal p p' ∧
    (p' = p ∨ may_become (pr_State p) (pr_State p'))) as Hsame.
  { exists p. split; [done|]. split; [by repeat split|by left]. }
  destruct o as [author partition paths title desc|oid approver|oid merger|oid by_]; cbn [exec].
  { unfold Create. repeat case_bool_decide; [done..|]. cbn [fst proposals pr_ID].
    rewrite lookup_insert_ne; [done|]. destruct (proj2 (reachable_bounded s h Hr) id p Hp) as (n & Hn & ->).
    intros E%proposal_id_inj. lia. }
  all: unfold Approve, Merge, Reject, put; repeat case_bool_decide; try done;
    destruct (proposals s !! oid) as [q|] eqn:Eq; try done; repeat case_bool_decide; try done;
    destruct (requireOwner owners q _); try done; cbn [fst proposals];
    (destruct (decide (oid = id)) as [->|Hne]; [|by rewrite lookup_insert_ne]);
    rewrite lookup_insert_eq; simplify_eq; eexists; (split; [reflexivity|]);
    (split; [repeat split; simpl; try done | right; simpl]).
  - by case_match; [|by eexists].
  - by destruct (pr_State p).
  - by destruct (pr_State p).
  - by destruct (pr_State p).
Qed.

End review.

(** ** Witnesses *)

#[local] Existing Instance basic_unicode_fold.

Definition sample_store : Store :=
  let s1 := (exec NewStore (Some sample_resolver) 1 (OpCreate "carol" "prod" ["team/x"] "t" "d")).1 in
  let s2 := (exec s1 (Some sample_resolver) 2 (OpApprove "mr-1" sample_bob)).1 in
  (exec s2 (Some sample_resolver) 3 (OpMerge "mr-1" sample_bob)).1.

Lemma sample_reachable : ∃ h, @reachable OwnershipResolver _ sample_store h.
Proof. eexists. unfold sample_store. apply reach_step, reach_step, reach_step, reach_new. Qed.

Definition sample_merged : Proposal :=
  mkProposal "mr-1" "prod" ["team/x"] "carol" "t" "d" StateMerged ["bob"] 1 3.

Lemma merged_was_reviewed_witness :
  ∃ h : list (@event OwnershipResolver), reviewed h "mr-1" sample_merged ∧ merged_by_owner h "mr-1" sample_merged.
Proof.
  destruct sample_reachable as [h Hr]. exists h.
  destruct (merged_was_reviewed sample_store h "mr-1" sample_merged Hr) as [H1 H2]; [vm_compute; reflexivity|].
  split; [apply H1; by right | by apply H2].
Defined.

Lemma proposal_lifecycle_witness :
  ∃ p', proposals (exec sample_store (Some sample_resolver) 4 (OpReject "mr-1" sample_bob)).1 !! "mr-1" = Some p' ∧
    same_proposal sample_merged p' ∧
    (p' = sample_merged ∨ may_become (pr_State sample_merged) (pr_State p')).
Proof.
  destruct sample_reachable as [h Hr].
  apply (proposal_lifecycle sample_store h (Some sample_resolver) 4 (OpReject "mr-1" sample_bob) "mr-1" sample_merged Hr).
  vm_compute. reflexivity.
Defined.
