(* ===== verification/GoPath.v ===== *)
(** * Package path

    [path.Clean], [path.Join], [path.Dir] and [path.Match].  [Match] is given
    by its documentation: a pattern is read into terms, or is malformed
    ([ErrBadPattern]), and the terms are matched against the whole name. *)

From stdpp Require Import options.
From S2P Require Import Prelude GoStrings GoUnicode.

(** ** Clean, Join, Dir *)

(** One element of the path, against the elements kept so far (last first). *)
Definition clean_step (rooted : bool) (kept : list string) (elem : string) : list string :=
  if bool_decide (elem = "") || bool_decide (elem = ".") then kept
  else if bool_decide (elem = "..") then
    match kept with
    | k :: rest => if bool_decide (k = "..") then elem :: kept else rest
    | [] => if rooted then [] else [elem]
    end
  else elem :: kept.

Definition Clean (p : string) : string :=
  let rooted := HasPrefix p (str1 slash) in
  let elems := rev (foldl (clean_step rooted) [] (Split p slash)) in
  if rooted then str1 slash +:+ Join elems (str1 slash)
  else if bool_decide (elems = []) then "." else Join elems (str1 slash).

(** [path.Join] of two elements; empty ones are dropped. *)
Definition PathJoin (a b : string) : string :=
  match filter (λ s, s ≠ "") [a; b] with
  | [] => ""
  | l => Clean (Join l (str1 slash))
  end.

(** Up to the last slash. *)
Definition Dir (p : string) : string :=
  Clean (match LastIndexByte p slash with Some i => str_take (S i) p | None => "" end).

(** The elements of a cleaned path: proper names, preceded by [".."] only in
    a relative path. *)
Definition proper_elem (e : string) : Prop := e ≠ "" ∧ e ≠ "." ∧ e ≠ ".." ∧ has_byte slash e = false.

Lemma clean_step_proper rooted kept e : proper_elem e → clean_step rooted kept e = e :: kept.
Proof. intros (? & ? & ? & _). unfold clean_step. by rewrite !bool_decide_eq_false_2. Qed.

Lemma clean_shape rooted l :
  Forall (λ e, has_byte slash e = false) l →
  ∃ k ms, foldl (clean_step rooted) [] l = ms ++ replicate k ".." ∧ Forall proper_elem ms ∧ (rooted = true → k = 0%nat).
Proof.
  induction l as [|e l IH] using rev_ind; intros Hl; [by exists 0%nat, []|].
  apply Forall_app in Hl as [Hl He%Forall_cons_1]. destruct He as [He _].
  destruct (IH Hl) as (k & ms & E & Hms & Hk). rewrite foldl_app, E. cbn [foldl]. unfold clean_step.
  bool_case (e = "") as E1; [by exists k, ms|]. bool_case (e = ".") as E2; [by exists k, ms|]. cbn [orb].
  bool_case (e = "..") as E3.
  - subst. destruct ms as [|m ms]; cbn [app].
    + destruct k as [|k]; cbn [replicate]; [destruct rooted; [by exists 0%nat, []|exists 1%nat, []; split_and!; done]|].
      rewrite bool_decide_eq_true_2 by done. exists (S (S k)), []. split_and!; [done..|by intros Hr%Hk].
    + apply Forall_cons_1 in Hms as [Hm Hms]. rewrite bool_decide_eq_false_2 by apply Hm. by exists k, ms.
  - exists k, (e :: ms). split_and!; [done|by constructor|done].
Qed.

Lemma foldl_clean_proper rooted kept l :
  Forall proper_elem l → foldl (clean_step rooted) kept l = rev l ++ kept.
Proof.
  revert kept. induction l as [|e l IH]; intros kept Hl; [done|]. apply Forall_cons_1 in Hl as [He Hl].
  cbn [foldl rev]. rewrite clean_step_proper, IH by done. by rewrite <- app_assoc.
Qed.

Lemma foldl_clean_dotdot k : foldl (clean_step false) [] (replicate k "..") = replicate k "..".
Proof.
  induction k as [|k IH]; [done|]. rewrite replicate_S_end at 1. rewrite foldl_app, IH. cbn [foldl].
  by destruct k.
Qed.

Lemma rev_replicate {A} k (x : A) : rev (replicate k x) = replicate k x.
Proof. induction k as [|k IH]; [done|]. rewrite replicate_S_end at 2. cbn [replicate rev]. by rewrite IH. Qed.

(** Cleaned elements are kept by another pass. *)
Lemma clean_stable rooted k ms :
  Forall proper_elem ms → (rooted = true → k = 0%nat) →
  foldl (clean_step rooted) [] (rev (ms ++ replicate k "..")) = ms ++ replicate k "..".
Proof.
  intros Hms Hk. rewrite rev_app_distr, rev_replicate. rewrite foldl_app.
  replace (foldl (clean_step rooted) [] (replicate k "..")) with (replicate k "..").
  2:{ destruct rooted; [by rewrite Hk|by rewrite foldl_clean_dotdot]. }
  rewrite foldl_clean_proper, rev_involutive; [done|]. by apply Forall_rev.
Qed.

Lemma Clean_idem p : Clean (Clean p) = Clean p.
Proof.
  unfold Clean at 2 3. set (rooted := HasPrefix p (str1 slash)).
  destruct (clean_shape rooted (Split p slash) (Split_no_sep _ _)) as (k & ms & E & Hms & Hk).
  rewrite E. pose proof (clean_stable rooted k ms Hms Hk) as Hst. set (es := rev (ms ++ replicate k "..")) in *.
  assert (Forall (λ e, e ≠ "" ∧ has_byte slash e = false) es) as Hes.
  { apply Forall_rev, Forall_app. split; [|by apply Forall_replicate].
    eapply Forall_impl; [done|]. intros e (? & _ & _ & ?). done. }
  destruct rooted.
  - unfold Clean. change (str1 slash +:+ Join es (str1 slash)) with ("" +:+ str1 slash +:+ Join es (str1 slash)).
    rewrite Split_app by done. cbn [foldl]. change (clean_step _ [] "") with (@nil string).
    replace (HasPrefix ("" +:+ str1 slash +:+ Join es (str1 slash)) (str1 slash)) with true by (symmetry; exact (HasPrefix_app (str1 slash) (Join es (str1 slash)))).
    destruct (decide (es = [])) as [Ees|Hne]; [by rewrite Ees|].
    rewrite Split_Join by (done || by eapply Forall_impl; [done|intros ? []]).
    rewrite Hst. done.
  - bool_case (es = []) as Ees; [done|]. unfold Clean.
    rewrite Split_Join by (done || by eapply Forall_impl; [done|intros ? []]).
    replace (HasPrefix (Join es (str1 slash)) (str1 slash)) with false.
    2:{ destruct es as [|e es']; [done|]. apply Forall_cons_1 in Hes as [[He Hs] _].
        destruct e as [|a e]; [done|]. symmetry. cbn [has_byte] in Hs. apply orb_false_iff in Hs as [Hs _].
        destruct es'; unfold HasPrefix; simpl; case_match; bool_hyps; congruence. }
    rewrite Hst. by rewrite bool_decide_eq_false_2.
Qed.

(** ** Match *)

Inductive term :=
| TStar
| TAny
| TByte (c : ascii)
| TClass (negated : bool) (ranges : list (Z * Z)).

Definition backslash : ascii := "\".

(** [getEsc]: a possibly escaped rune of a class and the rest, which must not
    be empty. *)
Definition get_esc (bs : bytes) : option (Z * bytes) :=
  let read bs :=
    let '(r, n) := decode_rune bs in
    if bool_decide (r = RuneError ∧ n = 1%nat) then None
    else match drop n bs with [] => None | rest => Some (r, rest) end in
  match bs with
  | [] => None
  | c :: rest =>
      if bool_decide (c = "-"%char ∨ c = "]"%char) then None
      else if bool_decide (c = backslash) then match rest with [] => None | _ => read rest end
      else read bs
  end.

(** The ranges of a class up to its closing bracket; at least one. *)
Fixpoint class_ranges (fuel : nat) (first : bool) (bs : bytes) : option (list (Z * Z) * bytes) :=
  match fuel with
  | O => None
  | S fuel =>
      match bs with
      | c :: rest => if bool_decide (c = "]"%char) && negb first then Some ([], rest) else
          '(lo, bs1) ← get_esc bs;
          '(hi, bs2) ← match bs1 with
                       | d :: bs1' => if bool_decide (d = "-"%char) then get_esc bs1' else Some (lo, bs1)
                       | [] => Some (lo, bs1)
                       end;
          '(rs, bs3) ← class_ranges fuel false bs2;
          Some ((lo, hi) :: rs, bs3)
      | [] => None
      end
  end.

(** The terms of a pattern; [None] when it is malformed. *)
Fixpoint parse_terms (fuel : nat) (bs : bytes) : option (list term) :=
  match fuel with
  | O => None
  | S fuel =>
      match bs with
      | [] => Some []
      | c :: rest =>
          if bool_decide (c = "*"%char) then ts ← parse_terms fuel rest; Some (TStar :: ts)
          else if bool_decide (c = "?"%char) then ts ← parse_terms fuel rest; Some (TAny :: ts)
          else if bool_decide (c = backslash) then
            match rest with
            | [] => None
            | d :: rest => ts ← parse_terms fuel rest; Some (TByte d :: ts)
            end
          else if bool_decide (c = "["%char) then
            let '(negated, body) := match rest with
                                    | d :: rest' => if bool_decide (d = "^"%char) then (true, rest') else (false, rest)
                                    | [] => (false, rest)
                                    end in
            '(rs, rest) ← class_ranges (length bs) true body;
            ts ← parse_terms fuel rest; Some (TClass negated rs :: ts)
          else ts ← parse_terms fuel rest; Some (TByte c :: ts)
      end
  end.

Definition in_ranges (r : Z) (rs : list (Z * Z)) : bool := existsb (λ '(lo, hi), bool_decide (lo ≤ r ≤ hi)) rs.

(** A star matches bytes other than a slash; [?] one rune other than a slash;
    a class one rune. *)
Fixpoint match_terms (ts : list term) : bytes → bool :=
  match ts with
  | [] => λ bs, bool_decide (bs = [])
  | TStar :: ts =>
      let rec := match_terms ts in
      fix star (bs : bytes) : bool :=
        rec bs || match bs with
                  | [] => false
                  | c :: rest => negb (bool_decide (c = slash)) && star rest
                  end
  | TAny :: ts => λ bs,
      match bs with
      | [] => false
      | c :: _ => negb (bool_decide (c = slash)) && match_terms ts (drop (decode_rune bs).2 bs)
      end
  | TByte c :: ts => λ bs, match bs with [] => false | d :: rest => bool_decide (c = d) && match_terms ts rest end
  | TClass negated rs :: ts => λ bs,
      match bs with
      | [] => false
      | _ => let '(r, n) := decode_rune bs in bool_decide (in_ranges r rs ≠ negated) && match_terms ts (drop n bs)
      end
  end.

(** [path.Match]: [None] is [ErrBadPattern]. *)
Definition Match (pattern name : string) : option bool :=
  let bs := bytes_of_string pattern in
  ts ← parse_terms (S (length bs)) bs; Some (match_terms ts (bytes_of_string name)).

Example clean_dots : Clean "a//b/./../c/" = "a/c" ∧ Clean "" = "." ∧ Clean "/../a" = "/a" ∧ Clean "../x/../../y" = "../../y".
Proof. vm_compute. auto. Qed.

Example match_examples :
  Match "a*c" "abbc" = Some true ∧ Match "a*c" "ab/c" = Some false ∧ Match "[a-c]?" "bz" = Some true ∧
  Match "[^a]" "a" = Some false ∧ Match "[" "x" = None ∧ Match "\*" "*" = Some true ∧ Match "dir/*" "dir/x" = Some true.
Proof. vm_compute. auto 10. Qed.

(** A pattern without special bytes matches only itself. *)
Definition plain_byte (c : ascii) : bool :=
  negb (bool_decide (c = "*"%char) || bool_decide (c = "?"%char) || bool_decide (c = "["%char) || bool_decide (c = backslash)).

Lemma parse_plain fuel bs :
  Forall (λ c, plain_byte c = true) bs → (length bs < fuel)%nat → parse_terms fuel bs = Some (TByte <$> bs).
Proof.
  intros Hbs. revert fuel. induction Hbs as [|c bs Hc Hbs IH]; intros [|fuel] Hf; simpl in *; try lia; [done|].
  unfold plain_byte in Hc. apply negb_true_iff in Hc. bool_hyps. rewrite !bool_decide_eq_false_2 by done.
  by rewrite IH by lia.
Qed.

Lemma match_bytes bs name : match_terms (TByte <$> bs) name = bool_decide (bs = name).
Proof.
  revert name. induction bs as [|c bs IH]; intros [|d name]; simpl; try done.
  rewrite IH. repeat case_bool_decide; naive_solver.
Qed.

Lemma Match_plain p name : Forall (λ c, plain_byte c = true) (bytes_of_string p) → Match p name = Some (bool_decide (p = name)).
Proof.
  intros Hp. unfold Match. rewrite parse_plain by (done || lia). simpl. rewrite match_bytes. f_equal.
  apply bool_decide_ext. split; [apply bytes_of_string_inj | by intros ->].
Qed.

(** ** [path.Base] *)

Definition Base (p : string) : string :=
  if bool_decide (p = "") then "."
  else
    let p := TrimRight p slash in
    if bool_decide (p = "") then "/"
    else match LastIndexByte p slash with
         | Some i => str_drop (i + 1) p
         | None => p
         end.

(** ** Paths of proper elements *)

Definition proper_path (p : string) : Prop := ∃ es, es ≠ [] ∧ Forall proper_elem es ∧ p = Join es (str1 slash).
Definition rooted_path (p : string) : Prop := ∃ q, proper_path q ∧ p = "/" +:+ q.

Lemma proper_no_slash es : Forall proper_elem es → Forall (λ e, has_byte slash e = false) es.
Proof. intros H. eapply Forall_impl; [done|]. by intros e (_ & _ & _ & ?). Qed.

Lemma Split_proper es : es ≠ [] → Forall proper_elem es → Split (Join es (str1 slash)) slash = es.
Proof. intros. by apply Split_Join; [|apply proper_no_slash]. Qed.

Lemma Clean_of_rooted p : rooted_path p → Clean p = p.
Proof.
  intros (q & (es & Hne & Hes & ->) & ->). unfold Clean.
  change ("/" +:+ Join es (str1 slash)) with ("" +:+ str1 slash +:+ Join es (str1 slash)).
  rewrite Split_app, Split_proper by done. cbn [foldl]. change (clean_step _ [] "") with (@nil string).
  replace (HasPrefix ("" +:+ str1 slash +:+ Join es (str1 slash)) (str1 slash)) with true
    by (symmetry; exact (HasPrefix_app (str1 slash) (Join es (str1 slash)))).
  by rewrite foldl_clean_proper, app_nil_r, rev_involutive.
Qed.

Lemma proper_app p q : proper_path p → proper_path q → proper_path (p +:+ "/" +:+ q).
Proof.
  intros (es & He & Hes & ->) (fs & Hf & Hfs & ->). exists (es ++ fs). split_and!; [by destruct es|by apply Forall_app|].
  by rewrite Join_app.
Qed.

Lemma proper_name e : proper_elem e → proper_path e.
Proof. intros. exists [e]. split_and!; [done|by constructor|done]. Qed.

Lemma proper_ne p : proper_path p → p ≠ "".
Proof.
  intros (es & He & Hes & ->). destruct es as [|e es]; [done|]. apply Forall_cons_1 in Hes as [(Hn & _) _].
  destruct es as [|f es]; [done|]. rewrite Join_cons by done. intros [E _]%str_app_empty. done.
Qed.

Lemma rooted_app p q : rooted_path p → proper_path q → rooted_path (p +:+ "/" +:+ q).
Proof. intros (r & Hr & ->) Hq. exists (r +:+ "/" +:+ q). split; [by apply proper_app|]. by rewrite !str_app_assoc. Qed.

Lemma rooted_ne p : rooted_path p → p ≠ "".
Proof. by intros (q & _ & ->). Qed.

Lemma PathJoin_rooted p q : rooted_path p → proper_path q → PathJoin p q = p +:+ "/" +:+ q.
Proof.
  intros Hp Hq. unfold PathJoin.
  rewrite filter_cons_True by (by apply rooted_ne). rewrite filter_cons_True by (by apply proper_ne).
  change (Clean (p +:+ "/" +:+ q) = p +:+ "/" +:+ q). by apply Clean_of_rooted, rooted_app.
Qed.

Lemma str_take_plus a b n : str_take (String.length a + n) (a +:+ b) = a +:+ str_take n b.
Proof. induction a as [|x a IH]; [done|]. cbn [String.length Nat.add]. rewrite !str_app_cons. cbn [str_take]. by rewrite IH. Qed.

Lemma Dir_rooted p e : rooted_path p → proper_elem e → Dir (p +:+ "/" +:+ e) = p.
Proof.
  intros Hp He. unfold Dir. rewrite (LastIndexByte_app p e slash) by apply He.
  replace (S (String.length p)) with (String.length p + 1)%nat by lia. rewrite str_take_plus.
  pose proof Hp as (q & (es & Hne & Hes & ->) & ->).
  change (str_take 1 ("/" +:+ e)) with "/". rewrite str_app_assoc.
  replace ("/" +:+ Join es (str1 slash) +:+ "/") with ("" +:+ str1 slash +:+ Join (es ++ [""]) (str1 slash))
    by (rewrite Join_app by done; done).
  unfold Clean. rewrite Split_app by done.
  rewrite Split_Join; [|by destruct es|apply Forall_app; split; [by apply proper_no_slash|by constructor]].
  cbn [foldl]. change (clean_step _ [] "") with (@nil string).
  replace (HasPrefix ("" +:+ str1 slash +:+ Join (es ++ [""]) (str1 slash)) (str1 slash)) with true
    by (symmetry; exact (HasPrefix_app (str1 slash) _)).
  rewrite foldl_app, (foldl_clean_proper _ [] es), app_nil_r by done. cbn [foldl].
  change (clean_step true (rev es) "") with (rev es).
  by rewrite rev_involutive.
Qed.
