(* ===== verification/Policy.v ===== *)
(** * Access policies

    Model of pkg/authz/policy: access.yaml documents and their imports
    (parse.go), compilation against the partition catalog (compile.go), the
    compiled bundle (bundle.go) and its evaluation (policy.go, match.go), and
    the loader that polls for bundles (loader.go).

    The YAML decoder, JSON and the import reader are arguments.  A range over
    a Go map visits the keys in the order of [map_to_list], which stands for
    the unspecified one. *)

From stdpp Require Import options.
From S2P Require Import Prelude GoStrings GoUnicode GoHash GoSort GoPath Authz.

(** ** Data *)

Abbreviation ScopePartitions := "partitions" (only parsing).
Abbreviation ScopeLogs := "logs" (only parsing).
Abbreviation ScopeTraces := "traces" (only parsing).
Abbreviation ScopeMonoFS := "monofs" (only parsing).
Definition AllScopes : list string := [ScopePartitions; ScopeLogs; ScopeTraces; ScopeMonoFS].

Abbreviation Signal := string (only parsing).
Abbreviation SignalMetrics := "metrics" (only parsing).
Abbreviation SignalLogs := "logs" (only parsing).
Abbreviation SignalTraces := "traces" (only parsing).

Record AWSBinding := mkBinding { b_Partition : string; b_Account : string; b_Region : string }.

(** One ACL entry of a document. *)
Record PolicySubject := mkSubject {
  s_Partitions : list string; s_Logs : list string; s_Traces : list string; s_MonoFS : list string;
  s_Role : string; s_Deny : list string }.

Record Selector := mkSelector { sel_Labels : gmap string string }.

(** A document before and after [ParseFile]; the two have the same shape. *)
Record File := mkFile {
  f_Version : Z; f_Imports : list string; f_Defaults : gmap string string;
  f_Selectors : gmap string Selector; f_Groups : gmap string PolicySubject;
  f_Users : gmap string PolicySubject; f_Clients : gmap string PolicySubject;
  f_AWSBindings : list AWSBinding }.

Inductive policy_error : Type :=
| PParse | PVersion (v : Z) | PAlwaysVisible (scope : string) | PUnknownScope (scope : string)
| PNoLabels (selector : string) | PImportDepth (at_path : string) | PImportCycle (at_path : string)
| PNoReader (at_path : string) | PImport (rel : string)
| PNoFile | PValidation (errors : nat)
| PBundle | PBundleFormat (v : Z) | PNoPolicy | PFetch.

(** ** Documents *)

Definition validateScope (scope : string) : result policy_error unit :=
  if bool_decide (scope = SignalMetrics) then Err (PAlwaysVisible scope)
  else if bool_decide (scope ∈ AllScopes) then Ok tt
  else Err (PUnknownScope scope).

Definition ParseFile (decode : string → option File) (data : string) : result policy_error File :=
  match decode data with
  | None => Err PParse
  | Some doc =>
      if bool_decide (f_Version doc ≠ 1) then Err (PVersion (f_Version doc))
      else
        let! _ := rmap validateScope (map_to_list (f_Defaults doc)).*1 in
        let! _ := rmap (λ '(name, sel), if bool_decide (sel_Labels sel = ∅) then Err (PNoLabels name) else Ok tt)
                       (map_to_list (f_Selectors doc)) in
        Ok doc
  end.

(** Child on top of base, per key; bindings as a whole. *)
Definition mergeFiles (base child : File) : File :=
  mkFile (f_Version base) []
    (f_Defaults child ∪ f_Defaults base) (f_Selectors child ∪ f_Selectors base)
    (f_Groups child ∪ f_Groups base) (f_Users child ∪ f_Users base) (f_Clients child ∪ f_Clients base)
    (if bool_decide (f_AWSBindings child = []) then f_AWSBindings base else f_AWSBindings child).

Section load.
  Context (decode : string → option File) (read : option (string → option string)).

(** The loop over the imports, given how one file is loaded. *)
Fixpoint load_imports (load : string → string → result policy_error File) (rd : string → option string)
    (dir : string) (imports : list string) (merged : File) : result policy_error File :=
  match imports with
  | [] => Ok merged
  | imp :: imports =>
      match rd imp with
      | None => Err (PImport imp)
      | Some impData =>
          let! base := load impData (Clean (PathJoin dir imp)) in
          load_imports load rd dir imports (mergeFiles merged base)
      end
  end.

(** [loadFile] at depth [11 - fuel]: the depth check fails at depth 11.
    [seen] is restored when a call returns, so it is passed down only. *)
Fixpoint loadFile (fuel : nat) (seen : gset string) (data basePath : string) : result policy_error File :=
  match fuel with
  | O => Err (PImportDepth basePath)
  | S fuel =>
      if bool_decide (basePath ∈ seen) then Err (PImportCycle basePath)
      else
        let! file := ParseFile decode data in
        if bool_decide (f_Imports file = []) then Ok file
        else match read with
        | None => Err (PNoReader basePath)
        | Some rd =>
            let! merged := load_imports (loadFile fuel ({[basePath]} ∪ seen)) rd (Dir basePath) (f_Imports file)
                                        (mkFile (f_Version file) [] ∅ ∅ ∅ ∅ ∅ []) in
            Ok (mergeFiles merged file)
        end
  end.

Definition LoadFile (data basePath : string) : result policy_error File := loadFile 11 ∅ data basePath.
End load.

(** ** Compilation *)

Record Partition := mkPartition { p_Name : string; p_Labels : gmap string string }.
Abbreviation Catalog := (list Partition).

(** A lint finding, its text by case. *)
Inductive message : Type :=
| MScope (e : policy_error) | MDefaultValue (scope value : string)
| MAdmin | MInvalidRole (role : string) | MDeny (e : policy_error)
| MDeniesUngranted (scope : string) | MNoScopes
| MEmptyEntry (scope : string) | MSelectorNone (scope entry : string) | MGlobNone (scope entry : string)
| MNotInCatalog (scope entry : string)
| MBindingPartition | MBindingNeeds (partition : string) | MBindingNotInCatalog (partition : string).

(** The subject a finding is about: its kind and name. *)
Record Issue := mkIssue { Severity : string; About : option (string * string); Message : message }.

Definition errorf (about : option (string * string)) (m : message) : Issue := mkIssue "error" about m.
Definition warnf (about : option (string * string)) (m : message) : Issue := mkIssue "warning" about m.
Definition infof (about : option (string * string)) (m : message) : Issue := mkIssue "info" about m.

Definition is_error (i : Issue) : bool := bool_decide (Severity i = "error").
Definition hasErrors (issues : list Issue) : bool := existsb is_error issues.
Definition countErrors (issues : list Issue) : nat := length (filter (λ i, is_error i = true) issues).

(** A missing label reads as the empty string. *)
Definition matchSelector (catalog : Catalog) (sel : Selector) : list string :=
  sort_Strings (p_Name <$> filter (λ p, map_Forall (λ k v, default "" (p_Labels p !! k) = v) (sel_Labels sel)) catalog).

Definition expandGlob (catalog : Catalog) (pattern : string) : list string :=
  sort_Strings (p_Name <$> filter (λ p, Match pattern (p_Name p) = Some true) catalog).

Section validate.
  Context (file : File) (catalog : option Catalog).

Definition in_catalog (cat : Catalog) (name : string) : bool := existsb (λ p, bool_decide (p_Name p = name)) cat.

Definition checkEntry (about : option (string * string)) (scope raw : string) : list Issue :=
  let entry := TrimSpace raw in
  if bool_decide (entry = "") then [errorf about (MEmptyEntry scope)]
  else if bool_decide (entry = "*") then []
  else match f_Selectors file !! entry, catalog with
  | Some sel, Some cat => if bool_decide (matchSelector cat sel = []) then [warnf about (MSelectorNone scope entry)] else []
  | Some _, None => []
  | None, _ =>
      if Contains entry "*" then
        match catalog with
        | Some cat => if bool_decide (expandGlob cat entry = []) then [warnf about (MGlobNone scope entry)] else []
        | None => []
        end
      else match catalog with
      | Some cat => if in_catalog cat entry then [] else [warnf about (MNotInCatalog scope entry)]
      | None => []
      end
  end.

Definition validate_subject (kind name : string) (sub : PolicySubject) : list Issue :=
  let about := Some (kind, name) in
  let scopes := [(ScopePartitions, s_Partitions sub); (ScopeLogs, s_Logs sub); (ScopeTraces, s_Traces sub)] in
  (if bool_decide (s_Role sub = "") then []
   else if bool_decide (s_Role sub = RoleAdmin) then [infof about MAdmin]
   else if negb (Valid (s_Role sub)) then [errorf about (MInvalidRole (s_Role sub))] else []) ++
  (scope ← s_Deny sub; match validateScope scope with Ok _ => [] | Err e => [errorf about (MDeny e)] end) ++
  ('(scope, list) ← scopes; entry ← list; checkEntry about scope entry) ++
  (scope ← elements (list_to_set (s_Deny sub) : gset string);
   if existsb (λ '(s, list), bool_decide (s = scope) && bool_decide (list ≠ [])) scopes then []
   else [warnf about (MDeniesUngranted scope)]) ++
  (if bool_decide (s_Partitions sub ++ s_Logs sub ++ s_Traces sub ++ s_MonoFS sub = []) &&
      bool_decide (s_Role sub = "") && bool_decide (s_Deny sub = [])
   then [warnf about MNoScopes] else []).

Definition validateSubjects (kind : string) (subjects : gmap string PolicySubject) : list Issue :=
  '(name, sub) ← map_to_list subjects; validate_subject kind name sub.

Definition validate : list Issue :=
  ('(scope, value) ← map_to_list (f_Defaults file);
   match validateScope scope with
   | Err e => [errorf None (MScope e)]
   | Ok _ => if bool_decide (value ≠ "allow" ∧ value ≠ "deny") then [errorf None (MDefaultValue scope value)] else []
   end) ++
  validateSubjects "group" (f_Groups file) ++ validateSubjects "user" (f_Users file) ++
  validateSubjects "client" (f_Clients file) ++
  (b ← f_AWSBindings file;
   if bool_decide (TrimSpace (b_Partition b) = "") then [errorf None MBindingPartition]
   else (if bool_decide (b_Account b = "" ∧ b_Region b = "") then [errorf None (MBindingNeeds (b_Partition b))] else []) ++
        match catalog with
        | Some cat => if in_catalog cat (b_Partition b) then [] else [warnf None (MBindingNotInCatalog (b_Partition b))]
        | None => []
        end).
End validate.

(** ** The compiled bundle *)

Abbreviation FormatVersion := 1 (only parsing).

Record Defaults := mkDefaults { d_Partitions : bool; d_Logs : bool; d_Traces : bool; d_MonoFS : bool }.

(** A missing scope name reads as denied. *)
Definition default_allows (d : Defaults) (scope : string) : bool :=
  if bool_decide (scope = ScopePartitions) then d_Partitions d
  else if bool_decide (scope = ScopeLogs) then d_Logs d
  else if bool_decide (scope = ScopeTraces) then d_Traces d
  else if bool_decide (scope = ScopeMonoFS) then d_MonoFS d
  else false.

Record PolicyGrant := mkPolicyGrant {
  pg_Group : string; pg_User : string; pg_Client : string;
  pg_Partitions : list string; pg_Logs : list string; pg_Traces : list string; pg_MonoFS : list string;
  pg_Role : string; pg_Deny : list string }.

Record Bundle := mkPolicyBundle {
  bu_FormatVersion : Z; bu_Version : string; bu_GeneratedAt : string; bu_Defaults : Defaults;
  bu_Grants : list PolicyGrant; bu_AWSBindings : list AWSBinding; bu_CatalogDigest : string }.

(** The items, trimmed, without empty ones, without repetition, sorted. *)
Definition dedupeSorted (items : list string) : list string :=
  sort_Strings (remove_dups (filter (λ s, s ≠ "") (TrimSpace <$> items))).

Definition sortedKeys {V} (m : gmap string V) : list string := sort_Strings (map_to_list m).*1.

(** One entry of a scope list after trimming. *)
Definition expand_entry (file : File) (catalog : option Catalog) (entry : string) : list string :=
  match f_Selectors file !! entry with
  | Some sel => match catalog with Some cat => matchSelector cat sel | None => [] end
  | None =>
      if Contains entry "*" then match catalog with Some cat => expandGlob cat entry | None => [] end
      else [entry]
  end.

(** The loop of [resolveScope]: [None] once it meets ["*"]. *)
Fixpoint resolve_entries (file : File) (catalog : option Catalog) (items : list string) : option (list string) :=
  match items with
  | [] => Some []
  | raw :: items =>
      let entry := TrimSpace raw in
      if bool_decide (entry = "") then resolve_entries file catalog items
      else if bool_decide (entry = "*") then None
      else rest ← resolve_entries file catalog items; Some (expand_entry file catalog entry ++ rest)
  end.
Definition resolveScope (file : File) (catalog : option Catalog) (items : list string) : list string :=
  match resolve_entries file catalog items with
  | None => ["*"]
  | Some out => dedupeSorted out
  end.

(** Later entries replace earlier ones, the document's those of the labels. *)
Definition label_binding (p : Partition) : option AWSBinding :=
  let account := default "" (p_Labels p !! "aws.account") in
  let region := default "" (p_Labels p !! "aws.region") in
  if bool_decide (account = "" ∧ region = "") then None else Some (mkBinding (p_Name p) account region).

Definition compileAWSBindings `{GoSort} (file : File) (catalog : option Catalog) : list AWSBinding :=
  let bindings := omap label_binding (default [] catalog) ++ f_AWSBindings file in
  let byPartition : gmap string AWSBinding := foldl (λ m b, <[b_Partition b := b]> m) ∅ bindings in
  sort_slice (λ a b, str_lt (b_Partition a) (b_Partition b)) (map_to_list byPartition).*2.

Section compile.
  Context `{GoSort} (marshal_catalog : list Partition → option string) (marshal_bundle : Bundle → option string).

Definition digest (data : string) : string := "sha256:" +:+ hex_EncodeToString (sha256 (bytes_of_string data)).

Definition catalogDigest (catalog : option Catalog) : string :=
  match catalog with
  | None => ""
  | Some cat =>
      match marshal_catalog (sort_slice (λ a b, str_lt (p_Name a) (p_Name b)) cat) with
      | None => ""
      | Some data => digest data
      end
  end.

Definition computeVersion (b : Bundle) : string :=
  match marshal_bundle (mkPolicyBundle (bu_FormatVersion b) "" "" (bu_Defaults b) (bu_Grants b) (bu_AWSBindings b) (bu_CatalogDigest b)) with
  | None => ""
  | Some data => digest data
  end.

Definition build_defaults (file : File) : Defaults :=
  let allow scope := bool_decide (f_Defaults file !! scope = Some "allow") in
  mkDefaults (allow ScopePartitions) (allow ScopeLogs) (allow ScopeTraces) (allow ScopeMonoFS).

Definition build_grants (file : File) (catalog : option Catalog) (subjects : gmap string PolicySubject)
    (mk : string → list string → list string → list string → list string → string → list string → PolicyGrant)
    : list PolicyGrant :=
  omap (λ name, sub ← subjects !! name;
    Some (mk name (resolveScope file catalog (s_Partitions sub)) (resolveScope file catalog (s_Logs sub))
             (resolveScope file catalog (s_Traces sub)) (dedupeSorted (s_MonoFS sub)) (s_Role sub) (dedupeSorted (s_Deny sub))))
    (sortedKeys subjects).

(** [now] is the formatted time. *)
Definition build (file : File) (catalog : option Catalog) (now : string) : Bundle :=
  let grants :=
    build_grants file catalog (f_Groups file) (λ name, mkPolicyGrant name "" "") ++
    build_grants file catalog (f_Users file) (λ name, mkPolicyGrant "" name "") ++
    build_grants file catalog (f_Clients file) (λ name, mkPolicyGrant "" "" name) in
  let b := mkPolicyBundle FormatVersion "" now (build_defaults file) grants (compileAWSBindings file catalog) (catalogDigest catalog) in
  mkPolicyBundle FormatVersion (computeVersion b) now (build_defaults file) grants (compileAWSBindings file catalog) (catalogDigest catalog).

Definition Compile (file : option File) (catalog : option Catalog) (now : string) : list Issue * result policy_error Bundle :=
  match file with
  | None => ([], Err PNoFile)
  | Some file =>
      let issues := validate file catalog in
      (issues, if hasErrors issues then Err (PValidation (countErrors issues)) else Ok (build file catalog now))
  end.

(** The only error without an error among the issues is the missing file. *)
Definition Lint (file : option File) (catalog : option Catalog) (now : string) : list Issue * option policy_error :=
  match Compile file catalog now with
  | (issues, Err e) => (issues, if hasErrors issues then None else Some e)
  | (issues, Ok _) => (issues, None)
  end.

Definition MarshalBundle (marshal_indent : Bundle → option string) (b : Bundle) : option string :=
  let b := mkPolicyBundle (if bool_decide (bu_FormatVersion b = 0) then FormatVersion else bu_FormatVersion b)
             (bu_Version b) (bu_GeneratedAt b) (bu_Defaults b) (bu_Grants b) (bu_AWSBindings b) (bu_CatalogDigest b) in
  let b := mkPolicyBundle (bu_FormatVersion b) (if bool_decide (bu_Version b = "") then computeVersion b else bu_Version b)
             (bu_GeneratedAt b) (bu_Defaults b) (bu_Grants b) (bu_AWSBindings b) (bu_CatalogDigest b) in
  marshal_indent b.
End compile.

(** ** Evaluation *)

(** A bundle with its index of the AWS bindings. *)
Record Policy := mkPolicy {
  p_bundle : Bundle; awsExact : gmap string string; awsAccount : gmap string string; awsRegion : gmap string string;
  awsRegionFallback : gmap string string; awsWildcard : string }.

Definition insert_new (key value : string) (m : gmap string string) : gmap string string :=
  if bool_decide (m !! key = None) then <[key := value]> m else m.

Abbreviation nul := "000"%char (only parsing).
Definition aws_key (account region : string) : string := account +:+ str1 nul +:+ region.

Definition index_binding (p : Policy) (b : AWSBinding) : Policy :=
  let partition := TrimSpace (b_Partition b) in
  let account := TrimSpace (b_Account b) in
  let region := TrimSpace (b_Region b) in
  if bool_decide (partition = "") then p
  else if bool_decide (account ≠ "") && bool_decide (region ≠ "") then
    mkPolicy (p_bundle p) (insert_new (aws_key account region) partition (awsExact p)) (awsAccount p) (awsRegion p)
      (insert_new region partition (awsRegionFallback p)) (awsWildcard p)
  else if bool_decide (account ≠ "") then
    mkPolicy (p_bundle p) (awsExact p) (insert_new account partition (awsAccount p)) (awsRegion p) (awsRegionFallback p) (awsWildcard p)
  else if bool_decide (region ≠ "") then
    mkPolicy (p_bundle p) (awsExact p) (awsAccount p) (insert_new region partition (awsRegion p))
      (insert_new region partition (awsRegionFallback p)) (awsWildcard p)
  else mkPolicy (p_bundle p) (awsExact p) (awsAccount p) (awsRegion p) (awsRegionFallback p)
         (if bool_decide (awsWildcard p = "") then partition else awsWildcard p).

Definition indexAWSBindings (p : Policy) : Policy := foldl index_binding p (bu_AWSBindings (p_bundle p)).

Definition NewPolicy (b : Bundle) : Policy := indexAWSBindings (mkPolicy b ∅ ∅ ∅ ∅ "").

(** The methods accept a nil policy. *)
Definition PolicyVersion (p : option Policy) : string := from_option (λ p, bu_Version (p_bundle p)) "" p.
Definition PolicyDefaults (p : option Policy) : Defaults :=
  from_option (λ p, bu_Defaults (p_bundle p)) (mkDefaults false false false false) p.

Definition PartitionForAWS (p : option Policy) (account region : string) : option string :=
  match p with
  | None => None
  | Some p =>
      let account := TrimSpace account in
      let region := TrimSpace region in
      let wildcard := if bool_decide (awsWildcard p ≠ "") then Some (awsWildcard p) else None in
      if bool_decide (account = "" ∧ region = "") then None
      else if bool_decide (account ≠ "") then
        match (if bool_decide (region ≠ "") then awsExact p !! aws_key account region else None) with
        | Some partition => Some partition
        | None =>
            match awsAccount p !! account with
            | Some partition => Some partition
            | None =>
                match (if bool_decide (region ≠ "") then awsRegion p !! region else None) with
                | Some partition => Some partition
                | None => wildcard
                end
            end
        end
      else match awsRegionFallback p !! region with Some partition => Some partition | None => wildcard end
  end.

Section eval.
  Context `{UnicodeFold}.

Definition grant_matches (g : PolicyGrant) (id : Identity) : bool :=
  if IsAnonymous id then false
  else if bool_decide (pg_Client g ≠ "") then bool_decide (id_ClientID id ≠ "") && bool_decide (pg_Client g = id_ClientID id)
  else if bool_decide (pg_User g ≠ "") then
    (bool_decide (id_Subject id ≠ "") && bool_decide (pg_User g = id_Subject id)) ||
    (bool_decide (id_Email id ≠ "") && EqualFold (pg_User g) (id_Email id))
  else if bool_decide (pg_Group g ≠ "") then HasGroup id (pg_Group g)
  else false.

Definition matching (p : Policy) (id : Identity) : list PolicyGrant :=
  filter (λ g, grant_matches g id = true) (bu_Grants (p_bundle p)).

Definition deniesScope (g : PolicyGrant) (scope : string) : bool := existsb (λ d, bool_decide (d = scope)) (pg_Deny g).
Definition denied (p : Policy) (id : Identity) (scope : string) : bool := existsb (λ g, deniesScope g scope) (matching p id).

Definition scopeAllows (items : list string) (name : string) : bool :=
  existsb (λ item, bool_decide (item = "*") || bool_decide (item = name)) items.

Definition IsAdmin (p : option Policy) (id : Identity) : bool :=
  match p with
  | None => false
  | Some p =>
      if IsAnonymous id then false
      else existsb (λ g, bool_decide (pg_Role g = RoleAdmin) && grant_matches g id) (bu_Grants (p_bundle p))
  end.

Definition scope_list (g : PolicyGrant) (scope : string) : list string :=
  if bool_decide (scope = ScopePartitions) then pg_Partitions g
  else if bool_decide (scope = ScopeLogs) then pg_Logs g
  else if bool_decide (scope = ScopeTraces) then pg_Traces g
  else [].

Definition can (p : option Policy) (id : Identity) (scope partition : string) : bool :=
  match p with
  | None => false
  | Some pol =>
      if IsAnonymous id then false
      else if IsAdmin p id then true
      else if denied pol id scope then false
      else if existsb (λ g, negb (deniesScope g scope) && scopeAllows (scope_list g scope) partition) (matching pol id) then true
      else default_allows (bu_Defaults (p_bundle pol)) scope
  end.

Definition CanSeePartition (p : option Policy) (id : Identity) (partition : string) : bool := can p id ScopePartitions partition.

Definition CanReadSignal (p : option Policy) (id : Identity) (partition : string) (signal : Signal) : bool :=
  if bool_decide (signal = SignalMetrics) then true
  else if bool_decide (signal = SignalLogs) then can p id ScopeLogs partition
  else if bool_decide (signal = SignalTraces) then can p id ScopeTraces partition
  else false.

(** One pattern of [pathAllowed] against the trimmed, non-empty path. *)
Definition pattern_allows (displayPath pattern : string) : bool :=
  let p := Trim (TrimSpace pattern) slash in
  if bool_decide (p = "") then false
  else if bool_decide (p = "*") then true
  else if HasSuffix p "/**" then
    let prefix := TrimSuffix p "/**" in
    bool_decide (displayPath = prefix) || HasPrefix displayPath (prefix +:+ str1 slash)
  else bool_decide (Match p displayPath = Some true).

Definition pathAllowed (patterns : list string) (displayPath : string) : bool :=
  let displayPath := Trim (TrimSpace displayPath) slash in
  if bool_decide (displayPath = "") then false else existsb (pattern_allows displayPath) patterns.

Definition CanReadPath (p : option Policy) (id : Identity) (displayPath : string) : bool :=
  match p with
  | None => false
  | Some pol =>
      if IsAnonymous id then false
      else if IsAdmin p id then true
      else if denied pol id ScopeMonoFS then false
      else if existsb (λ g, pathAllowed (pg_MonoFS g) displayPath) (matching pol id) then true
      else d_MonoFS (bu_Defaults (p_bundle pol))
  end.

Definition roleRank (r : Role) : Z :=
  if bool_decide (r = RoleViewer) then 1
  else if bool_decide (r = RoleIngester) then 2
  else if bool_decide (r = RoleMaintainer) then 3
  else if bool_decide (r = RoleAdmin) then 4
  else 0.

Definition PolicyRole (p : option Policy) (id : Identity) (partition : string) : Role :=
  match p with
  | None => ""
  | Some pol =>
      if IsAnonymous id then ""
      else foldl (λ best g,
        if bool_decide (pg_Role g = "") || deniesScope g ScopePartitions then best
        else if negb (scopeAllows (pg_Partitions g) partition) then best
        else if bool_decide (roleRank best < roleRank (pg_Role g)) then pg_Role g else best) "" (matching pol id)
  end.

(** The names, and whether everything is visible. *)
Definition VisiblePartitions (p : option Policy) (id : Identity) : list string * bool :=
  match p with
  | None => ([], false)
  | Some pol =>
      if IsAnonymous id then ([], false)
      else if IsAdmin p id then ([], true)
      else if denied pol id ScopePartitions then ([], false)
      else
        let names := g ← matching pol id; pg_Partitions g in
        if bool_decide ("*" ∈ names) then ([], true)
        else (sort_Strings (remove_dups names), false)
  end.

Definition ResolveVisiblePartitions (p : option Policy) (id : Identity) (catalog : list string) : list string :=
  let '(names, all) := VisiblePartitions p id in if all then catalog else names.

Record Explanation := mkExplanation { ex_Admin : bool; ex_Matches : list PolicyGrant; ex_Defaults : Defaults }.
Definition Explain (p : option Policy) (id : Identity) : Explanation :=
  mkExplanation (IsAdmin p id) (match p with None => [] | Some pol => matching pol id end) (PolicyDefaults p).
End eval.

(** ** The loader *)

Definition ParseBundle (unmarshal : string → option Bundle) (data : string) : result policy_error Policy :=
  match unmarshal data with
  | None => Err PBundle
  | Some b => if bool_decide (bu_FormatVersion b ≠ FormatVersion) then Err (PBundleFormat (bu_FormatVersion b)) else Ok (NewPolicy b)
  end.

Record Loader := mkLoader { l_policy : option Policy; l_etag : string; l_loadedAt : Z; l_lastErr : option policy_error; l_fetches : nat }.

(** What the source's [Fetch] returns: an error, or bytes (none when
    unchanged) and a change token. *)
Inductive fetched := FetchError | Fetch (data : option string) (etag : string).

Definition Refresh (unmarshal : string → option Bundle) (now : Z) (l : Loader) (f : fetched) : Loader :=
  match f with
  | FetchError => mkLoader (l_policy l) (l_etag l) (l_loadedAt l) (Some PFetch) (l_fetches l)
  | Fetch data etag =>
      let n := S (l_fetches l) in
      match data with
      | None => mkLoader (l_policy l) (l_etag l) (l_loadedAt l) None n
      | Some data =>
          if bool_decide (etag ≠ "") && bool_decide (etag = l_etag l) && bool_decide (is_Some (l_policy l))
          then mkLoader (l_policy l) (l_etag l) (l_loadedAt l) None n
          else match ParseBundle unmarshal data with
          | Err e => mkLoader (l_policy l) (l_etag l) (l_loadedAt l) (Some e) n
          | Ok pol => mkLoader (Some pol) etag now None n
          end
      end
  end.

Definition NewLoader : Loader := mkLoader None "" 0 None 0.
Definition GetPolicy (l : Loader) : option Policy := l_policy l.
Definition Ready (l : Loader) : bool := bool_decide (is_Some (l_policy l)).
