(* ===== verification/PolicyProps.v ===== *)
(** * Properties of access policies

    The compiled bundle decides what the document says; the AWS index decides
    what a scan of the bindings would; the list of visible partitions agrees
    with the decision on each of them up to the default; the loader holds the
    policy of the last good fetch. *)

From stdpp Require Import options.
From S2P Require Import Prelude GoStrings GoUnicode GoSort GoPath Authz Policy.

(** ** Scope lists *)

Lemma elem_of_sort_Strings x l : x ∈ sort_Strings l ↔ x ∈ l.
Proof. unfold sort_Strings. by rewrite merge_sort_Permutation. Qed.

Lemma elem_of_dedupeSorted x items : x ∈ dedupeSorted items ↔ x ≠ "" ∧ x ∈ TrimSpace <$> items.
Proof. unfold dedupeSorted. by rewrite elem_of_sort_Strings, elem_of_remove_dups, list_elem_of_filter. Qed.

Lemma elem_of_sortedKeys {V} (m : gmap string V) k : k ∈ sortedKeys m ↔ is_Some (m !! k).
Proof.
  unfold sortedKeys. rewrite elem_of_sort_Strings, list_elem_of_fmap. split.
  - intros ([k' v] & -> & Hk%elem_of_map_to_list). by eexists.
  - intros [v Hv]. exists (k, v). by rewrite elem_of_map_to_list.
Qed.

Lemma scopeAllows_spec items name : scopeAllows items name = true ↔ "*" ∈ items ∨ name ∈ items.
Proof.
  unfold scopeAllows. rewrite existsb_elem. setoid_rewrite orb_true_iff. setoid_rewrite bool_decide_eq_true. split.
  - intros (x & Hx & [->|<-]); auto.
  - intros [Hx|Hx]; eauto.
Qed.

(** What a catalog contains: names that survive trimming and are not the
    wildcard. *)
Definition clean_catalog (catalog : option Catalog) : Prop :=
  ∀ cat p, catalog = Some cat → p ∈ cat → TrimSpace (p_Name p) = p_Name p ∧ p_Name p ≠ "" ∧ p_Name p ≠ "*".

(** The partitions an entry of a scope list stands for. *)
Definition entry_covers (file : File) (catalog : option Catalog) (raw name : string) : Prop :=
  let entry := TrimSpace raw in
  entry = "*" ∨
  entry ≠ "" ∧
  match f_Selectors file !! entry with
  | Some sel => ∃ cat p, catalog = Some cat ∧ p ∈ cat ∧ p_Name p = name ∧
                  ∀ k v, sel_Labels sel !! k = Some v → default "" (p_Labels p !! k) = v
  | None => if Contains entry "*"
            then ∃ cat p, catalog = Some cat ∧ p ∈ cat ∧ p_Name p = name ∧ Match entry name = Some true
            else entry = name
  end.

Lemma elem_of_matchSelector cat sel name :
  name ∈ matchSelector cat sel ↔
  ∃ p, p ∈ cat ∧ p_Name p = name ∧ ∀ k v, sel_Labels sel !! k = Some v → default "" (p_Labels p !! k) = v.
Proof.
  unfold matchSelector. rewrite elem_of_sort_Strings, list_elem_of_fmap. setoid_rewrite list_elem_of_filter. naive_solver.
Qed.

Lemma elem_of_expandGlob cat entry name :
  name ∈ expandGlob cat entry ↔ ∃ p, p ∈ cat ∧ p_Name p = name ∧ Match entry name = Some true.
Proof.
  unfold expandGlob. rewrite elem_of_sort_Strings, list_elem_of_fmap. setoid_rewrite list_elem_of_filter. naive_solver.
Qed.

(** The expansion of one trimmed entry: what it covers, all of it clean. *)
Lemma expand_entry_spec file catalog raw name :
  TrimSpace raw ≠ "" → TrimSpace raw ≠ "*" →
  name ∈ expand_entry file catalog (TrimSpace raw) ↔ entry_covers file catalog raw name.
Proof.
  intros Hne Hns. unfold expand_entry, entry_covers. destruct (f_Selectors file !! TrimSpace raw) as [sel|].
  - destruct catalog as [cat|]; [rewrite elem_of_matchSelector|rewrite elem_of_nil]; naive_solver.
  - destruct (Contains (TrimSpace raw) "*").
    + destruct catalog as [cat|]; [rewrite elem_of_expandGlob|rewrite elem_of_nil]; naive_solver.
    + rewrite list_elem_of_singleton. naive_solver.
Qed.

Lemma expand_entry_clean file catalog raw x :
  clean_catalog catalog → TrimSpace raw ≠ "" → x ∈ expand_entry file catalog (TrimSpace raw) →
  TrimSpace x = x ∧ x ≠ "" ∧ (x = "*" → TrimSpace raw = "*").
Proof.
  intros Hcat Hne. unfold expand_entry. destruct (f_Selectors file !! TrimSpace raw) as [sel|].
  - destruct catalog as [cat|]; [|by intros ?%elem_of_nil]. intros (p & Hp & <- & _)%elem_of_matchSelector.
    destruct (Hcat cat p eq_refl Hp) as (? & ? & ?). done.
  - destruct (Contains (TrimSpace raw) "*") eqn:Hc.
    + destruct catalog as [cat|]; [|by intros ?%elem_of_nil]. intros (p & Hp & <- & _)%elem_of_expandGlob.
      destruct (Hcat cat p eq_refl Hp) as (? & ? & ?). done.
    + intros ->%list_elem_of_singleton. split; [apply TrimSpace_idem|]. done.
Qed.

Lemma resolve_entries_spec file catalog items :
  match resolve_entries file catalog items with
  | None => ∃ raw, raw ∈ items ∧ TrimSpace raw = "*"
  | Some out => Forall (λ raw, TrimSpace raw ≠ "*") items ∧
      ∀ x, x ∈ out ↔ ∃ raw, raw ∈ items ∧ TrimSpace raw ≠ "" ∧ x ∈ expand_entry file catalog (TrimSpace raw)
  end.
Proof.
  induction items as [|raw items IH]; simpl.
  { split; [constructor|]. intros x. rewrite elem_of_nil. setoid_rewrite elem_of_nil. naive_solver. }
  bool_case (TrimSpace raw = "") as E.
  - destruct (resolve_entries file catalog items); setoid_rewrite elem_of_cons; [|naive_solver]. destruct IH as [Hns IH].
    split; [constructor; [by rewrite E|done]|]. intros x. rewrite IH. naive_solver.
  - bool_case (TrimSpace raw = "*") as E'; [exists raw; split; [left|done]|].
    destruct (resolve_entries file catalog items) as [out|]; simpl; setoid_rewrite elem_of_cons; [|naive_solver].
    destruct IH as [Hns IH]. split; [by constructor|]. intros x. rewrite elem_of_app, IH. naive_solver.
Qed.

(** A resolved scope list allows exactly what the document's list covers. *)
Lemma resolveScope_spec file catalog items name :
  clean_catalog catalog →
  scopeAllows (resolveScope file catalog items) name = true ↔ ∃ raw, raw ∈ items ∧ entry_covers file catalog raw name.
Proof.
  intros Hcat. rewrite scopeAllows_spec. unfold resolveScope. pose proof (resolve_entries_spec file catalog items) as Hres.
  destruct (resolve_entries file catalog items) as [out|].
  - destruct Hres as [Hns Hout]. rewrite Forall_forall in Hns.
    assert (∀ x, x ∈ dedupeSorted out ↔ x ∈ out) as Hdd.
    { intros x. rewrite elem_of_dedupeSorted, list_elem_of_fmap. split.
      - intros (Hx & y & -> & Hy). pose proof Hy as (raw & Hr & Hne & He)%Hout.
        by destruct (expand_entry_clean file catalog raw y Hcat Hne He) as (-> & _).
      - intros Hx. pose proof Hx as (raw & Hr & Hne & He)%Hout.
        destruct (expand_entry_clean file catalog raw x Hcat Hne He) as (Ht & Hx' & _). split; [done|]. by exists x. }
    rewrite !Hdd, !Hout. split.
    + intros [(raw & Hr & Hne & He)|(raw & Hr & Hne & He)].
      * destruct (expand_entry_clean file catalog raw "*" Hcat Hne He) as (_ & _ & Hs). by destruct (Hns raw Hr (Hs eq_refl)).
      * exists raw. split; [done|]. apply expand_entry_spec; [done|by apply Hns|done].
    + intros (raw & Hr & Hc). right. assert (TrimSpace raw ≠ "") as Hne.
      { destruct Hc as [E|[? _]]; [by rewrite E|done]. }
      exists raw. split; [done|]. split; [done|]. apply expand_entry_spec; [done|by apply Hns|done].
  - destruct Hres as (raw & Hr & E). rewrite !list_elem_of_singleton. split; [|by left].
    intros _. exists raw. split; [done|]. by left.
Qed.

(** ** Subjects and grants *)

Lemma p_bundle_index p bs : p_bundle (foldl index_binding p bs) = p_bundle p.
Proof.
  revert p. induction bs as [|b bs IH]; intros p; [done|]. cbn [foldl]. rewrite IH. unfold index_binding.
  by repeat case_match.
Qed.

Lemma p_bundle_New b : p_bundle (NewPolicy b) = b.
Proof. unfold NewPolicy, indexAWSBindings. by rewrite p_bundle_index. Qed.

Section source.
  Context `{UnicodeFold} `{GoSort} (marshal_catalog : list Partition → option string) (marshal_bundle : Bundle → option string).
  Context (file : File) (catalog : option Catalog) (now : string).

Definition compiled_policy : Policy := NewPolicy (build marshal_catalog marshal_bundle file catalog now).

(** The document's entries for an identity: by client, by subject or e-mail,
    by group. *)
Definition applies (id : Identity) (sub : PolicySubject) : Prop :=
  IsAnonymous id = false ∧
  ((∃ name, f_Groups file !! name = Some sub ∧ HasGroup id name = true) ∨
   (∃ name, f_Users file !! name = Some sub ∧ name ≠ "" ∧
      (id_Subject id ≠ "" ∧ name = id_Subject id ∨ id_Email id ≠ "" ∧ EqualFold name (id_Email id) = true)) ∨
   (∃ name, f_Clients file !! name = Some sub ∧ name ≠ "" ∧ name = id_ClientID id)).

(** The grant an entry is compiled to, whoever it is for. *)
Definition compiled_to (sub : PolicySubject) (g : PolicyGrant) : Prop :=
  pg_Partitions g = resolveScope file catalog (s_Partitions sub) ∧ pg_Logs g = resolveScope file catalog (s_Logs sub) ∧
  pg_Traces g = resolveScope file catalog (s_Traces sub) ∧ pg_MonoFS g = dedupeSorted (s_MonoFS sub) ∧
  pg_Role g = s_Role sub ∧ pg_Deny g = dedupeSorted (s_Deny sub).

Definition grant_for (group user client : string) (sub : PolicySubject) : PolicyGrant :=
  mkPolicyGrant group user client (resolveScope file catalog (s_Partitions sub)) (resolveScope file catalog (s_Logs sub))
    (resolveScope file catalog (s_Traces sub)) (dedupeSorted (s_MonoFS sub)) (s_Role sub) (dedupeSorted (s_Deny sub)).

Lemma elem_of_build_grants subjects mk g :
  g ∈ build_grants file catalog subjects mk ↔
  ∃ name sub, subjects !! name = Some sub ∧
    g = mk name (resolveScope file catalog (s_Partitions sub)) (resolveScope file catalog (s_Logs sub))
          (resolveScope file catalog (s_Traces sub)) (dedupeSorted (s_MonoFS sub)) (s_Role sub) (dedupeSorted (s_Deny sub)).
Proof.
  unfold build_grants. rewrite list_elem_of_omap. setoid_rewrite bind_Some. split.
  - intros (name & _ & sub & Hs & [= <-]). eauto.
  - intros (name & sub & Hs & ->). exists name. split; [by apply elem_of_sortedKeys; eexists|]. eauto.
Qed.

Lemma elem_of_policy_grants g :
  g ∈ bu_Grants (p_bundle compiled_policy) ↔
  ∃ name sub, f_Groups file !! name = Some sub ∧ g = grant_for name "" "" sub ∨
              f_Users file !! name = Some sub ∧ g = grant_for "" name "" sub ∨
              f_Clients file !! name = Some sub ∧ g = grant_for "" "" name sub.
Proof.
  unfold compiled_policy. rewrite p_bundle_New. unfold build. cbn [bu_Grants].
  rewrite !elem_of_app, !elem_of_build_grants. unfold grant_for. naive_solver.
Qed.

Lemma HasGroup_ne id name : HasGroup id name = true → name ≠ "".
Proof. intros Hg ->. unfold HasGroup in Hg. by rewrite TrimSpace_empty in Hg. Qed.

Lemma grant_for_matches id name sub :
  IsAnonymous id = false →
  (grant_matches (grant_for name "" "" sub) id = true ↔ HasGroup id name = true) ∧
  (grant_matches (grant_for "" name "" sub) id = true ↔ name ≠ "" ∧
     (id_Subject id ≠ "" ∧ name = id_Subject id ∨ id_Email id ≠ "" ∧ EqualFold name (id_Email id) = true)) ∧
  (grant_matches (grant_for "" "" name sub) id = true ↔ name ≠ "" ∧ name = id_ClientID id).
Proof.
  intros Ha. unfold grant_matches, grant_for. rewrite Ha. cbn [pg_Group pg_User pg_Client].
  rewrite !(bool_decide_eq_false_2 ("" ≠ "")) by auto. split; [|split].
  - bool_case (name ≠ "") as E; [done|]. split; [done|]. intros Hg%HasGroup_ne. done.
  - bool_case (name ≠ "") as E; [|naive_solver]. rewrite orb_true_iff, !andb_true_iff, !bool_decide_eq_true. naive_solver.
  - bool_case (name ≠ "") as E; [|naive_solver]. rewrite andb_true_iff, !bool_decide_eq_true. naive_solver.
Qed.

Lemma matching_applies id g : g ∈ matching compiled_policy id → ∃ sub, applies id sub ∧ compiled_to sub g.
Proof.
  unfold matching. intros [Hm Hg]%list_elem_of_filter.
  assert (IsAnonymous id = false) as Ha by (unfold grant_matches in Hm; by destruct (IsAnonymous id)).
  apply elem_of_policy_grants in Hg as (name & sub & Hg). exists sub.
  destruct (grant_for_matches id name sub Ha) as (H1 & H2 & H3).
  destruct Hg as [[Hs ->]|[[Hs ->]|[Hs ->]]]; (split; [split; [done|]|done]).
  - apply H1 in Hm. eauto.
  - apply H2 in Hm. eauto.
  - apply H3 in Hm. eauto 10.
Qed.

Lemma applies_matching id sub : applies id sub → ∃ g, g ∈ matching compiled_policy id ∧ compiled_to sub g.
Proof.
  intros [Ha Hs]. unfold matching. setoid_rewrite list_elem_of_filter. setoid_rewrite elem_of_policy_grants.
  destruct Hs as [(name & Hs & Hm)|[(name & Hs & Hm)|(name & Hs & Hm)]];
    destruct (grant_for_matches id name sub Ha) as (H1 & H2 & H3).
  - exists (grant_for name "" "" sub). split; [|done]. split; [by apply H1|]. exists name, sub. auto.
  - exists (grant_for "" name "" sub). split; [|done]. split; [by apply H2|]. exists name, sub. auto.
  - exists (grant_for "" "" name sub). split; [|done]. split; [by apply H3|]. exists name, sub. auto.
Qed.

(** A test of the matching grants is a test of the entries that apply. *)
Lemma exists_matching (t : PolicyGrant → bool) (P : PolicySubject → Prop) id :
  (∀ sub g, compiled_to sub g → t g = true ↔ P sub) →
  existsb t (matching compiled_policy id) = true ↔ ∃ sub, applies id sub ∧ P sub.
Proof.
  intros Ht. rewrite existsb_elem. split.
  - intros (g & Hg & Htg). destruct (matching_applies id g Hg) as (sub & Hs & Hc). exists sub. split; [done|]. by apply (Ht sub g).
  - intros (sub & Hs & HP). destruct (applies_matching id sub Hs) as (g & Hg & Hc). exists g. split; [done|]. by apply (Ht sub g).
Qed.

(** ** What the document says *)

Definition source_list (sub : PolicySubject) (scope : string) : list string :=
  if bool_decide (scope = ScopePartitions) then s_Partitions sub
  else if bool_decide (scope = ScopeLogs) then s_Logs sub
  else if bool_decide (scope = ScopeTraces) then s_Traces sub
  else [].

Definition source_admin (id : Identity) : Prop := ∃ sub, applies id sub ∧ s_Role sub = RoleAdmin.
Definition source_denies (id : Identity) (scope : string) : Prop :=
  ∃ sub, applies id sub ∧ scope ≠ "" ∧ scope ∈ TrimSpace <$> s_Deny sub.

(** Administrators see everything; otherwise an applicable deny of the scope
    wins, then an applicable entry that covers the partition, then the
    default. *)
Definition source_allows (id : Identity) (scope name : string) : Prop :=
  IsAnonymous id = false ∧
  (source_admin id ∨
   ¬ source_denies id scope ∧
   ((∃ sub, applies id sub ∧ ∃ raw, raw ∈ source_list sub scope ∧ entry_covers file catalog raw name) ∨
    f_Defaults file !! scope = Some "allow")).

Lemma IsAdmin_source id : IsAdmin (Some compiled_policy) id = true ↔ source_admin id.
Proof.
  unfold IsAdmin, source_admin. destruct (IsAnonymous id) eqn:Ha.
  { split; [done|]. intros (sub & [Ha' _] & _). congruence. }
  rewrite <- (exists_matching (λ g, bool_decide (pg_Role g = RoleAdmin)) (λ sub, s_Role sub = RoleAdmin)).
  - rewrite !existsb_elem. unfold matching. setoid_rewrite list_elem_of_filter. setoid_rewrite andb_true_iff. naive_solver.
  - intros sub g (_ & _ & _ & _ & -> & _). apply bool_decide_eq_true.
Qed.

Lemma deniesScope_source sub g scope :
  compiled_to sub g → deniesScope g scope = true ↔ scope ≠ "" ∧ scope ∈ TrimSpace <$> s_Deny sub.
Proof.
  intros (_ & _ & _ & _ & _ & Hd). unfold deniesScope. rewrite Hd, existsb_elem, <- elem_of_dedupeSorted.
  setoid_rewrite bool_decide_eq_true. naive_solver.
Qed.

Lemma denied_source id scope : denied compiled_policy id scope = true ↔ source_denies id scope.
Proof. unfold denied, source_denies. apply exists_matching. intros sub g Hc. by apply deniesScope_source. Qed.

Lemma scope_list_source sub g scope :
  compiled_to sub g → scope ∈ [ScopePartitions; ScopeLogs; ScopeTraces] →
  scope_list g scope = resolveScope file catalog (source_list sub scope).
Proof.
  intros (Hp & Hl & Ht & _) Hs. unfold scope_list, source_list.
  rewrite !elem_of_cons, elem_of_nil in Hs. by destruct Hs as [->|[->|[->|[]]]].
Qed.

Lemma default_source scope :
  scope ∈ [ScopePartitions; ScopeLogs; ScopeTraces] →
  default_allows (build_defaults file) scope = true ↔ f_Defaults file !! scope = Some "allow".
Proof.
  intros Hs. rewrite !elem_of_cons, elem_of_nil in Hs. by destruct Hs as [->|[->|[->|[]]]]; apply bool_decide_eq_true.
Qed.

(** C13: a compiled policy decides what the document says, in the scopes of
    partitions, logs and traces (paths of the file system have rules of their
    own).  For every document and identity, and every catalog whose names are
    trimmed, not empty and not the wildcard, evaluating the compiled bundle,
    with its selectors and globs expanded against the catalog, its lists
    trimmed, sorted and deduplicated and its wildcards collapsed, gives exactly
    the decision read off the document: administrators see everything, then an
    applicable deny of the scope wins, then an applicable entry that covers
    the partition, then the default; nobody anonymous sees anything. *)
Theorem compiled_policy_decides id scope name :
  clean_catalog catalog → scope ∈ [ScopePartitions; ScopeLogs; ScopeTraces] →
  can (Some compiled_policy) id scope name = true ↔ source_allows id scope name.
Proof.
  intros Hcat Hs. unfold can, source_allows. destruct (IsAnonymous id); [by split; [|intros [? _]]|].
  rewrite <- IsAdmin_source, <- denied_source. destruct (IsAdmin (Some compiled_policy) id); [naive_solver|].
  destruct (denied compiled_policy id scope) eqn:Hd; [naive_solver|].
  assert (existsb (λ g, negb (deniesScope g scope) && scopeAllows (scope_list g scope) name) (matching compiled_policy id) = true ↔
    ∃ sub, applies id sub ∧ ∃ raw, raw ∈ source_list sub scope ∧ entry_covers file catalog raw name) as Hg.
  { rewrite <- (exists_matching (λ g, scopeAllows (scope_list g scope) name)).
    - rewrite !existsb_elem. setoid_rewrite andb_true_iff. setoid_rewrite negb_true_iff. split; [naive_solver|].
      intros (g & Hg & Ha). exists g. split; [done|]. split; [|done]. destruct (deniesScope g scope) eqn:E; [|done].
      assert (denied compiled_policy id scope = true); [|congruence]. apply existsb_elem. eauto.
    - intros sub g Hc. rewrite (scope_list_source sub g scope) by done. by apply resolveScope_spec. }
  destruct (existsb _ _); [naive_solver|].
  unfold compiled_policy. rewrite p_bundle_New. unfold build. cbn [bu_Defaults]. rewrite default_source by done. naive_solver.
Qed.
End source.

(** ** Visible partitions *)


(** ** AWS bindings *)

(** A usable binding: its trimmed partition, account and region. *)
Definition usable (b : AWSBinding) : option (string * string * string) :=
  if bool_decide (TrimSpace (b_Partition b) = "") then None
  else Some (TrimSpace (b_Partition b), TrimSpace (b_Account b), TrimSpace (b_Region b)).

(** The partition of the first usable binding that passes a test. *)
Definition first_binding (test : string → string → bool) (bs : list AWSBinding) : option string :=
  head (omap (λ b, '(partition, account, region) ← usable b; if test account region then Some partition else None) bs).

Definition orelse {A} (a b : option A) : option A := match a with Some _ => a | None => b end.

(** The reference: scan the bindings for an exact match, then one on the
    account alone, then one on the region alone, then a binding for
    everything; without an account any binding of the region will do. *)
Definition scan_bindings (bs : list AWSBinding) (account region : string) : option string :=
  let account := TrimSpace account in
  let region := TrimSpace region in
  let first a r := first_binding (λ a' r', bool_decide (a' = a) && bool_decide (r' = r)) bs in
  if bool_decide (account = "" ∧ region = "") then None
  else if bool_decide (account ≠ "") then
    orelse (if bool_decide (region ≠ "") then first account region else None)
      (orelse (first account "") (orelse (if bool_decide (region ≠ "") then first "" region else None) (first "" "")))
  else orelse (first_binding (λ _ r', bool_decide (r' = region)) bs) (first "" "").

Lemma orelse_None_r {A} (a : option A) : orelse a None = a.
Proof. by destruct a. Qed.

Lemma first_binding_snoc test bs b :
  first_binding test (bs ++ [b]) =
  orelse (first_binding test bs) ('(partition, account, region) ← usable b; if test account region then Some partition else None).
Proof.
  unfold first_binding. rewrite omap_app. destruct (omap _ bs); [|done]. simpl.
  destruct (usable b) as [[[??]?]|]; simpl; [|done]. by case_match.
Qed.

Lemma lookup_insert_new k v m k' :
  insert_new k v m !! k' = orelse (m !! k') (if bool_decide (k = k') then Some v else None).
Proof.
  unfold insert_new. bool_case (k = k') as E.
  - subst k'. case_bool_decide as Hn; [by rewrite lookup_insert_eq, Hn | by destruct (m !! k)].
  - case_bool_decide; [rewrite lookup_insert_ne by done|]; by destruct (m !! k').
Qed.

Lemma aws_key_inj a r a' r' :
  has_byte nul a = false → has_byte nul a' = false → aws_key a r = aws_key a' r' → a = a' ∧ r = r'.
Proof.
  unfold aws_key. intros Ha Ha' E. apply (f_equal (λ s, Split s nul)) in E.
  rewrite !Split_app in E by done. injection E as -> E. split; [done|].
  by rewrite <- (Join_Split r nul), E, Join_Split.
Qed.

(** What the index holds for a list of bindings. *)
Record indexed (p : Policy) (bs : list AWSBinding) : Prop := {
  ix_exact a r : a ≠ "" → r ≠ "" → has_byte nul a = false →
    awsExact p !! aws_key a r = first_binding (λ a' r', bool_decide (a' = a) && bool_decide (r' = r)) bs;
  ix_account a : a ≠ "" → awsAccount p !! a = first_binding (λ a' r', bool_decide (a' = a) && bool_decide (r' = "")) bs;
  ix_region r : r ≠ "" → awsRegion p !! r = first_binding (λ a' r', bool_decide (a' = "") && bool_decide (r' = r)) bs;
  ix_fallback r : r ≠ "" → awsRegionFallback p !! r = first_binding (λ _ r', bool_decide (r' = r)) bs;
  ix_wildcard : (if bool_decide (awsWildcard p ≠ "") then Some (awsWildcard p) else None) =
    first_binding (λ a' r', bool_decide (a' = "") && bool_decide (r' = "")) bs }.

Lemma indexed_step p bs b :
  has_byte nul (TrimSpace (b_Account b)) = false → indexed p bs → indexed (index_binding p b) (bs ++ [b]).
Proof.
  intros Hnul [He Ha Hr Hf Hw]. unfold index_binding.
  bool_case (TrimSpace (b_Partition b) = "") as Hp.
  - split; intros; rewrite first_binding_snoc; unfold usable; rewrite (bool_decide_eq_true_2 (TrimSpace (b_Partition b) = "")) by done; simpl.
    all: first [rewrite He by done | rewrite Ha by done | rewrite Hr by done | rewrite Hf by done | rewrite Hw].
    all: by rewrite orelse_None_r.
  - assert (∀ test, first_binding test (bs ++ [b]) =
      orelse (first_binding test bs) (if test (TrimSpace (b_Account b)) (TrimSpace (b_Region b)) then Some (TrimSpace (b_Partition b)) else None)) as Hs.
    { intros test. rewrite first_binding_snoc. unfold usable. rewrite bool_decide_eq_false_2 by done. reflexivity. }
    revert Hp Hnul Hs. generalize (TrimSpace (b_Account b)), (TrimSpace (b_Region b)), (TrimSpace (b_Partition b)).
    intros account region part Hp Hnul Hs.
    bool_case (account ≠ "") as Hacc; bool_case (region ≠ "") as Hreg; cbn [andb].
    all: split; cbn [awsExact awsAccount awsRegion awsRegionFallback awsWildcard]; intros; rewrite Hs, ?lookup_insert_new.
    all: first [rewrite He by done | rewrite Ha by done | rewrite Hr by done | rewrite Hf by done | rewrite <- Hw]; clear Hw.
    all: try match goal with |- ?x = orelse ?x ?y => replace y with (@None string); [by rewrite orelse_None_r|] end.
    all: try match goal with |- orelse _ _ = orelse _ _ => f_equal end.
    all: repeat case_bool_decide; simplify_eq/=; try done.
    all: match goal with E : aws_key _ _ = aws_key _ _ |- _ => by apply aws_key_inj in E as [??]; congruence end.
Qed.

Lemma indexed_New b :
  Forall (λ x, has_byte nul (TrimSpace (b_Account x)) = false) (bu_AWSBindings b) → indexed (NewPolicy b) (bu_AWSBindings b).
Proof.
  unfold NewPolicy, indexAWSBindings. cbn [p_bundle]. set (p0 := mkPolicy b ∅ ∅ ∅ ∅ "").
  induction (bu_AWSBindings b) as [|x bs IH] using rev_ind; intros Hn.
  { split; intros; unfold p0; cbn; by rewrite ?lookup_empty. }
  apply Forall_app in Hn as [Hbs [Hx _]%Forall_cons_1]. rewrite foldl_app. cbn [foldl]. apply indexed_step; [done|by apply IH].
Qed.

(** the AWS index answers as a scan of the bindings.  For every list of
    bindings whose accounts hold no NUL byte, the indexed lookup returns the
    partition of the first binding of the most specific kind that matches:
    account and region, account, region, everything; and without an account,
    the first binding of the region. *)
Theorem aws_index_scans b account region :
  Forall (λ x, has_byte nul (TrimSpace (b_Account x)) = false) (bu_AWSBindings b) →
  has_byte nul (TrimSpace account) = false →
  PartitionForAWS (Some (NewPolicy b)) account region = scan_bindings (bu_AWSBindings b) account region.
Proof.
  intros Hbs Hn. destruct (indexed_New b Hbs) as [He Ha Hr Hf Hw]. unfold PartitionForAWS, scan_bindings.
  revert Hn. generalize (TrimSpace account), (TrimSpace region). intros a r Hn. rewrite Hw.
  bool_case (a = "" ∧ r = "") as E; [done|]. bool_case (a ≠ "") as Ea.
  - bool_case (r ≠ "") as Er; [rewrite He, Ha, Hr by done | rewrite Ha by done]; unfold orelse; repeat case_match; congruence.
  - assert (r ≠ "") by (destruct (decide (a = "")); naive_solver). rewrite Hf by done. unfold orelse. repeat case_match; congruence.
Qed.

(** ** The loader *)

(** The policy a fetch carries, when it parses. *)
Definition good_policy (unmarshal : string → option Bundle) (f : fetched) : option Policy :=
  match f with
  | Fetch (Some data) _ => match ParseBundle unmarshal data with Ok pol => Some pol | Err _ => None end
  | _ => None
  end.

(** A change token names one content. *)
Definition token_names_content (fs : list fetched) : Prop :=
  ∀ d1 d2 etag, Fetch (Some d1) etag ∈ fs → Fetch (Some d2) etag ∈ fs → etag ≠ "" → d1 = d2.

(** The loader's policy is the last good one, and its token came with it. *)
Lemma loader_inv unmarshal times fs l :
  token_names_content fs → length times = length fs →
  l = foldl (λ l '(now, f), Refresh unmarshal now l f) NewLoader (zip times fs) →
  l_policy l = last (omap (good_policy unmarshal) fs) ∧
  (is_Some (l_policy l) → ∃ data, Fetch (Some data) (l_etag l) ∈ fs ∧ ∃ pol, ParseBundle unmarshal data = Ok pol ∧ l_policy l = Some pol).
Proof.
  revert times l. induction fs as [|f fs IH] using rev_ind; intros times l Htok Hlen.
  { destruct times; [|done]. intros ->. split; [done|]. by intros []. }
  destruct times as [|now times _] using rev_ind; [rewrite length_app in Hlen; simpl in Hlen; lia|].
  rewrite !length_app in Hlen. simpl in Hlen. rewrite zip_with_app by lia. rewrite foldl_app. cbn [zip_with foldl].
  set (l0 := foldl _ NewLoader (zip times fs)).
  destruct (IH times l0) as [Hpol Htag]; [intros d1 d2 etag H1 H2; apply Htok; apply elem_of_app; by left | lia | done |].
  rewrite omap_app. intros ->.
  assert (∀ data, Fetch (Some data) (l_etag l0) ∈ fs → Fetch (Some data) (l_etag l0) ∈ fs ++ [f]) as Hin
    by (intros; apply elem_of_app; by left).
  destruct f as [|[data|] etag]; cbn [Refresh l_policy l_etag omap list_omap good_policy]; rewrite ?app_nil_r.
  - split; [done|]. intros Hs. destruct (Htag Hs) as (d & ? & ?). eauto.
  - destruct (_ && _ && _) eqn:Hb; bool_hyps; cbn [l_policy l_etag].
    + subst etag. destruct (Htag ltac:(done)) as (d & Hd & pol & Hp & Hl).
      assert (d = data) as -> by (eapply Htok; [by apply Hin|apply elem_of_app; right; by left|done]).
      rewrite Hp, last_snoc, Hl. split; [done|]. eauto 6.
    + destruct (ParseBundle unmarshal data) as [pol|e] eqn:Hp; cbn [l_policy l_etag]; rewrite ?app_nil_r.
      * rewrite last_snoc. split; [done|]. intros _. exists data. split; [apply elem_of_app; right; by left|]. eauto.
      * split; [done|]. intros Hs. destruct (Htag Hs) as (d & ? & ?). eauto.
  - split; [done|]. intros Hs. destruct (Htag Hs) as (d & ? & ?). eauto.
Qed.

(** the loader holds the last good policy.  Whatever the fetches
    return, errors, unchanged answers, bundles that do not parse, and even
    though a bundle with the token of the current policy is not parsed again,
    the current policy is the one of the last fetch that carried a bundle that
    parses; in particular no failure drops a policy. *)
Theorem loader_keeps_last_good unmarshal times fs :
  token_names_content fs → length times = length fs →
  GetPolicy (foldl (λ l '(now, f), Refresh unmarshal now l f) NewLoader (zip times fs)) = last (omap (good_policy unmarshal) fs).
Proof. intros Htok Hlen. by eapply loader_inv. Qed.

(** ** Examples *)

#[local] Existing Instance basic_unicode_fold.
#[local] Existing Instance go_insertion_sort.

Definition ex_subject : PolicySubject := mkSubject ["prod"; " team-* "] [] [] [] "" [].
Definition ex_file : File :=
  mkFile 1 [] {["logs" := "allow"]} {["prod" := mkSelector {["env" := "prod"]}]} {["sre" := ex_subject]} ∅ ∅ [].
Definition ex_catalog : Catalog := [mkPartition "web" {["env" := "prod"]}; mkPartition "team-a" ∅; mkPartition "lab" ∅].
Definition ex_id : Identity := mkIdentity "alice" "" ["SRE"] "".
Definition ex_policy : Policy := compiled_policy (λ _, None) (λ _, None) ex_file (Some ex_catalog) "now".

Lemma ex_catalog_clean : clean_catalog (Some ex_catalog).
Proof.
  intros cat p [= <-] Hp. unfold ex_catalog in Hp. rewrite !elem_of_cons, elem_of_nil in Hp.
  by destruct Hp as [->|[->|[->|[]]]].
Qed.

Lemma compiled_policy_decides_witness :
  (CanSeePartition (Some ex_policy) ex_id "web", CanSeePartition (Some ex_policy) ex_id "team-a",
   CanSeePartition (Some ex_policy) ex_id "lab") = (true, true, false) ∧
  (can (Some ex_policy) ex_id ScopePartitions "web" = true ↔
   source_allows ex_file (Some ex_catalog) ex_id ScopePartitions "web").
Proof.
  split; [vm_compute; reflexivity|].
  apply (compiled_policy_decides (λ _, None) (λ _, None) ex_file (Some ex_catalog) "now").
  - exact ex_catalog_clean.
  - left.
Defined.

Definition ex_bindings : Bundle :=
  mkPolicyBundle 1 "" "" (mkDefaults false false false false) []
    [mkBinding "p1" "123" "eu"; mkBinding "p2" "123" ""; mkBinding "p3" "" "us"] "".

Lemma aws_index_scans_witness :
  scan_bindings (bu_AWSBindings ex_bindings) "123" "us" = Some "p2" ∧
  PartitionForAWS (Some (NewPolicy ex_bindings)) "123" "us" = scan_bindings (bu_AWSBindings ex_bindings) "123" "us".
Proof.
  split; [vm_compute; reflexivity|]. apply aws_index_scans; [|vm_compute; reflexivity].
  repeat (constructor; [vm_compute; reflexivity|]). constructor.
Defined.

Lemma loader_keeps_last_good_witness :
  let unmarshal s := if bool_decide (s = "good") then Some ex_bindings else None in
  let fs := [Fetch (Some "good") "v1"; FetchError; Fetch (Some "bad") "v2"; Fetch (Some "good") "v1"] in
  GetPolicy (foldl (λ l '(now, f), Refresh unmarshal now l f) NewLoader (zip [1; 2; 3; 4] fs)) = Some (NewPolicy ex_bindings).
Proof.
  intros unmarshal fs. rewrite (loader_keeps_last_good unmarshal [1; 2; 3; 4] fs); [reflexivity| |reflexivity].
  intros d1 d2 etag H1 H2 _. unfold fs in *. rewrite !elem_of_cons, elem_of_nil in H1, H2. naive_solver.
Defined.
