(* ===== verification/Pipeline.v ===== *)
(** * Pipeline configurations

    Model of internal/router/pipeline: types.go (the configuration part),
    config.go (validation, the job graph, trigger matching) and affected.go
    (the packages touched by a change).

    YAML decoding is an argument; regular expressions of the shape
    [pathGlobMatch] builds are matched by the tokens they are built from. *)

From stdpp Require Import options.
From S2P Require Import Prelude GoStrings GoUnicode GoPath GoRange.

(** ** Data *)

Inductive RunState := RunPending | RunRunning | RunSucceeded | RunFailed | RunCancelled.
Inductive JobState := JobPending | JobClaimed | JobRunning | JobSucceeded | JobFailed | JobSkipped | JobCancelled.
Inductive TriggerType := TriggerPush | TriggerPullRequest | TriggerTag | TriggerManual | TriggerOther (s : string).

#[export] Instance RunState_eq_dec : EqDecision RunState.
Proof. solve_decision. Defined.
#[export] Instance JobState_eq_dec : EqDecision JobState.
Proof. solve_decision. Defined.
#[export] Instance TriggerType_eq_dec : EqDecision TriggerType.
Proof. solve_decision. Defined.

Abbreviation RunnerType := string (only parsing).
Abbreviation RunnerBuilder := "builder" (only parsing).
Abbreviation RunnerDocker := "docker" (only parsing).
Abbreviation RunnerDeploy := "deployer" (only parsing).
Abbreviation RunnerLambda := "lambda" (only parsing).
Abbreviation RunnerBazel := "bazel" (only parsing).
Definition AllRunnerTypes : list RunnerType :=
  [RunnerBuilder; RunnerDocker; RunnerDeploy; RunnerLambda; RunnerBazel].
Definition IsValidRunnerType (runner : RunnerType) : bool :=
  existsb (λ r, bool_decide (r = runner)) AllRunnerTypes.

Record MatrixVar := mkMatrixVar { Static : list string; Expr : string }.
Abbreviation MatrixConfig := (gmap string MatrixVar).
Record StrategyConfig := mkStrategy { Matrix : MatrixConfig; MaxParallel : Z }.
Record StepConfig := mkStep
  { StepName : string; Uses : string; Run : string; With : gmap string string; StepID : string; Shell : string }.

Record JobConfig := mkJob
  { Needs : list string; If : string; RunsOn : RunnerType; Strategy : option StrategyConfig;
    TimeoutMinutes : Z; Steps : list StepConfig }.

Record BranchFilter := mkFilter { Branches : list string; PathsIgnore : list string; Paths : list string }.
Record TriggerConfig := mkTrigger { Push : option BranchFilter; PullRequest : option BranchFilter; Tags : list string }.
Record ConcurrencyConfig := mkConcurrency { Group : string; CancelInProgress : bool }.

Record PipelineConfig := mkPipeline
  { PipeName : string; On : TriggerConfig; Concurrency : option ConcurrencyConfig;
    Jobs : gmap string JobConfig; SourceDir : string }.

Record WebhookEvent := mkEvent
  { EventType : TriggerType; CommitSHA : string; Branch : string; Tag : string; PRNumber : Z;
    RepoURL : string; Sender : string; ChangedFiles : list string }.

(** ** Validation *)

Inductive config_error :=
| ParseError
| NameRequired
| NoJobs
| NoSteps (job : string)
| UnknownRunner (job : string) (runner : string)
| RunnerRequired (job : string)
| UnknownNeed (job need : string)
| CycleDetected (job need : string)
| OutOfFuel.

Definition JobValidate (name : string) (j : JobConfig) : result config_error unit :=
  if bool_decide (Steps j = []) then Err (NoSteps name)
  else if bool_decide (RunsOn j ≠ "") && negb (IsValidRunnerType (RunsOn j)) then Err (UnknownRunner name (RunsOn j))
  else Ok tt.

Definition HasRunner (j : JobConfig) : bool := bool_decide (RunsOn j ≠ "").

(** The zero value a Go map returns for a missing key. *)
Definition zero_job : JobConfig := mkJob [] "" "" None 0 [].
Definition needs_of (jobs : gmap string JobConfig) (name : string) : list string :=
  Needs (default zero_job (jobs !! name)).

(** A range loop whose body may return an error. *)
Fixpoint each {A} (f : A → result config_error unit) (l : list A) : result config_error unit :=
  match l with
  | [] => Ok tt
  | x :: l => let! _ := f x in each f l
  end.

Inductive colour := white | gray | black.
#[export] Instance colour_eq_dec : EqDecision colour.
Proof. solve_decision. Defined.
Abbreviation colours := (gmap string colour).
Definition colour_of (visited : colours) (name : string) : colour := default white (visited !! name).

(** The loop of [dfs] over the needs of [name]; [visit] is the recursive call. *)
Fixpoint visit_needs (visit : colours → string → result config_error colours) (name : string)
    (needs : list string) (visited : colours) : result config_error colours :=
  match needs with
  | [] => Ok visited
  | need :: needs =>
      match colour_of visited need with
      | gray => Err (CycleDetected name need)
      | white => let! visited := visit visited need in visit_needs visit name needs visited
      | black => visit_needs visit name needs visited
      end
  end.

Fixpoint dfs (jobs : gmap string JobConfig) (fuel : nat) (visited : colours) (name : string)
    : result config_error colours :=
  match fuel with
  | O => Err OutOfFuel
  | S fuel =>
      let! visited := visit_needs (dfs jobs fuel) name (needs_of jobs name) (<[name := gray]> visited) in
      Ok (<[name := black]> visited)
  end.

(** The outer loop: starts [dfs] at every job still white. *)
Fixpoint dfs_all (jobs : gmap string JobConfig) (fuel : nat) (names : list string) (visited : colours)
    : result config_error colours :=
  match names with
  | [] => Ok visited
  | name :: names =>
      if bool_decide (colour_of visited name = white)
      then let! visited := dfs jobs fuel visited name in dfs_all jobs fuel names visited
      else dfs_all jobs fuel names visited
  end.

Section config.
  Context `{GoRange}.

(** Every nested call of [dfs] turns one more job gray, so that the number of
    jobs bounds the depth of the recursion. *)
Definition detectCycle (c : PipelineConfig) : result config_error unit :=
  let! _ := dfs_all (Jobs c) (S (size (Jobs c))) (range 1 (Jobs c)).*1 ((λ _, white) <$> Jobs c) in
  Ok tt.

Definition ValidateDAG (c : PipelineConfig) : result config_error unit :=
  let! _ := each (λ '(name, job),
    each (λ need, if bool_decide (is_Some (Jobs c !! need)) then Ok tt else Err (UnknownNeed name need)) (Needs job))
    (range 0 (Jobs c)) in
  detectCycle c.

Definition Validate (c : PipelineConfig) : result config_error unit :=
  if bool_decide (PipeName c = "") then Err NameRequired
  else if bool_decide (size (Jobs c) = 0%nat) then Err NoJobs
  else
    let! _ := each (λ '(name, job),
      let! _ := JobValidate name job in
      if HasRunner job then Ok tt else Err (RunnerRequired name)) (range 2 (Jobs c)) in
    ValidateDAG c.

Definition ParseConfig (unmarshal : string → option PipelineConfig) (data : string) : result config_error PipelineConfig :=
  match unmarshal data with
  | None => Err ParseError
  | Some cfg => let! _ := Validate cfg in Ok cfg
  end.

Definition EntrypointJobs (c : PipelineConfig) : list string :=
  omap (λ '(name, job), if bool_decide (Needs job = []) then Some name else None) (range 3 (Jobs c)).

(** A job that names [jobName] twice is listed twice. *)
Definition DownstreamJobs (c : PipelineConfig) (jobName : string) : list string :=
  range 4 (Jobs c) ≫= λ '(name, job), (λ _, name) <$> filter (λ need, need = jobName) (Needs job).

End config.

Definition AllNeedsSatisfied (c : PipelineConfig) (jobName : string) (completed : gset string) : bool :=
  match Jobs c !! jobName with
  | None => false
  | Some job => forallb (λ need, bool_decide (need ∈ completed)) (Needs job)
  end.

(** ** Trigger matching *)

(** The loop of [matchGlob] over the parts between stars. *)
Fixpoint match_parts (parts : list string) (rest : string) : bool :=
  match parts with
  | [] => true
  | part :: parts =>
      if bool_decide (part = "") then match parts with [] => true | _ => match_parts parts rest end
      else match Index rest part with
           | None => false
           | Some idx => match_parts parts (str_drop (idx + String.length part) rest)
           end
  end.

Definition matchGlob (pattern value : string) : bool :=
  if bool_decide (pattern = "*") then true
  else if negb (Contains pattern "*") then bool_decide (pattern = value)
  else match_parts (Split pattern "*") value.

Definition matchTag (pattern tag : string) : bool := matchGlob pattern tag.

(** What [pathGlobMatch] writes for the pieces of a pattern: [".*"], ["[^/]*"],
    ["[^/]"] and an escaped character. *)
Inductive glob_token := AnyRun | SegRun | SegOne | Literal (r : Z).

Fixpoint glob_tokens (rs : list Z) : list glob_token :=
  match rs with
  | [] => []
  | r :: rs =>
      if bool_decide (r = 42) then
        match rs with
        | r' :: rs' => if bool_decide (r' = 42) then AnyRun :: glob_tokens rs' else SegRun :: glob_tokens rs
        | [] => [SegRun]
        end
      else if bool_decide (r = 63) then SegOne :: glob_tokens rs
      else Literal r :: glob_tokens rs
  end.

(** ["."] is any character but a newline, ["[^/]"] any but a slash. *)
Definition not_newline (r : Z) : bool := bool_decide (r ≠ 10).
Definition not_slash (r : Z) : bool := bool_decide (r ≠ 47).

(** A run of characters satisfying [p], then [k]. *)
Fixpoint match_run (p : Z → bool) (k : list Z → bool) (rs : list Z) : bool :=
  k rs || match rs with r :: rs => p r && match_run p k rs | [] => false end.

Fixpoint match_tokens (ts : list glob_token) (rs : list Z) : bool :=
  match ts with
  | [] => bool_decide (rs = [])
  | AnyRun :: ts => match_run not_newline (match_tokens ts) rs
  | SegRun :: ts => match_run not_slash (match_tokens ts) rs
  | SegOne :: ts => match rs with r :: rs => not_slash r && match_tokens ts rs | [] => false end
  | Literal c :: ts => match rs with r :: rs => bool_decide (r = c) && match_tokens ts rs | [] => false end
  end.

(** A pattern that is not UTF-8 does not compile. *)
Definition pathGlobMatch (pattern file : string) : bool :=
  let pattern := TrimSpace pattern in
  if bool_decide (pattern = "") then false
  else if bool_decide (pattern = "**") then true
  else ValidString pattern && match_tokens (glob_tokens (runes pattern)) (runes file).

Definition pathMatchesAny (file : string) (patterns : list string) : bool :=
  existsb (λ pattern, pathGlobMatch pattern file) patterns.

Definition matchesPaths (f : BranchFilter) (changedFiles : list string) : bool :=
  if bool_decide (Paths f = []) && bool_decide (PathsIgnore f = []) then true
  else if bool_decide (changedFiles = []) then true
  else existsb (λ file, negb (pathMatchesAny file (PathsIgnore f)) &&
                        (bool_decide (Paths f = []) || pathMatchesAny file (Paths f))) changedFiles.

Definition matchesBranch (f : BranchFilter) (branch : string) : bool :=
  if bool_decide (Branches f = []) then true
  else existsb (λ pattern, matchGlob pattern branch) (Branches f).

Definition isPathAffected (file prefix : string) : bool :=
  let prefix := Clean prefix in
  let file := Clean file in
  bool_decide (file = prefix) || HasPrefix file (prefix +:+ "/").

Definition filter_matches (f : option BranchFilter) (event : WebhookEvent) : bool :=
  match f with
  | None => false
  | Some f => matchesBranch f (Branch event) && matchesPaths f (ChangedFiles event)
  end.

Definition in_source_dir (c : PipelineConfig) (event : WebhookEvent) : bool :=
  if bool_decide (SourceDir c ≠ "") && bool_decide (SourceDir c ≠ ".") && bool_decide (ChangedFiles event ≠ [])
  then existsb (λ file, isPathAffected file (SourceDir c)) (ChangedFiles event)
  else true.

Definition MatchEvent (c : PipelineConfig) (event : WebhookEvent) : bool :=
  match EventType event with
  | TriggerPush => filter_matches (Push (On c)) event && in_source_dir c event
  | TriggerPullRequest => filter_matches (PullRequest (On c)) event && in_source_dir c event
  | TriggerTag => existsb (λ pattern, matchTag pattern (Tag event)) (Tags (On c)) && in_source_dir c event
  | TriggerManual => true
  | TriggerOther _ => false
  end.

(** ** Affected packages *)

Record PackageInfo := mkPackage { PkgPath : string; Deps : list string; Build : string; Test_ : string }.
Abbreviation PackageMeta := (gmap string PackageInfo).

(** The loop of [dependencyOwner]; [best] and [bestLen] are its variables. *)
Definition better_owner (depPath self : string) (best : string * Z) (entry : string * PackageInfo) : string * Z :=
  let '(name, pkg) := entry in
  if bool_decide (name = self) then best
  else
    let cleanPath := Clean (PkgPath pkg) in
    if isPathAffected depPath cleanPath && bool_decide (Z.of_nat (String.length cleanPath) > best.2)
    then (name, Z.of_nat (String.length cleanPath)) else best.

Section affected.
  Context `{GoRange}.

Definition dependencyOwner (meta : PackageMeta) (depPath self : string) : option string :=
  let best := foldl (better_owner (Clean depPath) self) ("", -1) (range 5 meta) in
  if bool_decide (best.1 ≠ "") then Some best.1 else None.

Definition add_edge (edges : gmap string (gset string)) (owner pkgName : string) : gmap string (gset string) :=
  <[owner := {[pkgName]} ∪ default ∅ (edges !! owner)]> edges.

Definition buildReverseDependencyEdges (meta : PackageMeta) : gmap string (gset string) :=
  foldl (λ edges '(pkgName, pkg),
    foldl (λ edges dep, match dependencyOwner meta dep pkgName with
                        | None => edges
                        | Some owner => add_edge edges owner pkgName
                        end) edges (Deps pkg)) ∅ (range 6 meta).

Definition directly_affected (file : string) (pkg : PackageInfo) : bool :=
  isPathAffected file (PkgPath pkg) || existsb (isPathAffected file) (Deps pkg).

Definition direct_packages (meta : PackageMeta) (changedFiles : list string) : gset string :=
  foldl (λ direct file,
    foldl (λ direct '(pkgName, pkg), if directly_affected (Clean file) pkg then {[pkgName]} ∪ direct else direct)
      direct (range 7 meta)) ∅ changedFiles.

(** Ranging over a set of names. *)
Definition range_set (n : nat) (X : gset string) : list string := (range n (gset_to_gmap tt X)).*1.

(** The inner loop of the breadth-first search: new dependents are marked and
    queued. *)
Definition enqueue_new (acc : gset string * list string) (dependent : string) : gset string * list string :=
  let '(affected, queue) := acc in
  if bool_decide (dependent ∈ affected) then acc else ({[dependent]} ∪ affected, queue ++ [dependent]).

Fixpoint bfs (edges : gmap string (gset string)) (fuel : nat) (queue : list string) (affected : gset string)
    : option (gset string) :=
  match queue with
  | [] => Some affected
  | current :: queue =>
      match fuel with
      | O => None
      | S fuel =>
          let '(affected, queue) := foldl enqueue_new (affected, queue) (range_set fuel (default ∅ (edges !! current))) in
          bfs edges fuel queue affected
      end
  end.

(** A package enters the queue once, so that their number bounds the search.
    [None] would be a search cut short. *)
Definition DetectAffectedPackages (meta : PackageMeta) (changedFiles : list string) : option (list string) :=
  if bool_decide (meta = ∅) || bool_decide (changedFiles = []) then Some []
  else
    let depEdges := buildReverseDependencyEdges meta in
    let direct := direct_packages meta changedFiles in
    if bool_decide (direct = ∅) then Some []
    else affected ← bfs depEdges (S (size meta)) (range_set 8 direct) direct;
         Some (sort_Strings (range_set 9 affected)).

End affected.

Definition ResolveAffectedBuildTargets (meta : PackageMeta) (affected : list string) : list string :=
  omap (λ name, match meta !! name with
                | Some pkg => if bool_decide (Build pkg ≠ "") then Some (Build pkg) else None
                | None => None
                end) affected.

(** [git diff --name-only]'s output into names. *)
Definition changed_files (out : string) : list string :=
  let raw := TrimSpace out in
  if bool_decide (raw = "") then []
  else filter (λ f, f ≠ "") (TrimSpace <$> Split raw newline).
