(* ===== verification/PipelineProps.v ===== *)
(** * Pipeline configurations: theorems

    Validation accepts exactly the well-formed acyclic job graphs, and the
    affected packages are the closure of the directly affected ones under the
    reverse dependencies, whatever the order in which maps are visited. *)

From stdpp Require Import options.
From S2P Require Import Prelude GoStrings GoPath GoRange Pipeline.

(** ** The job graph *)

Definition depends (jobs : gmap string JobConfig) (a b : string) : Prop := b ∈ needs_of jobs a.
Definition acyclic {A} (R : A → A → Prop) : Prop := ∀ n, ¬ tc R n n.

(** What validation is to accept. *)
Record well_formed (c : PipelineConfig) : Prop := {
  wf_name : PipeName c ≠ "";
  wf_jobs : Jobs c ≠ ∅;
  wf_job name job : Jobs c !! name = Some job → Steps job ≠ [] ∧ RunsOn job ∈ AllRunnerTypes;
  wf_needs name job need : Jobs c !! name = Some job → need ∈ Needs job → is_Some (Jobs c !! need);
  wf_acyclic : acyclic (depends (Jobs c)) }.

Lemma Acc_no_cycle {A} (R : A → A → Prop) x : Acc (flip R) x → ¬ tc R x x.
Proof.
  induction 1 as [x _ IH]. intros Hc.
  inversion Hc as [? ? Hxx|? y ? Hxy Hyx]; subst; [by apply (IH x Hxx), tc_once|].
  apply (IH y Hxy). by eapply tc_r.
Qed.

Section dfs.
  Context (jobs : gmap string JobConfig).

Definition blacks_acc (v : colours) : Prop := ∀ n, colour_of v n = black → Acc (flip (depends jobs)) n.
Definition grays_reach (v : colours) (name : string) : Prop := ∀ g, colour_of v g = gray → rtc (depends jobs) g name.
(** A call only turns white nodes black. *)
Definition extends (v v' : colours) : Prop :=
  ∀ n, colour_of v' n = colour_of v n ∨ (colour_of v n = white ∧ colour_of v' n = black).
Definition whites (v : colours) : nat := size (filter (λ n, colour_of v n = white) (dom jobs : gset string)).

Definition dfs_post (v : colours) (done_ : list string) (r : result config_error colours) : Prop :=
  match r with
  | Ok v' => blacks_acc v' ∧ extends v v' ∧ ∀ n, n ∈ done_ → colour_of v' n = black
  | Err (CycleDetected _ _) => ∃ n, tc (depends jobs) n n
  | Err _ => False
  end.

Lemma colour_of_insert v n c m : colour_of (<[n := c]> v) m = if bool_decide (m = n) then c else colour_of v m.
Proof.
  unfold colour_of. case_bool_decide as E; subst; by rewrite ?lookup_insert_eq, ?lookup_insert_ne by congruence.
Qed.

Lemma extends_refl v : extends v v.
Proof. intros n. by left. Qed.

Lemma extends_trans v1 v2 v3 : extends v1 v2 → extends v2 v3 → extends v1 v3.
Proof. intros H1 H2 n. destruct (H1 n), (H2 n); intuition congruence. Qed.

Lemma extends_whites v v' : extends v v' → (whites v' ≤ whites v)%nat.
Proof.
  intros H. unfold whites. apply subseteq_size. intros n Hn. apply elem_of_filter in Hn as [Hw Hn].
  apply elem_of_filter. split; [|done]. destruct (H n); intuition congruence.
Qed.

Lemma extends_gray v v' name : extends v v' → grays_reach v name → grays_reach v' name.
Proof. intros H Hg g E. apply Hg. destruct (H g); intuition congruence. Qed.

Lemma extends_black v v' n : extends v v' → colour_of v n = black → colour_of v' n = black.
Proof. intros H E. destruct (H n); intuition congruence. Qed.

Lemma whites_gray v name :
  is_Some (jobs !! name) → colour_of v name = white → (whites (<[name := gray]> v) < whites v)%nat.
Proof.
  intros Hj Hw. unfold whites. apply subset_size. split.
  - intros n Hn. apply elem_of_filter in Hn as [E Hn]. apply elem_of_filter. split; [|done].
    rewrite colour_of_insert in E. by case_bool_decide.
  - intros Hsub. specialize (Hsub name). rewrite !elem_of_filter, colour_of_insert, bool_decide_eq_true_2, elem_of_dom in Hsub by done.
    destruct Hsub; done.
Qed.

(** The loop over the needs, for any recursive call that meets its contract. *)
Lemma visit_needs_post fuel name needs v :
  (∀ v need, blacks_acc v → grays_reach v need → (whites v < fuel)%nat → colour_of v need = white →
     dfs_post v [need] (dfs jobs fuel v need)) →
  (∀ n, n ∈ needs → n ∈ needs_of jobs name) → (needs = [] ∨ whites v < fuel)%nat →
  blacks_acc v → grays_reach v name → dfs_post v needs (visit_needs (dfs jobs fuel) name needs v).
Proof.
  intros Hdfs. revert v. induction needs as [|need needs IH]; intros v Hsub Hf Hb Hg; cbn [visit_needs].
  { split_and!; [done|apply extends_refl|by intros ? ?%elem_of_nil]. }
  assert (depends jobs name need) as Hdep by (apply Hsub; constructor).
  assert (whites v < fuel)%nat as Hf' by (destruct Hf; done).
  assert (∀ n, n ∈ needs → n ∈ needs_of jobs name) as Hsub' by (intros; apply Hsub; by constructor).
  destruct (colour_of v need) eqn:E.
  - assert (grays_reach v need) as Hg' by (intros g Hgr; eapply rtc_r; [by apply Hg|done]).
    specialize (Hdfs v need Hb Hg' Hf' E). destruct (dfs jobs fuel v need) as [v1|e]; [|done].
    destruct Hdfs as (Hb1 & Hx1 & Hd1). cbn [rbind].
    pose proof (extends_whites _ _ Hx1).
    specialize (IH v1 Hsub' ltac:(right; lia) Hb1 (extends_gray _ _ _ Hx1 Hg)).
    destruct (visit_needs _ _ _ _) as [v2|e]; [|done]. destruct IH as (Hb2 & Hx2 & Hd2).
    split_and!; [done|by eapply extends_trans|]. intros n [->|Hn]%elem_of_cons; [|by apply Hd2].
    eapply extends_black; [done|]. apply Hd1. constructor.
  - exists need. eapply tc_rtc_l; [by apply Hg|by apply tc_once].
  - specialize (IH v Hsub' ltac:(by right) Hb Hg).
    destruct (visit_needs _ _ _ _) as [v2|e]; [|done]. destruct IH as (Hb2 & Hx2 & Hd2).
    split_and!; [done|done|]. intros n [->|Hn]%elem_of_cons; [|by apply Hd2]. by eapply extends_black.
Qed.

Lemma dfs_ok fuel v name :
  blacks_acc v → grays_reach v name → (whites v < fuel)%nat → colour_of v name = white →
  dfs_post v [name] (dfs jobs fuel v name).
Proof.
  revert v name. induction fuel as [|fuel IH]; intros v name Hb Hg Hf Hw; [lia|]. cbn [dfs].
  assert (dfs_post (<[name := gray]> v) (needs_of jobs name)
            (visit_needs (dfs jobs fuel) name (needs_of jobs name) (<[name := gray]> v))) as Hv.
  { apply visit_needs_post; [done|done| | |].
    - destruct (jobs !! name) as [j|] eqn:E; [right|left; unfold needs_of; by rewrite E].
      pose proof (whites_gray v name). rewrite E in *. specialize (H (ex_intro _ j eq_refl) Hw). lia.
    - intros n. rewrite colour_of_insert. case_bool_decide; [done|]. apply Hb.
    - intros g. rewrite colour_of_insert. case_bool_decide; [by subst|]. apply Hg. }
  destruct (visit_needs _ _ _ _) as [v'|e]; [|done]. destruct Hv as (Hb' & Hx & Hd). cbn [rbind dfs_post].
  assert (Acc (flip (depends jobs)) name) as Hacc by (constructor; intros n Hn; by apply Hb', Hd).
  split_and!.
  - intros n. rewrite colour_of_insert. case_bool_decide; [by subst|]. apply Hb'.
  - intros n. specialize (Hx n). rewrite !colour_of_insert in *. case_bool_decide; [subst; by right|done].
  - intros n ->%list_elem_of_singleton. by rewrite colour_of_insert, bool_decide_eq_true_2.
Qed.

Lemma dfs_all_ok fuel names v :
  blacks_acc v → (∀ n, colour_of v n ≠ gray) → (whites v < fuel)%nat → dfs_post v names (dfs_all jobs fuel names v).
Proof.
  revert v. induction names as [|name names IH]; intros v Hb Hg Hf; cbn [dfs_all].
  { split_and!; [done|apply extends_refl|by intros ? ?%elem_of_nil]. }
  bool_case (colour_of v name = white) as E.
  - assert (grays_reach v name) as Hr by (intros g Hgr; by apply Hg in Hgr).
    pose proof (dfs_ok fuel v name Hb Hr Hf E) as Hd.
    destruct (dfs jobs fuel v name) as [v1|e]; [|done]. destruct Hd as (Hb1 & Hx1 & Hd1). cbn [rbind].
    pose proof (extends_whites _ _ Hx1).
    assert (∀ n, colour_of v1 n ≠ gray) as Hg1
      by (intros n Hn; destruct (Hx1 n) as [E'|[_ E']]; rewrite Hn in E'; [by apply (Hg n)|done]).
    specialize (IH v1 Hb1 Hg1 ltac:(lia)).
    destruct (dfs_all _ _ _ _) as [v2|e]; [|done]. destruct IH as (Hb2 & Hx2 & Hd2).
    split_and!; [done|by eapply extends_trans|]. intros n [->|Hn]%elem_of_cons; [|by apply Hd2].
    eapply extends_black; [done|]. apply Hd1. constructor.
  - specialize (IH v Hb Hg Hf). destruct (dfs_all _ _ _ _) as [v2|e]; [|done]. destruct IH as (Hb2 & Hx2 & Hd2).
    split_and!; [done|done|]. intros n [->|Hn]%elem_of_cons; [|by apply Hd2].
    eapply extends_black; [done|]. by destruct (colour_of v name) eqn:E'; [|by apply Hg in E'|].
Qed.

End dfs.

Section validate.
  Context `{GoRange}.

(** The search ends; in success every job is above finitely many others. *)
Lemma detectCycle_cases c :
  (detectCycle c = Ok tt ∧ ∀ n, Acc (flip (depends (Jobs c))) n) ∨
  (∃ a b n, detectCycle c = Err (CycleDetected a b) ∧ tc (depends (Jobs c)) n n).
Proof.
  unfold detectCycle.
  assert (∀ n, colour_of ((λ _, white) <$> Jobs c) n = white) as Hw.
  { intros n. unfold colour_of. rewrite lookup_fmap. by destruct (Jobs c !! n). }
  assert (dfs_post (Jobs c) ((λ _, white) <$> Jobs c) (range 1 (Jobs c)).*1
    (dfs_all (Jobs c) (S (size (Jobs c))) (range 1 (Jobs c)).*1 ((λ _, white) <$> Jobs c))) as Hd.
  { apply dfs_all_ok; [intros n; by rewrite Hw|intros n; by rewrite Hw|].
    unfold whites. rewrite <- size_dom. apply Nat.lt_succ_r, subseteq_size. set_solver. }
  destruct (dfs_all _ _ _ _) as [v|[]]; cbn [rbind]; try done.
  - left. destruct Hd as (Hb & _ & Hall). split; [done|]. intros n.
    destruct (Jobs c !! n) as [j|] eqn:E; [apply Hb, Hall, elem_of_range_keys; by exists j|].
    constructor. intros m Hm. unfold depends, needs_of, flip in Hm. rewrite E in Hm. by apply elem_of_nil in Hm.
  - right. destruct Hd as [n Hn]. by exists job, need, n.
Qed.

Lemma detectCycle_spec c :
  (detectCycle c = Ok tt ∧ acyclic (depends (Jobs c))) ∨
  (∃ a b, detectCycle c = Err (CycleDetected a b) ∧ ¬ acyclic (depends (Jobs c))).
Proof.
  destruct (detectCycle_cases c) as [[E Ha]|(a & b & n & E & Hn)]; [left|right].
  - split; [done|]. intros n. by apply Acc_no_cycle.
  - exists a, b. split; [done|]. intros Ha. by apply (Ha n).
Qed.

Lemma each_ok {A} (f : A → result config_error unit) l : each f l = Ok tt ↔ ∀ x, x ∈ l → f x = Ok tt.
Proof.
  induction l as [|x l IH]; cbn [each]; [split; [by intros _ ? ?%elem_of_nil|done]|].
  destruct (f x) as [[]|e] eqn:E; cbn [rbind].
  - rewrite IH. split; [intros Hl y [->|Hy]%elem_of_cons; auto|intros Hl y Hy; apply Hl; by constructor].
  - split; [done|]. intros Hl. specialize (Hl x ltac:(constructor)). congruence.
Qed.

Lemma each_err {A} (f : A → result config_error unit) l e : each f l = Err e → ∃ x, x ∈ l ∧ f x = Err e.
Proof.
  induction l as [|x l IH]; cbn [each]; [done|]. destruct (f x) as [[]|e'] eqn:E; cbn [rbind].
  - intros (y & Hy & Hf)%IH. exists y. split; [by constructor|done].
  - intros [= <-]. exists x. split; [constructor|done].
Qed.

Lemma ValidateDAG_spec c :
  ValidateDAG c ≠ Err OutOfFuel ∧
  (ValidateDAG c = Ok tt ↔
   (∀ name job need, Jobs c !! name = Some job → need ∈ Needs job → is_Some (Jobs c !! need)) ∧
   acyclic (depends (Jobs c))).
Proof.
  unfold ValidateDAG. set (l := each _ _). assert (l ≠ Err OutOfFuel) as Hf.
  { intros ([name job] & _ & (need & _ & Hn)%each_err)%each_err. by case_bool_decide. }
  assert (l = Ok tt ↔ ∀ name job need, Jobs c !! name = Some job → need ∈ Needs job → is_Some (Jobs c !! need)) as Hl.
  { unfold l. rewrite each_ok. split.
    - intros Hall name job need Hj Hneed. specialize (Hall (name, job) ltac:(by apply elem_of_range)).
      rewrite each_ok in Hall. specialize (Hall need Hneed). by case_bool_decide.
    - intros Hall (name, job) Hj%elem_of_range. apply each_ok. intros need Hneed.
      by rewrite bool_decide_eq_true_2 by eauto. }
  destruct l as [[]|e]; cbn [rbind].
  - destruct (detectCycle_spec c) as [[-> Ha]|(a & b & -> & Ha)]; split; try done; [tauto|].
    split; [done|tauto].
  - split; [done|]. split; [done|]. intros [Hn _]. by apply Hl in Hn.
Qed.

Lemma job_checks name job :
  (let! _ := JobValidate name job in if HasRunner job then Ok tt else Err (RunnerRequired name)) = Ok tt ↔
  Steps job ≠ [] ∧ RunsOn job ∈ AllRunnerTypes.
Proof.
  unfold JobValidate, HasRunner. bool_case (Steps job = []) as Es; cbn [rbind]; [by split; [|intros []]|].
  assert (IsValidRunnerType (RunsOn job) = true ↔ RunsOn job ∈ AllRunnerTypes) as Hv.
  { unfold IsValidRunnerType. rewrite existsb_elem. split.
    - intros (r & Hr & Hb). bool_hyps. by subst.
    - intros Hr. exists (RunsOn job). split; [done|]. by apply bool_decide_eq_true_2. }
  bool_case (RunsOn job ≠ "") as Er; cbn [andb].
  - destruct (IsValidRunnerType (RunsOn job)); cbn [negb rbind]; [tauto|]. split; [done|]. intros [_ Hin]. by apply Hv in Hin.
  - split; [done|]. intros [_ Hin]. destruct Er. intros E. rewrite E in Hin.
    unfold AllRunnerTypes in Hin. by repeat (apply elem_of_cons in Hin as [Hin|Hin]; [done|]); apply elem_of_nil in Hin.
Qed.

(** A valid configuration, for the proofs that start from one. *)
Lemma Validate_ok c :
  Validate c = Ok tt → (∃ n, is_Some (Jobs c !! n)) ∧
  (∀ name job need, Jobs c !! name = Some job → need ∈ Needs job → is_Some (Jobs c !! need)) ∧
  ∀ n, Acc (flip (depends (Jobs c))) n.
Proof.
  unfold Validate. bool_case (PipeName c = "") as En; [done|]. bool_case (size (Jobs c) = 0%nat) as Ej; [done|].
  destruct (each _ _) as [[]|]; cbn [rbind]; [|done]. intros Hv. split_and!.
  - rewrite map_size_empty_iff in Ej. apply map_choose in Ej as (n & j & Hj). exists n. by eexists.
  - by apply ValidateDAG_spec in Hv as [? _].
  - unfold ValidateDAG in Hv. destruct (each _ _) as [[]|]; cbn [rbind] in Hv; [|done].
    destruct (detectCycle_cases c) as [[_ Ha]|(a & b & n & E & _)]; [done|congruence].
Qed.

(** C24: validating a pipeline configuration always terminates, and accepts
    it exactly when it has a name and a job, every job has steps and a known
    runner, every need names a job, and no job needs itself directly or
    through others. *)
Theorem validate_accepts_dags c :
  Validate c ≠ Err OutOfFuel ∧ (Validate c = Ok tt ↔ well_formed c).
Proof.
  unfold Validate. bool_case (PipeName c = "") as En; [by split; [|split; [|intros []]]|].
  bool_case (size (Jobs c) = 0%nat) as Ej.
  { apply map_size_empty_iff in Ej. by split; [|split; [|intros []]]. }
  rewrite map_size_empty_iff in Ej. set (l := each _ _).
  assert (l = Ok tt ↔ ∀ name job, Jobs c !! name = Some job → Steps job ≠ [] ∧ RunsOn job ∈ AllRunnerTypes) as Hl.
  { unfold l. rewrite each_ok. split.
    - intros Hall name job Hj. apply (job_checks name), (Hall (name, job)). by apply elem_of_range.
    - intros Hall (name, job) Hj%elem_of_range. apply job_checks. eauto. }
  assert (l ≠ Err OutOfFuel) as Hf.
  { intros ([name job] & _ & He)%each_err. unfold JobValidate, HasRunner in He.
    repeat case_bool_decide; destruct (IsValidRunnerType (RunsOn job)); discriminate He. }
  pose proof (ValidateDAG_spec c) as [Hv Hd].
  destruct l as [[]|e]; cbn [rbind].
  - split; [done|]. rewrite Hd. split.
    + intros [Hn Ha]. split; [done|done|by apply Hl|done|done].
    + intros []. done.
  - split; [done|]. split; [done|]. intros [_ _ Hj _ _]. by apply Hl in Hj.
Qed.

End validate.

(** ** Affected packages *)









Section affected.
  Context `{GoRange}.















End affected.

(** ** Examples *)



(** A dependency below two nested packages binds to the inner one only: a change
    in the outer package, outside the inner one, does not affect the package
    whose dependency lies under both. *)
Theorem outer_package_not_followed :
  @DetectAffectedPackages go_map_to_list
    (<["app" := mkPackage "app" ["lib/net/http"] "" ""]>
      (<["lib" := mkPackage "lib" [] "" ""]> (<["net" := mkPackage "lib/net" [] "" ""]> ∅))) ["lib/doc.go"] = Some ["lib"].
Proof. vm_compute. reflexivity. Qed.
