(* ===== verification/PipelineOrch.v ===== *)
(** * The pipeline orchestrator

    Model of internal/router/pipeline/orchestrator.go: the runs, the tasks
    they put into the queue, and the transitions that start, advance, retry
    and cancel them.

    The orchestrator's methods hold one lock, so that each of them is a
    function on the state.  [StartRun] starts [executeRun] in a goroutine: the
    two are separate steps.  A method works on the run and the tables its lock
    protects ([locked]) and stores them back.

    [enq n] is the outcome of the [n]-th [EnqueueTask]: the identifier of the
    task, or a failed write.  Clocks and run identifiers are arguments, maps
    are visited in any order ([GoRange]). *)

From stdpp Require Import options.
From S2P Require Import Prelude GoStrings GoRange Pipeline.

(** ** Data *)

Record JobStatus := mkStatus
  { JobName : string; JState : JobState; JNeeds : list string; WorkerID : string;
    ClaimedAt : option Z; JStartedAt : option Z; JFinishedAt : option Z;
    Retries : Z; MaxRetries : Z; JError : string; ExitCode : Z; Outputs : gmap string string }.

Record PipelineRun := mkRun
  { RunID : string; PipelineName : string; RState : RunState; Trigger : TriggerType;
    RCommitSHA : string; RBranch : string; RTag : string; RPRNumber : Z; RepoFullName : string; RRepoURL : string;
    RChangedFiles : list string; CreatedAt : Z; StartedAt : option Z; FinishedAt : option Z;
    RJobs : gmap string JobStatus; Affected : list string }.

Record Task := mkTask
  { TaskID : string; TRunID : string; TJobName : string; RunnerType_ : string; TSteps : list StepConfig;
    Env : gmap string string; TimeoutSec : Z; TMaxRetries : Z; TCreatedAt : Z;
    TAffected : list string; TChangedFiles : list string }.

Record TaskResult := mkResult
  { ResTaskID : string; ResRunID : string; ResJobName : string; ResState : JobState; ResExitCode : Z;
    ResError : string; ResStartedAt : Z; ResEndedAt : Z; ResWorkerID : string; ResOutputs : gmap string string }.

(** The queue as the orchestrator sees it: the number of calls so far and the
    tasks written. *)
Record queue := mkQueue { calls : nat; queued : list Task }.

(** [runHistory] holds pointers into [runs], from which nothing is deleted:
    it is the list of their identifiers.  [finished] collects the runs handed
    to the callback [onRunFinished]. *)
Record Orchestrator := mkOrch
  { runs : gmap string PipelineRun; configs : gmap string PipelineConfig; tasks : gmap string Task;
    taskQueue : queue; runHistory : list string; maxHistory : nat;
    onRunFinished : bool; finished : list PipelineRun }.

Definition NewOrchestrator : Orchestrator := mkOrch ∅ ∅ ∅ (mkQueue 0 []) [] 100 false [].

(** ** Field updates *)

Definition with_state (s : JobState) (j : JobStatus) : JobStatus :=
  mkStatus (JobName j) s (JNeeds j) (WorkerID j) (ClaimedAt j) (JStartedAt j) (JFinishedAt j)
    (Retries j) (MaxRetries j) (JError j) (ExitCode j) (Outputs j).
Definition with_retries (n : Z) (j : JobStatus) : JobStatus :=
  mkStatus (JobName j) (JState j) (JNeeds j) (WorkerID j) (ClaimedAt j) (JStartedAt j) (JFinishedAt j)
    n (MaxRetries j) (JError j) (ExitCode j) (Outputs j).
Definition with_success (r : TaskResult) (j : JobStatus) : JobStatus :=
  mkStatus (JobName j) JobSucceeded (JNeeds j) (ResWorkerID r) (ClaimedAt j) (JStartedAt j) (Some (ResEndedAt r))
    (Retries j) (MaxRetries j) (JError j) (ResExitCode r) (ResOutputs r).
Definition with_failure (r : TaskResult) (j : JobStatus) : JobStatus :=
  mkStatus (JobName j) JobFailed (JNeeds j) (ResWorkerID r) (ClaimedAt j) (JStartedAt j) (JFinishedAt j)
    (Retries j) (MaxRetries j) (ResError r) (ResExitCode r) (Outputs j).

Definition upd_run (s : RunState) (started fin : option Z) (jobs : gmap string JobStatus) (r : PipelineRun) : PipelineRun :=
  mkRun (RunID r) (PipelineName r) s (Trigger r) (RCommitSHA r) (RBranch r) (RTag r) (RPRNumber r) (RepoFullName r) (RRepoURL r)
    (RChangedFiles r) (CreatedAt r) started fin jobs (Affected r).
Definition with_run_state (s : RunState) (r : PipelineRun) : PipelineRun := upd_run s (StartedAt r) (FinishedAt r) (RJobs r) r.
Definition with_started (t : option Z) (r : PipelineRun) : PipelineRun := upd_run (RState r) t (FinishedAt r) (RJobs r) r.
Definition with_finished (t : option Z) (r : PipelineRun) : PipelineRun := upd_run (RState r) (StartedAt r) t (RJobs r) r.
Definition with_jobs (jobs : gmap string JobStatus) (r : PipelineRun) : PipelineRun := upd_run (RState r) (StartedAt r) (FinishedAt r) jobs r.

(** The run a method works on, with the tables. *)
Record locked := mkLocked { l_run : PipelineRun; l_tasks : gmap string Task; l_queue : queue }.
Definition on_run (f : PipelineRun → PipelineRun) (l : locked) : locked := mkLocked (f (l_run l)) (l_tasks l) (l_queue l).
Definition on_job (f : JobStatus → JobStatus) (name : string) (l : locked) : locked :=
  on_run (λ r, with_jobs (alter f name (RJobs r)) r) l.

(** ** States *)

Definition isTerminalRunState (s : RunState) : bool :=
  match s with RunSucceeded | RunFailed | RunCancelled => true | _ => false end.

Definition job_done (s : JobState) : bool :=
  match s with JobSucceeded | JobSkipped | JobFailed | JobCancelled => true | _ => false end.
Definition job_active (s : JobState) : bool :=
  match s with JobPending | JobClaimed | JobRunning => true | _ => false end.

(** A run that ends forgets its tasks. *)
Definition setRunStateLocked (s : RunState) (l : locked) : locked :=
  let tasks := if isTerminalRunState s then filter (λ '(_, t), TRunID t ≠ RunID (l_run l)) (l_tasks l) else l_tasks l in
  mkLocked (with_run_state s (l_run l)) tasks (l_queue l).

Definition setJobStateLocked (name : string) (s : JobState) (l : locked) : locked := on_job (with_state s) name l.

Definition cancelRunLocked (now : Z) (r : PipelineRun) : PipelineRun :=
  upd_run RunCancelled (StartedAt r) (Some now)
    ((λ j, if job_active (JState j) then with_state JobCancelled j else j) <$> RJobs r) r.

Definition evaluateCondition (condition : string) (run : PipelineRun) (affected : list string) : bool :=
  if bool_decide (condition = "always()") || bool_decide (condition = "") then true
  else if bool_decide (condition = "failure()") then bool_decide (RState run = RunFailed)
  else if bool_decide (condition = "success()") then bool_decide (RState run ≠ RunFailed)
  else if bool_decide (condition = "cancelled()") then bool_decide (RState run = RunCancelled)
  else if bool_decide (condition = "affected != ''") then bool_decide (affected ≠ [])
  else true.

Definition canRunJob (cfg : PipelineConfig) (run : PipelineRun) (jobName : string) (affected : list string) : bool :=
  match Jobs cfg !! jobName with
  | None => false
  | Some job => if bool_decide (If job ≠ "") && negb (evaluateCondition (If job) run affected) then false else true
  end.

(** ** Building tasks *)

Definition splitOutputList (value : string) : list string :=
  filter (λ e, e ≠ "") (TrimSpace <$> Split value ",").

(** [None] when the expression is not of the form it resolves. *)
Definition resolveNeedsOutputExpr (expr : string) (run : PipelineRun) : option (list string) :=
  let expr := TrimSpace expr in
  if negb (HasPrefix expr "${{ needs.") || negb (HasSuffix expr " }}") then None
  else
    match SplitString (TrimSuffix (TrimPrefix expr "${{ needs.") " }}") ".outputs." with
    | [a; b] =>
        let neededJob := TrimSpace a in
        let key := TrimSpace b in
        if bool_decide (neededJob = "") || bool_decide (key = "") then None
        else match RJobs run !! neededJob with
             | Some job => match Outputs job !! key with Some value => Some (splitOutputList value) | None => Some [] end
             | None => Some []
             end
    | _ => None
    end.

Definition replaceVar (s varName value : string) : string := ReplaceAll s ("${{ " +:+ varName +:+ " }}") value.

(** The values of the matrix variables, in the order of the loop; [Ok None]
    when a static list is empty. *)
Fixpoint matrix_values (resolve : string → option (list string)) (vars : list (string * MatrixVar))
    : result string (option (list (string * list string))) :=
  match vars with
  | [] => Ok (Some [])
  | (k, v) :: vars =>
      let! vs := (if bool_decide (Expr v ≠ "") then
                    match resolve (Expr v) with None => Err (Expr v) | Some l => Ok (Some l) end
                  else if bool_decide (Static v = []) then Ok None else Ok (Some (Static v))) in
      match vs with
      | None => Ok None
      | Some l => let! rest := matrix_values resolve vars in
                  Ok (match rest with None => None | Some rest => Some ((k, l) :: rest) end)
      end
  end.

Fixpoint expandMatrixRecursive (vars : list (string * list string)) (current : gmap string string) : list (gmap string string) :=
  match vars with
  | [] => [current]
  | (k, vs) :: vars => vs ≫= λ val, expandMatrixRecursive vars (<[k := val]> current)
  end.

Section orchestrator.
  Context `{GoRange}.
  Context (enq : nat → option string).

Definition expandMatrix (m : MatrixConfig) (resolve : string → option (list string))
    : result string (list (gmap string string)) :=
  let! vals := matrix_values resolve (range 20 m) in
  Ok (if bool_decide (size m = 0%nat) then [] else
      match vals with None => [] | Some vals => expandMatrixRecursive vals ∅ end).

Definition needsOutputResolver (run : PipelineRun) : gmap string string :=
  foldl (λ res '(jobName, job),
    foldl (λ res '(key, value), <[jobName +:+ ".outputs." +:+ key := value]> res) res (range 22 (Outputs job)))
    ∅ (range 21 (RJobs run)).

Definition substituteNeedsOutputs (s : string) (resolver : gmap string string) : string :=
  if negb (Contains s "${{ needs.") then s
  else foldl (λ s '(key, value), replaceVar s ("needs." +:+ key) value) s (range 23 resolver).

Definition with_step_run (cmd : string) (st : StepConfig) : StepConfig :=
  mkStep (StepName st) (Uses st) cmd (With st) (StepID st) (Shell st).

Definition buildTask (run : PipelineRun) (jobName : string) (job : JobConfig) (matrixVars : gmap string string) : Task :=
  let needsOutputs := needsOutputResolver run in
  let steps := (λ st,
    let cmd := foldl (λ s '(k, v), replaceVar s ("matrix." +:+ k) v) (Run st) (range 24 matrixVars) in
    with_step_run (substituteNeedsOutputs cmd needsOutputs) st) <$> Steps job in
  let timeout := TimeoutMinutes job * 60 in
  mkTask "" (RunID run) jobName (RunsOn job) steps ∅ (if bool_decide (timeout = 0) then 600 else timeout) 2 0
    (Affected run) (RChangedFiles run).

(** [TaskQueue.EnqueueTask]: the identifier, the defaults, and the write. *)
Definition EnqueueTask (now : Z) (runID : string) (task : Task) (q : queue) : queue * option Task :=
  match enq (calls q) with
  | None => (mkQueue (S (calls q)) (queued q), None)
  | Some id =>
      let t := mkTask id runID (TJobName task) (RunnerType_ task) (TSteps task) (Env task)
                 (if bool_decide (TimeoutSec task = 0) then 600 else TimeoutSec task)
                 (if bool_decide (TMaxRetries task = 0) then 2 else TMaxRetries task)
                 now (TAffected task) (TChangedFiles task) in
      (mkQueue (S (calls q)) (queued q ++ [t]), Some t)
  end.

Definition rememberTaskLocked (t : Task) (tasks : gmap string Task) : gmap string Task :=
  if bool_decide (TaskID t = "") then tasks else <[TaskID t := t]> tasks.

(** Enqueue a task and remember it when the write succeeded. *)
Definition submit (now : Z) (t : Task) (l : locked) : locked * bool :=
  let '(q, r) := EnqueueTask now (RunID (l_run l)) t (l_queue l) in
  match r with
  | None => (mkLocked (l_run l) (l_tasks l) q, false)
  | Some t => (mkLocked (l_run l) (rememberTaskLocked t (l_tasks l)) q, true)
  end.

(** The number of tasks of the job, zero for an empty or unresolved matrix. *)
Definition enqueueJobTasks (now : Z) (cfg : PipelineConfig) (jobName : string) (l : locked) : locked * nat :=
  match Jobs cfg !! jobName with
  | None => (l, 0%nat)
  | Some job =>
      let matrix := match Strategy job with Some s => Matrix s | None => ∅ end in
      if bool_decide (size matrix = 0%nat) then ((submit now (buildTask (l_run l) jobName job ∅) l).1, 1%nat)
      else
        match expandMatrix matrix (λ expr, resolveNeedsOutputExpr expr (l_run l)) with
        | Err _ => (l, 0%nat)
        | Ok combos => (foldl (λ l combo, (submit now (buildTask (l_run l) jobName job combo) l).1) l combos, length combos)
        end
  end.

Definition retryTaskLocked (cfgs : gmap string PipelineConfig) (l : locked) (jobName taskID : string) (retries : Z) : option Task :=
  let retry :=
    match l_tasks l !! taskID with
    | Some t => Some (mkTask "" (TRunID t) (TJobName t) (RunnerType_ t) (TSteps t) (Env t) (TimeoutSec t) (TMaxRetries t)
                        (TCreatedAt t) (TAffected t) (TChangedFiles t))
    | None =>
        match cfgs !! PipelineName (l_run l) with
        | Some cfg => match Jobs cfg !! jobName with
                      | Some job => Some (buildTask (l_run l) jobName job ∅)
                      | None => None
                      end
        | None => None
        end
    end in
  match retry with
  | None => None
  | Some t => Some (mkTask (TaskID t) (TRunID t) (TJobName t) (RunnerType_ t) (TSteps t) (Env t)
                      (if bool_decide (TimeoutSec t = 0) then 600 else TimeoutSec t) retries
                      (TCreatedAt t) (TAffected t) (TChangedFiles t))
  end.

(** ** Advancing a run *)

Definition completed_jobs (run : PipelineRun) : gset string :=
  dom (filter (λ '(_, j), job_done (JState j) = true) (RJobs run)).

(** The body of the inner loop of [advancePipeline] for one job. *)
Definition advance_job (now : Z) (cfg : PipelineConfig) (acc : locked * gset string * bool) (jobName : string)
    : locked * gset string * bool :=
  let '(l, completed, progressed) := acc in
  match RJobs (l_run l) !! jobName with
  | None => acc
  | Some job =>
      if bool_decide (JState job = JobPending) && AllNeedsSatisfied cfg jobName completed then
        let '(l, enqueued) := enqueueJobTasks now cfg jobName l in
        if bool_decide (0 < enqueued)%nat then
          let l := setJobStateLocked jobName JobRunning l in
          let l := if bool_decide (RState (l_run l) = RunPending)
                   then on_run (λ r, with_started (match StartedAt r with None => Some now | t => t end) r) (setRunStateLocked RunRunning l)
                   else l in
          (l, completed, true)
        else (setJobStateLocked jobName JobSkipped l, {[jobName]} ∪ completed, true)
      else acc
  end.

(** The passes, until one makes no progress. *)
Fixpoint advance_passes (now : Z) (cfg : PipelineConfig) (passes : nat) (l : locked) (completed : gset string) : locked * gset string :=
  match passes with
  | O => (l, completed)
  | S passes =>
      let '(l, completed, progressed) :=
        foldl (advance_job now cfg) (l, completed, false) (range passes (RJobs (l_run l))).*1 in
      if progressed then advance_passes now cfg passes l completed else (l, completed)
  end.

Definition anyJobFailed (run : PipelineRun) : bool :=
  bool_decide (filter (λ '(_, j), JState j = JobFailed) (RJobs run) ≠ ∅).
Definition hasActiveJobs (run : PipelineRun) : bool :=
  bool_decide (filter (λ '(_, j), job_active (JState j) = true) (RJobs run) ≠ ∅).
Definition all_done (run : PipelineRun) (completed : gset string) : bool :=
  bool_decide (filter (λ '(_, j), JobName j ∉ completed ∧ job_done (JState j) = false) (RJobs run) = ∅).

Definition advancePipeline (now : Z) (cfgs : gmap string PipelineConfig) (l : locked) : locked :=
  match cfgs !! PipelineName (l_run l) with
  | None => l
  | Some cfg =>
      let '(l, completed) := advance_passes now cfg (S (size (RJobs (l_run l)))) l (completed_jobs (l_run l)) in
      if all_done (l_run l) completed then
        on_run (with_finished (Some now)) (setRunStateLocked (if anyJobFailed (l_run l) then RunFailed else RunSucceeded) l)
      else l
  end.

(** ** The methods *)

Definition RegisterPipeline (cfg : PipelineConfig) (o : Orchestrator) : Orchestrator :=
  mkOrch (runs o) (<[PipeName cfg := cfg]> (configs o)) (tasks o) (taskQueue o) (runHistory o) (maxHistory o) (onRunFinished o) (finished o).
Definition UnregisterPipeline (name : string) (o : Orchestrator) : Orchestrator :=
  mkOrch (runs o) (delete name (configs o)) (tasks o) (taskQueue o) (runHistory o) (maxHistory o) (onRunFinished o) (finished o).
Definition SetOnRunFinished (o : Orchestrator) : Orchestrator :=
  mkOrch (runs o) (configs o) (tasks o) (taskQueue o) (runHistory o) (maxHistory o) true (finished o).

Definition lock (run : PipelineRun) (o : Orchestrator) : locked := mkLocked run (tasks o) (taskQueue o).
Definition unlock (l : locked) (o : Orchestrator) : Orchestrator :=
  mkOrch (<[RunID (l_run l) := l_run l]> (runs o)) (configs o) (l_tasks l) (l_queue l) (runHistory o) (maxHistory o) (onRunFinished o) (finished o).

(** The callback gets a copy of the run as it is now. *)
Definition notifyRunFinished (run : PipelineRun) (o : Orchestrator) : Orchestrator :=
  if onRunFinished o
  then mkOrch (runs o) (configs o) (tasks o) (taskQueue o) (runHistory o) (maxHistory o) true (finished o ++ [run])
  else o.

Definition cancelExistingRuns (now : Z) (pipelineName : string) (rs : gmap string PipelineRun) : gmap string PipelineRun :=
  (λ r, if bool_decide (PipelineName r = pipelineName) && bool_decide (RState r = RunRunning)
        then cancelRunLocked now r else r) <$> rs.

Definition addToHistory (max : nat) (runID : string) (history : list string) : list string :=
  let h := history ++ [runID] in
  if bool_decide (max < length h)%nat then tail h else h.

Definition new_run (runID repo : string) (now : Z) (cfg : PipelineConfig) (event : WebhookEvent) (affected : list string) : PipelineRun :=
  mkRun runID (PipeName cfg) RunPending (EventType event) (CommitSHA event) (Branch event) (Tag event) (PRNumber event)
    repo (RepoURL event) (ChangedFiles event) now None None
    (map_imap (λ name job, Some (mkStatus name JobPending (Needs job) "" None None None 0 2 "" 0 ∅)) (Jobs cfg)) affected.

Definition StartRun (runID repo : string) (now : Z) (cfg : PipelineConfig) (event : WebhookEvent) (affected : list string)
    (o : Orchestrator) : Orchestrator :=
  let rs := match Concurrency cfg with
            | Some c => if CancelInProgress c then cancelExistingRuns now (PipeName cfg) (runs o) else runs o
            | None => runs o
            end in
  mkOrch (<[runID := new_run runID repo now cfg event affected]> rs) (configs o) (tasks o) (taskQueue o)
    (addToHistory (maxHistory o) runID (runHistory o)) (maxHistory o) (onRunFinished o) (finished o).

(** One entry point of [executeRun]'s loop, with the number of jobs started. *)
Definition start_entrypoint (now : Z) (cfg : PipelineConfig) (affected : list string) (acc : locked * nat) (jobName : string) : locked * nat :=
  let '(l, started) := acc in
  match RJobs (l_run l) !! jobName with
  | Some j =>
      if bool_decide (JState j ≠ JobPending) then acc
      else if canRunJob cfg (l_run l) jobName affected then
        let '(l, enqueued) := enqueueJobTasks now cfg jobName l in
        if bool_decide (0 < enqueued)%nat then (setJobStateLocked jobName JobRunning l, S started)
        else (setJobStateLocked jobName JobSkipped l, started)
      else (setJobStateLocked jobName JobSkipped l, started)
  | None => acc
  end.

Definition executeRun (now : Z) (runID : string) (cfg : PipelineConfig) (affected : list string) (o : Orchestrator) : Orchestrator :=
  match runs o !! runID with
  | None => o
  | Some run =>
      if bool_decide (RState run ≠ RunPending) then o
      else
        let l := on_run (with_started (Some now)) (setRunStateLocked RunRunning (lock run o)) in
        let '(l, started) := foldl (start_entrypoint now cfg affected) (l, 0%nat) (EntrypointJobs cfg) in
        if bool_decide (started = 0%nat) && negb (hasActiveJobs (l_run l)) then
          let l := on_run (with_finished (Some now)) (setRunStateLocked RunSucceeded l) in
          notifyRunFinished (l_run l) (unlock l o)
        else unlock l o
  end.

Definition fail_task (now : Z) (cfgs : gmap string PipelineConfig) (r : TaskResult) (job : JobStatus) (l : locked) : locked :=
  let name := ResJobName r in
  let retries := Retries job + 1 in
  let l := on_job (with_retries retries) name l in
  if bool_decide (retries < MaxRetries job) then
    let l := setJobStateLocked name JobRunning l in
    match retryTaskLocked cfgs l name (ResTaskID r) (MaxRetries job - retries) with
    | None => setJobStateLocked name JobFailed l
    | Some t => let '(l, ok) := submit now t l in if ok then l else setJobStateLocked name JobFailed l
    end
  else
    on_run (with_finished (Some now)) (setRunStateLocked RunFailed (on_job (with_failure r) name l)).

Definition OnTaskResult (now : Z) (r : TaskResult) (o : Orchestrator) : Orchestrator :=
  match runs o !! ResRunID r with
  | None => o
  | Some run =>
      match RJobs run !! ResJobName r with
      | None => o
      | Some job =>
          let l := lock run o in
          let l := match ResState r with
                   | JobSucceeded => advancePipeline now (configs o) (on_job (with_success r) (ResJobName r) l)
                   | JobFailed => fail_task now (configs o) r job l
                   | _ => l
                   end in
          let o := unlock l o in
          if negb (isTerminalRunState (RState run)) && isTerminalRunState (RState (l_run l))
          then notifyRunFinished (l_run l) o else o
      end
  end.

Inductive cancel_error := RunNotFound | RunAlreadyFinished (s : RunState).

Definition CancelRun (now : Z) (runID : string) (o : Orchestrator) : Orchestrator * result cancel_error unit :=
  match runs o !! runID with
  | None => (o, Err RunNotFound)
  | Some run =>
      if isTerminalRunState (RState run) then (o, Err (RunAlreadyFinished (RState run)))
      else
        let run := cancelRunLocked now run in
        (notifyRunFinished run (unlock (lock run o) o), Ok tt)
  end.

Definition GetRun (runID : string) (o : Orchestrator) : option PipelineRun := runs o !! runID.

(** Newest first; the limit is tested after a run is added. *)
Fixpoint list_runs (pipelineName : string) (limit n : nat) (rs : list PipelineRun) : list PipelineRun :=
  match rs with
  | [] => []
  | r :: rs =>
      if bool_decide (pipelineName = "") || bool_decide (PipelineName r = pipelineName)
      then r :: (if bool_decide (limit ≤ S n)%nat then [] else list_runs pipelineName limit (S n) rs)
      else list_runs pipelineName limit n rs
  end.
Definition ListRuns (pipelineName : string) (limit : nat) (o : Orchestrator) : list PipelineRun :=
  list_runs pipelineName limit 0 (omap (λ id, runs o !! id) (rev (runHistory o))).

End orchestrator.
