(* ===== verification/PipelineOrchProps.v ===== *)
(** * The pipeline orchestrator: theorems

    A run of a valid pipeline completes: as long as it is not finished some
    task of it is out, and after at most two tasks per job it is finished,
    succeeded exactly when every job succeeded.  The end of the file has the
    cases in which a run goes on where one would expect it not to. *)

From stdpp Require Import options.
From S2P Require Import Prelude GoStrings GoFmt GoRange Pipeline PipelineProps PipelineOrch.

(** ** Maps and sums *)

Lemma alter_is_insert `{FinMap K M} {A} (f : A → A) (m : M A) i x : m !! i = Some x → alter f i m = <[i := f x]> m.
Proof.
  intros Hi. apply map_eq. intros k. destruct (decide (i = k)) as [->|Hne].
  - rewrite lookup_insert_eq, lookup_alter_eq, Hi. done.
  - by rewrite lookup_insert_ne, lookup_alter_ne.
Qed.

Definition map_sum {A} (f : A → nat) (m : gmap string A) : nat := sum_list_with f (map_to_list m).*2.

Lemma sum_list_with_perm {A} (f : A → nat) l k : l ≡ₚ k → sum_list_with f l = sum_list_with f k.
Proof. induction 1; simpl; lia. Qed.

Lemma map_sum_delete {A} (f : A → nat) m i x : m !! i = Some x → map_sum f m = (f x + map_sum f (delete i m))%nat.
Proof.
  intros Hi. unfold map_sum. rewrite (sum_list_with_perm f _ (x :: (map_to_list (delete i m)).*2)); [done|].
  by rewrite <- (map_to_list_delete m i x Hi).
Qed.

Lemma map_sum_insert {A} (f : A → nat) m i x y :
  m !! i = Some x → (map_sum f (<[i := y]> m) + f x = map_sum f m + f y)%nat.
Proof.
  intros Hi. rewrite (map_sum_delete f m i x Hi), (map_sum_delete f (<[i := y]> m) i y) by apply lookup_insert_eq.
  rewrite delete_insert_eq. lia.
Qed.

Lemma map_sum_const {A} (f : A → nat) k m : (∀ i x, m !! i = Some x → f x = k) → map_sum f m = (k * size m)%nat.
Proof.
  intros Hm. unfold map_sum. rewrite <- length_map_to_list.
  assert (∀ e, e ∈ map_to_list m → f e.2 = k) as Hl by (intros [i x] Hx%elem_of_map_to_list; by eapply Hm).
  induction (map_to_list m) as [|e l IH]; cbn; [lia|]. rewrite IH, (Hl e) by set_solver. lia.
Qed.

(** ** Lists without duplicate images *)

Lemma NoDup_fmap_same {A B} (f : A → B) l x y : NoDup (f <$> l) → x ∈ l → y ∈ l → f x = f y → x = y.
Proof.
  induction l as [|a l IH]; [by intros _ ?%elem_of_nil|]. cbn. intros [Ha Hl]%NoDup_cons Hx Hy E.
  apply elem_of_cons in Hx as [->|Hx], Hy as [->|Hy]; auto; destruct Ha; apply list_elem_of_fmap; eauto.
Qed.

Lemma NoDup_fmap_filter {A B} (f : A → B) (P : A → Prop) `{∀ x, Decision (P x)} l :
  NoDup (f <$> l) → NoDup (f <$> filter P l).
Proof.
  induction l as [|a l IH]; [done|]. cbn [fmap list_fmap]. intros [Ha Hl]%NoDup_cons.
  destruct (decide (P a)) as [HP|HP]; [rewrite filter_cons_True by done|rewrite filter_cons_False by done; auto].
  cbn. apply NoDup_cons. split; [|auto]. intros (y & Hy & [_ Hin]%list_elem_of_filter)%list_elem_of_fmap.
  apply Ha, list_elem_of_fmap. eauto.
Qed.

(** ** Advancing reaches a fixed point *)

Section advance.
  Context `{GoRange}.
  Context (enq : nat → option string) (now : Z) (cfg : PipelineConfig).

Definition pending (jobs : gmap string JobStatus) : gmap string JobStatus := filter (λ '(_, j), JState j = JobPending) jobs.

(** A pending job whose needs are met. *)
Definition ready (jobs : gmap string JobStatus) (completed : gset string) (name : string) : Prop :=
  (∃ j, jobs !! name = Some j ∧ JState j = JobPending) ∧ AllNeedsSatisfied cfg name completed = true.

Lemma submit_run t l : l_run (submit enq now t l).1 = l_run l.
Proof. unfold submit. by destruct (EnqueueTask enq now _ t (l_queue l)) as [q [t'|]]. Qed.

Lemma enqueueJobTasks_run name l : l_run (enqueueJobTasks enq now cfg name l).1 = l_run l.
Proof.
  unfold enqueueJobTasks. destruct (Jobs cfg !! name) as [job|]; [|done].
  case_bool_decide; [apply submit_run|]. destruct (expandMatrix _ _) as [combos|]; [|done]. cbn [fst].
  induction combos as [|c combos IH] using rev_ind; [done|]. rewrite foldl_app. cbn [foldl]. by rewrite submit_run.
Qed.

(** One step leaves everything alone, or gives a ready job a new state. *)
Lemma advance_job_cases l c p name :
  (¬ ready (RJobs (l_run l)) c name ∧ advance_job enq now cfg (l, c, p) name = (l, c, p)) ∨
  (ready (RJobs (l_run l)) c name ∧ ∃ j l' s c',
     RJobs (l_run l) !! name = Some j ∧ advance_job enq now cfg (l, c, p) name = (l', c', true) ∧
     RJobs (l_run l') = <[name := with_state s j]> (RJobs (l_run l)) ∧
     ((s = JobRunning ∧ c' = c) ∨ (s = JobSkipped ∧ c' = {[name]} ∪ c))).
Proof.
  unfold advance_job, ready. destruct (RJobs (l_run l) !! name) as [j|] eqn:Ej; [|left; split; [naive_solver|done]].
  bool_case (JState j = JobPending) as Ep; [|left; split; [naive_solver|done]].
  destruct (AllNeedsSatisfied cfg name c) eqn:Es; [|left; split; [naive_solver|done]]. cbn [andb].
  right. split; [by eauto|]. exists j.
  pose proof (enqueueJobTasks_run name l) as Hr.
  destruct (enqueueJobTasks enq now cfg name l) as [l1 n]. cbn [fst] in Hr.
  assert (∀ s, RJobs (l_run (setJobStateLocked name s l1)) = <[name := with_state s j]> (RJobs (l_run l))) as Hset.
  { intros s. cbn. rewrite Hr. by apply alter_is_insert. }
  case_bool_decide.
  - eexists _, JobRunning, c. split_and!; [done..| |by left]. rewrite <- Hset. by case_bool_decide.
  - eexists _, JobSkipped, _. split_and!; [done..| |by right]. by rewrite <- Hset.
Qed.

Lemma pending_insert jobs name j s :
  jobs !! name = Some j → JState j = JobPending → s ≠ JobPending →
  pending (<[name := with_state s j]> jobs) = delete name (pending jobs).
Proof.
  intros Hj Hp Hs. unfold pending. rewrite map_filter_insert_False, map_filter_delete; [done|]. by cbn.
Qed.

(** A pass without progress changes nothing and found no ready job; one with
    progress leaves fewer jobs pending. *)
Lemma advance_pass names l c l' c' p :
  foldl (advance_job enq now cfg) (l, c, false) names = (l', c', p) →
  if p then (size (pending (RJobs (l_run l'))) < size (pending (RJobs (l_run l))))%nat
  else l' = l ∧ c' = c ∧ ∀ n, n ∈ names → ¬ ready (RJobs (l_run l)) c n.
Proof.
  revert l' c' p. induction names as [|n names IH] using rev_ind; intros l' c' p.
  { intros [= <- <- <-]. split_and!; [done..|]. by intros n ?%elem_of_nil. }
  rewrite foldl_app. destruct (foldl _ _ names) as [[l1 c1] p1] eqn:E1. cbn [foldl].
  specialize (IH _ _ _ eq_refl).
  destruct (advance_job_cases l1 c1 p1 n) as [[Hn ->]|([(j & Hj & Hp) _] & j' & l2 & s & c2 & Hj' & -> & Hjobs & Hs)].
  - intros [= <- <- <-]. destruct p1; [done|]. destruct IH as (-> & -> & IH). split_and!; [done..|].
    intros m [Hm| ->%list_elem_of_singleton]%elem_of_app; auto.
  - intros [= <- <- <-]. rewrite Hj in Hj'. injection Hj' as <-.
    rewrite Hjobs, pending_insert by (done || destruct Hs as [[-> _]|[-> _]]; done).
    assert (pending (RJobs (l_run l1)) !! n = Some j) as Hin by (unfold pending; by apply map_lookup_filter_Some).
    rewrite map_size_delete, Hin. assert (size (pending (RJobs (l_run l1))) ≠ 0)%nat.
    { rewrite map_size_empty_iff. intros E. by rewrite E in Hin. }
    destruct p1; [lia|]. destruct IH as (-> & _). lia.
Qed.

Lemma advance_passes_fix n l c l' c' :
  (size (pending (RJobs (l_run l))) < n)%nat → advance_passes enq now cfg n l c = (l', c') →
  ∀ name, ¬ ready (RJobs (l_run l')) c' name.
Proof.
  revert l c. induction n as [|n IH]; intros l c Hn; [lia|]. cbn [advance_passes].
  destruct (foldl _ _ _) as [[l1 c1] p] eqn:E. apply advance_pass in E as Hp. destruct p.
  - apply IH. lia.
  - destruct Hp as (-> & -> & Hp). intros [= <- <-] name Hr. apply (Hp name); [|done].
    apply elem_of_range_keys. destruct Hr as [(j & Hj & _) _]. by eexists.
Qed.

(** Any property of a run and its completed set that starting or skipping a
    ready job preserves holds after the passes. *)
Lemma advance_passes_ind (P : locked → gset string → Prop) n l c l' c' :
  (∀ l c p name, P l c → ready (RJobs (l_run l)) c name → let '(l', c', _) := advance_job enq now cfg (l, c, p) name in P l' c') →
  P l c → advance_passes enq now cfg n l c = (l', c') → P l' c'.
Proof.
  intros Hstep. revert l c. induction n as [|n IH]; intros l c HP; cbn [advance_passes]; [by intros [= <- <-]|].
  destruct (foldl _ _ _) as [[l1 c1] p] eqn:E.
  assert (P l1 c1) as HP1.
  { revert l1 c1 p E. generalize (range n (RJobs (l_run l))).*1. intros names.
    induction names as [|m names IHn] using rev_ind; intros l1 c1 p; [by intros [= <- <- <-]|].
    rewrite foldl_app. destruct (foldl _ _ names) as [[l2 c2] p2] eqn:E2. cbn [foldl].
    specialize (IHn _ _ _ eq_refl). intros E. destruct (advance_job_cases l2 c2 p2 m) as [[_ Hs]|[Hr _]].
    - rewrite Hs in E. by injection E as <- <- <-.
    - specialize (Hstep l2 c2 p2 m IHn Hr). by rewrite E in Hstep. }
  destruct p; [by apply IH|by intros [= <- <-]].
Qed.

End advance.

(** ** A run completes *)

Definition phi (j : JobStatus) : nat :=
  match JState j with
  | JobPending => 2
  | JobRunning => 2 - Z.to_nat (Retries j)
  | _ => 0
  end.

Definition job_ok (name : string) (j : JobStatus) : Prop :=
  JobName j = name ∧ MaxRetries j = 2 ∧
  ((JState j = JobPending ∧ Retries j = 0) ∨ (JState j = JobRunning ∧ 0 ≤ Retries j ≤ 1) ∨
   JState j = JobSucceeded ∨ JState j = JobFailed).

Section complete.
  Context `{GoRange}.
  Context (enq : nat → option string).
  Context (id : string) (cfg : PipelineConfig).

(** The tasks of the run that have no result yet. *)
Definition outstanding (d : list string) (q : queue) : list Task :=
  filter (λ t, TRunID t = id ∧ TaskID t ∉ d) (queued q).

Definition has_state (jobs : gmap string JobStatus) (s : JobState) (name : string) : Prop :=
  ∃ j, jobs !! name = Some j ∧ JState j = s.
Definition is_done (jobs : gmap string JobStatus) (name : string) : Prop :=
  ∃ j, jobs !! name = Some j ∧ job_done (JState j) = true.

Definition issued (q : queue) (i : string) : Prop := ∃ k, (k < calls q)%nat ∧ enq k = Some i.

(** The invariant: jobs, queue and the identifiers [d] of the tasks whose
    results arrived.  The running jobs are those with a task out, each with
    one. *)
Record core (d : list string) (jobs : gmap string JobStatus) (q : queue) : Prop := {
  c_dom n : is_Some (jobs !! n) ↔ is_Some (Jobs cfg !! n);
  c_job n j : jobs !! n = Some j → job_ok n j;
  c_needs n j need : jobs !! n = Some j → JState j ≠ JobPending → need ∈ needs_of (Jobs cfg) n → is_done jobs need;
  c_ids t : t ∈ queued q → issued q (TaskID t);
  c_nodup : NoDup (TaskID <$> queued q);
  c_seen i : i ∈ d → issued q i;
  c_out : NoDup (TJobName <$> outstanding d q);
  c_run n : n ∈ TJobName <$> outstanding d q ↔ has_state jobs JobRunning n;
  c_weight : (length d + map_sum phi jobs ≤ 2 * size (Jobs cfg))%nat }.

Context (Henq : ∀ n, is_Some (enq n)) (Hinj : ∀ m n i, enq m = Some i → enq n = Some i → m = n).

(** [q'] is [q] after a task for [name]. *)
Definition enqueued (name : string) (q q' : queue) : Prop :=
  ∃ t, enq (calls q) = Some (TaskID t) ∧ TRunID t = id ∧ TJobName t = name ∧
    q' = mkQueue (S (calls q)) (queued q ++ [t]).

Lemma submit_enqueued now t l :
  RunID (l_run l) = id → enqueued (TJobName t) (l_queue l) (l_queue (submit enq now t l).1) ∧ (submit enq now t l).2 = true.
Proof using Henq.
  intros Hid. unfold submit, EnqueueTask, enqueued. destruct (Henq (calls (l_queue l))) as [i Hi]. rewrite Hi. cbn.
  split; [|done]. by eexists (mkTask i _ _ _ _ _ _ _ _ _ _).
Qed.

Lemma issued_mono name q q' i : enqueued name q q' → issued q i → issued q' i.
Proof. intros (t & _ & _ & _ & ->) (k & Hk & Hi). exists k. cbn. split; [lia|done]. Qed.

Lemma fresh_id name q q' i : enqueued name q q' → issued q i → enq (calls q) ≠ Some i.
Proof using Hinj. intros _ (k & Hk & Hi) Hc. pose proof (Hinj _ _ _ Hi Hc). lia. Qed.

Lemma outstanding_enqueued d name q q' :
  enqueued name q q' → (∀ i, i ∈ d → issued q i) →
  TJobName <$> outstanding d q' = (TJobName <$> outstanding d q) ++ [name].
Proof using Hinj.
  intros He Hd. pose proof (fresh_id _ _ _ (default "" (enq (calls q))) He) as Hf.
  destruct He as (t & Ht & Hr & Hn & ->). unfold outstanding. cbn [queued].
  rewrite filter_app, fmap_app. f_equal. rewrite filter_cons_True; [by cbn; rewrite Hn|].
  split; [done|]. rewrite Ht in Hf. intros Hin. by apply Hf; [apply Hd|].
Qed.

(** The identifiers stay distinct and issued. *)
Lemma enqueued_ids name q q' :
  enqueued name q q' → (∀ t, t ∈ queued q → issued q (TaskID t)) → NoDup (TaskID <$> queued q) →
  (∀ t, t ∈ queued q' → issued q' (TaskID t)) ∧ NoDup (TaskID <$> queued q').
Proof using Hinj.
  intros He Hids Hnd. pose proof (λ i, fresh_id _ _ _ i He) as Hf. pose proof (λ i, issued_mono _ _ _ i He) as Hm.
  destruct He as (t & Ht & Hr & Hn & ->). cbn [queued] in *. split.
  - intros t' [Ht'| ->%list_elem_of_singleton]%elem_of_app; [by apply Hm, Hids|].
    exists (calls q). cbn. split; [lia|done].
  - rewrite fmap_app. apply NoDup_app. split_and!; [done| |apply NoDup_singleton].
    intros i (t' & -> & Hin)%list_elem_of_fmap E%list_elem_of_singleton.
    apply (Hf (TaskID t')); [by apply Hids|]. by rewrite Ht, E.
Qed.

(** What replacing the state of one job does to the predicates. *)
Lemma has_state_insert jobs n j' s m :
  has_state (<[n := j']> jobs) s m ↔ if bool_decide (m = n) then JState j' = s else has_state jobs s m.
Proof.
  unfold has_state. case_bool_decide as E; [subst|].
  - rewrite lookup_insert_eq. naive_solver.
  - by rewrite lookup_insert_ne by congruence.
Qed.

Lemma is_done_insert jobs n j j' m :
  jobs !! n = Some j → job_done (JState j) = false → is_done jobs m → is_done (<[n := j']> jobs) m.
Proof.
  intros Hn Hd (k & Hk & Hdk). destruct (decide (n = m)) as [->|Hne]; [congruence|].
  exists k. by rewrite lookup_insert_ne.
Qed.

(** Updating a job that is not done, keeping the parts of the invariant that
    speak of the jobs alone. *)
Lemma core_jobs jobs n j j' :
  jobs !! n = Some j → job_done (JState j) = false → job_ok n j' →
  (∀ m, is_Some (jobs !! m) ↔ is_Some (Jobs cfg !! m)) → (∀ m k, jobs !! m = Some k → job_ok m k) →
  (∀ m k need, jobs !! m = Some k → JState k ≠ JobPending → need ∈ needs_of (Jobs cfg) m → is_done jobs need) →
  (∀ need, need ∈ needs_of (Jobs cfg) n → is_done jobs need) →
  (∀ m, is_Some (<[n := j']> jobs !! m) ↔ is_Some (Jobs cfg !! m)) ∧
  (∀ m k, <[n := j']> jobs !! m = Some k → job_ok m k) ∧
  (∀ m k need, <[n := j']> jobs !! m = Some k → JState k ≠ JobPending → need ∈ needs_of (Jobs cfg) m → is_done (<[n := j']> jobs) need).
Proof.
  intros Hn Hd Hok Hdom Hjob Hneeds Hn'. split_and!.
  - intros m. rewrite <- Hdom. destruct (decide (n = m)) as [->|Hne].
    + rewrite lookup_insert_eq, Hn. split; by eexists.
    + by rewrite lookup_insert_ne.
  - intros m k [[<- <-]|[_ Hk]]%lookup_insert_Some; auto.
  - intros m k need Hk Hp Hin. eapply is_done_insert; [done..|].
    apply lookup_insert_Some in Hk as [[<- <-]|[_ Hk]]; eauto.
Qed.

(** A result for [t] takes its job off the list. *)
Lemma outstanding_deliver d q t :
  NoDup (TaskID <$> queued q) → NoDup (TJobName <$> outstanding d q) → t ∈ outstanding d q →
  NoDup (TJobName <$> outstanding (TaskID t :: d) q) ∧
  ∀ m, m ∈ TJobName <$> outstanding (TaskID t :: d) q ↔ m ∈ TJobName <$> outstanding d q ∧ m ≠ TJobName t.
Proof.
  intros Hid Hnd Ht.
  assert (outstanding (TaskID t :: d) q = filter (λ t', TaskID t' ≠ TaskID t) (outstanding d q)) as ->.
  { unfold outstanding. rewrite list_filter_filter. apply list_filter_iff. intros t'. rewrite elem_of_cons. tauto. }
  split; [by apply NoDup_fmap_filter|]. intros m. rewrite !list_elem_of_fmap. split.
  - intros (t' & -> & [Hne Hin]%list_elem_of_filter). split; [by eauto|]. intros E.
    by rewrite (NoDup_fmap_same _ _ _ _ Hnd Hin Ht E) in Hne.
  - intros [(t' & -> & Hin) Hne]. exists t'. split; [done|]. apply list_elem_of_filter. split; [|done].
    intros E. apply Hne. f_equal. apply (NoDup_fmap_same _ _ _ _ Hid); [| |done].
    + by apply list_elem_of_filter in Hin as [_ ?].
    + by apply list_elem_of_filter in Ht as [_ ?].
Qed.

Lemma core_start d jobs q q' n j :
  core d jobs q → jobs !! n = Some j → JState j = JobPending →
  (∀ need, need ∈ needs_of (Jobs cfg) n → is_done jobs need) → enqueued n q q' →
  core d (<[n := with_state JobRunning j]> jobs) q'.
Proof using Hinj.
  intros [Hdom Hjob Hneeds Hids Hnd Hseen Hout Hrun Hw] Hj Hp Hready He.
  destruct (Hjob n j Hj) as (Hname & Hmax & Hst).
  assert (Retries j = 0) as Hret by (destruct Hst as [[_ ?]|[[? _]|[?|?]]]; congruence).
  destruct (core_jobs jobs n j (with_state JobRunning j)) as (Hdom' & Hjob' & Hneeds'); try done.
  { by rewrite Hp. }
  { split_and!; [done..|]. right. left. cbn. split; [done|lia]. }
  destruct (enqueued_ids n q q' He Hids Hnd) as [Hids' Hnd'].
  pose proof (outstanding_enqueued d n q q' He Hseen) as Ho.
  assert (¬ n ∈ TJobName <$> outstanding d q) as Hnot.
  { rewrite Hrun. intros (j' & Hj' & Hr). congruence. }
  split; [done..| | | |].
  - intros i Hi. eapply issued_mono; [done|auto].
  - rewrite Ho. apply NoDup_app. split_and!; [done| |apply NoDup_singleton].
    intros m Hm ->%list_elem_of_singleton. done.
  - intros m. rewrite Ho, elem_of_app, list_elem_of_singleton, has_state_insert, Hrun.
    case_bool_decide; [subst; cbn; tauto|]. tauto.
  - pose proof (map_sum_insert phi jobs n j (with_state JobRunning j) Hj) as Hs.
    unfold phi in Hs at 2 4. cbn in Hs. rewrite Hp, Hret in Hs. cbn in Hs. lia.
Qed.

Lemma core_finish d jobs q t j j' :
  core d jobs q → t ∈ outstanding d q → jobs !! TJobName t = Some j → job_ok (TJobName t) j' →
  job_done (JState j') = true → core (TaskID t :: d) (<[TJobName t := j']> jobs) q.
Proof.
  intros [Hdom Hjob Hneeds Hids Hnd Hseen Hout Hrun Hw] Ht Hj Hok Hd.
  assert (JState j = JobRunning) as Hr.
  { destruct (Hrun (TJobName t)) as [Hr _]. destruct Hr as (j2 & Hj2 & ?); [apply list_elem_of_fmap; eauto|congruence]. }
  destruct (Hjob _ _ Hj) as (_ & _ & Hst).
  destruct (core_jobs jobs (TJobName t) j j') as (Hdom' & Hjob' & Hneeds'); try done.
  { by rewrite Hr. }
  { intros need Hneed. eapply Hneeds; [done| |done]. by rewrite Hr. }
  destruct (outstanding_deliver d q t Hnd Hout Ht) as [Hout' Hmem].
  split; [done..| |done| |].
  - intros i [->|Hi]%elem_of_cons; [|auto]. apply Hids. by apply list_elem_of_filter in Ht as [_ ?].
  - intros m. rewrite Hmem, has_state_insert, Hrun.
    case_bool_decide; [subst|tauto]. split; [tauto|]. intros E. by rewrite E in Hd.
  - pose proof (map_sum_insert phi jobs (TJobName t) j j' Hj) as Hs.
    assert (phi j' = 0%nat) as E by (unfold phi; by destruct (JState j')).
    assert (1 ≤ phi j)%nat by (unfold phi; rewrite Hr; destruct Hst as [[? _]|[[_ ?]|[?|?]]]; [congruence|lia|congruence..]).
    cbn [length]. lia.
Qed.

Lemma core_retry d jobs q q' t j j' :
  core d jobs q → t ∈ outstanding d q → jobs !! TJobName t = Some j → Retries j = 0 → Retries j' = 1 →
  job_ok (TJobName t) j' → JState j' = JobRunning → enqueued (TJobName t) q q' →
  core (TaskID t :: d) (<[TJobName t := j']> jobs) q'.
Proof using Hinj.
  intros [Hdom Hjob Hneeds Hids Hnd Hseen Hout Hrun Hw] Ht Hj Hret Hret' Hok Hr' He.
  assert (JState j = JobRunning) as Hr.
  { destruct (Hrun (TJobName t)) as [Hr _]. destruct Hr as (j2 & Hj2 & ?); [apply list_elem_of_fmap; eauto|congruence]. }
  destruct (core_jobs jobs (TJobName t) j j') as (Hdom' & Hjob' & Hneeds'); try done.
  { by rewrite Hr. }
  { intros need Hneed. eapply Hneeds; [done| |done]. by rewrite Hr. }
  destruct (outstanding_deliver d q t Hnd Hout Ht) as [Hout' Hmem].
  destruct (enqueued_ids _ q q' He Hids Hnd) as [Hids' Hnd'].
  assert (∀ i, i ∈ TaskID t :: d → issued q i) as Hseen'.
  { intros i [->|Hi]%elem_of_cons; [|auto]. apply Hids. by apply list_elem_of_filter in Ht as [_ ?]. }
  pose proof (outstanding_enqueued (TaskID t :: d) _ q q' He Hseen') as Ho.
  split; [done..| | | |].
  - intros i Hi. eapply issued_mono; [done|auto].
  - rewrite Ho. apply NoDup_app. split_and!; [done| |apply NoDup_singleton].
    intros m Hm ->%list_elem_of_singleton. apply Hmem in Hm as [_ Hm]. done.
  - intros m. rewrite Ho, elem_of_app, list_elem_of_singleton, Hmem, has_state_insert, Hrun.
    case_bool_decide; [subst; tauto|]. tauto.
  - pose proof (map_sum_insert phi jobs (TJobName t) j j' Hj) as Hs.
    unfold phi in Hs at 2 4. rewrite Hr, Hr', Hret, Hret' in Hs. cbn [length]. cbn in Hs. lia.
Qed.


(** The remembered tasks are queued ones. *)
Definition tasks_ok (tasks : gmap string Task) (q : queue) : Prop :=
  ∀ i t, tasks !! i = Some t → t ∈ queued q ∧ TaskID t = i.

Lemma submit_tasks now t l : tasks_ok (l_tasks l) (l_queue l) → tasks_ok (l_tasks (submit enq now t l).1) (l_queue (submit enq now t l).1).
Proof.
  intros Hok. unfold submit, EnqueueTask. destruct (enq (calls (l_queue l))) as [i|]; cbn; [|exact Hok].
  unfold rememberTaskLocked. intros k t'. cbn. case_bool_decide.
  - intros [? ?]%Hok. split; [apply elem_of_app; by left|done].
  - intros [[<- <-]|[_ [? ?]%Hok]]%lookup_insert_Some; (split; [apply elem_of_app|done]); [right; constructor|by left].
Qed.

Lemma setRunState_tasks s l : tasks_ok (l_tasks l) (l_queue l) → tasks_ok (l_tasks (setRunStateLocked s l)) (l_queue l).
Proof.
  intros Hok i t. unfold setRunStateLocked. cbn. destruct (isTerminalRunState s); [|apply Hok].
  intros [Ht _]%map_lookup_filter_Some. by apply Hok.
Qed.

(** The state of the run tells how its jobs stand. *)
Record status (run : PipelineRun) : Prop := {
  s_id : RunID run = id;
  s_pipe : PipelineName run = PipeName cfg;
  s_state : RState run = RunRunning ∨ RState run = RunSucceeded ∨ RState run = RunFailed;
  s_failed : RState run = RunFailed ↔ ∃ n, has_state (RJobs run) JobFailed n;
  s_succ : RState run = RunSucceeded ↔ ∀ n, is_Some (RJobs run !! n) → has_state (RJobs run) JobSucceeded n;
  s_live n : RState run = RunRunning → ¬ ready cfg (RJobs run) (completed_jobs run) n }.

Lemma elem_of_completed run n : n ∈ completed_jobs run ↔ is_done (RJobs run) n.
Proof.
  unfold completed_jobs, is_done. rewrite elem_of_dom. unfold is_Some. by setoid_rewrite map_lookup_filter_Some.
Qed.

Lemma ready_needs_done run n : ready cfg (RJobs run) (completed_jobs run) n → ∀ need, need ∈ needs_of (Jobs cfg) n → is_done (RJobs run) need.
Proof.
  intros [_ Hs] need. unfold AllNeedsSatisfied, needs_of in *. destruct (Jobs cfg !! n) as [job|]; [|done]. cbn.
  intros Hin. apply elem_of_completed. rewrite forallb_forall in Hs. specialize (Hs need). rewrite bool_decide_eq_true in Hs. by apply Hs, list_elem_of_In.
Qed.

(** Every job has a task of its own, no matrix of them. *)
Definition plain : Prop := ∀ n job s, Jobs cfg !! n = Some job → Strategy job = Some s → Matrix s = ∅.
Context (Hplain : plain).

Lemma enqueue_plain now n l :
  is_Some (Jobs cfg !! n) → RunID (l_run l) = id → tasks_ok (l_tasks l) (l_queue l) →
  ∃ l', enqueueJobTasks enq now cfg n l = (l', 1%nat) ∧ l_run l' = l_run l ∧
    enqueued n (l_queue l) (l_queue l') ∧ tasks_ok (l_tasks l') (l_queue l').
Proof using Henq Hplain.
  intros [job Hjob] Hid Hok. pose proof (enqueueJobTasks_run enq now cfg n l) as Hrun.
  unfold enqueueJobTasks in *. rewrite Hjob in *. rewrite bool_decide_eq_true_2 in *.
  2,3: destruct (Strategy job) as [s|] eqn:Es; [by rewrite (Hplain n job s Hjob Es)|done].
  eexists. split_and!; [done|exact Hrun| |by apply submit_tasks].
  by apply (submit_enqueued now (buildTask (l_run l) n job ∅)).
Qed.

(** Starting a job: its task and its state. *)
Lemma start_job now d n j l :
  core d (RJobs (l_run l)) (l_queue l) → RunID (l_run l) = id → tasks_ok (l_tasks l) (l_queue l) →
  RJobs (l_run l) !! n = Some j → JState j = JobPending → (∀ need, need ∈ needs_of (Jobs cfg) n → is_done (RJobs (l_run l)) need) →
  ∃ l', enqueueJobTasks enq now cfg n l = (l', 1%nat) ∧ l_run l' = l_run l ∧
    tasks_ok (l_tasks l') (l_queue l') ∧ core d (<[n := with_state JobRunning j]> (RJobs (l_run l))) (l_queue l').
Proof using Henq Hinj Hplain.
  intros Hc Hid Hok Hj Hp Hready. destruct (enqueue_plain now n l) as (l' & E & Hr & He & Hok'); [|done..|].
  { apply (c_dom _ _ _ Hc). by eexists. }
  exists l'. split_and!; [done..|]. by eapply core_start.
Qed.

Lemma completed_start run n j s :
  RJobs run !! n = Some j → JState j = JobPending → job_done s = false →
  ∀ m, is_done (<[n := with_state s j]> (RJobs run)) m ↔ is_done (RJobs run) m.
Proof.
  intros Hj Hp Hs m. unfold is_done. destruct (decide (n = m)) as [->|Hne]; [|by rewrite lookup_insert_ne].
  rewrite lookup_insert_eq. split; intros (k & Hk & Hd); [injection Hk as <-; cbn in Hd|]; congruence || by rewrite Hj in Hk; injection Hk as <-; rewrite Hp in Hd.
Qed.


(** What the passes keep: the invariant, the state [s0] of the run, and the
    set of failed jobs. *)
Record advancing (d : list string) (s0 : RunState) (failed : string → Prop) (l : locked) (c : gset string) : Prop := {
  a_core : core d (RJobs (l_run l)) (l_queue l);
  a_tasks : tasks_ok (l_tasks l) (l_queue l);
  a_id : RunID (l_run l) = id;
  a_pipe : PipelineName (l_run l) = PipeName cfg;
  a_state : RState (l_run l) = s0;
  a_done : c = completed_jobs (l_run l);
  a_failed m : has_state (RJobs (l_run l)) JobFailed m ↔ failed m }.

Lemma advancing_step now d s0 failed l c p n :
  s0 ≠ RunPending → advancing d s0 failed l c → ready cfg (RJobs (l_run l)) c n →
  let '(l', c', _) := advance_job enq now cfg (l, c, p) n in advancing d s0 failed l' c'.
Proof using Henq Hinj Hplain.
  intros Hs0 [Hc Ht Hid Hpipe Hst -> Hf] Hr. pose proof (ready_needs_done _ _ Hr) as Hneeds.
  destruct Hr as [(j & Hj & Hp) Hsat]. unfold advance_job. rewrite Hj, Hsat, bool_decide_eq_true_2 by done. cbn [andb].
  destruct (start_job now d n j l Hc Hid Ht Hj Hp Hneeds) as (l' & -> & Hrun & Ht' & Hc').
  rewrite bool_decide_eq_true_2 by lia.
  assert (RJobs (l_run (setJobStateLocked n JobRunning l')) = <[n := with_state JobRunning j]> (RJobs (l_run l))) as Hjobs.
  { cbn. rewrite Hrun. by apply alter_is_insert. }
  rewrite bool_decide_eq_false_2 by (cbn; by rewrite Hrun, Hst).
  split; rewrite ?Hjobs; try (cbn; rewrite ?Hrun; done).
  - apply set_eq. intros m. rewrite !elem_of_completed, Hjobs. symmetry. by apply completed_start.
  - intros m. rewrite <- Hf, has_state_insert. case_bool_decide; [subst|done]. cbn.
    split; [done|]. intros (j' & Hj' & E). congruence.
Qed.

Lemma all_done_spec d run q c :
  core d (RJobs run) q → c = completed_jobs run →
  all_done run c = true ↔ ∀ n, is_Some (RJobs run !! n) → is_done (RJobs run) n.
Proof.
  intros Hc ->. unfold all_done. rewrite bool_decide_eq_true, map_empty_filter. unfold map_Forall. split.
  - intros Hall n [j Hj]. specialize (Hall n j Hj). destruct (c_job _ _ _ Hc n j Hj) as [<- _].
    exists j. split; [done|]. destruct (job_done (JState j)) eqn:E; [done|]. destruct Hall. split; [|done].
    rewrite elem_of_completed. intros (k & Hk & Hd). congruence.
  - intros Hall n j Hj [_ Hd]. destruct (Hall n) as (k & Hk & Hd'); [by eexists|]. congruence.
Qed.

Lemma anyJobFailed_spec run : anyJobFailed run = true ↔ ∃ n, has_state (RJobs run) JobFailed n.
Proof.
  unfold anyJobFailed, has_state. rewrite bool_decide_eq_true. split.
  - intros (n & j & Hj)%map_choose. apply map_lookup_filter_Some in Hj as [? ?]. eauto.
  - intros (n & j & Hj & Hf) E. assert (filter (λ '(_, j), JState j = JobFailed) (RJobs run) !! n = Some j) as Hn
      by by apply map_lookup_filter_Some. by rewrite E in Hn.
Qed.

(** A job that is done succeeded or failed. *)
Lemma done_cases d jobs q n : core d jobs q → is_done jobs n → has_state jobs JobSucceeded n ∨ has_state jobs JobFailed n.
Proof.
  intros Hc (j & Hj & Hd). destruct (c_job _ _ _ Hc n j Hj) as (_ & _ & [[E _]|[[E _]|[E|E]]]);
    rewrite E in Hd; try done; [left|right]; by exists j.
Qed.

Lemma size_pending jobs : (size (pending jobs) ≤ size jobs)%nat.
Proof. apply map_subseteq_size, map_filter_subseteq. Qed.

Lemma advance_ok now cfgs d failed l :
  cfgs !! PipeName cfg = Some cfg → (∃ n, is_Some (Jobs cfg !! n)) →
  (RState (l_run l) = RunRunning ∧ (∀ m, ¬ failed m)) ∨ (RState (l_run l) = RunFailed ∧ ∃ m, failed m) →
  advancing d (RState (l_run l)) failed l (completed_jobs (l_run l)) →
  let l' := advancePipeline enq now cfgs l in
  core d (RJobs (l_run l')) (l_queue l') ∧ tasks_ok (l_tasks l') (l_queue l') ∧ status (l_run l').
Proof using Henq Hinj Hplain.
  intros Hcfg [n0 Hn0] Hs0 Ha. unfold advancePipeline. rewrite (a_pipe _ _ _ _ _ Ha), Hcfg.
  destruct (advance_passes _ _ _ _ _ _) as [l1 c1] eqn:E.
  assert (RState (l_run l) ≠ RunPending) as Hnp by (by destruct Hs0 as [[-> _]|[-> _]]).
  assert (∀ n, ¬ ready cfg (RJobs (l_run l1)) c1 n) as Hfix
    by (eapply advance_passes_fix; [|exact E]; pose proof (size_pending (RJobs (l_run l))); lia).
  eapply (advance_passes_ind enq now cfg (advancing d (RState (l_run l)) failed)) in E; [|intros ????; by apply advancing_step|done].
  destruct E as [Hc Ht Hid Hpipe Hst Hdone Hf]. rewrite Hdone in Hfix.
  pose proof (all_done_spec _ _ _ _ Hc Hdone) as Hall. pose proof (anyJobFailed_spec (l_run l1)) as Hany.
  destruct (all_done (l_run l1) c1).
  - cbn zeta. split; [exact Hc|]. split; [exact (setRunState_tasks _ _ Ht)|]. apply proj1 in Hall. specialize (Hall eq_refl).
    split; try done; cbn; destruct (anyJobFailed (l_run l1)) eqn:Ef; [by right; right|by right; left|..].
    + split; [intros _; by apply Hany|done].
    + split; [done|]. intros ?%Hany. done.
    + split; [done|]. intros Hs. destruct (proj1 Hany eq_refl) as (n & j & Hj & Hf'). destruct (Hs n) as (k & Hk & ?); [by eexists|congruence].
    + split; [|done]. intros _ n Hn. destruct (done_cases _ _ _ n Hc (Hall n Hn)) as [?|?]; [done|]. by assert (false = true) by (apply Hany; eauto).
  - cbn zeta. split; [exact Hc|]. split; [done|]. split; [done|done| | | |done].
    + rewrite Hst. destruct Hs0 as [[-> _]|[-> _]]; auto.
    + rewrite Hst. setoid_rewrite Hf. destruct Hs0 as [[-> Hno]|[-> Hyes]]; [|done]. split; [done|]. intros [m Hm]. by apply Hno in Hm.
    + rewrite Hst. split; [by destruct Hs0 as [[-> _]|[-> _]]|]. intros Hs. assert (false = true); [|done].
      apply Hall. intros n Hn. destruct (Hs n Hn) as (j & Hj & Hj'). exists j. by rewrite Hj'.
Qed.


(** The run between two results. *)
Record good (o : Orchestrator) (d : list string) (run : PipelineRun) : Prop := {
  g_run : runs o !! id = Some run;
  g_core : core d (RJobs run) (taskQueue o);
  g_status : status run;
  g_tasks : tasks_ok (tasks o) (taskQueue o);
  g_cfg : configs o !! PipeName cfg = Some cfg }.

(** [r] is a result for [t]. *)
Definition answers (r : TaskResult) (t : Task) : Prop :=
  ResTaskID r = TaskID t ∧ ResRunID r = TRunID t ∧ ResJobName r = TJobName t ∧
  (ResState r = JobSucceeded ∨ ResState r = JobFailed).

(** A task that is out belongs to a running job of an unfinished or failed run. *)
Lemma outstanding_job o d run t :
  good o d run → t ∈ outstanding d (taskQueue o) →
  ∃ j, RJobs run !! TJobName t = Some j ∧ JState j = JobRunning ∧ JobName j = TJobName t ∧ MaxRetries j = 2 ∧
    (Retries j = 0 ∨ Retries j = 1) ∧ RState run ≠ RunSucceeded.
Proof.
  intros [Hrun Hc Hs _ _] Ht. destruct (c_run _ _ _ Hc (TJobName t)) as [Hr _].
  destruct Hr as (j & Hj & Hst); [apply list_elem_of_fmap; eauto|]. exists j.
  destruct (c_job _ _ _ Hc _ _ Hj) as (Hn & Hm & Hcase). split_and!; [done..| |].
  - destruct Hcase as [[? _]|[[_ ?]|[?|?]]]; [congruence|lia|congruence..].
  - rewrite (s_succ _ Hs). intros Hall. destruct (Hall (TJobName t)) as (k & Hk & ?); [by eexists|congruence].
Qed.

(** Whether some job failed, before and after one job changes from a state
    that is not [JobFailed]. *)
Lemma failed_insert jobs n j j' :
  jobs !! n = Some j → JState j ≠ JobFailed → JState j' ≠ JobFailed →
  ∀ m, has_state (<[n := j']> jobs) JobFailed m ↔ has_state jobs JobFailed m.
Proof.
  intros Hj Hs Hs' m. rewrite has_state_insert. case_bool_decide; [subst|done].
  split; [done|]. intros (k & Hk & E). congruence.
Qed.

Lemma failed_or_not run : status run → RState run ≠ RunSucceeded →
  (RState run = RunRunning ∧ ∀ m, ¬ has_state (RJobs run) JobFailed m) ∨ (RState run = RunFailed ∧ ∃ m, has_state (RJobs run) JobFailed m).
Proof.
  intros [_ _ Hst Hf _ _] Hs. destruct Hst as [E|[E|E]]; [left|done|right; split; [done|by apply Hf]].
  split; [done|]. intros m Hm. assert (RState run = RunFailed) by (apply Hf; eauto). congruence.
Qed.

Lemma success_ok now o d run t r :
  good o d run → t ∈ outstanding d (taskQueue o) → answers r t → ResState r = JobSucceeded →
  let l := advancePipeline enq now (configs o) (on_job (with_success r) (ResJobName r) (lock run o)) in
  core (TaskID t :: d) (RJobs (l_run l)) (l_queue l) ∧ tasks_ok (l_tasks l) (l_queue l) ∧ status (l_run l).
Proof using Henq Hinj Hplain.
  intros Hg Ht (_ & _ & Hn & _) _. destruct (outstanding_job _ _ _ _ Hg Ht) as (j & Hj & Hst & Hname & Hmax & Hret & Hns).
  destruct Hg as [Hrun Hc Hs Htasks Hcfg]. rewrite Hn.
  assert (RJobs (l_run (on_job (with_success r) (TJobName t) (lock run o))) = <[TJobName t := with_success r j]> (RJobs run)) as Hjobs.
  { cbn. by apply alter_is_insert. }
  assert (core (TaskID t :: d) (<[TJobName t := with_success r j]> (RJobs run)) (taskQueue o)) as Hc'.
  { eapply core_finish; [done|done|done| |done]. split_and!; [done..|]. right. right. by left. }
  assert (∀ m, has_state (<[TJobName t := with_success r j]> (RJobs run)) JobFailed m ↔ has_state (RJobs run) JobFailed m) as Hf
    by (apply failed_insert with j; [done|by rewrite Hst|done]).
  apply (advance_ok now (configs o) _ (has_state (RJobs run) JobFailed)); [done| | |].
  - exists (TJobName t). apply (c_dom _ _ _ Hc). by eexists.
  - exact (failed_or_not run Hs Hns).
  - destruct Hs. split; rewrite ?Hjobs; try done.
Qed.

(** A retry finds the task it repeats, or builds it from the configuration. *)
Lemma retry_available o d run t l retries :
  good o d run → t ∈ outstanding d (taskQueue o) → l_tasks l = tasks o → PipelineName (l_run l) = PipeName cfg →
  ∃ t', retryTaskLocked (configs o) l (TJobName t) (TaskID t) retries = Some t' ∧ TJobName t' = TJobName t.
Proof.
  intros Hg Ht Hlt Hpipe. destruct (outstanding_job _ _ _ _ Hg Ht) as (j & Hj & _).
  destruct Hg as [Hrun Hc _ Htasks Hcfg]. unfold retryTaskLocked. rewrite Hlt, Hpipe, Hcfg.
  destruct (tasks o !! TaskID t) as [t'|] eqn:E.
  - eexists. split; [done|]. cbn. f_equal. apply Htasks in E as [Hin Hti].
    apply (NoDup_fmap_same _ _ _ _ (c_nodup _ _ _ Hc)); [done|by apply list_elem_of_filter in Ht as [_ ?]|done].
  - destruct (Jobs cfg !! TJobName t) as [job|] eqn:Ejob; [by eexists|].
    destruct (c_dom _ _ _ Hc (TJobName t)) as [Hd _]. rewrite Ejob in Hd. destruct Hd; [by eexists|done].
Qed.

(** A job that runs on changes nothing about the run. *)
Lemma status_running run n j j' :
  status run → RJobs run !! n = Some j → JState j = JobRunning → JState j' = JobRunning → RState run ≠ RunSucceeded →
  status (with_jobs (<[n := j']> (RJobs run)) run).
Proof.
  intros [? ? ? Hsf Hss Hsl] Hj Hst Hst' Hns. split; cbn; [done..| | |].
  - rewrite Hsf. assert (∀ m, has_state (<[n := j']> (RJobs run)) JobFailed m ↔ has_state (RJobs run) JobFailed m) as Hf
      by (apply failed_insert with j; congruence). by setoid_rewrite Hf.
  - split; [by intros ?%Hns|]. intros Hall. destruct (Hall n) as (k & Hk & E); [by rewrite lookup_insert_eq|].
    rewrite lookup_insert_eq in Hk. injection Hk as <-. congruence.
  - intros m E [(k & Hk & Hkp) Hsat]. apply (Hsl m E). split.
    + apply lookup_insert_Some in Hk as [[_ <-]|[_ Hk]]; [congruence|by exists k].
    + replace (completed_jobs run) with (completed_jobs (with_jobs (<[n := j']> (RJobs run)) run)); [done|].
      apply set_eq. intros i. rewrite !elem_of_completed. cbn. unfold is_done.
      destruct (decide (n = i)) as [<-|Hne]; [|by rewrite lookup_insert_ne].
      rewrite lookup_insert_eq, Hj. split; intros (k' & [= <-] & Hd); [by rewrite Hst' in Hd|by rewrite Hst in Hd].
Qed.

(** A job that failed for good fails the run. *)
Lemma status_failed run n j' now :
  status run → JState j' = JobFailed →
  status (with_finished (Some now) (with_run_state RunFailed (with_jobs (<[n := j']> (RJobs run)) run))).
Proof.
  intros [? ? _ _ _ _] Hst'. split; cbn; [done|done|by right; right|..].
  - split; [|done]. intros _. exists n, j'. by rewrite lookup_insert_eq.
  - split; [done|]. intros Hall. destruct (Hall n) as (k & Hk & E); [by rewrite lookup_insert_eq|].
    rewrite lookup_insert_eq in Hk. injection Hk as <-. congruence.
  - done.
Qed.

Lemma failure_ok now o d run t r j :
  good o d run → t ∈ outstanding d (taskQueue o) → answers r t → RJobs run !! TJobName t = Some j →
  let l := fail_task enq now (configs o) r j (lock run o) in
  core (TaskID t :: d) (RJobs (l_run l)) (l_queue l) ∧ tasks_ok (l_tasks l) (l_queue l) ∧ status (l_run l).
Proof using Henq Hinj Hplain.
  intros Hg Ht (Hid & Hrid & Hn & _) Hj'. destruct (outstanding_job _ _ _ _ Hg Ht) as (j0 & Hj & Hst & Hname & Hmax & Hret & Hns).
  rewrite Hj in Hj'. injection Hj' as ->. pose proof (g_status _ _ _ Hg) as Hs.
  pose proof Hg as [Hrun Hc _ Htasks Hcfg]. unfold fail_task. rewrite Hn, Hid, Hmax. cbn zeta.
  destruct Hret as [Hret|Hret]; rewrite Hret.
  - rewrite bool_decide_eq_true_2 by lia. set (l1 := setJobStateLocked _ _ _).
    assert (l_run l1 = with_jobs (<[TJobName t := with_state JobRunning (with_retries 1 j)]> (RJobs run)) run) as Hl1.
    { unfold l1. cbn. rewrite (alter_is_insert _ _ _ _ Hj).
      rewrite (alter_is_insert _ _ _ (with_retries 1 j)) by apply lookup_insert_eq. by rewrite insert_insert_eq. }
    destruct (retry_available o d run t l1 (2 - (0 + 1)) Hg Ht eq_refl) as (t' & -> & Ht'); [by rewrite Hl1; apply Hs|].
    destruct (submit_enqueued now t' l1) as [He Hok]; [by rewrite Hl1, <- (s_id _ Hs)|]. rewrite Ht' in He.
    pose proof (submit_run enq now t' l1) as Hsr. pose proof (submit_tasks now t' l1 Htasks) as Hst'.
    destruct (submit enq now t' l1) as [l2 ok]. cbn [fst snd] in *. rewrite Hok, Hsr, Hl1.
    split; [|split; [done|by eapply status_running]].
    eapply core_retry; [done..| |done|done]. split_and!; [done..|]. right. left. cbn. split; [done|lia].
  - rewrite bool_decide_eq_false_2 by lia.
    assert (alter (with_failure r) (TJobName t) (alter (with_retries (1 + 1)) (TJobName t) (RJobs run)) =
      <[TJobName t := with_failure r (with_retries 2 j)]> (RJobs run)) as Hjobs.
    { rewrite (alter_is_insert _ _ _ _ Hj), (alter_is_insert _ _ _ (with_retries (1 + 1) j)) by apply lookup_insert_eq.
      by rewrite insert_insert_eq. }
    split; [|split].
    + cbn. rewrite Hjobs. eapply core_finish; [done..| |done]. split_and!; [done..|]. right. right. by right.
    + by apply (setRunState_tasks RunFailed (mkLocked _ (tasks o) (taskQueue o))).
    + pose proof (status_failed run (TJobName t) (with_failure r (with_retries 2 j)) now Hs eq_refl) as Hf.
      rewrite <- Hjobs in Hf. exact Hf.
Qed.

(** A result keeps the run in order. *)
Lemma deliver_ok now o d run t r :
  good o d run → t ∈ outstanding d (taskQueue o) → answers r t → ∃ run', good (OnTaskResult enq now r o) (TaskID t :: d) run'.
Proof using Henq Hinj Hplain.
  intros Hg Ht Ha. destruct (outstanding_job _ _ _ _ Hg Ht) as (j & Hj & _).
  pose proof Ha as (_ & Hrid & Hn & Hst). unfold OnTaskResult.
  assert (TRunID t = id) as Htid by by apply list_elem_of_filter in Ht as [[? _] _].
  rewrite Hrid, Htid, (g_run _ _ _ Hg), Hn, Hj. set (l := match ResState r with JobSucceeded => _ | _ => _ end).
  assert (core (TaskID t :: d) (RJobs (l_run l)) (l_queue l) ∧ tasks_ok (l_tasks l) (l_queue l) ∧ status (l_run l)) as (Hc & Htk & Hs).
  { unfold l. destruct Hst as [E|E]; rewrite E; [|by apply (failure_ok now o d run t r j)].
    rewrite <- Hn. by apply (success_ok now o d run t r). }
  exists (l_run l). assert (good (unlock l o) (TaskID t :: d) (l_run l)) as Hgu.
  { split; [|done..|by apply Hg]. cbn. rewrite (s_id _ Hs). apply lookup_insert_eq. }
  destruct (negb _ && _); [|done]. unfold notifyRunFinished. destruct (onRunFinished _); [|done].
  destruct Hgu. by split.
Qed.


(** ** The start of a run *)

(** The orchestrator before the run: the pipeline is registered, the tasks in
    the queue have identifiers of [enq] and belong to other runs. *)
Record before (o : Orchestrator) : Prop := {
  b_cfg : configs o !! PipeName cfg = Some cfg;
  b_ids t : t ∈ queued (taskQueue o) → issued (taskQueue o) (TaskID t) ∧ TRunID t ≠ id;
  b_nodup : NoDup (TaskID <$> queued (taskQueue o));
  b_tasks : tasks_ok (tasks o) (taskQueue o) }.

(** The conditions of the entry points hold. *)
Definition entries_run (affected : list string) : Prop :=
  ∀ n job run, Jobs cfg !! n = Some job → Needs job = [] → RState run = RunRunning → evaluateCondition (If job) run affected = true.

Record starting (l : locked) (names : list string) : Prop := {
  st_core : core [] (RJobs (l_run l)) (l_queue l);
  st_tasks : tasks_ok (l_tasks l) (l_queue l);
  st_id : RunID (l_run l) = id;
  st_pipe : PipelineName (l_run l) = PipeName cfg;
  st_state : RState (l_run l) = RunRunning;
  st_jobs n j : RJobs (l_run l) !! n = Some j → JState j = JobPending ∨ JState j = JobRunning;
  st_names n : n ∈ names → has_state (RJobs (l_run l)) JobRunning n }.

Lemma new_jobs repo now event affected n :
  RJobs (new_run id repo now cfg event affected) !! n =
  (λ job, mkStatus n JobPending (Needs job) "" None None None 0 2 "" 0 ∅) <$> Jobs cfg !! n.
Proof. unfold new_run. cbn [RJobs]. rewrite map_lookup_imap. by destruct (Jobs cfg !! n). Qed.

Lemma core_new o repo now event affected :
  before o → core [] (RJobs (new_run id repo now cfg event affected)) (taskQueue o).
Proof.
  intros [Hcfg Hids Hnd Htk]. pose proof (new_jobs repo now event affected) as Hl.
  set (jobs := RJobs _) in *. assert (outstanding [] (taskQueue o) = []) as Ho.
  { unfold outstanding. destruct (filter _ _) as [|t l] eqn:E; [done|].
    assert (t ∈ t :: l) as Hin by constructor. rewrite <- E in Hin. apply list_elem_of_filter in Hin as [[Hr _] Hq].
    by apply Hids in Hq as [_ ?]. }
  assert (∀ n j, jobs !! n = Some j → JobName j = n ∧ MaxRetries j = 2 ∧ JState j = JobPending ∧ Retries j = 0) as Hj.
  { intros n j. rewrite Hl. by intros (job & _ & ->)%fmap_Some. }
  split; rewrite ?Ho.
  - intros n. by rewrite Hl, fmap_is_Some.
  - intros n j (? & ? & ? & ?)%Hj. split_and!; [done..|by left].
  - intros n j need (_ & _ & ? & _)%Hj. done.
  - intros t Ht. by apply Hids.
  - done.
  - by intros i ?%elem_of_nil.
  - constructor.
  - intros n. cbn. split; [by intros ?%elem_of_nil|]. intros (j & (_ & _ & ? & _)%Hj & ?). congruence.
  - cbn [length]. rewrite (map_sum_const phi 2).
    + assert (size jobs = size (Jobs cfg)) as ->; [|lia].
      rewrite <- !(size_dom (D := gset string)). f_equal. apply set_eq. intros n. by rewrite !elem_of_dom, Hl, fmap_is_Some.
    + intros n j (_ & _ & E & _)%Hj. unfold phi. by rewrite E.
Qed.

Lemma start_entry now affected l k names n job :
  entries_run affected → starting l names → Jobs cfg !! n = Some job → Needs job = [] →
  ∃ l' k', start_entrypoint enq now cfg affected (l, k) n = (l', k') ∧ starting l' (names ++ [n]).
Proof using Henq Hinj Hplain.
  intros Hif [Hc Htk Hid Hpipe Hst Hjobs Hnames] Hjob Hno. unfold start_entrypoint.
  destruct (c_dom _ _ _ Hc n) as [_ Hd]. destruct Hd as [j Hj]; [by eexists|]. rewrite Hj.
  bool_case (JState j ≠ JobPending) as Hp.
  { exists l, k. split; [done|]. split; try done. intros m [Hm| ->%list_elem_of_singleton]%elem_of_app; [auto|].
    exists j. split; [done|]. by destruct (Hjobs n j Hj). }
  apply dec_stable in Hp.
  assert (canRunJob cfg (l_run l) n affected = true) as ->.
  { unfold canRunJob. rewrite Hjob, (Hif n job) by done. by rewrite andb_false_r. }
  destruct (start_job now [] n j l) as (l' & -> & Hrun & Htk' & Hc'); try done.
  { unfold needs_of. rewrite Hjob. cbn. rewrite Hno. by intros ? ?%elem_of_nil. }
  rewrite bool_decide_eq_true_2 by lia. eexists _, _. split; [done|].
  assert (RJobs (l_run (setJobStateLocked n JobRunning l')) = <[n := with_state JobRunning j]> (RJobs (l_run l))) as Hjobs'.
  { cbn. rewrite Hrun. by apply alter_is_insert. }
  split; rewrite ?Hjobs'; try (cbn; rewrite ?Hrun; done).
  - intros m k' [[<- <-]|[_ Hk]]%lookup_insert_Some; [by right|by eapply Hjobs].
  - intros m Hm. rewrite has_state_insert. case_bool_decide; [done|].
    apply elem_of_app in Hm as [Hm|Hm%list_elem_of_singleton]; [auto|done].
Qed.

Lemma elem_of_entrypoints n : n ∈ EntrypointJobs cfg ↔ ∃ job, Jobs cfg !! n = Some job ∧ Needs job = [].
Proof.
  unfold EntrypointJobs. rewrite list_elem_of_omap. split.
  - intros ([m job] & Hin%elem_of_range & E). case_bool_decide; [|done]. injection E as ->. eauto.
  - intros (job & Hj & Hn). exists (n, job). split; [by apply elem_of_range|]. by rewrite bool_decide_eq_true_2.
Qed.

Lemma start_entries now affected l k names :
  entries_run affected → (∀ n, n ∈ names → n ∈ EntrypointJobs cfg) → starting l [] →
  ∃ l' k', foldl (start_entrypoint enq now cfg affected) (l, k) names = (l', k') ∧ starting l' names.
Proof using Henq Hinj Hplain.
  intros Hif Hnames Hst. induction names as [|n names IH] using rev_ind; [by exists l, k|].
  destruct IH as (l1 & k1 & E & Hst1); [intros; apply Hnames; set_solver|].
  rewrite foldl_app, E. cbn [foldl]. destruct (proj1 (elem_of_entrypoints n)) as (job & Hjob & Hno); [apply Hnames; set_solver|].
  by eapply start_entry.
Qed.

(** Executing a new run starts its entry points. *)
Lemma execute_ok now now' repo event affected o :
  entries_run affected → (∃ n, is_Some (Jobs cfg !! n)) → before o →
  ∃ run, good (executeRun enq now' id cfg affected (StartRun id repo now cfg event affected o)) [] run.
Proof using Henq Hinj Hplain.
  intros Hif [n0 Hn0] Hb. unfold executeRun. set (o1 := StartRun _ _ _ _ _ _ _).
  assert (runs o1 !! id = Some (new_run id repo now cfg event affected)) as -> by apply lookup_insert_eq.
  rewrite bool_decide_eq_false_2 by (intros E; by apply E).
  set (l0 := on_run _ _). assert (starting l0 []) as Hst0.
  { split; try done; [exact (core_new o repo now event affected Hb)|exact (b_tasks _ Hb)| |by intros ? ?%elem_of_nil].
    intros n j. cbn [l_run l0 on_run with_started with_run_state upd_run setRunStateLocked lock].
    change (RJobs _) with (RJobs (new_run id repo now cfg event affected)). rewrite new_jobs. intros (job & _ & ->)%fmap_Some. by left. }
  destruct (start_entries now' affected l0 0%nat (EntrypointJobs cfg) Hif (λ _ Hn, Hn) Hst0) as (l & k & -> & [Hc Htk Hid Hpipe Hst Hjobs Hent]).
  assert (hasActiveJobs (l_run l) = true) as ->.
  { unfold hasActiveJobs. apply bool_decide_eq_true. intros E. destruct (proj2 (c_dom _ _ _ Hc n0) Hn0) as [j Hj].
    apply map_empty_filter in E. apply (E n0 j Hj). by destruct (Hjobs _ _ Hj) as [-> | ->]. }
  rewrite andb_false_r. exists (l_run l). assert (∀ n, ¬ is_done (RJobs (l_run l)) n) as Hnd.
  { intros n (j & Hj & Hd). by destruct (Hjobs _ _ Hj) as [E|E]; rewrite E in Hd. }
  split; [|done| |done|by apply Hb].
  { cbn. rewrite Hid. apply lookup_insert_eq. }
  split; [done|done|by left|..]; rewrite ?Hst.
  - split; [done|]. intros (n & j & Hj & Hf). destruct (Hnd n). exists j. by rewrite Hf.
  - split; [done|]. intros Hall. destruct (proj2 (c_dom _ _ _ Hc n0) Hn0) as [j Hj]. destruct (Hall n0) as (j' & Hj' & E); [by eexists|].
    destruct (Hnd n0). exists j'. by rewrite E.
  - intros n _ Hr. pose proof (ready_needs_done _ _ Hr) as Hneeds. destruct Hr as [(j & Hj & Hp) _].
    destruct (proj1 (c_dom _ _ _ Hc n)) as [job Hjob]; [by eexists|].
    destruct (Needs job) as [|need needs] eqn:En.
    + destruct (Hent n) as (j' & Hj' & ?); [apply elem_of_entrypoints; eauto|congruence].
    + apply (Hnd need), Hneeds. unfold needs_of. rewrite Hjob. cbn. rewrite En. constructor.
Qed.


(** ** The course of a run *)

(** A run is started and executed; then results arrive for tasks that are
    out, in any order, each for one task.  [d] collects their identifiers. *)
Inductive course (affected : list string) (o0 : Orchestrator) : Orchestrator → list string → Prop :=
| course_start repo now now' event :
    course affected o0 (executeRun enq now' id cfg affected (StartRun id repo now cfg event affected o0)) []
| course_result now o d t r :
    course affected o0 o d → t ∈ outstanding d (taskQueue o) → answers r t →
    course affected o0 (OnTaskResult enq now r o) (TaskID t :: d).

(** In a run that goes on, below every job that is not done there is one with
    a task out. *)
Lemma some_outstanding d run q n :
  core d (RJobs run) q → status run → RState run = RunRunning →
  (∀ name job need, Jobs cfg !! name = Some job → need ∈ Needs job → is_Some (Jobs cfg !! need)) →
  Acc (flip (depends (Jobs cfg))) n → is_Some (RJobs run !! n) → ¬ is_done (RJobs run) n → outstanding d q ≠ [].
Proof.
  intros Hc Hs Hst Hneeds. induction 1 as [n _ IH]. intros [j Hj] Hnd.
  destruct (c_job _ _ _ Hc n j Hj) as (_ & _ & [[E _]|[[E _]|[E|E]]]).
  - destruct (proj1 (c_dom _ _ _ Hc n)) as [job Hjob]; [by eexists|].
    destruct (decide (Forall (λ need, need ∈ completed_jobs run) (Needs job))) as [Hall|Hex].
    + destruct (s_live _ Hs n Hst). split; [by exists j|]. unfold AllNeedsSatisfied. rewrite Hjob.
      apply forallb_forall. intros need Hin. apply bool_decide_eq_true. rewrite Forall_forall in Hall.
      by apply Hall, list_elem_of_In.
    + apply not_Forall_Exists in Hex; [|apply _]. apply Exists_exists in Hex as (need & Hin & Hno).
      apply (IH need).
      * unfold flip, depends, needs_of. by rewrite Hjob.
      * apply (c_dom _ _ _ Hc). by eapply Hneeds.
      * by rewrite <- elem_of_completed.
  - intros Ho. pose proof (proj2 (c_run _ _ _ Hc n)) as Hr. rewrite Ho in Hr.
    assert (n ∈ @nil string) as Hn by (apply Hr; by exists j). by apply elem_of_nil in Hn.
  - destruct Hnd. exists j. by rewrite E.
  - destruct Hnd. exists j. by rewrite E.
Qed.

Lemma course_good affected o0 o d :
  Validate cfg = Ok tt → entries_run affected → before o0 → course affected o0 o d → ∃ run, good o d run.
Proof using Henq Hinj Hplain.
  intros (Hne & _)%Validate_ok Hif Hb. induction 1 as [repo now now' event|now o d t r _ [run IH] Ht Ha].
  - by apply execute_ok.
  - by eapply deliver_ok.
Qed.

Lemma good_progress o d run : Validate cfg = Ok tt → good o d run → RState run = RunRunning → outstanding d (taskQueue o) ≠ [].
Proof.
  intros (_ & Hneeds & Hacc)%Validate_ok [_ Hc Hs _ _] Hst.
  destruct (all_done run (completed_jobs run)) eqn:E.
  - rewrite (all_done_spec _ _ _ _ Hc eq_refl) in E. assert (RState run = RunSucceeded); [|congruence].
    apply (s_succ _ Hs). intros n Hn. destruct (done_cases _ _ _ n Hc (E n Hn)) as [?|Hf]; [done|].
    assert (RState run = RunFailed) by (apply (s_failed _ Hs); eauto). congruence.
  - unfold all_done in E. apply bool_decide_eq_false, map_choose in E as (n & j & Hj).
    apply map_lookup_filter_Some in Hj as [Hj [_ Hd]].
    apply (some_outstanding d run (taskQueue o) n); [done..|by eexists|].
    intros (k & Hk & Hd'). congruence.
Qed.

(** C8: a run of a valid pipeline whose jobs have one task each and whose
    entry points' conditions hold completes, when every write to the queue
    succeeds.  After at most two results per job the run is finished: until
    then some task is out, and results for tasks that are out lead nowhere
    else.  A task is out only for a job all of whose needs are done.  The run
    has succeeded exactly when every job succeeded and has failed exactly when
    some job failed. *)
Theorem run_completes affected o0 o d :
  Validate cfg = Ok tt → entries_run affected → before o0 → course affected o0 o d →
  ∃ run, runs o !! id = Some run ∧
    (length d ≤ 2 * size (Jobs cfg))%nat ∧
    (outstanding d (taskQueue o) = [] → isTerminalRunState (RState run) = true) ∧
    (∀ t need, t ∈ outstanding d (taskQueue o) → need ∈ needs_of (Jobs cfg) (TJobName t) → is_done (RJobs run) need) ∧
    (RState run = RunSucceeded ↔ ∀ n, is_Some (Jobs cfg !! n) → has_state (RJobs run) JobSucceeded n) ∧
    (RState run = RunFailed ↔ ∃ n, has_state (RJobs run) JobFailed n).
Proof using Henq Hinj Hplain.
  intros Hv Hif Hb Hco. destruct (course_good _ _ _ _ Hv Hif Hb Hco) as [run Hg]. exists run.
  pose proof Hg as [Hrun Hc Hs _ _]. split_and!; [done| | | | |by apply Hs].
  - pose proof (c_weight _ _ _ Hc). lia.
  - intros Ho. pose proof (good_progress _ _ _ Hv Hg). destruct (s_state _ Hs) as [E|[E|E]]; rewrite E; [|done..]. tauto.
  - intros t need Ht Hneed. destruct (outstanding_job _ _ _ _ Hg Ht) as (j & Hj & Hst & _).
    eapply (c_needs _ _ _ Hc); [done|by rewrite Hst|done].
  - rewrite (s_succ _ Hs). by setoid_rewrite (c_dom _ _ _ Hc).
Qed.

End complete.

(** ** Which jobs are started *)

(** The completed set stays the set of the jobs that are done. *)
Lemma advance_completed `{GoRange} enq now cfg n l l' c' :
  advance_passes enq now cfg n l (completed_jobs (l_run l)) = (l', c') → c' = completed_jobs (l_run l').
Proof.
  apply (advance_passes_ind enq now cfg (λ l c, c = completed_jobs (l_run l))); [|done].
  intros l0 c p name -> Hr.
  destruct (advance_job_cases enq now cfg l0 (completed_jobs (l_run l0)) p name) as [[Hn _]|(_ & j & l1 & s & c1 & Hj & -> & Hjobs & Hs)]; [done|].
  destruct Hr as [(j' & Hj' & Hp) _]. rewrite Hj in Hj'. injection Hj' as <-.
  apply set_eq. intros m. rewrite elem_of_completed, Hjobs.
  destruct Hs as [[-> ->]|[-> ->]].
  - rewrite completed_start by done. apply elem_of_completed.
  - rewrite elem_of_union, elem_of_singleton, elem_of_completed. unfold is_done.
    destruct (decide (name = m)) as [->|Hne]; [rewrite lookup_insert_eq|rewrite lookup_insert_ne by done; naive_solver].
    split; [intros _; by eexists|by left].
Qed.

Lemma advancePipeline_jobs `{GoRange} enq now cfgs cfg l :
  cfgs !! PipelineName (l_run l) = Some cfg →
  RJobs (l_run (advancePipeline enq now cfgs l)) =
  RJobs (l_run (advance_passes enq now cfg (S (size (RJobs (l_run l)))) l (completed_jobs (l_run l))).1).
Proof.
  intros E. unfold advancePipeline. rewrite E. destruct (advance_passes _ _ _ _ _ _) as [l1 c1].
  by destruct (all_done _ _).
Qed.

(** C35: advancing a run goes on until nothing is left to start: every job of
    the configuration still pending afterwards has a need that is not done.
    Needs that failed or were cancelled count as done, and the job's
    condition is not consulted. *)
Theorem advance_starts_all_ready `{GoRange} enq now cfgs cfg l n j :
  cfgs !! PipelineName (l_run l) = Some cfg →
  RJobs (l_run (advancePipeline enq now cfgs l)) !! n = Some j → JState j = JobPending → is_Some (Jobs cfg !! n) →
  ∃ need, need ∈ needs_of (Jobs cfg) n ∧ ¬ is_done (RJobs (l_run (advancePipeline enq now cfgs l))) need.
Proof.
  intros Hcfg. rewrite (advancePipeline_jobs _ _ _ _ _ Hcfg). destruct (advance_passes _ _ _ _ _ _) as [l1 c1] eqn:E.
  pose proof (advance_completed _ _ _ _ _ _ _ E) as Hc1.
  apply (advance_passes_fix _ _ _ _ _ _ _ _) with (name := n) in E; [|pose proof (size_pending (RJobs (l_run l))); lia].
  cbn [fst]. intros Hj Hp [job Hjob].
  destruct (decide (Forall (λ need, need ∈ c1) (Needs job))) as [Hall|Hex].
  - destruct E. split; [by exists j|]. unfold AllNeedsSatisfied. rewrite Hjob. apply forallb_forall.
    intros need Hin. apply bool_decide_eq_true. rewrite Forall_forall in Hall. by apply Hall, list_elem_of_In.
  - apply not_Forall_Exists in Hex; [|apply _]. apply Exists_exists in Hex as (need & Hin & Hno).
    exists need. unfold needs_of. rewrite Hjob. split; [done|]. by rewrite <- elem_of_completed, <- Hc1.
Qed.

(** ** Late results *)

(** With every job done, advancing settles the state of the run. *)
Lemma advance_settles `{GoRange} enq now cfgs cfg l :
  cfgs !! PipelineName (l_run l) = Some cfg → (∀ n j, RJobs (l_run l) !! n = Some j → job_done (JState j) = true) →
  l_run (advancePipeline enq now cfgs l) =
  with_finished (Some now) (with_run_state (if anyJobFailed (l_run l) then RunFailed else RunSucceeded) (l_run l)).
Proof.
  intros Hcfg Hd. unfold advancePipeline. rewrite Hcfg. destruct (advance_passes _ _ _ _ _ _) as [l1 c1] eqn:E.
  assert (l1 = l ∧ c1 = completed_jobs (l_run l)) as [-> ->].
  { cbn [advance_passes] in E. destruct (foldl _ _ _) as [[l2 c2] p] eqn:Ef. destruct p.
    - apply advance_pass in Ef. assert (pending (RJobs (l_run l)) = ∅) as Hp.
      { apply map_empty_filter. intros n j Hj Hp. apply Hd in Hj. by rewrite Hp in Hj. }
      rewrite Hp, map_size_empty in Ef. lia.
    - apply advance_pass in Ef as (-> & -> & _). by injection E as <- <-. }
  assert (all_done (l_run l) (completed_jobs (l_run l)) = true) as ->; [|done].
  unfold all_done. apply bool_decide_eq_true, map_empty_filter. intros n j Hj [_ Hn]. apply Hd in Hj. congruence.
Qed.

Lemma anyJobFailed_iff r1 r2 :
  (∀ n, has_state (RJobs r1) JobFailed n ↔ has_state (RJobs r2) JobFailed n) → anyJobFailed r1 = anyJobFailed r2.
Proof. intros Hf. apply eq_true_iff_eq. rewrite !anyJobFailed_spec. by setoid_rewrite Hf. Qed.

(** Cancelling leaves every job done and the failed ones failed. *)
Lemma cancel_done now run n j : RJobs (cancelRunLocked now run) !! n = Some j → job_done (JState j) = true.
Proof.
  unfold cancelRunLocked. cbn [RJobs upd_run]. rewrite lookup_fmap. intros (k & _ & ->)%fmap_Some.
  destruct (job_active (JState k)) eqn:E; [done|]. by destruct (JState k).
Qed.

Lemma cancel_failed now run r n m :
  has_state (alter (with_success r) n (RJobs (cancelRunLocked now run))) JobFailed m ↔
  has_state (alter (with_success r) n (RJobs run)) JobFailed m.
Proof.
  unfold has_state, cancelRunLocked. cbn [RJobs upd_run]. destruct (decide (n = m)) as [->|Hne].
  - rewrite !lookup_alter_eq, lookup_fmap. split; intros (j & Hj & Hf); repeat (apply fmap_Some in Hj as (? & ? & ->)); done.
  - rewrite !lookup_alter_ne, lookup_fmap by done. split.
    + intros (j & (k & Hk & ->)%fmap_Some & Hf). exists k. split; [done|]. by destruct (job_active (JState k)).
    + intros (j & -> & Hf). exists j. cbn. by rewrite Hf.
Qed.

(** cancelling is not final.  When a run is cancelled and a worker then
    reports the success of one of its tasks, the run ends succeeded or failed
    instead of cancelled. *)
Theorem late_success_revives_cancelled `{GoRange} enq now now' o o' id run r :
  runs o !! id = Some run → RunID run = id → is_Some (configs o !! PipelineName run) →
  CancelRun now id o = (o', Ok tt) → ResRunID r = id → is_Some (RJobs run !! ResJobName r) → ResState r = JobSucceeded →
  ∃ run', runs (OnTaskResult enq now' r o') !! id = Some run' ∧
    RState run' = (if anyJobFailed (with_jobs (alter (with_success r) (ResJobName r) (RJobs run)) run) then RunFailed else RunSucceeded).
Proof.
  intros Hrun Hid [cfg Hcfg] Hcancel Hr [j Hj] Hs. unfold CancelRun in Hcancel. rewrite Hrun in Hcancel.
  destruct (isTerminalRunState (RState run)) eqn:Et; [done|]. injection Hcancel as <-.
  set (run1 := cancelRunLocked now run). set (o1 := notifyRunFinished _ _).
  assert (runs o1 !! id = Some run1 ∧ configs o1 = configs o) as [Hrun1 Hcfg1].
  { unfold o1, notifyRunFinished. destruct (onRunFinished _); (split; [|done]); cbn; rewrite Hid; apply lookup_insert_eq. }
  unfold OnTaskResult. rewrite Hr, Hrun1, Hs. destruct (RJobs run1 !! ResJobName r) as [j1|] eqn:Ej1.
  2:{ unfold run1, cancelRunLocked in Ej1. cbn [RJobs upd_run] in Ej1. by rewrite lookup_fmap, Hj in Ej1. }
  cbn [isTerminalRunState run1 cancelRunLocked RState upd_run negb andb]. set (l := on_job _ _ _).
  assert (∀ n k, RJobs (l_run l) !! n = Some k → job_done (JState k) = true) as Hd.
  { intros n k. unfold l. cbn [on_job on_run l_run lock with_jobs upd_run RJobs].
    destruct (decide (ResJobName r = n)) as [->|Hne]; [rewrite lookup_alter_eq|rewrite lookup_alter_ne by done; apply cancel_done].
    by intros (k0 & _ & ->)%fmap_Some. }
  cbn [runs unlock]. rewrite (advance_settles enq now' (configs o1) cfg l) by (done || by rewrite Hcfg1). 
  exists (with_finished (Some now') (with_run_state (if anyJobFailed (l_run l) then RunFailed else RunSucceeded) (l_run l))).
  split; [cbn; rewrite Hid; apply lookup_insert_eq|]. cbn [with_finished with_run_state upd_run RState].
  rewrite (anyJobFailed_iff (l_run l) (with_jobs (alter (with_success r) (ResJobName r) (RJobs run)) run)); [done|].
  intros n. apply cancel_failed.
Qed.

(** ** Examples *)

Definition demo_job (needs : list string) : JobConfig :=
  mkJob needs "" RunnerBuilder None 0 [mkStep "" "" "make" ∅ "" ""].
Definition demo_pipeline : PipelineConfig :=
  mkPipeline "ci" (mkTrigger None None []) None
    (<["build" := demo_job []]> (<["lint" := demo_job []]> (<["test" := demo_job ["build"; "lint"]]> ∅))) "".
Definition demo_enq (n : nat) : option string := Some (dec (Z.of_nat n)).
Definition demo_event : WebhookEvent := mkEvent TriggerManual "c0" "main" "" 0 "" "" [].
Definition demo_start : Orchestrator := RegisterPipeline demo_pipeline NewOrchestrator.
Definition demo_started : Orchestrator :=
  @executeRun go_map_to_list demo_enq 1 "run" demo_pipeline [] (StartRun "run" "" 0 demo_pipeline demo_event [] demo_start).

Lemma demo_enq_inj m n i : demo_enq m = Some i → demo_enq n = Some i → m = n.
Proof.
  unfold demo_enq. intros [= Hm] [= Hn]. apply Nat2Z.inj, (dec_pad_inj 0); [lia..|]. change (dec (Z.of_nat m) = dec (Z.of_nat n)). congruence.
Qed.

Lemma demo_lookup n job : Jobs demo_pipeline !! n = Some job → ∃ needs, job = demo_job needs.
Proof.
  unfold demo_pipeline. cbn [Jobs]. intros [[_ <-]|[_ [[_ <-]|[_ [[_ <-]|[_ E]]%lookup_insert_Some]]%lookup_insert_Some]]%lookup_insert_Some; eauto.
  discriminate E.
Qed.

Lemma run_completes_witness :
  ∃ run, runs demo_started !! "run" = Some run ∧
    (outstanding "run" [] (taskQueue demo_started) = [] → isTerminalRunState (RState run) = true) ∧
    length (outstanding "run" [] (taskQueue demo_started)) = 2%nat.
Proof.
  destruct (@run_completes go_map_to_list demo_enq "run" demo_pipeline) with (affected := @nil string) (o0 := demo_start) (o := demo_started) (d := @nil string)
    as (run & Hrun & _ & Hend & _).
  - intros n. by eexists.
  - exact demo_enq_inj.
  - intros n job s (needs & ->)%demo_lookup. done.
  - vm_compute. reflexivity.
  - intros n job run (needs & ->)%demo_lookup _ _. reflexivity.
  - split; [vm_compute; reflexivity|by intros t ?%elem_of_nil|constructor|]. intros i t E. discriminate E.
  - apply course_start.
  - exists run. refine (conj Hrun (conj Hend _)). vm_compute. reflexivity.
Defined.

(** A run in which [build] failed and [lint] has just succeeded: [test] is
    started all the same. *)
Definition demo_status (name : string) (s : JobState) : JobStatus := mkStatus name s [] "" None None None 0 2 "" 0 ∅.
Definition demo_run (s : RunState) (build lint test : JobState) : PipelineRun :=
  mkRun "run" "ci" s TriggerManual "" "" "" 0 "" "" [] 0 None None
    (<["build" := demo_status "build" build]> (<["lint" := demo_status "lint" lint]> (<["test" := demo_status "test" test]> ∅))) [].
Definition demo_locked : locked := mkLocked (demo_run RunFailed JobFailed JobSucceeded JobPending) ∅ (mkQueue 0 []).

Lemma advance_starts_all_ready_witness :
  JState <$> RJobs (l_run (@advancePipeline go_map_to_list demo_enq 5 (configs demo_start) demo_locked)) !! "test" = Some JobRunning ∧
  ∀ j, RJobs (l_run (@advancePipeline go_map_to_list demo_enq 5 (configs demo_start) demo_locked)) !! "test" = Some j → JState j = JobPending →
    ∃ need, need ∈ needs_of (Jobs demo_pipeline) "test" ∧
      ¬ is_done (RJobs (l_run (@advancePipeline go_map_to_list demo_enq 5 (configs demo_start) demo_locked))) need.
Proof.
  split; [vm_compute; reflexivity|]. intros j Hj Hp.
  refine (@advance_starts_all_ready go_map_to_list demo_enq 5 (configs demo_start) demo_pipeline demo_locked "test" j _ Hj Hp _).
  - vm_compute. reflexivity.
  - by eexists.
Defined.

Definition demo_running : Orchestrator :=
  mkOrch (<["run" := demo_run RunRunning JobSucceeded JobSucceeded JobRunning]> ∅) (configs demo_start) ∅ (mkQueue 3 []) ["run"] 100 false [].
Definition demo_result : TaskResult := mkResult "2" "run" "test" JobSucceeded 0 "" 0 9 "w" ∅.

Lemma late_success_revives_cancelled_witness :
  ∃ run', runs (@OnTaskResult go_map_to_list demo_enq 9 demo_result (CancelRun 8 "run" demo_running).1) !! "run" = Some run' ∧
    RState run' = RunSucceeded.
Proof.
  destruct (@late_success_revives_cancelled go_map_to_list demo_enq 8 9 demo_running (CancelRun 8 "run" demo_running).1 "run"
    (demo_run RunRunning JobSucceeded JobSucceeded JobRunning) demo_result) as (run' & Hrun & Hst); [vm_compute; reflexivity|reflexivity|by eexists|reflexivity|reflexivity|by eexists|reflexivity|].
  exists run'. refine (conj Hrun _). rewrite Hst. vm_compute. reflexivity.
Defined.
