(* ===== verification/PipelineWebhook.v ===== *)
(** * Webhooks

    Model of internal/router/pipeline/webhook.go: the two handlers, the
    signature check, the reading of events, and what an accepted event starts.

    JSON decoding is the class [WebhookJson], one decoder per struct.  A
    handler returns its answer and the event it hands to [processEvent]. *)

From stdpp Require Import options.
From S2P Require Import Prelude GoStrings GoHash GoRange Pipeline PipelineOrch.

(** ** HMAC *)

Definition hmac_block : nat := 64.
Definition xor_bytes (c : Z) (bs : bytes) : bytes := (λ b, byte_of_Z (Z.lxor (Z_of_byte b) c)) <$> bs.

(** crypto/hmac with SHA-256. *)
Definition hmac_sha256 (key msg : bytes) : bytes :=
  let key := if bool_decide (hmac_block < length key)%nat then sha256 key else key in
  let key := key ++ replicate (hmac_block - length key) (byte_of_Z 0) in
  sha256 (xor_bytes 0x5c key ++ sha256 (xor_bytes 0x36 key ++ msg)).

Definition hex_value (c : ascii) : option Z :=
  let n := Z_of_byte c in
  if bool_decide (48 ≤ n ≤ 57) then Some (n - 48)
  else if bool_decide (97 ≤ n ≤ 102) then Some (n - 87)
  else if bool_decide (65 ≤ n ≤ 70) then Some (n - 55)
  else None.

(** [hex.DecodeString]. *)
Fixpoint hex_decode (bs : bytes) : option bytes :=
  match bs with
  | [] => Some []
  | [_] => None
  | a :: b :: bs => x ← hex_value a; y ← hex_value b; r ← hex_decode bs; Some (byte_of_Z (16 * x + y) :: r)
  end.

(** ** Events as the forges send them *)

Record PushCommit := mkPushCommit { Added : list string; Removed : list string; Modified : list string }.
Record gitHubPushEvent := mkGitHubPush { ghRef : string; After : string; ghLogin : string; ghURL : string; ghCommits : list PushCommit }.
Record gitHubPullRequestEvent := mkGitHubPR
  { prAction : string; prNumber : Z; HeadSHA : string; HeadRef : string; prLogin : string; prURL : string }.
Record gitHubCreateEvent := mkGitHubCreate { RefType : string; crRef : string; crLogin : string; crURL : string }.
Record gitLabPushEvent := mkGitLabPush { glRef : string; CheckoutSHA : string; glUser : string; glURL : string; glCommits : list PushCommit }.
Record gitLabMergeRequestEvent := mkGitLabMR
  { IID : Z; mrAction : string; LastCommit : string; SourceBranch : string; mrUser : string; mrURL : string }.
Record gitLabTagPushEvent := mkGitLabTag { tgRef : string; tgUser : string; tgURL : string }.

Class WebhookJson := {
  unmarshal_github_push : string → option gitHubPushEvent;
  unmarshal_github_pr : string → option gitHubPullRequestEvent;
  unmarshal_github_create : string → option gitHubCreateEvent;
  unmarshal_gitlab_push : string → option gitLabPushEvent;
  unmarshal_gitlab_mr : string → option gitLabMergeRequestEvent;
  unmarshal_gitlab_tag : string → option gitLabTagPushEvent }.

Fixpoint dedupe_from (seen : gset string) (l : list string) : list string :=
  match l with
  | [] => []
  | item :: l => if bool_decide (item ∈ seen) then dedupe_from seen l else item :: dedupe_from ({[item]} ∪ seen) l
  end.
Definition dedupeStrings (l : list string) : list string := dedupe_from ∅ l.

Definition zero_event : WebhookEvent := mkEvent (TriggerOther "") "" "" "" 0 "" "" [].
Definition with_type (t : TriggerType) (e : WebhookEvent) : WebhookEvent :=
  mkEvent t (CommitSHA e) (Branch e) (Tag e) (PRNumber e) (RepoURL e) (Sender e) (ChangedFiles e).
Definition commit_files (cs : list PushCommit) : list string := cs ≫= λ c, Added c ++ Removed c ++ Modified c.

Record WebhookConfig := mkWebhookConfig { GitHubSecret : string; GitLabSecret : string }.

Record response := mkResponse { code : Z; body_text : string }.
Definition accepted : response := mkResponse 200 "accepted".
Definition unsupported : response := mkResponse 200 "event type not supported".
Definition no_commit : response := mkResponse 200 "no commit to process".

Section webhook.
  Context `{WebhookJson}.
  (** [git diff --name-only HEAD~1..HEAD] in the working directory. *)
  Context (head_diff : list string).

Definition parseGitHubPush (body : string) : WebhookEvent :=
  match unmarshal_github_push body with
  | None => zero_event
  | Some e => mkEvent (TriggerOther "") (After e) (TrimPrefix (ghRef e) "refs/heads/") "" 0 (ghURL e) (ghLogin e)
                (dedupeStrings (commit_files (ghCommits e)))
  end.

Definition parseGitHubPullRequest (body : string) : WebhookEvent :=
  match unmarshal_github_pr body with
  | None => zero_event
  | Some e =>
      if bool_decide (prAction e ∉ ["opened"; "synchronize"; "reopened"]) then zero_event
      else mkEvent (TriggerOther "") (HeadSHA e) (HeadRef e) "" (prNumber e) (prURL e) (prLogin e) head_diff
  end.

Definition parseGitHubCreate (body : string) : WebhookEvent :=
  match unmarshal_github_create body with
  | None => zero_event
  | Some e => if bool_decide (RefType e ≠ "tag") then zero_event
              else mkEvent (TriggerOther "") "" "" (crRef e) 0 (crURL e) (crLogin e) []
  end.

Definition parseGitLabPush (body : string) : WebhookEvent :=
  match unmarshal_gitlab_push body with
  | None => zero_event
  | Some e => mkEvent (TriggerOther "") (CheckoutSHA e) (TrimPrefix (glRef e) "refs/heads/") "" 0 (glURL e) (glUser e)
                (dedupeStrings (commit_files (glCommits e)))
  end.

Definition parseGitLabMergeRequest (body : string) : WebhookEvent :=
  match unmarshal_gitlab_mr body with
  | None => zero_event
  | Some e =>
      if bool_decide (mrAction e ∉ ["open"; "update"; "reopen"]) then zero_event
      else mkEvent (TriggerOther "") (LastCommit e) (SourceBranch e) "" (IID e) (mrURL e) (mrUser e) []
  end.

Definition parseGitLabTagPush (body : string) : WebhookEvent :=
  match unmarshal_gitlab_tag body with
  | None => zero_event
  | Some e => mkEvent (TriggerOther "") "" "" (TrimPrefix (tgRef e) "refs/tags/") 0 (tgURL e) (tgUser e) []
  end.

(** ** The handlers *)

Definition verifyGitHubSignature (cfg : WebhookConfig) (sigHeader body : string) : bool :=
  if bool_decide (sigHeader = "") || negb (HasPrefix sigHeader "sha256=") then false
  else match hex_decode (bytes_of_string (str_drop 7 sigHeader)) with
       | None => false
       | Some sig => bool_decide (sig = hmac_sha256 (bytes_of_string (GitHubSecret cfg)) (bytes_of_string body))
       end.

Definition verifyGitLabSignature (cfg : WebhookConfig) (token : string) : bool :=
  bool_decide (GitLabSecret cfg ≠ "") && bool_decide (token = GitLabSecret cfg).

(** An event is processed when it names a commit. *)
Definition dispatch (event : WebhookEvent) : response * option WebhookEvent :=
  if bool_decide (CommitSHA event = "") then (no_commit, None) else (accepted, Some event).

(** [body] is [None] when reading it failed. *)
Definition handleGitHub (cfg : WebhookConfig) (body : option string) (sig eventType : string) : response * option WebhookEvent :=
  match body with
  | None => (mkResponse 400 "read body failed", None)
  | Some body =>
      if bool_decide (GitHubSecret cfg ≠ "") && negb (verifyGitHubSignature cfg sig body)
      then (mkResponse 401 "invalid signature", None)
      else if bool_decide (eventType = "push") then dispatch (with_type TriggerPush (parseGitHubPush body))
      else if bool_decide (eventType = "pull_request") then dispatch (with_type TriggerPullRequest (parseGitHubPullRequest body))
      else if bool_decide (eventType = "create") then dispatch (parseGitHubCreate body)
      else (unsupported, None)
  end.

Definition handleGitLab (cfg : WebhookConfig) (body : option string) (token eventType : string) : response * option WebhookEvent :=
  if bool_decide (GitLabSecret cfg ≠ "") && negb (verifyGitLabSignature cfg token) then (mkResponse 401 "invalid token", None)
  else
    match body with
    | None => (mkResponse 400 "read body failed", None)
    | Some body =>
        if bool_decide (eventType = "Push Hook") then dispatch (with_type TriggerPush (parseGitLabPush body))
        else if bool_decide (eventType = "Merge Request Hook") then dispatch (with_type TriggerPullRequest (parseGitLabMergeRequest body))
        else if bool_decide (eventType = "Tag Push Hook") then dispatch (with_type TriggerTag (parseGitLabTagPush body))
        else (unsupported, None)
    end.

Record http_request := mkHttp
  { method : string; x_github_event : string; x_gitlab_event : string; x_hub_signature : string; x_gitlab_token : string;
    req_body : option string }.

Definition ServeHTTP (cfg : WebhookConfig) (r : http_request) : response * option WebhookEvent :=
  if bool_decide (method r ≠ "POST") then (mkResponse 405 "method not allowed", None)
  else if bool_decide (x_github_event r ≠ "") then handleGitHub cfg (req_body r) (x_hub_signature r) (x_github_event r)
  else if bool_decide (x_gitlab_event r ≠ "") then handleGitLab cfg (req_body r) (x_gitlab_token r) (x_gitlab_event r)
  else (mkResponse 400 "unknown webhook source", None).

End webhook.

(** ** What an event starts *)

(** [processEvent]: [meta] is the result of [loadPackageMeta], [head_files]
    that of [ComputeChangedFilesFromHead(1)], and [ids] names the runs. *)
Definition processEvent `{GoRange} (hooks : gmap string PipelineConfig) (meta : option PackageMeta) (head_files : list string)
    (ids : string → string) (repo : string) (now : Z) (event : WebhookEvent) (o : Orchestrator) : option Orchestrator :=
  match meta with
  | None => Some o
  | Some meta =>
      let event := if bool_decide (ChangedFiles event = [])
                   then mkEvent (EventType event) (CommitSHA event) (Branch event) (Tag event) (PRNumber event) (RepoURL event) (Sender event) head_files
                   else event in
      affected ← DetectAffectedPackages meta (ChangedFiles event);
      Some (foldl (λ o '(name, cfg), if MatchEvent cfg event then StartRun (ids name) repo now cfg event affected o else o) o (range 40 hooks))
  end.

(** ** Theorems *)

Lemma dispatch_some event r e : dispatch event = (r, Some e) → e = event ∧ CommitSHA event ≠ "".
Proof. unfold dispatch. case_bool_decide; intros [= Hr He]. by subst. Qed.

Lemma hex_decode_encode bs : hex_decode (hex_encode bs) = Some bs.
Proof.
  assert (∀ n, 0 ≤ n < 16 → hex_value (hex_digit n) = Some n) as Hd.
  { intros n Hn. unfold hex_value, hex_digit. bool_case (n < 10) as Hlt; rewrite Z_of_byte_of_Z, Z.mod_small by lia.
    - rewrite bool_decide_eq_true_2 by lia. f_equal. lia.
    - rewrite bool_decide_eq_false_2, bool_decide_eq_true_2 by lia. f_equal. lia. }
  induction bs as [|b bs IH]; [done|]. change (hex_encode (b :: bs)) with
    (hex_digit (Z_of_byte b / 16) :: hex_digit (Z_of_byte b `mod` 16) :: hex_encode bs).
  pose proof (Z_of_byte_range b). cbn [hex_decode].
  rewrite !Hd by (split; [try apply Z.div_pos; try apply Z.mod_pos_bound|try apply Z.div_lt_upper_bound; try apply Z.mod_pos_bound]; lia).
  rewrite IH. cbn. do 2 f_equal. rewrite <- (byte_of_Z_of_byte b) at 3. f_equal. pose proof (Z.div_mod (Z_of_byte b) 16). lia.
Qed.

Lemma parsed_tag_has_no_commit `{WebhookJson} body :
  CommitSHA (parseGitHubCreate body) = "" ∧ CommitSHA (parseGitLabTagPush body) = "".
Proof.
  unfold parseGitHubCreate, parseGitLabTagPush. split; repeat case_match; done.
Qed.

(** What is known of an event handed on with the type [t]. *)
Definition fires (resp : response) (event : WebhookEvent) : Prop :=
  resp = accepted ∧ CommitSHA event ≠ "" ∧ (EventType event = TriggerPush ∨ EventType event = TriggerPullRequest).

Lemma dispatch_fires t e resp event :
  t = TriggerPush ∨ t = TriggerPullRequest → dispatch (with_type t e) = (resp, Some event) → fires resp event.
Proof.
  intros Ht E. pose proof (dispatch_some _ _ _ E) as [-> Hc]. unfold fires. split_and!; [|done|done].
  unfold dispatch in E. rewrite bool_decide_eq_false_2 in E by done. by injection E.
Qed.

Lemma handleGitHub_fires `{WebhookJson} head_diff cfg body sig eventType resp event :
  handleGitHub head_diff cfg body sig eventType = (resp, Some event) →
  fires resp event ∧ ∃ text, body = Some text ∧ (GitHubSecret cfg ≠ "" → verifyGitHubSignature cfg sig text = true).
Proof.
  unfold handleGitHub. destruct body as [body|]; [|by intros [= _ E]].
  destruct (bool_decide _ && negb _) eqn:Esig; [by intros [= _ E]|]. intros E. split.
  - revert E. bool_case (eventType = "push") as E1; [apply dispatch_fires; by left|].
    bool_case (eventType = "pull_request") as E2; [apply dispatch_fires; by right|].
    bool_case (eventType = "create") as E3; [|by intros [= _ E]]. intros (_ & Hc)%dispatch_some. by destruct (parsed_tag_has_no_commit body).
  - exists body. split; [done|]. intros Hs. rewrite bool_decide_eq_true_2 in Esig by done. by apply negb_false_iff in Esig.
Qed.

Lemma handleGitLab_fires `{WebhookJson} cfg body token eventType resp event :
  handleGitLab cfg body token eventType = (resp, Some event) →
  fires resp event ∧ (GitLabSecret cfg ≠ "" → token = GitLabSecret cfg).
Proof.
  unfold handleGitLab. destruct (bool_decide _ && negb _) eqn:Esig; [by intros [= _ E]|].
  destruct body as [body|]; [|by intros [= _ E]]. intros E. split.
  - revert E. bool_case (eventType = "Push Hook") as E1; [apply dispatch_fires; by left|].
    bool_case (eventType = "Merge Request Hook") as E2; [apply dispatch_fires; by right|].
    bool_case (eventType = "Tag Push Hook") as E3; [|by intros [= _ E]]. intros (_ & Hc)%dispatch_some. by destruct (parsed_tag_has_no_commit body).
  - intros Hs. rewrite bool_decide_eq_true_2 in Esig by done. apply negb_false_iff in Esig.
    unfold verifyGitLabSignature in Esig. by bool_hyps.
Qed.

(** a webhook request makes the handler process an event only if it
    names a commit and, where a secret is configured for its forge, carries
    the HMAC of the body or the token; such an event is a push or a pull
    request, never a tag, so that a pipeline triggered by tags alone is never
    started by a webhook. *)
Theorem webhook_events `{WebhookJson} head_diff cfg req resp event :
  ServeHTTP head_diff cfg req = (resp, Some event) →
  resp = accepted ∧ CommitSHA event ≠ "" ∧
  (EventType event = TriggerPush ∨ EventType event = TriggerPullRequest) ∧
  ((x_github_event req ≠ "" ∧ ∃ body, req_body req = Some body ∧
      (GitHubSecret cfg ≠ "" → hex_decode (bytes_of_string (str_drop 7 (x_hub_signature req))) =
         Some (hmac_sha256 (bytes_of_string (GitHubSecret cfg)) (bytes_of_string body)))) ∨
   (x_gitlab_event req ≠ "" ∧ (GitLabSecret cfg ≠ "" → x_gitlab_token req = GitLabSecret cfg))) ∧
  ∀ c, Push (On c) = None → PullRequest (On c) = None → MatchEvent c event = false.
Proof.
  intros E. assert (fires resp event → ∀ c, Push (On c) = None → PullRequest (On c) = None → MatchEvent c event = false) as Hm.
  { intros (_ & _ & Ht) c Hp Hq. unfold MatchEvent. destruct Ht as [-> | ->]; by rewrite ?Hp, ?Hq. }
  unfold ServeHTTP in E. case_bool_decide; [by injection E|]. revert E. bool_case (x_github_event req ≠ "") as Egh.
  - intros [(? & ? & ?) (body & Eb & Hs)]%handleGitHub_fires. split_and!; [done..| |by apply Hm]. left. split; [done|].
    exists body. split; [done|]. intros Hsig%Hs. unfold verifyGitHubSignature in Hsig.
    destruct (_ || _); [done|]. destruct (hex_decode _) as [sig|]; [|done]. bool_hyps. by subst.
  - bool_case (x_gitlab_event req ≠ "") as Egl; [|by intros [= _ E]].
    intros [(? & ? & ?) Hs]%handleGitLab_fires. split_and!; [done..| |by apply Hm]. by right.
Qed.

(** The test vector of RFC 4231, case 2. *)
Example hmac_jefe : hex_EncodeToString (hmac_sha256 (bytes_of_string "Jefe") (bytes_of_string "what do ya want for nothing?")) =
  "5bdcc146bf60754e6a042426089575c75a003f089d2739839dec58b964ec3843"%string.
Proof. vm_compute. reflexivity. Qed.

(** ** Examples *)

Definition demo_json : WebhookJson :=
  {| unmarshal_github_push _ := Some (mkGitHubPush "refs/heads/main" "c0ffee" "dev" "https://github.com/o/r" []);
     unmarshal_github_pr _ := None; unmarshal_github_create _ := None; unmarshal_gitlab_push _ := None;
     unmarshal_gitlab_mr _ := None; unmarshal_gitlab_tag _ := None |}.
Definition demo_http : http_request :=
  mkHttp "POST" "push" "" ("sha256=" +:+ hex_EncodeToString (hmac_sha256 (bytes_of_string "k") (bytes_of_string "{}"))) "" (Some "{}").

Lemma webhook_events_witness :
  ∃ event, @ServeHTTP demo_json [] (mkWebhookConfig "k" "") demo_http = (accepted, Some event) ∧ EventType event ≠ TriggerTag.
Proof.
  eexists. assert (@ServeHTTP demo_json [] (mkWebhookConfig "k" "") demo_http =
    (accepted, Some (mkEvent TriggerPush "c0ffee" "main" "" 0 "https://github.com/o/r" "dev" []))) as E by (vm_compute; reflexivity).
  refine (conj E _). destruct (@webhook_events demo_json [] (mkWebhookConfig "k" "") demo_http _ _ E) as (_ & _ & [Ht|Ht] & _);
    rewrite Ht; discriminate.
Defined.
