(* ===== verification/Guardian.v ===== *)
(** * Guardian paths and their versions

    Model of internal/router: guardian_path_mapper.go (logical paths to
    storage locations and back), cleanGuardianRelativePath of
    guardian_inject.go, guardian_version_store.go (the version history behind
    optimistic locking), and the checks and commits of processGuardianUpsert
    and authorizeGuardianMutation in guardian_paths.go.

    Writing the files to the storage nodes is the argument [stored] of an
    upsert. *)

From stdpp Require Import options.
From S2P Require Import Prelude GoStrings GoFmt GoHash GoPath GoRange Sharding.

(** ** Path mapping *)

Record guardianPhysicalPath := mkPhysical
  { LogicalPath : string; DisplayPath : string; RelativePath : string; StorageID : string }.

Inductive path_error :=
| PathRequired | NotManaged | DotDot | MissingPartition | MissingVersion | OutsideNamespace
| RootWithoutPath | InvalidDisplayPath | NotManagedDisplay.

Definition cleanGuardianRelativePath (input : string) : string :=
  let cleaned := TrimSpace input in
  if bool_decide (cleaned = "") then ""
  else
    let cleaned := Clean (TrimPrefix cleaned "/") in
    if bool_decide (cleaned = ".") then "" else cleaned.

Definition normalizeGuardianLogicalPath (input : string) : result path_error string :=
  let cleaned := TrimSpace input in
  if bool_decide (cleaned = "") then Err PathRequired
  else
    let cleaned := if negb (HasPrefix cleaned "/") then "/" +:+ cleaned else cleaned in
    let cleaned := Clean cleaned in
    if bool_decide (cleaned = ".") || bool_decide (cleaned = "/") then Err NotManaged
    else if Contains cleaned ".." then Err DotDot
    else Ok cleaned.

Definition system_roots : list string := [".queues"; ".archive"; ".scans"; ".pipelines"; ".registry"; ".access"].

Definition mapGuardianLogicalPath (logicalPath : string) : result path_error guardianPhysicalPath :=
  let! cleaned := normalizeGuardianLogicalPath logicalPath in
  let trimmed := TrimPrefix cleaned "/" in
  let parts := Split trimmed slash in
  let location displayPath relativePath :=
    mkPhysical cleaned displayPath (cleanGuardianRelativePath relativePath) (GenerateStorageID displayPath) in
  match parts with
  | [] => Err OutsideNamespace
  | root :: rest =>
      if bool_decide (root = "partitions") then
        match rest with
        | name :: rest => if bool_decide (TrimSpace name = "") then Err MissingPartition
                          else Ok (location ("guardian/" +:+ name) (Join rest "/"))
        | [] => Err MissingPartition
        end
      else if bool_decide (root = "doctor") then
        match rest with
        | name :: rest => if bool_decide (TrimSpace name = "") then Err MissingVersion
                          else Ok (location (Join [root; name] "/") (Join rest "/"))
        | [] => Err MissingVersion
        end
      else if bool_decide (root ∈ system_roots) then Ok (location "guardian-system" trimmed)
      else Err OutsideNamespace
  end.

Definition under_base (base relativePath : string) : string :=
  if bool_decide (relativePath = "") then base else base +:+ "/" +:+ relativePath.

Definition guardianLogicalPathFromPhysical (displayPath relativePath : string) : result path_error string :=
  let displayPath := TrimSpace displayPath in
  let relativePath := cleanGuardianRelativePath relativePath in
  if bool_decide (displayPath = "guardian-system") then
    if bool_decide (relativePath = "") then Err RootWithoutPath
    else if existsb (λ root, HasPrefix relativePath (root +:+ "/")) system_roots then Ok ("/" +:+ relativePath)
    else Err NotManagedDisplay
  else if HasPrefix displayPath "doctor/" then
    let version := TrimPrefix displayPath "doctor/" in
    if bool_decide (version = "") || Contains version "/" then Err InvalidDisplayPath
    else Ok (under_base ("/doctor/" +:+ version) relativePath)
  else if HasPrefix displayPath "guardian/" then
    let partition := TrimPrefix displayPath "guardian/" in
    if bool_decide (partition = "") then Err InvalidDisplayPath
    else Ok (under_base ("/partitions/" +:+ partition) relativePath)
  else Err NotManagedDisplay.

Definition guardianDisplayPathJoin (displayPath relativePath : string) : string :=
  if bool_decide (relativePath = "") then displayPath else displayPath +:+ "/" +:+ relativePath.

(** ** Authorization of mutations *)

Record guardianPrincipal := mkPrincipal { PrincipalID : string; Role : string }.

(** [strings.CutPrefix(id, "guardian-pusher-")] with a non-empty rest. *)
Definition pusher_name (p : guardianPrincipal) : option string :=
  if HasPrefix (PrincipalID p) "guardian-pusher-" then
    let name := TrimPrefix (PrincipalID p) "guardian-pusher-" in
    if bool_decide (name = "") then None else Some name
  else None.

Definition at_or_under (path root : string) : bool := bool_decide (path = root) || HasPrefix path (root +:+ "/").

(** The first segments of the path name the pusher. *)
Definition own_namespace (p : guardianPrincipal) (parts : list string) : bool :=
  match pusher_name p, parts with
  | Some name, first :: _ :: _ => bool_decide (first = name)
  | _, _ => false
  end.

(** Deletes may touch claims only, writes claims and results. *)
Definition claims_or_results (deleteOp : bool) (parts : list string) : bool :=
  match parts with
  | _ :: second :: _ => if deleteOp then bool_decide (second = ".claims")
                        else bool_decide (second = ".claims") || bool_decide (second = ".results")
  | _ => false
  end.

Definition authorizeGuardianMutation (principal : option guardianPrincipal) (path : string) (deleteOp : bool) : bool :=
  match principal with
  | None => false
  | Some p =>
      if bool_decide (Role p = "control-plane") || bool_decide (Role p = "cli") then true
      else if bool_decide (Role p = "pipeline") then at_or_under path "/.pipelines" || at_or_under path "/.queues"
      else if bool_decide (Role p = "doctor") then at_or_under path "/doctor" || at_or_under path "/partitions/doctor-system"
      else if bool_decide (Role p = "pusher") then
        if Contains path "/.state/" then
          own_namespace p (Split (TrimPrefix (TrimPrefix path "/.queues/") "/.scans/") slash)
        else if HasPrefix path "/.registry/probes/" then
          own_namespace p (Split (TrimPrefix path "/.registry/probes/") slash)
        else if HasPrefix path "/.scans/" then
          let parts := Split (TrimPrefix path "/.scans/") slash in own_namespace p parts && claims_or_results deleteOp parts
        else if negb (HasPrefix path "/.queues/") then false
        else
          let parts := Split (TrimPrefix path "/.queues/") slash in own_namespace p parts && claims_or_results deleteOp parts
      else false
  end.

(** ** The version store *)

Record storedGuardianFileVersion := mkVersion
  { VLogicalPath : string; VDisplayPath : string; VStorageID : string; VersionID : string; BatchRevisionID : string;
    ContentSHA256 : string; CommittedAt : Z; Tombstone : bool; VPrincipalID : string; Reason : string;
    CorrelationID : string; Content : bytes }.

Record guardianVersionCommit := mkCommit
  { CLogicalPath : string; CDisplayPath : string; CStorageID : string; CBatchRevisionID : string; CPrincipalID : string;
    CReason : string; CCorrelationID : string; CContent : bytes; CTombstone : bool; CCommittedAt : Z }.

Record guardianVersionStore := mkStore
  { records : gmap string (list storedGuardianFileVersion); current : gmap string string;
    ephemeral : gmap string storedGuardianFileVersion; seq : Z; dirty : bool }.

Definition newGuardianVersionStore : guardianVersionStore := mkStore ∅ ∅ ∅ 0 false.

Definition maxVersionsPerPath : nat := 50.

Definition isGuardianAssetPath (logicalPath : string) : bool :=
  if HasPrefix logicalPath "/.queues/" || HasPrefix logicalPath "/.archive/" then false
  else forallb (λ seg, negb (HasPrefix seg ".")) (Split logicalPath slash).

Definition bool_string (b : bool) : string := if b then "true" else "false".

(** ["%d"] of an [int64]. *)
Definition dec_int (n : Z) : string := if bool_decide (n < 0) then "-" +:+ dec (- n) else dec n.

Definition guardianVersionID (logicalPath contentSHA batchRevisionID : string) (committedAt seq : Z) (tombstone : bool) : string :=
  let text := logicalPath +:+ "|" +:+ contentSHA +:+ "|" +:+ batchRevisionID +:+ "|" +:+ dec_int committedAt +:+ "|" +:+ dec seq +:+ "|" +:+ bool_string tombstone in
  "ver_" +:+ dec_int committedAt +:+ "_" +:+ str_take 12 (hex_EncodeToString (sha256 (bytes_of_string text))).

(** The record [commit] makes, under the sequence number [n]. *)
Definition version_of (n : Z) (change : guardianVersionCommit) : storedGuardianFileVersion :=
  let sha := if bool_decide (CContent change = []) then "" else hex_EncodeToString (sha256 (CContent change)) in
  mkVersion (CLogicalPath change) (CDisplayPath change) (CStorageID change)
    (guardianVersionID (CLogicalPath change) sha (CBatchRevisionID change) (CCommittedAt change) n (CTombstone change))
    (CBatchRevisionID change) sha (CCommittedAt change) (CTombstone change) (CPrincipalID change) (CReason change)
    (CCorrelationID change) (CContent change).

(** [s[len(s)-max:]] when the slice is longer. *)
Definition keep_last {A} (max : nat) (l : list A) : list A := drop (length l - max) l.

Definition commit (change : guardianVersionCommit) (s : guardianVersionStore) : guardianVersionStore * storedGuardianFileVersion :=
  let n := wrap 64 (seq s + 1) in
  let record := version_of n change in
  let path := CLogicalPath change in
  if negb (isGuardianAssetPath path) then
    if CTombstone change then (mkStore (records s) (current s) (delete path (ephemeral s)) n (dirty s), record)
    else (mkStore (records s) (current s) (<[path := record]> (ephemeral s)) n (dirty s), record)
  else
    let history := keep_last maxVersionsPerPath (default [] (records s !! path) ++ [record]) in
    (mkStore (<[path := history]> (records s)) (<[path := VersionID record]> (current s)) (ephemeral s) n true, record).

(** The newest record with the identifier. *)
Definition find_version (id : string) (l : list storedGuardianFileVersion) : option storedGuardianFileVersion :=
  find (λ v, bool_decide (VersionID v = id)) (rev l).

Definition currentVersion (logicalPath : string) (s : guardianVersionStore) : option storedGuardianFileVersion :=
  match ephemeral s !! logicalPath with
  | Some r => Some r
  | None => id ← current s !! logicalPath; find_version id (default [] (records s !! logicalPath))
  end.

Definition get (logicalPath versionID : string) (s : guardianVersionStore) : option storedGuardianFileVersion :=
  let history := find (λ v, bool_decide (VersionID v = versionID)) (default [] (records s !! logicalPath)) in
  match ephemeral s !! logicalPath with
  | Some r => if bool_decide (VersionID r = versionID) then Some r else history
  | None => history
  end.

Definition listCurrentUnderPrefix `{GoRange} (prefix : string) (limit : Z) (s : guardianVersionStore) : list storedGuardianFileVersion :=
  let prefix := if bool_decide (prefix ≠ "") && negb (HasSuffix prefix "/") then prefix +:+ "/" else prefix in
  let limit := if bool_decide (limit ≤ 0) then 1000 else limit in
  let paths := remove_dups ((range 30 (current s)).*1 ++ (range 31 (ephemeral s)).*1) in
  let found := omap (λ p, if HasPrefix p prefix then
                            match currentVersion p s with
                            | Some v => if Tombstone v then None else Some (p, v)
                            | None => None
                            end
                          else None) paths in
  take (Z.to_nat limit) (merge_sort (λ a b, String.le a.1 b.1) found).*2.

(** One page of the history, newest first; [offset] is the parsed token. *)
Definition list_versions (logicalPath : string) (pageSize offset : Z) (s : guardianVersionStore) : list storedGuardianFileVersion * option Z :=
  let pageSize := if bool_decide (pageSize ≤ 0) then 50 else pageSize in
  match ephemeral s !! logicalPath with
  | Some r => if bool_decide (offset > 0) then ([], None) else ([r], None)
  | None =>
      let newestFirst := rev (default [] (records s !! logicalPath)) in
      let len := Z.of_nat (length newestFirst) in
      if bool_decide (len ≤ offset) then ([], None)
      else
        let end_ := Z.min (offset + pageSize) len in
        (take (Z.to_nat (end_ - offset)) (drop (Z.to_nat offset) newestFirst),
         if bool_decide (end_ < len) then Some end_ else None)
  end.

(** What a snapshot keeps of a version: everything but the content. *)
Definition persisted (v : storedGuardianFileVersion) : storedGuardianFileVersion :=
  mkVersion (VLogicalPath v) (VDisplayPath v) (VStorageID v) (VersionID v) (BatchRevisionID v) (ContentSHA256 v)
    (CommittedAt v) (Tombstone v) (VPrincipalID v) (Reason v) (CorrelationID v) [].

Definition snapshot (s : guardianVersionStore) : gmap string (list storedGuardianFileVersion) * gmap string string :=
  (fmap (M := gmap string) (map persisted) (records s), current s).

Definition pruneMachineryLocked (s : guardianVersionStore) : guardianVersionStore :=
  let kept := filter (λ '(p, _), isGuardianAssetPath p = true) (records s) in
  mkStore kept (filter (λ '(p, _), records s !! p = None ∨ isGuardianAssetPath p = true) (current s))
    (ephemeral s) (seq s) (dirty s || bool_decide (size kept ≠ size (records s))).

(** [load] of a decoded snapshot into a new store. *)
Definition load (snap : gmap string (list storedGuardianFileVersion) * gmap string string) : guardianVersionStore :=
  pruneMachineryLocked (mkStore snap.1 snap.2 ∅ 0 false).

(** ** Upserts

    [processGuardianUpsert] checks every write of a request against the
    current versions, then stores the files, then commits.  No lock is held
    across the three: other requests run between them. *)

Record GuardianPathWrite := mkWrite { WLogicalPath : string; WContent : bytes; ExpectedVersionId : string }.

Inductive upsert_error :=
| NoWrites | InvalidPath (e : path_error) | NotAFile | PermissionDenied | AlreadyExists | FailedPrecondition | Internal.

(** The current version, unless it is a deletion. *)
Definition live (path : string) (s : guardianVersionStore) : option storedGuardianFileVersion :=
  match currentVersion path s with
  | Some v => if Tombstone v then None else Some v
  | None => None
  end.

Definition check_expected (expected : string) (now : option storedGuardianFileVersion) : result upsert_error unit :=
  let expected := TrimSpace expected in
  if bool_decide (expected = "") then Ok tt
  else if bool_decide (expected = "absent") then
    match now with Some _ => Err AlreadyExists | None => Ok tt end
  else
    match now with
    | Some v => if bool_decide (VersionID v = expected) then Ok tt else Err FailedPrecondition
    | None => Err FailedPrecondition
    end.

Definition plan_write (principal : guardianPrincipal) (s : guardianVersionStore) (w : GuardianPathWrite)
    : result upsert_error (GuardianPathWrite * guardianPhysicalPath) :=
  match mapGuardianLogicalPath (WLogicalPath w) with
  | Err e => Err (InvalidPath e)
  | Ok mapped =>
      if bool_decide (RelativePath mapped = "") then Err NotAFile
      else if negb (authorizeGuardianMutation (Some principal) (LogicalPath mapped) false) then Err PermissionDenied
      else let! _ := check_expected (ExpectedVersionId w) (live (LogicalPath mapped) s) in Ok (w, mapped)
  end.

(** The first part of a request. *)
Definition plan_upsert (principal : guardianPrincipal) (writes : list GuardianPathWrite) (s : guardianVersionStore)
    : result upsert_error (list (GuardianPathWrite * guardianPhysicalPath)) :=
  if bool_decide (length writes = 0%nat) then Err NoWrites else rmap (plan_write principal s) writes.

Record batch := mkBatch { b_revision : string; b_committed : Z; b_reason : string; b_correlation : string }.

Definition commit_of (principal : guardianPrincipal) (b : batch) (plan : GuardianPathWrite * guardianPhysicalPath) : guardianVersionCommit :=
  let '(w, mapped) := plan in
  mkCommit (LogicalPath mapped) (DisplayPath mapped) (StorageID mapped) (b_revision b) (PrincipalID principal) (b_reason b)
    (b_correlation b) (WContent w) false (b_committed b).

(** The last part: the commits in order, with the versions made. *)
Fixpoint commit_all (changes : list guardianVersionCommit) (s : guardianVersionStore) : guardianVersionStore * list storedGuardianFileVersion :=
  match changes with
  | [] => (s, [])
  | c :: changes => let '(s, v) := commit c s in let '(s, vs) := commit_all changes s in (s, v :: vs)
  end.

(** A request that nothing interrupts. *)
Definition processGuardianUpsert (principal : guardianPrincipal) (b : batch) (stored : bool) (writes : list GuardianPathWrite)
    (s : guardianVersionStore) : guardianVersionStore * result upsert_error (list storedGuardianFileVersion) :=
  match plan_upsert principal writes s with
  | Err e => (s, Err e)
  | Ok plans =>
      if negb stored then (s, Err Internal)
      else let '(s, vs) := commit_all (commit_of principal b <$> plans) s in (s, Ok vs)
  end.
