(* ===== verification/GuardianProps.v ===== *)
(** * Guardian paths and their versions: theorems

    The mapping of logical paths to storage locations can be inverted, the
    version store behaves like a map from paths to their last commit, and the
    create-only check of an upsert is exclusive for requests that run one
    after the other but not for requests that overlap. *)

From stdpp Require Import options.
From S2P Require Import Prelude GoStrings GoHash GoPath GoRange Guardian.

(** ** Trimmed names *)

Definition trimmed (bs : bytes) : Prop := space_width false bs = 0%nat ∧ space_width true (rev bs) = 0%nat.

Lemma trimmed_TrimSpace s : TrimSpace s = s ↔ trimmed (bytes_of_string s).
Proof.
  unfold TrimSpace, trim_space_bytes, trimmed. set (bs := bytes_of_string s). split.
  - intros E. apply (f_equal bytes_of_string) in E. rewrite bytes_of_string_of_bytes in E. fold bs in E.
    assert (trim_run false 0 bs = bs) as Ef.
    { destruct (trim_run_suffix false 0 bs) as [k Hk]. assert (length bs ≤ length (trim_run false 0 bs))%nat as Hlen.
      { rewrite <- E at 1. rewrite length_rev. destruct (trim_run_suffix true 0 (rev (trim_run false 0 bs))) as [k' Hk'].
        apply (f_equal length) in Hk'. rewrite length_rev, length_app in Hk'. lia. }
      rewrite Hk in Hlen at 1. rewrite length_app in Hlen. destruct k; [done|]. cbn [length] in Hlen. lia. }
    split; [rewrite <- Ef; apply trim_run_start|]. rewrite Ef in E. rewrite <- E, rev_involutive. apply trim_run_start.
  - intros [Hf Ht]. rewrite (trim_run_id false bs Hf), (trim_run_id true (rev bs) Ht), rev_involutive.
    apply string_of_bytes_of_string.
Qed.

(** A slash ends what may be a white-space character. *)
Lemma space_width_slash b bs rest : bs ≠ [] → space_width b bs = 0%nat → space_width b (bs ++ slash :: rest) = 0%nat.
Proof.
  assert (∀ x, space2 x slash = false ∧ space2 slash x = false) as H2.
  { intros x. unfold space2. split; apply bool_decide_eq_false_2; change (Z_of_byte slash) with 47; lia. }
  assert (∀ x y, space3 x slash y = false ∧ space3 x y slash = false ∧ space3 slash x y = false) as H3.
  { intros x y. unfold space3. split_and!; apply bool_decide_eq_false_2; change (Z_of_byte slash) with 47; lia. }
  destruct bs as [|x [|y [|z bs]]]; [done|..]; intros _; destruct b; unfold space_width; cbn [app]; try done.
  all: repeat case_match; try done.
  all: repeat match goal with
    | H : space2 slash ?x = true |- _ => by rewrite (proj2 (H2 x)) in H
    | H : space2 ?x slash = true |- _ => by rewrite (proj1 (H2 x)) in H
    | H : space3 ?x slash ?y = true |- _ => by rewrite (proj1 (H3 x y)) in H
    | H : space3 ?x ?y slash = true |- _ => by rewrite (proj1 (proj2 (H3 x y))) in H
    | H : space3 slash ?x ?y = true |- _ => by rewrite (proj2 (proj2 (H3 x y))) in H
    end.
Qed.

Lemma TrimSpace_join a b : a ≠ "" → b ≠ "" → TrimSpace a = a → TrimSpace b = b → TrimSpace (a +:+ "/" +:+ b) = a +:+ "/" +:+ b.
Proof.
  intros Ha Hb [Ha1 Ha2]%trimmed_TrimSpace [Hb1 Hb2]%trimmed_TrimSpace. apply trimmed_TrimSpace.
  assert (∀ s, s ≠ "" → bytes_of_string s ≠ []) as Hne by (intros [|? ?] ?; done).
  unfold trimmed. rewrite !bytes_of_app. change (bytes_of_string "/") with [slash]. cbn [app]. split.
  - apply space_width_slash; auto.
  - rewrite rev_app_distr. cbn [rev]. rewrite <- app_assoc. cbn [app]. apply space_width_slash; [|done].
    intros E. apply (Hne b Hb). rewrite <- (rev_involutive (bytes_of_string b)), E. done.
Qed.

Lemma guardian_Join_ne es : es ≠ [] → Forall (λ e, e ≠ "") es → Join es "/" ≠ "".
Proof.
  destruct es as [|e [|e' es]]; [done|..]; intros _ He; apply Forall_cons_1 in He as [He _].
  - done.
  - rewrite Join_cons by done. destruct e; [done|]. done.
Qed.

Lemma TrimSpace_Join es :
  es ≠ [] → Forall (λ e, e ≠ "") es → Forall (λ e, TrimSpace e = e) es → TrimSpace (Join es "/") = Join es "/".
Proof.
  induction es as [|e es IH]; [done|]. intros _ [He Hes]%Forall_cons_1 [Te Tes]%Forall_cons_1.
  destruct es as [|e' es]; [done|]. rewrite Join_cons by done.
  apply TrimSpace_join; [done|by apply guardian_Join_ne|done|]. by apply IH.
Qed.

(** ** Cleaned paths *)

Lemma Clean_rooted s : HasPrefix s "/" = true → ∃ ms, Clean s = "/" +:+ Join ms "/" ∧ Forall proper_elem ms.
Proof.
  intros Hs. unfold Clean. rewrite Hs. destruct (clean_shape true (Split s slash) (Split_no_sep _ _)) as (k & ms & E & Hms & Hk).
  rewrite E, (Hk eq_refl), app_nil_r. exists (rev ms). split; [done|]. by apply Forall_rev.
Qed.

Lemma proper_plain es : Forall proper_elem es → Forall (λ e, e ≠ "") es ∧ Forall (λ e, has_byte slash e = false) es.
Proof. intros H. split; (eapply Forall_impl; [exact H|]; by intros e (? & ? & ? & ?)). Qed.

Lemma Join_proper_head es : Forall proper_elem es → HasPrefix (Join es "/") "/" = false.
Proof.
  destruct es as [|e es]; [done|]. intros [(He & _ & _ & Hs) _]%Forall_cons_1. destruct e as [|a e]; [done|].
  cbn [has_byte] in Hs. apply orb_false_iff in Hs as [Hs _]. apply bool_decide_eq_false in Hs.
  assert (∃ r, Join (String a e :: es) "/" = String a r) as [r ->] by (destruct es; by eexists).
  destruct (HasPrefix (String a r) "/") eqn:E; [|done]. apply HasPrefix_spec in E as [r' E]. by injection E as -> _.
Qed.

Lemma Clean_proper es : es ≠ [] → Forall proper_elem es → Clean (Join es "/") = Join es "/".
Proof.
  intros Hne Hes. unfold Clean. rewrite (Join_proper_head es Hes), Split_Join by (done || by apply proper_plain).
  rewrite foldl_clean_proper by done. rewrite app_nil_r, rev_involutive. by rewrite bool_decide_eq_false_2.
Qed.

Lemma normalize_shape input c :
  normalizeGuardianLogicalPath input = Ok c → ∃ ms, ms ≠ [] ∧ Forall proper_elem ms ∧ c = "/" +:+ Join ms "/".
Proof.
  unfold normalizeGuardianLogicalPath. case_bool_decide; [done|]. set (s := if negb _ then _ else _).
  assert (HasPrefix s "/" = true) as Hs.
  { unfold s. destruct (HasPrefix (TrimSpace input) "/") eqn:E; [exact E|]. apply HasPrefix_app. }
  destruct (Clean_rooted s Hs) as (ms & -> & Hms).
  destruct (bool_decide _ || bool_decide _) eqn:E; [done|]. destruct (Contains _ _); [done|]. intros [= <-].
  exists ms. split_and!; [|done..]. intros ->. apply orb_false_iff in E as [_ E]. by apply bool_decide_eq_false in E.
Qed.

Lemma cleanRelative_tidy es :
  Forall proper_elem es → Forall (λ e, TrimSpace e = e) es → cleanGuardianRelativePath (Join es "/") = Join es "/".
Proof.
  intros Hes Ht. destruct (decide (es = [])) as [->|Hne]; [done|]. unfold cleanGuardianRelativePath.
  destruct (proper_plain es Hes) as [Hn Hs]. rewrite TrimSpace_Join by done.
  rewrite bool_decide_eq_false_2 by by apply guardian_Join_ne.
  unfold TrimPrefix. rewrite (Join_proper_head es Hes), Clean_proper by done.
  rewrite bool_decide_eq_false_2; [done|]. intros E. apply (f_equal (λ s, Split s slash)) in E.
  rewrite Split_Join in E by done. subst. by apply Forall_cons_1 in Hes as [(_ & ? & _) _].
Qed.

(** ** The mapping and its inverse *)

(** No segment begins or ends with white space. *)
Definition tidy_path (p : string) : Prop := Forall (λ e, TrimSpace e = e) (Split p slash).

Lemma tidy_segments ms : ms ≠ [] → Forall proper_elem ms → tidy_path ("/" +:+ Join ms "/") → Forall (λ e, TrimSpace e = e) ms.
Proof.
  intros Hne Hms. unfold tidy_path. change ("/" +:+ Join ms "/") with ("" +:+ str1 slash +:+ Join ms "/").
  rewrite Split_app, Split_Join by (done || by apply proper_plain). by intros [_ ?]%Forall_cons_1.
Qed.

Lemma under_base_Join base es : Forall proper_elem es → under_base base (Join es "/") = Join (base :: es) "/".
Proof.
  intros Hes. unfold under_base. destruct es as [|e es]; [done|].
  rewrite bool_decide_eq_false_2 by (apply guardian_Join_ne; [done|by apply proper_plain]). by rewrite (Join_cons base (e :: es)).
Qed.

Lemma display_tidy root name : TrimSpace root = root → root ≠ "" → name ≠ "" → TrimSpace name = name →
  TrimSpace (root +:+ "/" +:+ name) = root +:+ "/" +:+ name.
Proof. intros. by apply TrimSpace_join. Qed.

Lemma Contains_slash s : has_byte slash s = false → Contains s "/" = false.
Proof.
  intros Hs. destruct (Contains s "/") eqn:E; [|done]. apply Contains_spec in E as (a & b & ->).
  rewrite !has_byte_app in Hs. apply orb_false_iff in Hs as [_ Hs]. done.
Qed.

(** The two kinds of paths with a name below a root. *)
Lemma named_inverts (root display name : string) rest :
  proper_elem name → TrimSpace name = name → Forall proper_elem rest → Forall (λ e, TrimSpace e = e) rest →
  (display = "guardian" ∧ root = "partitions") ∨ (display = "doctor" ∧ root = "doctor") →
  guardianLogicalPathFromPhysical (display +:+ "/" +:+ name) (cleanGuardianRelativePath (Join rest "/")) =
  Ok ("/" +:+ Join (root :: name :: rest) "/").
Proof.
  intros Hn Tn Hr Tr Hd. unfold guardianLogicalPathFromPhysical. destruct Hn as (Hne & _ & _ & Hs).
  rewrite (cleanRelative_tidy rest Hr Tr), (cleanRelative_tidy rest Hr Tr).
  rewrite (display_tidy display name) by (destruct Hd as [[-> _]|[-> _]]; done).
  rewrite bool_decide_eq_false_2 by (destruct Hd as [[-> _]|[-> _]]; done).
  destruct Hd as [[-> ->]|[-> ->]].
  - change (HasPrefix ("guardian" +:+ "/" +:+ name) "doctor/") with false. cbn match.
    change ("guardian" +:+ "/" +:+ name) with ("guardian/" +:+ name). rewrite HasPrefix_app, TrimPrefix_app.
    rewrite bool_decide_eq_false_2 by done. rewrite under_base_Join by done. by destruct rest.
  - change ("doctor" +:+ "/" +:+ name) with ("doctor/" +:+ name). rewrite HasPrefix_app, TrimPrefix_app.
    rewrite bool_decide_eq_false_2 by done. cbn [orb]. rewrite (Contains_slash name Hs).
    rewrite under_base_Join by done. by destruct rest.
Qed.

Lemma system_inverts root rest :
  root ∈ system_roots → rest ≠ [] → Forall proper_elem (root :: rest) → Forall (λ e, TrimSpace e = e) (root :: rest) →
  guardianLogicalPathFromPhysical "guardian-system" (cleanGuardianRelativePath (Join (root :: rest) "/")) =
  Ok ("/" +:+ Join (root :: rest) "/").
Proof.
  intros Hroot Hrest Hp Ht. unfold guardianLogicalPathFromPhysical. rewrite !cleanRelative_tidy by done.
  change (TrimSpace "guardian-system") with "guardian-system". rewrite bool_decide_eq_true_2 by done.
  rewrite bool_decide_eq_false_2 by (apply guardian_Join_ne; [done|by apply proper_plain]).
  assert (existsb (λ r, HasPrefix (Join (root :: rest) "/") (r +:+ "/")) system_roots = true) as ->; [|done].
  apply existsb_elem. exists root. split; [done|]. rewrite Join_cons by done.
  apply HasPrefix_spec. exists (Join rest "/"). by rewrite str_app_assoc.
Qed.

(** C34: the storage location of a logical path determines it.  For every
    path the mapper accepts, whose segments have no white space at their ends
    and which is not a bare system root, mapping the location back gives the
    normalized logical path. *)
Theorem guardian_mapping_inverts logicalPath m :
  mapGuardianLogicalPath logicalPath = Ok m → tidy_path (LogicalPath m) →
  TrimPrefix (LogicalPath m) "/" ∉ system_roots →
  guardianLogicalPathFromPhysical (DisplayPath m) (RelativePath m) = Ok (LogicalPath m).
Proof.
  unfold mapGuardianLogicalPath. destruct (normalizeGuardianLogicalPath logicalPath) as [c|] eqn:En; cbn [rbind]; [|done].
  apply normalize_shape in En as (ms & Hne & Hms & ->). rewrite TrimPrefix_app, Split_Join by (done || by apply proper_plain).
  destruct ms as [|root rest]; [done|].
  pose proof (tidy_segments (root :: rest) Hne Hms) as Htidy.
  bool_case (root = "partitions") as E1; [|bool_case (root = "doctor") as E2; [|bool_case (root ∈ system_roots) as E3; [|done]]].
  - destruct rest as [|name rest]; [done|]. case_bool_decide; [done|]. intros [= <-] Ht _.
    specialize (Htidy Ht). cbn [DisplayPath RelativePath LogicalPath] in *. subst.
    apply Forall_cons_1 in Htidy as [_ [Tn Tr]%Forall_cons_1]. apply Forall_cons_1 in Hms as [_ [Hn Hr]%Forall_cons_1].
    apply (named_inverts "partitions" "guardian"); auto.
  - destruct rest as [|name rest]; [done|]. case_bool_decide; [done|]. intros [= <-] Ht _.
    specialize (Htidy Ht). cbn [DisplayPath RelativePath LogicalPath] in *. subst.
    apply Forall_cons_1 in Htidy as [_ [Tn Tr]%Forall_cons_1]. apply Forall_cons_1 in Hms as [_ [Hn Hr]%Forall_cons_1].
    apply (named_inverts "doctor" "doctor"); auto.
  - intros [= <-] Ht Hbare. specialize (Htidy Ht). cbn [DisplayPath RelativePath LogicalPath] in *.
    rewrite TrimPrefix_app in Hbare. apply system_inverts; [done| |done|done]. intros ->. by destruct Hbare.
Qed.

(** With white space at the end of a segment two logical paths share a location. *)
Example spaces_alias :
  match mapGuardianLogicalPath "/partitions/p/ x", mapGuardianLogicalPath "/partitions/p/x" with
  | Ok a, Ok b => LogicalPath a ≠ LogicalPath b ∧ DisplayPath a = DisplayPath b ∧ RelativePath a = RelativePath b
  | _, _ => False
  end.
Proof. vm_compute. done. Qed.

(** ** The version store *)

(** What the store promises: the last commit of every path, where deleting a
    machinery path forgets it. *)
Definition spec_commit (change : guardianVersionCommit) (v : storedGuardianFileVersion) (m : gmap string storedGuardianFileVersion)
    : gmap string storedGuardianFileVersion :=
  if CTombstone change && negb (isGuardianAssetPath (CLogicalPath change)) then delete (CLogicalPath change) m
  else <[CLogicalPath change := v]> m.

(** Well-formed stores: assets have a history of at most fifty versions whose
    last one is current, the others at most one version, in memory. *)
Record wf_store (s : guardianVersionStore) : Prop := {
  wf_asset p l : records s !! p = Some l → isGuardianAssetPath p = true ∧ (length l ≤ maxVersionsPerPath)%nat;
  wf_current p : current s !! p = (l ← records s !! p; VersionID <$> last l);
  wf_history p l : records s !! p = Some l → l ≠ [];
  wf_ephemeral p : is_Some (ephemeral s !! p) → isGuardianAssetPath p = false;
  wf_path p v : currentVersion p s = Some v → VLogicalPath v = p;
  wf_seq : 0 ≤ seq s < 2 ^ 64 }.

Lemma find_last id l v : last l = Some v → VersionID v = id → find_version id l = Some v.
Proof.
  intros Hl Hv. apply last_Some in Hl as [l' ->]. unfold find_version. rewrite rev_app_distr. cbn.
  by rewrite bool_decide_eq_true_2.
Qed.

Lemma length_keep_last {A} n (l : list A) : (length (keep_last n l) ≤ n)%nat.
Proof. unfold keep_last. rewrite length_drop. lia. Qed.

Lemma last_keep_last {A} n (l : list A) x : (0 < n)%nat → last (keep_last n (l ++ [x])) = Some x.
Proof.
  intros Hn. unfold keep_last. rewrite length_app. cbn [length]. rewrite drop_app_le by lia. apply last_snoc.
Qed.

Lemma commit_current change s s' v p :
  commit change s = (s', v) →
  (∀ q, is_Some (ephemeral s !! q) → isGuardianAssetPath q = false) →
  (∀ q, isGuardianAssetPath q = false → current s !! q = None) →
  currentVersion p s' = if bool_decide (p = CLogicalPath change)
                        then (if CTombstone change && negb (isGuardianAssetPath p) then None else Some v)
                        else currentVersion p s.
Proof.
  unfold commit. intros E He Hc. destruct (isGuardianAssetPath (CLogicalPath change)) eqn:Ea; cbn [negb] in E.
  - injection E as <- <-. unfold currentVersion. cbn [ephemeral current records]. bool_case (p = CLogicalPath change) as Ep; [subst p|].
    + rewrite Ea, andb_false_r. destruct (ephemeral s !! _) as [r|] eqn:Er; [|rewrite !lookup_insert_eq; cbn; apply find_last; [|done]; apply last_keep_last; unfold maxVersionsPerPath; lia].
      specialize (He (CLogicalPath change)). rewrite Er, Ea in He. by specialize (He ltac:(by eexists)).
    + by rewrite !lookup_insert_ne by congruence.
  - destruct (CTombstone change) eqn:Et; injection E as <- <-; unfold currentVersion; cbn [ephemeral current records]; bool_case (p = CLogicalPath change) as Ep.
    + subst p. rewrite Ea, lookup_delete_eq, Hc by done. done.
    + by rewrite lookup_delete_ne by congruence.
    + subst p. by rewrite lookup_insert_eq.
    + by rewrite lookup_insert_ne by congruence.
Qed.

Lemma commit_version change s s' v : commit change s = (s', v) → v = version_of (wrap 64 (seq s + 1)) change.
Proof. unfold commit. repeat case_match; by intros [= _ <-]. Qed.

Lemma wf_machinery s p : wf_store s → isGuardianAssetPath p = false → current s !! p = None.
Proof.
  intros Hwf Hp. rewrite (wf_current _ Hwf). destruct (records s !! p) as [l|] eqn:E; [|done].
  apply (wf_asset _ Hwf) in E as [E _]. congruence.
Qed.

Lemma commit_wf change s s' v : wf_store s → commit change s = (s', v) → wf_store s'.
Proof.
  intros Hwf E. pose proof (commit_current change s s' v) as Hcur.
  pose proof (commit_version _ _ _ _ E) as Hv.
  assert (∀ p w, currentVersion p s' = Some w → VLogicalPath w = p) as Hpath.
  { intros p w. rewrite (Hcur p E (wf_ephemeral _ Hwf)) by (intros; by apply wf_machinery).
    case_bool_decide; [|apply (wf_path _ Hwf)]. destruct (_ && _); [done|]. intros [= <-]. by rewrite Hv. }
  assert (0 ≤ wrap 64 (seq s + 1) < 2 ^ 64) as Hseq by (unfold wrap; apply Z.mod_pos_bound; lia).
  destruct Hwf as [Ha Hc Hh He _ _]. unfold commit in E. destruct (isGuardianAssetPath (CLogicalPath change)) eqn:Ea; cbn [negb] in E.
  - injection E as <- _. split; cbn [records current ephemeral seq]; try done.
    + intros p l [[<- <-]|[_ Hl]]%lookup_insert_Some; [|by apply Ha]. split; [done|apply length_keep_last].
    + intros p. destruct (decide (CLogicalPath change = p)) as [<-|Hne].
      * rewrite !lookup_insert_eq. cbn. rewrite last_keep_last by (unfold maxVersionsPerPath; lia). done.
      * rewrite !lookup_insert_ne by done. apply Hc.
    + intros p l [[<- <-]|[_ Hl]]%lookup_insert_Some; [|by eapply Hh].
      intros E. assert (last (keep_last maxVersionsPerPath (default [] (records s !! CLogicalPath change) ++ [version_of (wrap 64 (seq s + 1)) change])) = Some (version_of (wrap 64 (seq s + 1)) change)) as Hl
        by (apply last_keep_last; unfold maxVersionsPerPath; lia). by rewrite E in Hl.
  - destruct (CTombstone change); injection E as <- _; split; cbn [records current ephemeral seq]; try done.
    + intros p [w Hw]. apply lookup_delete_Some in Hw as [_ Hw]. apply He. by eexists.
    + intros p [w [[<- _]|[_ Hw]]%lookup_insert_Some]; [done|]. apply He. by eexists.
Qed.

Lemma wf_new : wf_store newGuardianVersionStore.
Proof. split; try done; intros p [? ?]; done. Qed.

(** The specification of a sequence of commits. *)
Definition spec_commits (l : list (guardianVersionCommit * storedGuardianFileVersion)) (m : gmap string storedGuardianFileVersion)
    : gmap string storedGuardianFileVersion := foldl (λ m '(c, v), spec_commit c v m) m l.

Lemma commit_refines change s s' v m :
  wf_store s → commit change s = (s', v) → (∀ p, currentVersion p s = m !! p) →
  ∀ p, currentVersion p s' = spec_commit change v m !! p.
Proof.
  intros Hwf E Hm p. rewrite (commit_current change s s' v p E (wf_ephemeral _ Hwf)) by (intros; by apply wf_machinery).
  unfold spec_commit. bool_case (p = CLogicalPath change) as Ep.
  - subst p. destruct (_ && _); [by rewrite lookup_delete_eq|by rewrite lookup_insert_eq].
  - destruct (_ && _); [by rewrite lookup_delete_ne by congruence|by rewrite lookup_insert_ne by congruence].
Qed.

Lemma commit_all_refines changes s s' vs m :
  wf_store s → commit_all changes s = (s', vs) → (∀ p, currentVersion p s = m !! p) →
  wf_store s' ∧ length vs = length changes ∧ ∀ p, currentVersion p s' = spec_commits (zip changes vs) m !! p.
Proof.
  revert s m vs. induction changes as [|c changes IH]; intros s m vs Hwf E Hm; cbn [commit_all] in E.
  { injection E as <- <-. done. }
  destruct (commit c s) as [s1 v] eqn:E1. destruct (commit_all changes s1) as [s2 vs2] eqn:E2. injection E as <- <-.
  destruct (IH s1 (spec_commit c v m) vs2) as (? & ? & ?); [by eapply commit_wf|done|by eapply commit_refines|].
  split_and!; [done|cbn; lia|done].
Qed.

(** ** Restart *)

Lemma find_persisted id l : find_version id (map persisted l) = persisted <$> find_version id l.
Proof.
  unfold find_version. rewrite <- map_rev. induction (rev l) as [|v k IH]; [done|]. cbn.
  by destruct (bool_decide (VersionID v = id)).
Qed.

Lemma lookup_filter_keep {A} (P : string * A → Prop) `{∀ x, Decision (P x)} (m : gmap string A) p :
  (∀ x, P (p, x)) → filter P m !! p = m !! p.
Proof.
  intros HP. destruct (m !! p) as [x|] eqn:E; [by apply map_lookup_filter_Some_2|].
  apply map_lookup_filter_None_2. by left.
Qed.

(** A restarted store knows the assets, without their content. *)
Lemma load_snapshot s p :
  wf_store s → currentVersion p (load (snapshot s)) =
  if isGuardianAssetPath p then persisted <$> currentVersion p s else None.
Proof.
  intros Hwf. unfold currentVersion, load, pruneMachineryLocked, snapshot. cbn [ephemeral current records fst snd].
  rewrite lookup_empty. destruct (isGuardianAssetPath p) eqn:Ea.
  - destruct (ephemeral s !! p) as [r|] eqn:Er.
    { pose proof (wf_ephemeral _ Hwf p) as He. rewrite Er in He. specialize (He ltac:(by eexists)). congruence. }
    rewrite !lookup_filter_keep, lookup_fmap by auto. destruct (current s !! p) as [id|]; cbn; [|done].
    rewrite <- find_persisted. by destruct (records s !! p).
  - rewrite (map_lookup_filter_None_2 _ (current s) p); [done|]. left. by apply wf_machinery.
Qed.

(** C23: whatever is committed, the store is well formed and answers as a map
    from paths to their last committed version would: assets keep their
    deletions as versions, other paths are forgotten when deleted.  Restarting
    from the snapshot keeps exactly the assets, without their content. *)
Theorem version_store_refines_map changes :
  let '(s, vs) := commit_all changes newGuardianVersionStore in
  wf_store s ∧ length vs = length changes ∧
  (∀ p, currentVersion p s = spec_commits (zip changes vs) ∅ !! p) ∧
  (∀ p, currentVersion p (load (snapshot s)) = if isGuardianAssetPath p then persisted <$> currentVersion p s else None).
Proof.
  destruct (commit_all changes newGuardianVersionStore) as [s vs] eqn:E.
  destruct (commit_all_refines changes _ s vs ∅ wf_new E) as (Hwf & Hlen & Hspec); [done|].
  split_and!; [done..|]. intros p. by apply load_snapshot.
Qed.

(** ** Concurrent upserts *)

Record request := mkRequest { rq_principal : guardianPrincipal; rq_batch : batch; rq_writes : list GuardianPathWrite }.

(** Requests that passed the checks and those that have committed. *)
Record system := mkSystem
  { sy_store : guardianVersionStore; sy_planned : list (request * list (GuardianPathWrite * guardianPhysicalPath));
    sy_done : list (request * list storedGuardianFileVersion) }.

Inductive step : system → system → Prop :=
| step_plan rq plans s planned done_ :
    plan_upsert (rq_principal rq) (rq_writes rq) s = Ok plans →
    step (mkSystem s planned done_) (mkSystem s (planned ++ [(rq, plans)]) done_)
| step_commit rq plans s s' vs l k done_ :
    commit_all (commit_of (rq_principal rq) (rq_batch rq) <$> plans) s = (s', vs) →
    step (mkSystem s (l ++ (rq, plans) :: k) done_) (mkSystem s' (l ++ k) (done_ ++ [(rq, vs)])).

(** A request that creates the file at [path]. *)
Definition creates (rq : request) (path : string) : Prop :=
  ∃ w m, rq_writes rq = [w] ∧ mapGuardianLogicalPath (WLogicalPath w) = Ok m ∧ LogicalPath m = path ∧
    TrimSpace (ExpectedVersionId w) = "absent".

(** What accepts such a request. *)
Lemma plan_creates rq path s plans :
  creates rq path → plan_upsert (rq_principal rq) (rq_writes rq) s = Ok plans →
  (∃ w m, plans = [(w, m)] ∧ LogicalPath m = path) ∧
  ∀ s', plan_upsert (rq_principal rq) (rq_writes rq) s' =
    match live path s' with Some _ => Err AlreadyExists | None => Ok plans end.
Proof.
  intros (w & m & Hw & Hm & Hp & Ha). unfold plan_upsert, plan_write. rewrite Hw. cbn [length rmap].
  rewrite bool_decide_eq_false_2 by done. rewrite Hm.
  bool_case (RelativePath m = "") as Er; [done|]. destruct (authorizeGuardianMutation _ _ _); cbn [negb]; [|done].
  unfold check_expected. rewrite Ha. change (bool_decide ("absent" = "")) with false. change (bool_decide ("absent" = "absent")) with true.
  cbn match. rewrite Hp. destruct (live path s); cbn [rbind]; [done|]. intros [= <-].
  split; [by eauto|]. intros s'. by destruct (live path s').
Qed.

Lemma commit_live principal b w m s :
  wf_store s → is_Some (live (LogicalPath m) (commit (commit_of principal b (w, m)) s).1).
Proof.
  intros Hwf. destruct (commit _ s) as [s' v] eqn:E. cbn [fst]. unfold live.
  rewrite (commit_current _ s s' v _ E (wf_ephemeral _ Hwf)) by (intros; by apply wf_machinery).
  rewrite bool_decide_eq_true_2 by done. cbn [commit_of CTombstone andb].
  rewrite (commit_version _ _ _ _ E). by eexists.
Qed.

(** creating a file is exclusive among requests that run one after the
    other: the second is refused.  It is not among requests that overlap:
    when both pass their checks before either commits, both succeed. *)
Theorem create_only_races rq1 rq2 path s plans1 plans2 :
  wf_store s → creates rq1 path → creates rq2 path →
  plan_upsert (rq_principal rq1) (rq_writes rq1) s = Ok plans1 →
  plan_upsert (rq_principal rq2) (rq_writes rq2) s = Ok plans2 →
  (∃ s1 vs, processGuardianUpsert (rq_principal rq1) (rq_batch rq1) true (rq_writes rq1) s = (s1, Ok vs) ∧
     processGuardianUpsert (rq_principal rq2) (rq_batch rq2) true (rq_writes rq2) s1 = (s1, Err AlreadyExists)) ∧
  (∃ s' vs1 vs2, rtc step (mkSystem s [] []) (mkSystem s' [] [(rq1, vs1); (rq2, vs2)])).
Proof.
  intros Hwf Hc1 Hc2 E1 E2. destruct (plan_creates _ _ _ _ Hc1 E1) as [(w1 & m1 & -> & Hm1) _].
  destruct (plan_creates _ _ _ _ Hc2 E2) as [_ Hs2]. split.
  - unfold processGuardianUpsert at 1. rewrite E1. cbn [negb]. destruct (commit_all _ s) as [s1 vs] eqn:Ec.
    exists s1, vs. split; [done|]. unfold processGuardianUpsert. rewrite Hs2.
    assert (is_Some (live path s1)) as [v ->]; [|done].
    pose proof (commit_live (rq_principal rq1) (rq_batch rq1) w1 m1 s Hwf) as Hl. rewrite Hm1 in Hl.
    change (commit_of (rq_principal rq1) (rq_batch rq1) <$> [(w1, m1)]) with [commit_of (rq_principal rq1) (rq_batch rq1) (w1, m1)] in Ec.
    cbn [commit_all] in Ec. destruct (commit _ s) as [s2 v2]. injection Ec as <- _. done.
  - destruct (commit_all (commit_of (rq_principal rq1) (rq_batch rq1) <$> [(w1, m1)]) s) as [s1 vs1] eqn:Ec1.
    destruct (commit_all (commit_of (rq_principal rq2) (rq_batch rq2) <$> plans2) s1) as [s2 vs2] eqn:Ec2.
    exists s2, vs1, vs2. eapply rtc_l; [by apply (step_plan rq1)|]. eapply rtc_l; [by apply (step_plan rq2)|].
    eapply rtc_l; [by apply (step_commit rq1 _ s s1 vs1 [])|]. eapply rtc_l; [by apply (step_commit rq2 plans2 s1 s2 vs2 [] [])|].
    apply rtc_refl.
Qed.

(** ** Examples *)

Lemma guardian_mapping_inverts_witness :
  guardianLogicalPathFromPhysical "guardian/web" "intents/a.yaml" = Ok "/partitions/web/intents/a.yaml".
Proof.
  refine (guardian_mapping_inverts "partitions/web//intents/./a.yaml"
    (mkPhysical "/partitions/web/intents/a.yaml" "guardian/web" "intents/a.yaml" (Sharding.GenerateStorageID "guardian/web")) _ _ _).
  - vm_compute. reflexivity.
  - unfold tidy_path. vm_compute Split. repeat constructor.
  - intros Hin. unfold system_roots in Hin.
    do 6 (apply elem_of_cons in Hin as [Hin|Hin]; [vm_compute in Hin; discriminate Hin|]). by apply elem_of_nil in Hin.
Defined.

(** Two workers that are told of the same task. *)
Definition demo_claim (worker : string) : request :=
  mkRequest (mkPrincipal worker "control-plane") (mkBatch "batch_1" 100 "" "")
    [mkWrite "/.queues/pipeline/r1/.claims/t1.json" (bytes_of_string worker) "absent"].
Definition demo_claim_path : string := "/.queues/pipeline/r1/.claims/t1.json".
Definition demo_claim_plan (worker : string) : list (GuardianPathWrite * guardianPhysicalPath) :=
  [(mkWrite demo_claim_path (bytes_of_string worker) "absent",
    mkPhysical demo_claim_path "guardian-system" ".queues/pipeline/r1/.claims/t1.json" (Sharding.GenerateStorageID "guardian-system"))].

Lemma create_only_races_witness :
  ∃ s' vs1 vs2, rtc step (mkSystem newGuardianVersionStore [] []) (mkSystem s' [] [(demo_claim "w1", vs1); (demo_claim "w2", vs2)]).
Proof.
  refine (proj2 (create_only_races (demo_claim "w1") (demo_claim "w2") demo_claim_path newGuardianVersionStore
    (demo_claim_plan "w1") (demo_claim_plan "w2") wf_new _ _ _ _)).
  - eexists _, _. refine (conj eq_refl (conj _ (conj _ eq_refl))); [vm_compute; reflexivity|reflexivity].
  - eexists _, _. refine (conj eq_refl (conj _ (conj _ eq_refl))); [vm_compute; reflexivity|reflexivity].
  - vm_compute. reflexivity.
  - vm_compute. reflexivity.
Defined.
