(* ===== verification/WorkspaceWAL.v ===== *)
(** * The workspace store's write-ahead log

    Model of internal/storage/workspacestore/wal.go at the level of file
    names and bytes: segments ["wal-%06d.log"], one JSON document per line,
    rotation, replay above a sequence number, and deletion of compacted
    segments.

    The log directory maps file names to contents.  Calls that may fail take
    their outcome as an argument; a failed write may have written any prefix
    of its data.  encoding/json is the class [WalJson]. *)

From stdpp Require Import options.
From S2P Require Import Prelude GoStrings GoFmt GoSort.

Abbreviation maxSegmentSize := (64 * 1024 * 1024) (only parsing).
(** The scanner's limit on a line. *)
Abbreviation maxLine := (16 * 1024 * 1024) (only parsing).

Abbreviation EntityKind := string (only parsing).
Abbreviation KindJob := "JOB" (only parsing).
Abbreviation KindBundle := "BUNDLE" (only parsing).
Abbreviation KindAudit := "AUDIT" (only parsing).
Abbreviation KindLedger := "LEDGER" (only parsing).

Abbreviation WalOp := string (only parsing).
Abbreviation OpUpsert := "UPSERT" (only parsing).
Abbreviation OpInsert := "INSERT" (only parsing).

Record WALEntry := mkEntry { Seq : Z; TS : Z; Op : WalOp; Kind : EntityKind; Data : string }.
#[export] Instance WALEntry_eq_dec : EqDecision WALEntry.
Proof. solve_decision. Defined.

Definition carriage_return : ascii := "013".

(** What encoding/json promises: an entry whose [Data] is itself the output
    of [json.Marshal] is marshalled to one line, an object ending in a brace,
    that reads back as the entry; no proper prefix of it is a document, nor
    one with another entry's line behind it. *)
Class WalJson := {
  marshal_entry : WALEntry → option string;
  unmarshal_entry : string → option WALEntry;
  json_text : string → Prop;
  marshal_entry_ok e : json_text (Data e) → ∃ s, marshal_entry e = Some s;
  marshal_entry_line e s : json_text (Data e) → marshal_entry e = Some s →
    unmarshal_entry s = Some e ∧ s ≠ "" ∧ has_byte newline s = false ∧
    HasSuffix s (str1 carriage_return) = false;
  marshal_entry_cut e s k : json_text (Data e) → marshal_entry e = Some s →
    (0 < k < String.length s)%nat → unmarshal_entry (TrimSuffix (str_take k s) (str1 carriage_return)) = None;
  marshal_entry_glued e s k e' s' : json_text (Data e) → marshal_entry e = Some s →
    json_text (Data e') → marshal_entry e' = Some s' →
    (0 < k < String.length s)%nat → unmarshal_entry (str_take k s +:+ s') = None }.

(** ** Reading a segment *)

(** [bufio.ScanLines]: lines without their end, a final line without newline
    included, an empty rest not. *)
Definition scan_lines (content : string) : list string :=
  let parts := Split content newline in
  if bool_decide (last parts = Some "") then removelast parts else parts.

Definition drop_cr (line : string) : string := TrimSuffix line (str1 carriage_return).

Abbreviation wal_dir := (gmap string string).

Section wal.
  Context `{WalJson}.

(** The entries up to the first line that is too long for the scanner, and
    whether there was one ([bufio.ErrTooLong]). *)
Fixpoint scan_entries (lines : list string) : list WALEntry * bool :=
  match lines with
  | [] => ([], false)
  | raw :: lines =>
      if bool_decide (maxLine ≤ Z.of_nat (String.length raw)) then ([], true)
      else
        let line := drop_cr raw in
        let '(es, err) := scan_entries lines in
        if bool_decide (line = "") then (es, err)
        else match unmarshal_entry line with
             | None => (es, err)
             | Some e => (e :: es, err)
             end
  end.
Definition readSegmentEntries (content : string) : list WALEntry * bool := scan_entries (scan_lines content).

(** ** Segments *)

(** [w_open] is false once the active file is closed. *)
Record walWriter := mkWal { segmentIdx : Z; segmentSize : Z; w_open : bool }.

Definition segmentPath (idx : Z) : string := "wal-" +:+ dec_pad 6 idx +:+ ".log".

Definition segment_index (name : string) : option Z :=
  if HasPrefix name "wal-" && HasSuffix name ".log"
  then ParseUint (TrimSuffix (TrimPrefix name "wal-") ".log")
  else None.

Definition listSegments (dir : wal_dir) : list Z :=
  merge_sort Z.le (omap segment_index (map_to_list dir).*1).

(** [openSegment(idx, true)]; [open_ok] is the outcome of [os.OpenFile], and
    [Stat] on the open file succeeds. *)
Definition openSegment (open_ok : bool) (w : walWriter) (dir : wal_dir) (idx : Z)
    : walWriter * wal_dir * bool :=
  if negb open_ok then (mkWal (segmentIdx w) (segmentSize w) false, dir, false)
  else
    let content := default "" (dir !! segmentPath idx) in
    (mkWal idx (Z.of_nat (String.length content)) true, <[segmentPath idx := content]> dir, true).

Definition newWALWriter (open_ok : bool) (dir : wal_dir) : option (walWriter * wal_dir) :=
  let idx := default 1 (last (listSegments dir)) in
  let '(w, dir, ok) := openSegment open_ok (mkWal idx 0 false) dir idx in
  if ok then Some (w, dir) else None.

Definition rotateSegmentLocked (open_ok : bool) (w : walWriter) (dir : wal_dir) : walWriter * wal_dir * bool :=
  let idx := segmentIdx w + 1 in
  openSegment open_ok (mkWal idx (segmentSize w) false) dir idx.

Inductive wal_error := MarshalEntry | RotateSegment | WriteEntry.

(** How far [Write] gets: everything, or a prefix and an error. *)
Inductive write_outcome := WroteAll | WroteSome (n : nat).

Definition write_active (out : write_outcome) (w : walWriter) (dir : wal_dir) (data : string)
    : walWriter * wal_dir * bool :=
  if negb (w_open w) then (w, dir, false)
  else
    let name := segmentPath (segmentIdx w) in
    let content := default "" (dir !! name) in
    match out with
    | WroteAll => (mkWal (segmentIdx w) (segmentSize w + Z.of_nat (String.length data)) true,
                   <[name := content +:+ data]> dir, true)
    | WroteSome n => (w, <[name := content +:+ str_take n data]> dir, false)
    end.

Definition Append (open_ok : bool) (out : write_outcome) (w : walWriter) (dir : wal_dir) (e : WALEntry)
    : walWriter * wal_dir * result wal_error unit :=
  match marshal_entry e with
  | None => (w, dir, Err MarshalEntry)
  | Some s =>
      let data := s +:+ str1 newline in
      let '(w, dir, rok) :=
        if bool_decide (segmentSize w > 0 ∧ segmentSize w + Z.of_nat (String.length data) > maxSegmentSize)
        then rotateSegmentLocked open_ok w dir else (w, dir, true) in
      if negb rok then (w, dir, Err RotateSegment)
      else
        let '(w, dir, wok) := write_active out w dir data in
        (w, dir, if wok then Ok tt else Err WriteEntry)
  end.

Definition TotalSize (dir : wal_dir) : Z :=
  foldr (λ idx n, Z.of_nat (String.length (default "" (dir !! segmentPath idx))) + n) 0 (listSegments dir).

(** ** Replay and deletion *)

(** The loop over the segments; [None] when a segment cannot be opened.  The
    scanner's [ErrTooLong] is recoverable: the entries before the long line
    count. *)
Fixpoint replay_loop (dir : wal_dir) (aboveSeq : Z) (segs : list Z) : option (list WALEntry) :=
  match segs with
  | [] => Some []
  | seg :: segs =>
      content ← dir !! segmentPath seg;
      rest ← replay_loop dir aboveSeq segs;
      Some (filter (λ e, aboveSeq < Seq e) (readSegmentEntries content).1 ++ rest)
  end.
Definition ReplayEntries `{GoSort} (dir : wal_dir) (aboveSeq : Z) : option (list WALEntry) :=
  all ← replay_loop dir aboveSeq (listSegments dir);
  Some (sort_slice (λ a b, bool_decide (Seq a < Seq b)) all).

(** One iteration of [DeleteSegmentsBelow]; [remove_ok] is the outcome of
    [os.Remove]. *)
Definition delete_segment (w : walWriter) (belowSeq : Z) (remove_ok : bool) (dir : wal_dir) (seg : Z) : wal_dir :=
  if bool_decide (seg = segmentIdx w) then dir
  else
    match dir !! segmentPath seg with
    | None => dir
    | Some content =>
        let '(es, err) := readSegmentEntries content in
        if err then dir
        else if forallb (λ e, bool_decide (Seq e ≤ belowSeq)) es && bool_decide (es ≠ []) && remove_ok
        then delete (segmentPath seg) dir
        else dir
    end.

Definition DeleteSegmentsBelow (w : walWriter) (belowSeq : Z) (remove_ok : Z → bool) (dir : wal_dir) : wal_dir :=
  foldl (λ dir seg, delete_segment w belowSeq (remove_ok seg) dir seg) dir (listSegments dir).

Definition Close (w : walWriter) : walWriter := mkWal (segmentIdx w) (segmentSize w) false.

End wal.
