(* ===== verification/WorkspaceWALProps.v ===== *)
(** * Properties of the write-ahead log

    A log directory is seen as a map from segment numbers to entries
    ([wal_rep]); this file shows what reading, replaying, appending, rotating
    and deleting do to that map. *)

From stdpp Require Import options.
From S2P Require Import Prelude GoStrings GoFmt GoSort WorkspaceWAL.

Section wal.
  Context `{WalJson}.
  Implicit Types (es : list WALEntry) (segs : gmap N (list WALEntry)).

(** ** Lines *)

Definition line (e : WALEntry) : string := default "" (marshal_entry e).

(** An entry the store logs: its data is JSON, and its line fits the scanner. *)
Definition loggable (e : WALEntry) : Prop :=
  json_text (Data e) ∧ Z.of_nat (String.length (line e)) < maxLine.

Fixpoint log_bytes (es : list WALEntry) : string :=
  match es with [] => "" | e :: es => line e +:+ str1 newline +:+ log_bytes es end.

Lemma line_marshal e : json_text (Data e) → marshal_entry e = Some (line e).
Proof. intros He. unfold line. by destruct (marshal_entry_ok e He) as [s ->]. Qed.

Lemma line_facts e :
  loggable e →
  unmarshal_entry (drop_cr (line e)) = Some e ∧ drop_cr (line e) ≠ "" ∧ has_byte newline (line e) = false.
Proof.
  intros [He _]. destruct (marshal_entry_line e _ He (line_marshal e He)) as (Hu & Hne & Hn & Hcr).
  unfold drop_cr, TrimSuffix. by rewrite Hcr.
Qed.

Lemma log_bytes_app es es' : log_bytes (es ++ es') = log_bytes es +:+ log_bytes es'.
Proof. induction es as [|e es IH]; [done|]. simpl. by rewrite IH, !str_app_assoc. Qed.

Lemma Split_log es t :
  Forall loggable es → Split (log_bytes es +:+ t) newline = (line <$> es) ++ Split t newline.
Proof.
  induction 1 as [|e es He Hes IH]; [done|]. cbn [log_bytes]. rewrite !str_app_assoc.
  rewrite Split_app by apply (line_facts e He). by rewrite IH.
Qed.

Lemma scan_lines_log es t :
  Forall loggable es → has_byte newline t = false →
  scan_lines (log_bytes es +:+ t) = (line <$> es) ++ (if bool_decide (t = "") then [] else [t]).
Proof.
  intros Hes Ht. unfold scan_lines. rewrite Split_log, (Split_plain t), last_snoc by done.
  bool_case (t = "") as E.
  - subst t. by rewrite bool_decide_eq_true_2, removelast_last, app_nil_r.
  - by rewrite bool_decide_eq_false_2 by congruence.
Qed.

Lemma scan_entries_log es ls :
  Forall loggable es → scan_entries ((line <$> es) ++ ls) = (es ++ (scan_entries ls).1, (scan_entries ls).2).
Proof.
  induction 1 as [|e es He Hes IH]; [by simpl; destruct (scan_entries ls)|].
  change ((line <$> e :: es) ++ ls) with (line e :: ((line <$> es) ++ ls)). cbn [scan_entries].
  destruct (line_facts e He) as (Hu & Hne & _), He as [_ Hl].
  rewrite bool_decide_eq_false_2, IH, bool_decide_eq_false_2, Hu by (done || lia). done.
Qed.

(** What [readSegmentEntries] makes of whole lines and a rest without a
    newline. *)
Lemma read_log_tail es t :
  Forall loggable es → has_byte newline t = false → Z.of_nat (String.length t) < maxLine →
  readSegmentEntries (log_bytes es +:+ t) =
  (es ++ (if bool_decide (drop_cr t = "") then [] else option_list (unmarshal_entry (drop_cr t))), false).
Proof.
  intros Hes Ht Hl. unfold readSegmentEntries. rewrite scan_lines_log, scan_entries_log by done.
  bool_case (t = "") as E.
  - subst t. by rewrite bool_decide_eq_true_2 by done.
  - cbn [scan_entries]. rewrite (bool_decide_eq_false_2 (maxLine ≤ _)) by lia. bool_case (drop_cr t = "") as E'; [done|].
    by destruct (unmarshal_entry (drop_cr t)).
Qed.

Lemma read_log es : Forall loggable es → readSegmentEntries (log_bytes es) = (es, false).
Proof.
  intros Hes. rewrite <- (str_app_nil_r (log_bytes es)), read_log_tail, bool_decide_eq_true_2 by done.
  by rewrite app_nil_r.
Qed.

Lemma str_take_facts k s :
  (String.length (str_take k s) ≤ String.length s)%nat ∧
  ∀ c, has_byte c s = false → has_byte c (str_take k s) = false.
Proof.
  rewrite <- (str_take_drop k s) at 2. rewrite str_length_app. split; [lia|]. intros c.
  rewrite <- (str_take_drop k s) at 1. rewrite has_byte_app. by intros [? _]%orb_false_iff.
Qed.

(** A line cut short is skipped. *)
Lemma read_log_torn es e k :
  Forall loggable es → loggable e → (k < String.length (line e))%nat →
  readSegmentEntries (log_bytes es +:+ str_take k (line e)) = (es, false).
Proof.
  intros Hes He Hk. destruct (line_facts e He) as (_ & _ & Hn), He as [Hj Hl].
  destruct (str_take_facts k (line e)) as [Hlen Hb].
  rewrite read_log_tail by (auto || lia). bool_case (drop_cr (str_take k (line e)) = "") as E; [by rewrite app_nil_r|].
  destruct k as [|k]; [by destruct (line e)|].
  unfold drop_cr. rewrite (marshal_entry_cut e _ _ Hj (line_marshal e Hj)) by lia. by rewrite app_nil_r.
Qed.

(** ** Segments *)

Definition seg_name (i : N) : string := segmentPath (Z.of_N i).

#[export] Instance seg_name_inj : Inj (=) (=) seg_name.
Proof.
  intros i j E. unfold seg_name, segmentPath in E.
  apply (f_equal (λ s, TrimPrefix s "wal-")) in E. rewrite !TrimPrefix_app in E.
  apply str_app_inj_r, dec_pad_inj in E; lia.
Qed.

Lemma segment_index_path i : 0 ≤ i < 2 ^ 64 → segment_index (segmentPath i) = Some i.
Proof.
  intros Hi. unfold segment_index, segmentPath.
  assert (HasSuffix ("wal-" +:+ dec_pad 6 i +:+ ".log") ".log" = true) as ->.
  { apply HasSuffix_spec. exists ("wal-" +:+ dec_pad 6 i). by rewrite str_app_assoc. }
  rewrite HasPrefix_app, TrimPrefix_app, TrimSuffix_app. by apply ParseUint_dec_pad.
Qed.

(** The directory holds exactly these segments. *)
Definition wal_rep (dir : wal_dir) segs : Prop :=
  dir = kmap seg_name (log_bytes <$> segs) ∧
  map_Forall (λ i es, (i < 2 ^ 64)%N ∧ Forall loggable es) segs.

Definition seg_entries segs : list WALEntry := concat (map_to_list segs).*2.

Lemma wal_rep_lookup dir segs i : wal_rep dir segs → dir !! seg_name i = log_bytes <$> segs !! i.
Proof. intros [-> _]. by rewrite (lookup_kmap seg_name), lookup_fmap. Qed.

Lemma wal_rep_loggable dir segs i es : wal_rep dir segs → segs !! i = Some es → Forall loggable es.
Proof. intros [_ Hs] Hi. by apply (Hs i es). Qed.

Lemma elem_of_seg_entries segs e : e ∈ seg_entries segs ↔ ∃ i es, segs !! i = Some es ∧ e ∈ es.
Proof.
  unfold seg_entries. rewrite elem_of_concat. setoid_rewrite list_elem_of_fmap. split.
  - intros (es & He & [i es'] & -> & Hi%elem_of_map_to_list). eauto.
  - intros (i & es & Hi & He). exists es. split; [done|]. exists (i, es). split; [done|]. by apply elem_of_map_to_list.
Qed.

Lemma seg_entries_insert_new segs i es : segs !! i = None → seg_entries (<[i := es]> segs) ≡ₚ es ++ seg_entries segs.
Proof. intros Hi. unfold seg_entries. by rewrite map_to_list_insert. Qed.

Lemma seg_entries_lookup segs i es :
  segs !! i = Some es → seg_entries segs ≡ₚ es ++ seg_entries (delete i segs).
Proof. intros Hi. by rewrite <- (insert_delete_id segs i es Hi) at 1; rewrite seg_entries_insert_new by apply lookup_delete_eq. Qed.

Lemma seg_entries_snoc segs i es e :
  segs !! i = Some es → seg_entries (<[i := es ++ [e]]> segs) ≡ₚ e :: seg_entries segs.
Proof.
  intros Hi. rewrite (seg_entries_lookup segs i es Hi), <- insert_delete_eq.
  rewrite seg_entries_insert_new by apply lookup_delete_eq. rewrite <- app_assoc. simpl.
  by rewrite <- Permutation_middle.
Qed.

Lemma wal_rep_insert dir segs i es :
  wal_rep dir segs → (i < 2 ^ 64)%N → Forall loggable es →
  wal_rep (<[seg_name i := log_bytes es]> dir) (<[i := es]> segs).
Proof.
  intros [-> Hs] Hi Hes. split; [by rewrite fmap_insert, (kmap_insert seg_name)|].
  by apply map_Forall_insert_2.
Qed.

Lemma wal_rep_delete dir segs i : wal_rep dir segs → wal_rep (delete (seg_name i) dir) (delete i segs).
Proof.
  intros [-> Hs]. split; [by rewrite fmap_delete, (kmap_delete seg_name)|]. by apply map_Forall_delete.
Qed.

Lemma listSegments_keys dir segs :
  wal_rep dir segs → ∃ ks, listSegments dir = Z.of_N <$> ks ∧ ks ≡ₚ (map_to_list segs).*1.
Proof.
  intros [-> Hs]. unfold listSegments.
  assert (omap segment_index (map_to_list (kmap seg_name (log_bytes <$> segs))).*1 ≡ₚ Z.of_N <$> (map_to_list segs).*1) as Hp.
  { rewrite (map_to_list_kmap seg_name), map_to_list_fmap. rewrite <- !list_fmap_compose.
    assert (∀ kv, kv ∈ map_to_list segs → (kv.1 < 2 ^ 64)%N) as Hk.
    { intros [i es] Hi%elem_of_map_to_list. apply (Hs _ _ Hi). }
    revert Hk. generalize (map_to_list segs). intros l. induction l as [|[i es] l IH]; intros Hk; [done|]. simpl.
    assert (i < 2 ^ 64)%N as Hi by (apply (Hk (i, es)); left).
    unfold seg_name at 1. rewrite segment_index_path by lia.
    rewrite IH; [done|]. intros kv Hkv. apply Hk. by right. }
  rewrite <- (merge_sort_Permutation Z.le) in Hp. destruct (Permutation_map_inv _ _ Hp) as (ks & -> & Hks).
  exists ks. by split.
Qed.

(** ** Replay *)

Lemma replay_loop_keys dir segs c ks :
  wal_rep dir segs → Forall (λ k, is_Some (segs !! k)) ks →
  replay_loop dir c (Z.of_N <$> ks) =
  Some (concat ((λ k, filter (λ e, c < Seq e) (default [] (segs !! k))) <$> ks)).
Proof.
  intros Hrep. induction 1 as [|k ks [es Hk] Hks IH]; [done|].
  change (Z.of_N <$> k :: ks) with (Z.of_N k :: (Z.of_N <$> ks)). cbn [replay_loop].
  change (segmentPath (Z.of_N k)) with (seg_name k). rewrite (wal_rep_lookup _ _ _ Hrep), Hk. simpl.
  rewrite IH. simpl. by rewrite read_log, Hk by (by eapply wal_rep_loggable).
Qed.

Lemma concat_keys segs (f : list WALEntry → list WALEntry) :
  concat ((λ k, f (default [] (segs !! k))) <$> (map_to_list segs).*1) = concat (f <$> (map_to_list segs).*2).
Proof.
  f_equal. rewrite <- !list_fmap_compose. apply list_fmap_ext. intros n [k es] Hn%list_elem_of_lookup_2%elem_of_map_to_list.
  simpl. by rewrite Hn.
Qed.

Lemma filter_concat (P : WALEntry → Prop) `{!∀ e, Decision (P e)} (ls : list (list WALEntry)) :
  concat (filter P <$> ls) = filter P (concat ls).
Proof.
  induction ls as [|l ls IH]; [done|].
  change (filter P l ++ concat (filter P <$> ls) = filter P (l ++ concat ls)). by rewrite IH, filter_app.
Qed.

Lemma ReplayEntries_rep `{GoSort} dir segs c :
  wal_rep dir segs →
  ∃ l, ReplayEntries dir c = Some l ∧ l ≡ₚ filter (λ e, c < Seq e) (seg_entries segs) ∧
       sorted_by (λ a b, bool_decide (Seq a < Seq b)) l.
Proof.
  intros Hrep. destruct (listSegments_keys _ _ Hrep) as (ks & Hls & Hks).
  unfold ReplayEntries. rewrite Hls, (replay_loop_keys _ segs).
  - simpl. eexists. split; [done|]. split; [|apply sort_slice_sorted, WeakOrder_Z].
    rewrite sort_slice_perm, Hks, concat_keys. by rewrite filter_concat.
  - done.
  - apply Forall_forall. intros k. rewrite Hks. intros ([k' es] & -> & Hk%elem_of_map_to_list)%list_elem_of_fmap. by eexists.
Qed.

(** ** Appending *)

(** The writer appends to the segment with the greatest number; its file
    exists as long as it is open. *)
Definition wal_writer (w : walWriter) segs : Prop :=
  ∃ i, segmentIdx w = Z.of_N i ∧ (∀ j, is_Some (segs !! j) → (j ≤ i)%N) ∧
       (w_open w = true → is_Some (segs !! i)).

Lemma openSegment_next w dir segs i :
  wal_rep dir segs → (∀ j, is_Some (segs !! j) → (j ≤ i)%N) → (i + 1 < 2 ^ 64)%N →
  openSegment true w dir (Z.of_N (i + 1)) =
    (mkWal (Z.of_N (i + 1)) 0 true, <[seg_name (i + 1) := log_bytes []]> dir, true) ∧
  segs !! (i + 1)%N = None.
Proof.
  intros Hrep Hmax Hi. assert (segs !! (i + 1)%N = None) as Hn.
  { destruct (segs !! (i + 1)%N) eqn:E; [|done]. assert (i + 1 ≤ i)%N by (apply Hmax; by eexists). lia. }
  split; [|done]. unfold openSegment. simpl. change (segmentPath (Z.of_N (i + 1))) with (seg_name (i + 1)).
  by rewrite (wal_rep_lookup _ _ _ Hrep), Hn.
Qed.

(** The effect of writing to the active segment. *)
Lemma write_active_rep w dir segs i es s :
  wal_rep dir segs → segmentIdx w = Z.of_N i → w_open w = true → segs !! i = Some es →
  write_active WroteAll w dir s = (mkWal (segmentIdx w) (segmentSize w + Z.of_nat (String.length s)) true,
                                   <[seg_name i := log_bytes es +:+ s]> dir, true).
Proof.
  intros Hrep Hi Hop Hes. unfold write_active. rewrite Hop, Hi. change (segmentPath (Z.of_N i)) with (seg_name i).
  by rewrite (wal_rep_lookup _ _ _ Hrep), Hes.
Qed.

Lemma write_active_torn w dir segs i es s n :
  wal_rep dir segs → segmentIdx w = Z.of_N i → w_open w = true → segs !! i = Some es →
  write_active (WroteSome n) w dir s = (w, <[seg_name i := log_bytes es +:+ str_take n s]> dir, false).
Proof.
  intros Hrep Hi Hop Hes. unfold write_active. rewrite Hop, Hi. change (segmentPath (Z.of_N i)) with (seg_name i).
  by rewrite (wal_rep_lookup _ _ _ Hrep), Hes.
Qed.

Lemma rotate_rep ok w dir segs w' dir' rok :
  wal_rep dir segs → wal_writer w segs → segmentIdx w + 1 < 2 ^ 64 →
  rotateSegmentLocked ok w dir = (w', dir', rok) →
  ∃ segs', wal_rep dir' segs' ∧ wal_writer w' segs' ∧ seg_entries segs' ≡ₚ seg_entries segs.
Proof.
  intros Hrep (i & Hi & Hmax & Hop) Hlt. unfold rotateSegmentLocked.
  replace (segmentIdx w + 1) with (Z.of_N (i + 1)) by lia. destruct ok.
  - destruct (openSegment_next (mkWal (Z.of_N (i + 1)) (segmentSize w) false) dir segs i) as [-> Hn]; [done|done|lia|].
    intros [= <- <- <-]. exists (<[(i + 1)%N := []]> segs). split; [apply (wal_rep_insert dir segs (i + 1)%N []); [done|lia|done]|].
    split; [|by rewrite seg_entries_insert_new].
    exists (i + 1)%N. split; [done|]. split; [|intros _; rewrite lookup_insert_eq; by eexists].
    intros j. destruct (decide (j = i + 1)%N) as [->|]; [lia|].
    rewrite lookup_insert_ne by done. intros ?%Hmax. lia.
  - intros [= <- <- <-]. exists segs. split; [done|]. split; [|done].
    exists (i + 1)%N. split; [done|]. split; [|done]. intros j ?%Hmax. lia.
Qed.

(** A directory whose active segment ends in the first [k] bytes of [e]'s
    line. *)
Definition torn_rep (dir : wal_dir) segs (e : WALEntry) : Prop :=
  ∃ dir0 i es k, wal_rep dir0 segs ∧ segs !! i = Some es ∧
    dir = <[seg_name i := log_bytes es +:+ str_take k (line e +:+ str1 newline)]> dir0.

(** Every outcome of [Append]. *)
Lemma Append_rep ok out w dir segs e w' dir' r :
  wal_rep dir segs → wal_writer w segs → segmentIdx w + 1 < 2 ^ 64 → loggable e →
  Append ok out w dir e = (w', dir', r) →
  ∃ segs', wal_writer w' segs' ∧
    match r with
    | Ok _ => wal_rep dir' segs' ∧ seg_entries segs' ≡ₚ e :: seg_entries segs
    | Err _ => (wal_rep dir' segs' ∨ torn_rep dir' segs' e ∧ ∃ n, out = WroteSome (S n)) ∧ seg_entries segs' ≡ₚ seg_entries segs
    end.
Proof.
  intros Hrep Hw Hlt He. unfold Append. rewrite (line_marshal e (proj1 He)).
  destruct (if bool_decide _ then _ else _) as [[w1 dir1] rok] eqn:Erot.
  assert (∃ segs1, wal_rep dir1 segs1 ∧ wal_writer w1 segs1 ∧ seg_entries segs1 ≡ₚ seg_entries segs) as (segs1 & Hrep1 & Hw1 & Hp).
  { case_bool_decide; [by eapply rotate_rep|]. injection Erot as <- <- <-. eauto. }
  clear Hrep Hw Erot Hlt. destruct rok; [|intros [= <- <- <-]; eauto 6].
  destruct (w_open w1) eqn:Hop; [|unfold write_active; rewrite Hop; intros [= <- <- <-]; eauto 6].
  destruct Hw1 as (i & Hi & Hmax & Hact). destruct (Hact Hop) as [es Hes]. cbn [negb]. destruct out as [|n].
  - rewrite (write_active_rep w1 dir1 segs1 i es) by done. intros [= <- <- <-].
    exists (<[i := es ++ [e]]> segs1). split.
    + exists i. split; [done|]. split; [|intros _; rewrite lookup_insert_eq; by eexists].
      intros j Hj. destruct (decide (j = i)) as [->|]; [done|]. rewrite lookup_insert_ne in Hj by done. by apply Hmax.
    + split; [|by rewrite seg_entries_snoc, Hp].
      replace (log_bytes es +:+ line e +:+ str1 newline) with (log_bytes (es ++ [e])) by (rewrite log_bytes_app; simpl; by rewrite str_app_nil_r).
      apply wal_rep_insert; [done | by apply Hrep1 in Hes as [? _] |].
      apply Forall_app. split; [by eapply wal_rep_loggable | by apply Forall_singleton].
  - rewrite (write_active_torn w1 dir1 segs1 i es) by done. intros [= <- <- <-]. exists segs1.
    split; [by exists i|]. split; [|done]. destruct n as [|n]; [|right; split; [by exists dir1, i, es, (S n)|eauto]].
    left. replace (str_take 0 _) with "" by by destruct (line e). rewrite str_app_nil_r, insert_id; [done|].
    by rewrite (wal_rep_lookup _ _ _ Hrep1), Hes.
Qed.

(** ** Directories that read the same *)

Definition reads_as (dir dir' : wal_dir) : Prop :=
  ∀ name, readSegmentEntries <$> dir !! name = readSegmentEntries <$> dir' !! name.

Lemma reads_as_keys dir dir' : reads_as dir dir' → (map_to_list dir).*1 ≡ₚ (map_to_list dir').*1.
Proof.
  intros Hr. apply NoDup_Permutation; [apply NoDup_fst_map_to_list..|]. intros name.
  rewrite !list_elem_of_fmap. specialize (Hr name). split; intros ([n c] & -> & Hc%elem_of_map_to_list); simpl in *.
  - rewrite Hc in Hr. destruct (dir' !! n) as [c'|] eqn:E; [|done]. exists (n, c'). by rewrite elem_of_map_to_list.
  - rewrite Hc in Hr. destruct (dir !! n) as [c'|] eqn:E; [|done]. exists (n, c'). by rewrite elem_of_map_to_list.
Qed.

Lemma reads_as_segments dir dir' : reads_as dir dir' → listSegments dir = listSegments dir'.
Proof.
  intros Hr. unfold listSegments. apply (StronglySorted_unique Z.le).
  - apply StronglySorted_merge_sort; apply _.
  - apply StronglySorted_merge_sort; apply _.
  - rewrite !merge_sort_Permutation. by rewrite (reads_as_keys _ _ Hr).
Qed.

Lemma reads_as_replay `{GoSort} dir dir' c : reads_as dir dir' → ReplayEntries dir c = ReplayEntries dir' c.
Proof.
  intros Hr. unfold ReplayEntries. rewrite (reads_as_segments _ _ Hr). f_equal.
  induction (listSegments dir') as [|seg segs IH]; [done|]. cbn [replay_loop].
  specialize (Hr (segmentPath seg)). rewrite IH.
  destruct (dir !! segmentPath seg) as [c1|], (dir' !! segmentPath seg) as [c2|]; [|done..].
  injection Hr as Hr. cbn [mbind option_bind]. by rewrite Hr.
Qed.

Lemma reads_as_insert dir name c c' :
  readSegmentEntries c = readSegmentEntries c' → reads_as (<[name := c]> dir) (<[name := c']> dir).
Proof.
  intros Hc n. destruct (decide (n = name)) as [->|]; [by rewrite !lookup_insert_eq; simpl; rewrite Hc|].
  by rewrite !lookup_insert_ne.
Qed.

Lemma str_take_ge s n : (String.length s ≤ n)%nat → str_take n s = s.
Proof. revert n. induction s as [|a s IH]; intros [|n] Hn; simpl in *; [done..|lia|]. by rewrite IH by lia. Qed.

Lemma str_take_app_l a b n : (n ≤ String.length a)%nat → str_take n (a +:+ b) = str_take n a.
Proof.
  revert n. induction a as [|x a IH]; intros [|n] Hn; simpl in *; [by destruct b|lia|done|].
  change (String x a +:+ b) with (String x (a +:+ b)). cbn [str_take]. by rewrite IH by lia.
Qed.

(** Reading a torn line: the entry is there when all its bytes but perhaps
    the newline are, and otherwise it is skipped. *)
Lemma torn_line_read es e k :
  Forall loggable es → loggable e →
  readSegmentEntries (log_bytes es +:+ str_take k (line e +:+ str1 newline)) = (es, false) ∨
  readSegmentEntries (log_bytes es +:+ str_take k (line e +:+ str1 newline)) = (es ++ [e], false).
Proof.
  intros Hes He. destruct (decide (k < String.length (line e))%nat) as [Hk|Hk].
  { left. rewrite str_take_app_l by lia. by apply read_log_torn. }
  right. destruct (decide (k = String.length (line e))) as [->|Hne].
  - rewrite str_take_app. destruct (line_facts e He) as (Hu & Hd & Hn).
    rewrite read_log_tail, bool_decide_eq_false_2, Hu by (done || apply He). done.
  - rewrite str_take_ge by (rewrite str_length_app; simpl; lia).
    replace (log_bytes es +:+ line e +:+ str1 newline) with (log_bytes (es ++ [e])) by (rewrite log_bytes_app; simpl; by rewrite str_app_nil_r).
    apply read_log, Forall_app. split; [done | by apply Forall_singleton].
Qed.

Lemma torn_reads_as dir segs e :
  torn_rep dir segs e → loggable e →
  ∃ dir' segs', reads_as dir dir' ∧ wal_rep dir' segs' ∧
    (seg_entries segs' ≡ₚ seg_entries segs ∨ seg_entries segs' ≡ₚ e :: seg_entries segs).
Proof.
  intros (dir0 & i & es & k & Hrep & Hi & ->) He.
  pose proof (wal_rep_loggable _ _ _ _ Hrep Hi) as Hes. pose proof (proj2 Hrep _ _ Hi) as [Hi64 _].
  destruct (torn_line_read es e k Hes He) as [E|E].
  - exists dir0, segs. split; [|by auto]. rewrite <- (insert_id dir0 (seg_name i) (log_bytes es)) at 2.
    + apply reads_as_insert. by rewrite E, read_log.
    + by rewrite (wal_rep_lookup _ _ _ Hrep), Hi.
  - exists (<[seg_name i := log_bytes (es ++ [e])]> dir0), (<[i := es ++ [e]]> segs).
    assert (Forall loggable (es ++ [e])) by (apply Forall_app; split; [done | by apply Forall_singleton]).
    split; [|split; [by apply wal_rep_insert | right; by apply seg_entries_snoc]].
    apply reads_as_insert. by rewrite E, read_log.
Qed.

(** ** Opening *)

Lemma listSegments_last dir segs :
  wal_rep dir segs →
  match last (listSegments dir) with
  | None => segs = ∅
  | Some m => ∃ i, m = Z.of_N i ∧ is_Some (segs !! i) ∧ ∀ j, is_Some (segs !! j) → (j ≤ i)%N
  end.
Proof.
  intros Hrep. destruct (listSegments_keys _ _ Hrep) as (ks & Hls & Hks).
  assert (∀ j, j ∈ ks ↔ is_Some (segs !! j)) as Hin.
  { intros j. rewrite Hks, list_elem_of_fmap. split.
    - intros ([j' es] & -> & Hj%elem_of_map_to_list). by eexists.
    - intros [es Hj]. exists (j, es). by rewrite elem_of_map_to_list. }
  assert (StronglySorted Z.le (listSegments dir)) as Hs by (apply StronglySorted_merge_sort; apply _).
  rewrite Hls in *. destruct ks as [|i ks _] using rev_ind.
  - simpl. apply map_eq. intros j. rewrite lookup_empty. destruct (segs !! j) eqn:E; [|done].
    assert (j ∈ []) as Hj by (apply Hin; by eexists). by apply elem_of_nil in Hj.
  - rewrite fmap_app in *. simpl in *. rewrite last_snoc. exists i. split; [done|].
    split; [apply Hin; apply elem_of_app; right; by left|]. intros j Hj%Hin.
    apply elem_of_app in Hj as [Hj| ->%list_elem_of_singleton]; [|done].
    apply N2Z.inj_le, (StronglySorted_app_1_elem_of _ _ _ _ _ Hs); [by apply list_elem_of_fmap_2 | by left].
Qed.

Lemma newWALWriter_rep dir segs :
  wal_rep dir segs →
  ∃ w dir' segs', newWALWriter true dir = Some (w, dir') ∧ wal_rep dir' segs' ∧ wal_writer w segs' ∧
    seg_entries segs' ≡ₚ seg_entries segs.
Proof.
  intros Hrep. pose proof (listSegments_last _ _ Hrep) as Hl. unfold newWALWriter, openSegment.
  destruct (last (listSegments dir)) as [m|]; simpl.
  - destruct Hl as (i & -> & [es Hes] & Hmax). change (segmentPath (Z.of_N i)) with (seg_name i).
    rewrite (wal_rep_lookup _ _ _ Hrep), Hes. simpl.
    rewrite insert_id by (by rewrite (wal_rep_lookup _ _ _ Hrep), Hes).
    eexists _, _, segs. split; [done|]. split; [done|]. split; [|done]. exists i. by repeat split; [|eexists].
  - subst segs. change (segmentPath 1) with (seg_name 1). rewrite (wal_rep_lookup _ _ _ Hrep), lookup_empty. simpl.
    eexists _, _, (<[1%N := []]> ∅). split; [done|]. split; [by apply (wal_rep_insert dir ∅ 1%N [])|].
    split; [|by rewrite seg_entries_insert_new]. exists 1%N. split; [done|].
    split; [|intros _; rewrite lookup_insert_eq; by eexists].
    intros j [es Hj]. apply lookup_insert_Some in Hj as [[<- _]|[_ Hj]]; [done|by rewrite lookup_empty in Hj].
Qed.

(** ** Deletion *)

(** Only entries up to [belowSeq] go, and the writer's segment stays. *)
Lemma delete_segment_rep w c ok dir segs i :
  wal_rep dir segs → wal_writer w segs →
  ∃ segs' gone, wal_rep (delete_segment w c ok dir (Z.of_N i)) segs' ∧ wal_writer w segs' ∧
    seg_entries segs ≡ₚ gone ++ seg_entries segs' ∧ Forall (λ e, Seq e ≤ c) gone.
Proof.
  intros Hrep Hw. assert (∃ segs' gone, wal_rep dir segs' ∧ wal_writer w segs' ∧
    seg_entries segs ≡ₚ gone ++ seg_entries segs' ∧ Forall (λ e, Seq e ≤ c) gone) as Hsame by by exists segs, [].
  unfold delete_segment. case_bool_decide as Hact; [done|].
  change (segmentPath (Z.of_N i)) with (seg_name i). rewrite (wal_rep_lookup _ _ _ Hrep).
  destruct (segs !! i) as [es|] eqn:Hi; [|done]. simpl. rewrite read_log by (by eapply wal_rep_loggable).
  destruct (_ && _ && _) eqn:Hb; [|done]. bool_hyps. exists (delete i segs), es.
  split; [by apply wal_rep_delete|]. split.
  - destruct Hw as (a & Ha & Hmax & Hop). exists a. split; [done|].
    rewrite (lookup_delete_ne _ i a) by congruence. split; [|done].
    intros j [? [_ Hj]%lookup_delete_Some]. apply Hmax. by eexists.
  - split; [by apply seg_entries_lookup|]. apply Forall_forall. intros e He%list_elem_of_In.
    match goal with Hall : forallb _ es = true |- _ => apply (proj1 (forallb_forall _ _) Hall), bool_decide_eq_true in He end.
    done.
Qed.

Lemma DeleteSegmentsBelow_rep w c ok dir segs :
  wal_rep dir segs → wal_writer w segs →
  ∃ segs' gone, wal_rep (DeleteSegmentsBelow w c ok dir) segs' ∧ wal_writer w segs' ∧
    seg_entries segs ≡ₚ gone ++ seg_entries segs' ∧ Forall (λ e, Seq e ≤ c) gone.
Proof.
  intros Hrep. unfold DeleteSegmentsBelow. destruct (listSegments_keys _ _ Hrep) as (ks & -> & _).
  revert dir segs Hrep. induction ks as [|k ks IH]; intros dir segs Hrep Hw; [by exists segs, []|].
  destruct (delete_segment_rep w c (ok (Z.of_N k)) dir segs k) as (segs1 & g1 & Hr1 & Hw1 & Hp1 & Hg1); [done..|].
  destruct (IH _ _ Hr1 Hw1) as (segs2 & g2 & Hr2 & Hw2 & Hp2 & Hg2).
  exists segs2, (g1 ++ g2). split; [done|]. split; [done|]. rewrite Hp1, Hp2, app_assoc. split; [done|]. by apply Forall_app.
Qed.

Lemma HasSuffix_last s c : HasSuffix s (str1 c) = true ↔ last (bytes_of_string s) = Some c.
Proof.
  rewrite HasSuffix_spec, last_Some. split.
  - intros [r ->]. exists (bytes_of_string r). by rewrite bytes_of_app.
  - intros [l Hl]. exists (string_of_bytes l). apply bytes_of_string_inj. by rewrite bytes_of_app, bytes_of_string_of_bytes.
Qed.

Lemma HasSuffix_app_ne a b c : b ≠ "" → HasSuffix (a +:+ b) (str1 c) = HasSuffix b (str1 c).
Proof.
  intros Hb. apply eq_bool_prop_intro. rewrite !Is_true_true, !HasSuffix_last, bytes_of_app, last_app.
  destruct b as [|x b]; [done|]. change (bytes_of_string (String x b)) with (x :: bytes_of_string b).
  by destruct (last (x :: bytes_of_string b)) eqn:E; [|apply last_None in E].
Qed.

Lemma str_length_take k s : (k ≤ String.length s)%nat → String.length (str_take k s) = k.
Proof. revert k. induction s as [|a s IH]; intros [|k] Hk; simpl in *; [lia..|]. by rewrite IH by lia. Qed.

(** A line written behind a torn one is lost with it. *)
Lemma read_log_glued es e k e' :
  Forall loggable es → loggable e → loggable e' → (0 < k < String.length (line e))%nat →
  Z.of_nat (k + String.length (line e')) < maxLine →
  readSegmentEntries ((log_bytes es +:+ str_take k (line e)) +:+ line e' +:+ str1 newline) = (es, false).
Proof.
  intros Hes He He' Hk Hlen.
  destruct (line_facts e He) as (_ & _ & Hn), (line_facts e' He') as (_ & _ & Hn').
  destruct (str_take_facts k (line e)) as [_ Hb].
  rewrite str_app_assoc, <- (str_app_assoc (str_take k _)). set (t := str_take k (line e) +:+ line e').
  assert (has_byte newline t = false) as Ht by (unfold t; rewrite has_byte_app, Hn', Hb; done).
  unfold readSegmentEntries, scan_lines. rewrite Split_log by done.
  rewrite <- (str_app_nil_r (str1 newline)), (Split_app t "" newline) by done.
  change (Split "" newline) with [""]. change [t; ""] with ([t] ++ [""]).
  rewrite app_assoc, last_snoc, bool_decide_eq_true_2, removelast_last by done.
  rewrite scan_entries_log by done. cbn [scan_entries].
  destruct He as [Hj Hl], He' as [Hj' Hl'].
  assert (drop_cr t = t) as ->.
  { unfold drop_cr, TrimSuffix. destruct (HasSuffix t _) eqn:E; [|done]. exfalso.
    destruct (marshal_entry_line e' _ Hj' (line_marshal e' Hj')) as (_ & Hne & _ & Hcr).
    unfold t in E. rewrite HasSuffix_app_ne in E by done. congruence. }
  assert (String.length t = k + String.length (line e'))%nat as Hlt.
  { unfold t. rewrite str_length_app, str_length_take by lia. done. }
  rewrite !bool_decide_eq_false_2 by (try (intros E; rewrite E in Hlt; simpl in Hlt); lia).
  unfold t. rewrite (marshal_entry_glued e _ k e') by eauto using line_marshal. by rewrite app_nil_r.
Qed.
End wal.
