(* ===== verification/WorkspaceStore.v ===== *)
(** * The workspace store

    Model of internal/storage/workspacestore/store.go and types.go: jobs,
    bundle metadata, audit events and ledger entries in memory, logged to the
    write-ahead log of WorkspaceWAL.v, compacted into snapshots named by a
    checkpoint file, and recovered from both.

    [pb.WorkspaceSyncJob] is the type [Job] of the class [StoreJson], which
    also carries the JSON encodings of what the store writes.  A method that
    logs is split where the source releases its lock: the change in memory
    with the entry it produces, and [Append].  Goroutines and timers are not
    part of the model: a compaction is a step somebody takes. *)

From stdpp Require Import options.
From S2P Require Import Prelude GoStrings GoUnicode GoFmt GoSort GoFiles WorkspaceWAL.

Record BundleMetadata := mkBundle {
  BundleID : string; b_WorkspaceID : string; b_Kind : string; ByteSize : Z; RepoCount : Z;
  LocalCommitIDs : list string; CreatedAtUnix : Z; ExpiresAtUnix : Z; DiscardReason : string; b_JobID : string }.

Record AuditEvent := mkAudit {
  a_WorkspaceID : string; a_JobID : string; a_BundleID : string; a_LocalCommitID : string;
  ActorPrincipalID : string; a_Decision : string; ReasonCode : string; a_Timestamp : Z;
  CorrelationID : string; a_Seq : Z }.

Definition with_seq (a : AuditEvent) (n : Z) : AuditEvent :=
  mkAudit (a_WorkspaceID a) (a_JobID a) (a_BundleID a) (a_LocalCommitID a) (ActorPrincipalID a)
    (a_Decision a) (ReasonCode a) (a_Timestamp a) (CorrelationID a) n.

Record Checkpoint := mkCheckpoint { LastCompactedSeq : Z; SnapshotFile : string }.

Record compactedSnapshot := mkSnapshot {
  sn_Version : Z; sn_CreatedAtUnix : Z; CheckpointSeq : Z; sn_Jobs : list string;
  sn_Bundles : list BundleMetadata; sn_AuditEvents : list AuditEvent; sn_LedgerEntries : list string }.

(** A snapshot read back: the tag [json:"-"] of [AuditEvent.Seq] drops it. *)
Definition snapshot_without_seq (sn : compactedSnapshot) : compactedSnapshot :=
  mkSnapshot (sn_Version sn) (sn_CreatedAtUnix sn) (CheckpointSeq sn) (sn_Jobs sn) (sn_Bundles sn)
    ((λ a, with_seq a 0) <$> sn_AuditEvents sn) (sn_LedgerEntries sn).

(** [json.Marshal] replaces what is not UTF-8: the round trips are for text. *)
Definition text_bundle (b : BundleMetadata) : Prop :=
  Forall (λ s, ValidString s = true)
    ([BundleID b; b_WorkspaceID b; b_Kind b; DiscardReason b; b_JobID b] ++ LocalCommitIDs b).
Definition text_audit (a : AuditEvent) : Prop :=
  Forall (λ s, ValidString s = true)
    [a_WorkspaceID a; a_JobID a; a_BundleID a; a_LocalCommitID a; ActorPrincipalID a; a_Decision a; ReasonCode a;
     CorrelationID a].

(** Jobs and the JSON encodings: outputs of [json.Marshal] are JSON texts and
    read back as what was marshalled. *)
Class StoreJson `{WalJson} := {
  Job : Type;
  GetJobId : Job → string;
  text_job : Job → Prop;
  marshal_job : Job → option string;
  unmarshal_job : string → option Job;
  marshal_job_ok j s : text_job j → marshal_job j = Some s → json_text s ∧ unmarshal_job s = Some j;
  marshal_bundle : BundleMetadata → option string;
  unmarshal_bundle : string → option BundleMetadata;
  marshal_bundle_ok b s : text_bundle b → marshal_bundle b = Some s → json_text s ∧ unmarshal_bundle s = Some b;
  marshal_audit : AuditEvent → option string;
  unmarshal_audit : string → option AuditEvent;
  marshal_audit_ok a s : text_audit a → marshal_audit a = Some s → json_text s ∧ unmarshal_audit s = Some (with_seq a 0);
  encode_snapshot : compactedSnapshot → option string;
  decode_snapshot : string → option compactedSnapshot;
  snapshot_ok sn s : Forall text_bundle (sn_Bundles sn) → Forall text_audit (sn_AuditEvents sn) →
    encode_snapshot sn = Some s → decode_snapshot s = Some (snapshot_without_seq sn);
  encode_checkpoint : Checkpoint → option string;
  decode_checkpoint : string → option Checkpoint;
  checkpoint_ok c s : ValidString (SnapshotFile c) = true → encode_checkpoint c = Some s → decode_checkpoint s = Some c }.

Section store.
  Context `{StoreJson}.

(** ** State *)

Record Store := mkStore {
  nextSeq : Z; jobs : gmap string Job; bundles : gmap string BundleMetadata;
  auditEvents : list AuditEvent; ledgerEntries : list string }.

Definition empty_store : Store := mkStore 1 ∅ ∅ [] [].

(** ** Operations: the change in memory and the log entry *)

Definition UpsertJob (s : Store) (job : Job) (now : Z) : option (Store * WALEntry) :=
  data ← marshal_job job;
  Some (mkStore (nextSeq s + 1) (<[GetJobId job := job]> (jobs s)) (bundles s) (auditEvents s) (ledgerEntries s),
        mkEntry (nextSeq s) now OpUpsert KindJob data).

Definition GetJob (s : Store) (jobID : string) : option Job := jobs s !! jobID.
(** In the order in which the map happens to be traversed. *)
Definition ListJobs (s : Store) (keep : Job → bool) (order : list string) : list Job :=
  filter (λ j, keep j = true) (omap (λ id, jobs s !! id) order).
Definition JobCount (s : Store) : nat := size (jobs s).

Definition UpsertBundle (s : Store) (b : BundleMetadata) (now : Z) : option (Store * WALEntry) :=
  data ← marshal_bundle b;
  Some (mkStore (nextSeq s + 1) (jobs s) (<[BundleID b := b]> (bundles s)) (auditEvents s) (ledgerEntries s),
        mkEntry (nextSeq s) now OpUpsert KindBundle data).

Definition GetBundle (s : Store) (bundleID : string) : option BundleMetadata := bundles s !! bundleID.

Definition InsertAudit (s : Store) (event : AuditEvent) (now : Z) : option (Store * WALEntry) :=
  data ← marshal_audit event;
  Some (mkStore (nextSeq s + 1) (jobs s) (bundles s) (auditEvents s ++ [with_seq event (nextSeq s)]) (ledgerEntries s),
        mkEntry (nextSeq s) now OpInsert KindAudit data).

Definition ListAuditEvents (s : Store) : list AuditEvent := auditEvents s.

Definition InsertLedger (s : Store) (data : string) (now : Z) : Store * WALEntry :=
  (mkStore (nextSeq s + 1) (jobs s) (bundles s) (auditEvents s) (ledgerEntries s ++ [data]),
   mkEntry (nextSeq s) now OpInsert KindLedger data).

(** [ReplayLedgerEntries]: the entries handed to the callback, in order, up
    to and including the first it refuses, whose index is the error's. *)
Fixpoint replay_ledger (callback : string → bool) (i : nat) (entries : list string) : list string * option nat :=
  match entries with
  | [] => ([], None)
  | e :: entries =>
      if callback e then let '(seen, err) := replay_ledger callback (S i) entries in (e :: seen, err)
      else ([e], Some i)
  end.
Definition ReplayLedgerEntries (s : Store) (callback : string → bool) : list string * option nat :=
  replay_ledger callback 0 (ledgerEntries s).

(** ** Recovery *)

(** One iteration of [recover]'s loop; an entry of another operation skips
    the rest of the iteration ([continue]), as does one that does not
    decode. *)
Definition bump (s : Store) (seq : Z) : Store :=
  if bool_decide (nextSeq s ≤ seq)
  then mkStore (seq + 1) (jobs s) (bundles s) (auditEvents s) (ledgerEntries s) else s.

Definition apply_entry (s : Store) (e : WALEntry) : Store :=
  if bool_decide (Kind e = KindJob) then
    if bool_decide (Op e ≠ OpUpsert) then s
    else match unmarshal_job (Data e) with
         | None => s
         | Some job => bump (mkStore (nextSeq s) (<[GetJobId job := job]> (jobs s)) (bundles s) (auditEvents s) (ledgerEntries s)) (Seq e)
         end
  else if bool_decide (Kind e = KindBundle) then
    if bool_decide (Op e ≠ OpUpsert) then s
    else match unmarshal_bundle (Data e) with
         | None => s
         | Some b => bump (mkStore (nextSeq s) (jobs s) (<[BundleID b := b]> (bundles s)) (auditEvents s) (ledgerEntries s)) (Seq e)
         end
  else if bool_decide (Kind e = KindAudit) then
    if bool_decide (Op e ≠ OpInsert) then s
    else match unmarshal_audit (Data e) with
         | None => s
         | Some a => bump (mkStore (nextSeq s) (jobs s) (bundles s) (auditEvents s ++ [with_seq a (Seq e)]) (ledgerEntries s)) (Seq e)
         end
  else if bool_decide (Kind e = KindLedger) then
    if bool_decide (Op e ≠ OpInsert) then s
    else bump (mkStore (nextSeq s) (jobs s) (bundles s) (auditEvents s) (ledgerEntries s ++ [Data e])) (Seq e)
  else bump s (Seq e).

(** ** Files of the state directory *)

(** The log directory and the checkpoint directory. *)
Record Disk := mkDisk { d_wal : wal_dir; d_chk : gmap string string }.

Definition checkpoint_file : string := "checkpoint.json".
Definition snapshot_name (seq : Z) : string := "snapshot-" +:+ dec_pad 20 seq +:+ ".json".

(** A missing checkpoint, or one that does not decode, is no checkpoint. *)
Definition loadCheckpoint (chk : gmap string string) : option Checkpoint :=
  data ← chk !! checkpoint_file; decode_checkpoint data.

Definition load_jobs (datas : list string) : gmap string Job :=
  foldl (λ m data, match unmarshal_job data with Some job => <[GetJobId job := job]> m | None => m end) ∅ datas.

Inductive store_error := ReadSnapshot | DecodeSnapshot | SnapshotVersion (v : Z) | ReplayWAL | OpenWAL.

Definition loadSnapshot (s : Store) (c : Checkpoint) (chk : gmap string string) : result store_error Store :=
  if bool_decide (LastCompactedSeq c = 0) then Ok s
  else
    let file := if bool_decide (SnapshotFile c = "") then snapshot_name (LastCompactedSeq c) else SnapshotFile c in
    match chk !! file with
    | None => Err ReadSnapshot
    | Some data =>
        match decode_snapshot data with
        | None => Err DecodeSnapshot
        | Some sn =>
            if bool_decide (sn_Version sn ≠ 1) then Err (SnapshotVersion (sn_Version sn))
            else Ok (mkStore
              (if bool_decide (nextSeq s ≤ CheckpointSeq sn) then CheckpointSeq sn + 1 else nextSeq s)
              (load_jobs (sn_Jobs sn))
              (foldl (λ m b, <[BundleID b := b]> m) ∅ (sn_Bundles sn))
              (sn_AuditEvents sn) (sn_LedgerEntries sn))
        end
    end.

Definition recover `{GoSort} (s : Store) (c : option Checkpoint) (d : Disk) : result store_error Store :=
  let! (s, fromSeq) :=
    match c with
    | None => Ok (s, 0)
    | Some c =>
        let! s := loadSnapshot s c (d_chk d) in
        Ok (if bool_decide (nextSeq s ≤ LastCompactedSeq c)
            then mkStore (LastCompactedSeq c + 1) (jobs s) (bundles s) (auditEvents s) (ledgerEntries s) else s,
            LastCompactedSeq c)
    end in
  match ReplayEntries (d_wal d) fromSeq with
  | None => Err ReplayWAL
  | Some entries => Ok (foldl apply_entry s entries)
  end.

(** [New] with a state directory: the store, the log writer and the disk. *)
Definition New `{GoSort} (open_ok : bool) (d : Disk) : result store_error (Store * walWriter * Disk) :=
  let c := loadCheckpoint (d_chk d) in
  match newWALWriter open_ok (d_wal d) with
  | None => Err OpenWAL
  | Some (w, dir) =>
      let d := mkDisk dir (d_chk d) in
      let! s := recover empty_store c d in Ok (s, w, d)
  end.

(** ** Compaction *)

(** The snapshot taken under the lock, the maps traversed in some order;
    a job that cannot be marshalled is skipped. *)
Definition take_snapshot (s : Store) (now : Z) (jobOrder bundleOrder : list string) : compactedSnapshot :=
  mkSnapshot 1 now (nextSeq s - 1)
    (omap (λ id, job ← jobs s !! id; marshal_job job) jobOrder)
    (omap (λ id, bundles s !! id) bundleOrder)
    (auditEvents s) (ledgerEntries s).

(** [writeSnapshot]: [Some] the file's name when everything succeeded. *)
Definition writeSnapshot (io : save_io) (sn : compactedSnapshot) (chk : gmap string string)
    : gmap string string * option string :=
  let file := snapshot_name (CheckpointSeq sn) in
  match encode_snapshot sn with
  | None => (chk, None)
  | Some data =>
      let '(chk, wok, rok) := replace_file io (file +:+ ".tmp") file data chk in
      if wok && rok then (chk, Some file) else (delete (file +:+ ".tmp") chk, None)
  end.

Definition write_checkpoint (io : save_io) (c : Checkpoint) (chk : gmap string string) : gmap string string * bool :=
  match encode_checkpoint c with
  | None => (chk, false)
  | Some data =>
      let '(chk, wok, rok) := replace_file io (checkpoint_file +:+ ".tmp") checkpoint_file data chk in
      (chk, wok && rok)
  end.

(** [filepath.Glob("snapshot-*.json")] and the removal of all but the current
    file, each removal as [remove_ok] says. *)
Definition is_snapshot_file (name : string) : bool := HasPrefix name "snapshot-" && HasSuffix name ".json".
Definition cleanupOldSnapshots (current : string) (remove_ok : string → bool) (chk : gmap string string)
    : gmap string string :=
  filter (λ kv, (is_snapshot_file kv.1 && bool_decide (kv.1 ≠ current) && remove_ok kv.1) = false) chk.

(** The outcomes of a compaction's file operations. *)
Record compact_io := mkCompactIo {
  c_snapshot : save_io; c_checkpoint : save_io; c_segments : Z → bool; c_cleanup : string → bool }.

Definition compact (s : Store) (threshold now : Z) (jobOrder bundleOrder : list string)
    (io : compact_io) (w : walWriter) (d : Disk) : Disk :=
  if bool_decide (TotalSize (d_wal d) < threshold) then d
  else if bool_decide (nextSeq s - 1 < 1) then d
  else
    let sn := take_snapshot s now jobOrder bundleOrder in
    match writeSnapshot (c_snapshot io) sn (d_chk d) with
    | (chk, None) => mkDisk (d_wal d) chk
    | (chk, Some file) =>
        match write_checkpoint (c_checkpoint io) (mkCheckpoint (CheckpointSeq sn) file) chk with
        | (chk, false) => mkDisk (d_wal d) chk
        | (chk, true) =>
            mkDisk (DeleteSegmentsBelow w (CheckpointSeq sn) (c_segments io) (d_wal d))
                   (cleanupOldSnapshots file (c_cleanup io) chk)
        end
    end.

(** [Store.Close] after the compaction loop has stopped. *)
Definition CloseStore (s : Store) (threshold now : Z) (jobOrder bundleOrder : list string)
    (io : compact_io) (w : walWriter) (d : Disk) : walWriter * Disk :=
  (Close w, compact s threshold now jobOrder bundleOrder io w d).

End store.
