(* ===== verification/WorkspaceStoreProps.v ===== *)
(** * Properties of the workspace store

    Durability over crashes.  The store runs as a step relation: a request
    changes the memory and leaves a pending log entry, pending entries are
    appended in any order, and a compaction advances one stage at a time
    between them.  From every reachable state, after a crash that may tear the
    last append, [New] recovers a state in which every acknowledged request is
    present. *)

From stdpp Require Import options.
From S2P Require Import Prelude GoStrings GoUnicode GoFmt GoSort GoFiles WorkspaceWAL WorkspaceWALProps WorkspaceStore.

Section store.
  Context `{StoreJson} `{GoSort}.

(** ** Requests *)

Inductive request := ReqJob (job : Job) | ReqBundle (b : BundleMetadata) | ReqAudit (a : AuditEvent) | ReqLedger (data : string).

Definition perform (s : Store) (r : request) (now : Z) : option (Store * WALEntry) :=
  match r with
  | ReqJob job => UpsertJob s job now
  | ReqBundle b => UpsertBundle s b now
  | ReqAudit a => InsertAudit s a now
  | ReqLedger data => Some (InsertLedger s data now)
  end.

(** Strings are text and a ledger entry is a compact JSON document, as its
    writer produces it. *)
Definition text_request (r : request) : Prop :=
  match r with
  | ReqJob job => text_job job
  | ReqBundle b => text_bundle b
  | ReqAudit a => text_audit a
  | ReqLedger data => json_text data
  end.

(** The log entry of a request. *)
Definition entry_of (r : request) (e : WALEntry) : Prop :=
  match r with
  | ReqJob job => Kind e = KindJob ∧ Op e = OpUpsert ∧ marshal_job job = Some (Data e)
  | ReqBundle b => Kind e = KindBundle ∧ Op e = OpUpsert ∧ marshal_bundle b = Some (Data e)
  | ReqAudit a => Kind e = KindAudit ∧ Op e = OpInsert ∧ marshal_audit a = Some (Data e)
  | ReqLedger data => Kind e = KindLedger ∧ Op e = OpInsert ∧ data = Data e
  end.

(** What a request does to the tables. *)
Definition update (s : Store) (r : request) (seq : Z) : Store :=
  match r with
  | ReqJob job => mkStore (nextSeq s) (<[GetJobId job := job]> (jobs s)) (bundles s) (auditEvents s) (ledgerEntries s)
  | ReqBundle b => mkStore (nextSeq s) (jobs s) (<[BundleID b := b]> (bundles s)) (auditEvents s) (ledgerEntries s)
  | ReqAudit a => mkStore (nextSeq s) (jobs s) (bundles s) (auditEvents s ++ [with_seq a seq]) (ledgerEntries s)
  | ReqLedger data => mkStore (nextSeq s) (jobs s) (bundles s) (auditEvents s) (ledgerEntries s ++ [data])
  end.

Lemma apply_entry_of s r e : text_request r → entry_of r e → apply_entry s e = bump (update s r (Seq e)) (Seq e).
Proof.
  destruct e as [seq ts op kind data], r as [job|b|a|d]; simpl; intros Ht (-> & -> & Hm); unfold apply_entry; simpl.
  - by rewrite (proj2 (marshal_job_ok _ _ Ht Hm)).
  - by rewrite (proj2 (marshal_bundle_ok _ _ Ht Hm)).
  - by rewrite (proj2 (marshal_audit_ok _ _ Ht Hm)).
  - by subst.
Qed.

(** A request's change in memory is what recovery does with its entry. *)
Lemma perform_apply s r now s' e :
  text_request r → perform s r now = Some (s', e) →
  s' = apply_entry s e ∧ Seq e = nextSeq s ∧ nextSeq s' = nextSeq s + 1 ∧ entry_of r e ∧ json_text (Data e).
Proof.
  intros Ht Hp. assert (entry_of r e ∧ Seq e = nextSeq s ∧ s' = bump (update s r (Seq e)) (Seq e) ∧ json_text (Data e)) as (He & Hs & -> & Hj).
  { unfold bump. destruct r as [job|b|a|d]; simpl in Hp; unfold UpsertJob, UpsertBundle, InsertAudit, InsertLedger in Hp.
    - apply bind_Some in Hp as (data & Hm & [= <- <-]). simpl. rewrite bool_decide_eq_true_2 by done.
      split_and!; try done. by eapply marshal_job_ok.
    - apply bind_Some in Hp as (data & Hm & [= <- <-]). simpl. rewrite bool_decide_eq_true_2 by done.
      split_and!; try done. by eapply marshal_bundle_ok.
    - apply bind_Some in Hp as (data & Hm & [= <- <-]). simpl. rewrite bool_decide_eq_true_2 by done.
      split_and!; try done. by eapply marshal_audit_ok.
    - injection Hp as <- <-. simpl. rewrite bool_decide_eq_true_2 by done. by split_and!. }
  rewrite (apply_entry_of s r e) by done. split_and!; try done.
  unfold bump. rewrite Hs, bool_decide_eq_true_2; [done|]. by destruct r.
Qed.

(** ** States up to what compaction forgets *)

Definition forget_seq (l : list AuditEvent) : list AuditEvent := (λ a, with_seq a 0) <$> l.

(** Equal tables, audit events up to their sequence numbers. *)
Definition store_equiv (s t : Store) : Prop :=
  jobs s = jobs t ∧ bundles s = bundles t ∧ forget_seq (auditEvents s) = forget_seq (auditEvents t) ∧
  ledgerEntries s = ledgerEntries t.

#[export] Instance store_equivalence : Equivalence store_equiv.
Proof.
  split; [by intros s | by intros s t (?&?&?&?) |].
  intros s t u (?&?&?&?) (?&?&?&?). unfold store_equiv. split_and!; congruence.
Qed.

Lemma bump_equiv s seq : store_equiv (bump s seq) s.
Proof. unfold bump. by case_bool_decide. Qed.

#[export] Instance apply_entry_proper : Proper (store_equiv ==> (=) ==> store_equiv) apply_entry.
Proof.
  intros s t (Hj & Hb & Ha & Hl) e ? <-. unfold apply_entry, bump. rewrite Hj, Hb, Hl.
  repeat case_match; unfold store_equiv, forget_seq; simpl; rewrite ?fmap_app; unfold forget_seq in Ha;
    rewrite ?Ha, ?Hj, ?Hb, ?Hl; done.
Qed.

Definition replay (es : list WALEntry) : Store := foldl apply_entry empty_store es.

#[export] Instance foldl_apply_proper : Proper (store_equiv ==> (=) ==> store_equiv) (foldl apply_entry).
Proof. intros s t Hst es ? <-. revert s t Hst. induction es as [|e es IH]; intros s t Hst; simpl; [done|]. apply IH. by rewrite Hst. Qed.

(** ** Snapshots *)

(** Tables keyed by the identifiers of what they hold, all of it writable as
    JSON. *)
Record wf_store (s : Store) : Prop := {
  wf_jobs id job : jobs s !! id = Some job → GetJobId job = id ∧ text_job job ∧ is_Some (marshal_job job);
  wf_bundles id b : bundles s !! id = Some b → BundleID b = id ∧ text_bundle b;
  wf_audit : Forall text_audit (auditEvents s) }.

Lemma text_forget_seq l : Forall text_audit (forget_seq l) ↔ Forall text_audit l.
Proof. unfold forget_seq. by rewrite Forall_fmap. Qed.

Lemma wf_store_equiv s t : store_equiv s t → wf_store t → wf_store s.
Proof.
  intros (Hj & Hb & Ha & _) [Wj Wb Wa]. split; [by rewrite Hj | by rewrite Hb |].
  apply text_forget_seq. rewrite Ha. by apply text_forget_seq.
Qed.

Lemma wf_update s r n e : wf_store s → text_request r → entry_of r e → wf_store (update s r n).
Proof.
  intros [Wj Wb Wa] Ht He. destruct r as [job|b|a|d]; simpl in *; split; simpl; try done.
  - intros id j. rewrite lookup_insert_Some. intros [[<- <-]|[_ Hl]]; [|by apply Wj].
    destruct He as (_ & _ & He). by rewrite He.
  - intros id b'. rewrite lookup_insert_Some. intros [[<- <-]|[_ Hl]]; [done|by apply Wb].
  - apply Forall_app. split; [done|]. by apply Forall_singleton.
Qed.

(** The entry of a request of text. *)
Definition requested (e : WALEntry) : Prop := ∃ r, text_request r ∧ entry_of r e.

Lemma wf_replay es : Forall requested es → wf_store (replay es).
Proof.
  unfold replay. assert (wf_store empty_store) as W.
  { split; simpl; [intros ??; by rewrite lookup_empty..|done]. }
  intros Hes. revert W. generalize empty_store.
  induction Hes as [|e es (r & Ht & He) Hes IH]; intros s W; simpl; [done|]. apply IH.
  rewrite (apply_entry_of s r e) by done. eapply wf_store_equiv; [apply bump_equiv|]. by eapply wf_update.
Qed.

Lemma foldl_insert_lookup {A} (key : A → string) (l : list A) (m m0 : gmap string A) id :
  (∀ a, a ∈ l → m !! key a = Some a) →
  foldl (λ m a, <[key a := a]> m) m0 l !! id = (if bool_decide (id ∈ key <$> l) then m !! id else m0 !! id).
Proof.
  revert m0. induction l as [|a l IH]; intros m0 Hl; [done|].
  change (key <$> a :: l) with (key a :: (key <$> l)). cbn [foldl]. rewrite IH by (intros; apply Hl; by right).
  bool_case (id ∈ key <$> l) as E; [rewrite bool_decide_eq_true_2 by (by right); done|].
  destruct (decide (id = key a)) as [->|Hne].
  - rewrite bool_decide_eq_true_2 by (by left). rewrite lookup_insert_eq. symmetry. apply Hl. by left.
  - rewrite bool_decide_eq_false_2 by (rewrite elem_of_cons; by intros [|]). by rewrite lookup_insert_ne.
Qed.

(** Inserting every value of a map keyed by its values gives the map. *)
Lemma foldl_insert_all {A} (key : A → string) (m : gmap string A) (order : list string) :
  (∀ id a, m !! id = Some a → key a = id) → order ≡ₚ (map_to_list m).*1 →
  foldl (λ m a, <[key a := a]> m) ∅ (omap (λ id, m !! id) order) = m.
Proof.
  intros Hk Ho. apply map_eq. intros id. rewrite (foldl_insert_lookup key _ m).
  - case_bool_decide as E; [done|]. rewrite lookup_empty. destruct (m !! id) as [a|] eqn:Ha; [|done].
    destruct E. apply list_elem_of_fmap. exists a. split; [symmetry; by apply Hk|]. apply list_elem_of_omap.
    exists id. split; [|done]. rewrite Ho. apply list_elem_of_fmap. exists (id, a). by rewrite elem_of_map_to_list.
  - intros a (id' & _ & Ha)%list_elem_of_omap. by rewrite (Hk id' a).
Qed.

Lemma load_jobs_omap s order :
  wf_store s →
  load_jobs (omap (λ id, job ← jobs s !! id; marshal_job job) order) =
  foldl (λ m a, <[GetJobId a := a]> m) ∅ (omap (λ id, jobs s !! id) order).
Proof.
  intros W. unfold load_jobs. generalize (∅ : gmap string Job).
  induction order as [|id order IH]; intros m; [done|]. cbn [omap list_omap].
  destruct (jobs s !! id) as [job|] eqn:Hj; simpl; [|apply IH].
  destruct (wf_jobs s W _ _ Hj) as (_ & Ht & [d Hd]). rewrite Hd. simpl.
  rewrite (proj2 (marshal_job_ok _ _ Ht Hd)). apply IH.
Qed.

(** What [loadSnapshot] puts in the tables. *)
Definition snapshot_store (sn : compactedSnapshot) : Store :=
  mkStore 0 (load_jobs (sn_Jobs sn)) (foldl (λ m b, <[BundleID b := b]> m) ∅ (sn_Bundles sn))
    (sn_AuditEvents sn) (sn_LedgerEntries sn).

(** A snapshot that reads back as the entries up to [c]. *)
Definition snapshot_of (sn : compactedSnapshot) (c : Z) (es : list WALEntry) : Prop :=
  sn_Version sn = 1 ∧ CheckpointSeq sn = c ∧ store_equiv (snapshot_store sn) (replay es).

Lemma take_snapshot_of s now jo bo es :
  store_equiv s (replay es) → Forall requested es →
  jo ≡ₚ (map_to_list (jobs s)).*1 → bo ≡ₚ (map_to_list (bundles s)).*1 →
  let sn := take_snapshot s now jo bo in
  snapshot_of (snapshot_without_seq sn) (nextSeq s - 1) es ∧
  Forall text_bundle (sn_Bundles sn) ∧ Forall text_audit (sn_AuditEvents sn).
Proof.
  intros Hs Hes Hjo Hbo. assert (wf_store s) as W by by eapply wf_store_equiv, wf_replay.
  split; [|split].
  - split; [done|]. split; [done|]. rewrite <- Hs. split_and!; simpl; try done.
    + rewrite load_jobs_omap by done. apply foldl_insert_all; [|done]. intros id j Hj. by apply (wf_jobs s W).
    + apply foldl_insert_all; [|done]. intros id b Hb. by apply (wf_bundles s W).
    + unfold forget_seq. rewrite <- list_fmap_compose. by apply list_fmap_ext.
  - apply Forall_forall. intros b (id & _ & Hb)%list_elem_of_omap. by apply (wf_bundles s W id).
  - apply W.
Qed.
End store.
