(* ===== verification/WorkspaceJson.v ===== *)
(** * An instance of the workspace store's encodings

    The store's JSON is the classes [WalJson] and [StoreJson].  This instance
    satisfies their laws, so that the theorems proved against them can be
    applied and the models run. *)

From stdpp Require Import options.
From S2P Require Import Prelude GoStrings GoUnicode GoSort GoFiles WorkspaceWAL WorkspaceWALProps WorkspaceStore.

#[export] Instance WALEntry_countable : Countable WALEntry.
Proof.
  refine (inj_countable' (λ e, (Seq e, TS e, Op e, Kind e, Data e)) (λ '(a, b, c, d, e), mkEntry a b c d e) _).
  by intros [].
Defined.
#[export] Instance BundleMetadata_eq_dec : EqDecision BundleMetadata.
Proof. solve_decision. Defined.
#[export] Instance BundleMetadata_countable : Countable BundleMetadata.
Proof.
  refine (inj_countable'
    (λ b, (BundleID b, b_WorkspaceID b, b_Kind b, ByteSize b, RepoCount b, LocalCommitIDs b, CreatedAtUnix b, ExpiresAtUnix b, DiscardReason b, b_JobID b))
    (λ '(a, b, c, d, e, f, g, h, i, j), mkBundle a b c d e f g h i j) _).
  by intros [].
Defined.
#[export] Instance AuditEvent_eq_dec : EqDecision AuditEvent.
Proof. solve_decision. Defined.
#[export] Instance AuditEvent_countable : Countable AuditEvent.
Proof.
  refine (inj_countable'
    (λ a, (a_WorkspaceID a, a_JobID a, a_BundleID a, a_LocalCommitID a, ActorPrincipalID a, a_Decision a, ReasonCode a, a_Timestamp a, CorrelationID a, a_Seq a))
    (λ '(a, b, c, d, e, f, g, h, i, j), mkAudit a b c d e f g h i j) _).
  by intros [].
Defined.
#[export] Instance Checkpoint_eq_dec : EqDecision Checkpoint.
Proof. solve_decision. Defined.
#[export] Instance Checkpoint_countable : Countable Checkpoint.
Proof.
  refine (inj_countable' (λ c, (LastCompactedSeq c, SnapshotFile c)) (λ '(a, b), mkCheckpoint a b) _). by intros [].
Defined.
#[export] Instance compactedSnapshot_eq_dec : EqDecision compactedSnapshot.
Proof. solve_decision. Defined.
#[export] Instance compactedSnapshot_countable : Countable compactedSnapshot.
Proof.
  refine (inj_countable'
    (λ s, (sn_Version s, sn_CreatedAtUnix s, CheckpointSeq s, sn_Jobs s, sn_Bundles s, sn_AuditEvents s, sn_LedgerEntries s))
    (λ '(a, b, c, d, e, f, g), mkSnapshot a b c d e f g) _).
  by intros [].
Defined.

(** ** Entries between braces *)

Definition open_brace : ascii := "{".
Definition close_brace : ascii := "}".

Definition brace_body (e : WALEntry) : string := str1 open_brace +:+ marshal_any e.
Definition brace_marshal (e : WALEntry) : string := brace_body e +:+ str1 close_brace.
Definition brace_unmarshal (s : string) : option WALEntry :=
  let body := TrimSuffix (TrimPrefix s (str1 open_brace)) (str1 close_brace) in
  if HasPrefix s (str1 open_brace) && HasSuffix s (str1 close_brace) && negb (has_byte open_brace body)
  then unmarshal_any body else None.

Lemma bits_plain c p : c ≠ "0"%char → c ≠ "1"%char → has_byte c (bits p) = false.
Proof.
  intros H0 H1. induction p as [p IH|p IH|]; cbn [bits has_byte]; [| |done].
  all: by rewrite bool_decide_eq_false_2, IH by congruence.
Qed.

Lemma brace_body_plain c e : c ≠ open_brace → c ≠ "0"%char → c ≠ "1"%char → has_byte c (brace_body e) = false.
Proof.
  intros Hc H0 H1. unfold brace_body. rewrite has_byte_app. unfold marshal_any. rewrite bits_plain by done.
  cbn. by rewrite bool_decide_eq_false_2 by congruence.
Qed.

Lemma brace_roundtrip e : brace_unmarshal (brace_marshal e) = Some e.
Proof.
  unfold brace_unmarshal, brace_marshal, brace_body. rewrite str_app_assoc, HasPrefix_app, TrimPrefix_app, TrimSuffix_app.
  assert (has_byte open_brace (marshal_any e) = false) as -> by by apply bits_plain.
  assert (HasSuffix (str1 open_brace +:+ marshal_any e +:+ str1 close_brace) (str1 close_brace) = true) as ->.
  { apply HasSuffix_spec. exists (str1 open_brace +:+ marshal_any e). by rewrite str_app_assoc. }
  apply unmarshal_marshal.
Qed.

Lemma brace_cut e k :
  (0 < k < String.length (brace_marshal e))%nat → brace_unmarshal (TrimSuffix (str_take k (brace_marshal e)) (str1 carriage_return)) = None.
Proof.
  unfold brace_marshal. rewrite str_length_app. change (String.length (str1 close_brace)) with 1%nat. intros Hk. rewrite str_take_app_l by lia.
  set (t := str_take k (brace_body e)).
  assert (has_byte close_brace t = false) as Ht by (apply str_take_facts, brace_body_plain; done).
  assert (has_byte close_brace (TrimSuffix t (str1 carriage_return)) = false) as Ht'.
  { unfold TrimSuffix. case_match; [|done]. by apply str_take_facts. }
  unfold brace_unmarshal. destruct (HasSuffix _ (str1 close_brace)) eqn:E; [|by rewrite andb_false_r].
  apply HasSuffix_spec in E as [r E]. rewrite E, has_byte_app in Ht'. cbn in Ht'. by rewrite orb_true_r in Ht'.
Qed.

Lemma brace_glued e k e' :
  (0 < k < String.length (brace_marshal e))%nat → brace_unmarshal (str_take k (brace_marshal e) +:+ brace_marshal e') = None.
Proof.
  intros [Hk _]. destruct k as [|k]; [lia|]. pose (m := str_take k (marshal_any e +:+ str1 close_brace)).
  replace (str_take (S k) (brace_marshal e)) with (str1 open_brace +:+ m) by done.
  clearbody m. unfold brace_unmarshal. rewrite str_app_assoc, TrimPrefix_app.
  unfold brace_marshal. rewrite <- (str_app_assoc m), TrimSuffix_app.
  assert (has_byte open_brace (m +:+ brace_body e') = true) as ->.
  { rewrite has_byte_app. unfold brace_body. rewrite has_byte_app. cbn. apply orb_true_r. }
  by rewrite andb_false_r.
Qed.

Lemma brace_line e s :
  True → Some (brace_marshal e) = Some s →
  brace_unmarshal s = Some e ∧ s ≠ "" ∧ has_byte newline s = false ∧ HasSuffix s (str1 carriage_return) = false.
Proof.
  intros _ [= <-]. split; [apply brace_roundtrip|]. unfold brace_marshal.
  split; [by intros [_ ?]%str_app_empty|]. split.
  - rewrite has_byte_app. by rewrite brace_body_plain by done.
  - destruct (HasSuffix _ _) eqn:E; [|done]. apply HasSuffix_last in E. by rewrite bytes_of_app, last_app in E.
Qed.

Lemma brace_laws :
  (∀ e : WALEntry, True → ∃ s, Some (brace_marshal e) = Some s) ∧
  (∀ e s k, True → Some (brace_marshal e) = Some s → (0 < k < String.length s)%nat →
     brace_unmarshal (TrimSuffix (str_take k s) (str1 carriage_return)) = None) ∧
  (∀ e s k e' s', True → Some (brace_marshal e) = Some s → True → Some (brace_marshal e') = Some s' →
     (0 < k < String.length s)%nat → brace_unmarshal (str_take k s +:+ s') = None).
Proof.
  split; [eauto|]. split.
  - intros e s k _ [= <-]. apply brace_cut.
  - intros e s k e' s' _ [= <-] _ [= <-]. apply brace_glued.
Qed.

Definition brace_wal_json : WalJson := {|
  marshal_entry e := Some (brace_marshal e); unmarshal_entry := brace_unmarshal; json_text _ := True;
  marshal_entry_ok := proj1 brace_laws; marshal_entry_line := brace_line;
  marshal_entry_cut := proj1 (proj2 brace_laws); marshal_entry_glued := proj2 (proj2 brace_laws) |}.

(** Marshalling any value under any condition. *)
Lemma any_ok `{Countable A} (P : A → Prop) a s :
  P a → Some (marshal_any a) = Some s → @json_text brace_wal_json s ∧ unmarshal_any s = Some a.
Proof. intros _ [= <-]. split; [exact I | apply unmarshal_marshal]. Qed.

Lemma any_audit a s :
  text_audit a → Some (marshal_any (with_seq a 0)) = Some s →
  @json_text brace_wal_json s ∧ unmarshal_any s = Some (with_seq a 0).
Proof. intros _. by apply (any_ok (λ _, True)). Qed.

Lemma any_snapshot sn s :
  Forall text_bundle (sn_Bundles sn) → Forall text_audit (sn_AuditEvents sn) →
  Some (marshal_any (snapshot_without_seq sn)) = Some s → unmarshal_any s = Some (snapshot_without_seq sn).
Proof. intros _ _ [= <-]. apply unmarshal_marshal. Qed.

Lemma any_checkpoint c s :
  ValidString (SnapshotFile c) = true → Some (marshal_any c) = Some s → unmarshal_any s = Some c.
Proof. intros _ [= <-]. apply unmarshal_marshal. Qed.

(** Jobs are their identifiers. *)
Definition brace_store_json : @StoreJson brace_wal_json := {|
  Job := string; GetJobId := id; text_job _ := True;
  marshal_job j := Some (marshal_any j); unmarshal_job := unmarshal_any; marshal_job_ok := any_ok (λ _, True);
  marshal_bundle b := Some (marshal_any b); unmarshal_bundle := unmarshal_any; marshal_bundle_ok := any_ok text_bundle;
  marshal_audit a := Some (marshal_any (with_seq a 0)); unmarshal_audit := unmarshal_any;
  marshal_audit_ok := any_audit;
  encode_snapshot sn := Some (marshal_any (snapshot_without_seq sn)); decode_snapshot := unmarshal_any;
  snapshot_ok := any_snapshot;
  encode_checkpoint c := Some (marshal_any c); decode_checkpoint := unmarshal_any; checkpoint_ok := any_checkpoint |}.
