(* ===== verification/WorkspaceDurability.v ===== *)
(** * Durability of the workspace store

    The store as a transition system and the theorems about crashes: what
    recovery finds, that it finds every acknowledged request, and the one way
    the log loses one. *)

From stdpp Require Import options.
From S2P Require Import Prelude GoStrings GoUnicode GoFmt GoSort GoFiles WorkspaceWAL WorkspaceWALProps.
From S2P Require Import WorkspaceStore WorkspaceStoreProps WorkspaceJson.

Section durability.
  Context `{StoreJson} `{GoSort}.
  Implicit Types (issued es : list WALEntry) (segs : gmap N (list WALEntry)) (chk : gmap string string).

(** ** What a disk recovers to *)

Definition chk_seq chk : Z := match loadCheckpoint chk with Some c => LastCompactedSeq c | None => 0 end.

(** The snapshot of the entries up to [c] is on disk. *)
Definition snap_on_disk chk (c : Z) issued : Prop :=
  ∃ data sn, chk !! snapshot_name c = Some data ∧ decode_snapshot data = Some sn ∧
    snapshot_of sn c (filter (λ e, Seq e ≤ c) issued).

(** The checkpoint file, if any, names such a snapshot. *)
Definition chk_ok chk (next : Z) issued : Prop :=
  match chk !! checkpoint_file with
  | None => True
  | Some data => ∃ c, decode_checkpoint data = Some (mkCheckpoint c (snapshot_name c)) ∧ 1 ≤ c < next ∧ snap_on_disk chk c issued
  end.

Definition by_seq : list WALEntry → Prop := StronglySorted (λ a b, Seq a < Seq b).

Lemma by_seq_filter (P : WALEntry → Prop) `{!∀ e, Decision (P e)} es : by_seq es → by_seq (filter P es).
Proof.
  unfold by_seq. induction 1 as [|e es Hes IH He]; [constructor|]. rewrite filter_cons. case_decide; [|done].
  constructor; [done|]. apply Forall_forall. intros x [_ Hx]%list_elem_of_filter. by rewrite Forall_forall in He; apply He.
Qed.

Lemma by_seq_sorted es : by_seq es → sorted_by (λ a b, bool_decide (Seq a < Seq b)) es.
Proof.
  unfold by_seq. induction 1 as [|e es Hes IH He]; constructor; [done|]. eapply Forall_impl; [done|].
  intros x Hx. simpl in Hx. apply bool_decide_eq_false. lia.
Qed.

Lemma by_seq_inj es e e' : by_seq es → e ∈ es → e' ∈ es → Seq e = Seq e' → e = e'.
Proof.
  unfold by_seq. induction 1 as [|x es Hes IH Hx]; [by intros ?%elem_of_nil|]. rewrite Forall_forall in Hx.
  rewrite !elem_of_cons. intros [->|He] [->|He'] E; [done| | |by apply IH].
  - apply Hx in He'. lia.
  - apply Hx in He. lia.
Qed.

Lemma by_seq_NoDup es : by_seq es → NoDup es.
Proof.
  unfold by_seq. induction 1 as [|x es Hes IH Hx]; constructor; [|done]. rewrite Forall_forall in Hx.
  intros ?%Hx. lia.
Qed.

Lemma filter_split c (P : WALEntry → Prop) `{!∀ e, Decision (P e)} es :
  by_seq es →
  filter (λ e, Seq e ≤ c) es ++ filter (λ e, c < Seq e ∧ P e) es = filter (λ e, Seq e ≤ c ∨ P e) es.
Proof.
  unfold by_seq. induction 1 as [|x es Hes IH Hx]; [done|]. rewrite !filter_cons.
  destruct (decide (Seq x ≤ c)) as [Hc|Hc].
  - rewrite decide_False by lia. rewrite decide_True by by left. simpl. by rewrite IH.
  - assert (filter (λ e, Seq e ≤ c) es = []) as E.
    { apply elem_of_nil_inv. intros e [Hle He]%list_elem_of_filter.
      rewrite Forall_forall in Hx. apply Hx in He. lia. }
    rewrite E in *. simpl in *. destruct (decide (P x)) as [HP|HP].
    + rewrite decide_True by (split; [lia|done]). rewrite decide_True by by right. by rewrite IH.
    + rewrite decide_False by tauto. rewrite decide_False by tauto. done.
Qed.

(** Replay in order of sequence number restores the order of issue. *)
Lemma ReplayEntries_issued dir dir1 segs issued c :
  reads_as dir dir1 → wal_rep dir1 segs → by_seq issued → NoDup (seg_entries segs) → seg_entries segs ⊆ issued →
  ReplayEntries dir c = Some (filter (λ e, c < Seq e ∧ e ∈ seg_entries segs) issued).
Proof.
  intros Hr Hrep Hs Hnd Hsub. rewrite (reads_as_replay _ _ c Hr).
  destruct (ReplayEntries_rep dir1 segs c Hrep) as (l & -> & Hp & Hl). f_equal.
  apply (sorted_by_unique (λ a b, bool_decide (Seq a < Seq b))); [apply WeakOrder_Z| |done| |].
  - intros x y Hx Hy. rewrite !bool_decide_eq_false. intros ??. rewrite Hp in Hx, Hy.
    apply list_elem_of_filter in Hx as [_ Hx], Hy as [_ Hy]. eapply by_seq_inj; [done|by apply Hsub..|lia].
  - by apply by_seq_sorted, by_seq_filter.
  - rewrite Hp. apply NoDup_Permutation; [by apply NoDup_filter | apply NoDup_filter; by apply by_seq_NoDup |].
    intros e. rewrite !list_elem_of_filter. set_solver.
Qed.

Lemma nextSeq_foldl es s :
  Forall requested es →
  nextSeq s ≤ nextSeq (foldl apply_entry s es) ∧ Forall (λ e, Seq e < nextSeq (foldl apply_entry s es)) es.
Proof.
  intros Hes. revert s. induction Hes as [|e es (r & Ht & He) Hes IH]; intros s; [by split; [|constructor]|].
  cbn [foldl]. destruct (IH (apply_entry s e)) as [Hle Hall].
  assert (nextSeq s ≤ nextSeq (apply_entry s e) ∧ Seq e < nextSeq (apply_entry s e)).
  { rewrite (apply_entry_of s r e) by done. assert (nextSeq (update s r (Seq e)) = nextSeq s) as E by by destruct r.
    unfold bump. case_bool_decide; simpl; lia. }
  split; [lia|]. constructor; [lia|done].
Qed.

Lemma chk_ok_cases chk next issued :
  chk_ok chk next issued →
  loadCheckpoint chk = None ∧ chk_seq chk = 0 ∨
  loadCheckpoint chk = Some (mkCheckpoint (chk_seq chk) (snapshot_name (chk_seq chk))) ∧
    1 ≤ chk_seq chk < next ∧ snap_on_disk chk (chk_seq chk) issued.
Proof.
  unfold chk_ok, chk_seq, loadCheckpoint. destruct (chk !! checkpoint_file) as [data|]; [|by left].
  intros (c & E & Hc & Hs). right. simpl. by rewrite E.
Qed.

Lemma snapshot_name_ne c : snapshot_name c ≠ "".
Proof. done. Qed.

Lemma loadSnapshot_ok chk c es :
  1 ≤ c → snap_on_disk chk c es →
  ∃ s, loadSnapshot empty_store (mkCheckpoint c (snapshot_name c)) chk = Ok s ∧
    store_equiv s (replay (filter (λ e, Seq e ≤ c) es)) ∧ nextSeq s = c + 1.
Proof.
  intros Hc (data & sn & Hd & Hsn & Hv & Hseq & Heq). unfold loadSnapshot. cbn [LastCompactedSeq SnapshotFile].
  rewrite (bool_decide_eq_false_2 (c = 0)) by lia.
  rewrite (bool_decide_eq_false_2 (snapshot_name c = "")) by apply snapshot_name_ne. rewrite Hd, Hsn.
  rewrite bool_decide_eq_false_2 by (rewrite Hv; lia). eexists. split; [done|]. split; [exact Heq|].
  cbn [nextSeq empty_store]. rewrite Hseq, bool_decide_eq_true_2 by lia. done.
Qed.

(** The entries recovery finds: those in the snapshot and those in the log. *)
Definition found chk (log issued : list WALEntry) : list WALEntry :=
  filter (λ e, Seq e ≤ chk_seq chk ∨ e ∈ log) issued.

Definition issued_ok (e : WALEntry) : Prop := loggable e ∧ requested e ∧ 1 ≤ Seq e.

Lemma recover_found dir dir1 segs chk next issued :
  reads_as dir dir1 → wal_rep dir1 segs → chk_ok chk next issued → by_seq issued → Forall issued_ok issued →
  NoDup (seg_entries segs) → seg_entries segs ⊆ issued →
  ∃ s, recover empty_store (loadCheckpoint chk) (mkDisk dir chk) = Ok s ∧
    store_equiv s (replay (found chk (seg_entries segs) issued)) ∧
    Forall (λ e, Seq e < nextSeq s) (found chk (seg_entries segs) issued) ∧ chk_seq chk < nextSeq s ∧ 1 ≤ nextSeq s.
Proof.
  intros Hr Hrep Hchk Hs Hok Hnd Hsub. pose proof (chk_ok_cases _ _ _ Hchk) as Hcases.
  unfold found. remember (chk_seq chk) as c eqn:Hc.
  assert (∃ s0, (match loadCheckpoint chk with
      | None => Ok (empty_store, 0)
      | Some c => let! s := loadSnapshot empty_store c chk in
          Ok (if bool_decide (nextSeq s ≤ LastCompactedSeq c)
              then mkStore (LastCompactedSeq c + 1) (jobs s) (bundles s) (auditEvents s) (ledgerEntries s) else s, LastCompactedSeq c)
      end : result store_error (Store * Z)) = Ok (s0, c) ∧ store_equiv s0 (replay (filter (λ e, Seq e ≤ c) issued)) ∧
      c < nextSeq s0 ∧ 1 ≤ nextSeq s0) as (s0 & E0 & Heq0 & Hn0 & Hn1).
  { destruct Hcases as [[E Ec]|(E & Hcr & Hsn)]; rewrite E.
    - exists empty_store. rewrite Ec in *. split_and!; try done.
      replace (filter _ issued) with ([] : list WALEntry); [done|]. symmetry. apply elem_of_nil_inv.
      intros e [He He']%list_elem_of_filter. rewrite Forall_forall in Hok. destruct (Hok e He') as (_ & _ & ?). lia.
    - destruct (loadSnapshot_ok chk c issued) as (s & -> & Heq & Hn); [lia|done|]. cbn [rbind LastCompactedSeq].
      exists s. rewrite bool_decide_eq_false_2 by lia. split_and!; try done; lia. }
  unfold recover. cbn [d_chk d_wal]. rewrite E0. cbn [rbind].
  rewrite (ReplayEntries_issued dir dir1 segs issued c) by done. eexists. split; [done|].
  rewrite <- filter_split by done.
  destruct (nextSeq_foldl (filter (λ e, c < Seq e ∧ e ∈ seg_entries segs) issued) s0) as [Hmono Hall].
  { apply Forall_forall. intros e [_ He]%list_elem_of_filter. rewrite Forall_forall in Hok. by apply Hok. }
  split; [|split_and!; [|lia|lia]].
  - rewrite Heq0. unfold replay. by rewrite foldl_app.
  - apply Forall_app. split; [|done]. apply Forall_forall. intros e [He _]%list_elem_of_filter. lia.
Qed.

(** Opening the log changes nothing of what it reads as. *)
Lemma newWALWriter_reads_as dir dir1 w1 dir1' :
  reads_as dir dir1 → newWALWriter true dir1 = Some (w1, dir1') →
  ∃ w dir', newWALWriter true dir = Some (w, dir') ∧ reads_as dir' dir1'.
Proof.
  intros Hr. unfold newWALWriter, openSegment. rewrite (reads_as_segments _ _ Hr). simpl. intros [= <- <-].
  eexists _, _. split; [done|]. set (name := segmentPath _). intros n.
  destruct (decide (n = name)) as [->|]; [|by rewrite !lookup_insert_ne]. rewrite !lookup_insert_eq.
  specialize (Hr name). destruct (dir !! name), (dir1 !! name); simplify_eq/=; [by rewrite Hr | done].
Qed.

(** ** The store as a transition system *)

(** Where a compaction is. *)
Inductive phase :=
| Idle
| Captured (sn : compactedSnapshot)
| Written (c : Z) (file : string)
| Committed (c : Z) (file : string)
| Deleted (file : string).

(** [y_issued] and [y_acked] record the entries of all requests and of those
    that returned success. *)
Record Sys := mkSys {
  y_store : Store; y_wal : walWriter; y_disk : Disk;
  y_issued : list WALEntry; y_acked : list WALEntry; y_pending : list WALEntry; y_phase : phase }.

Definition with_chk (d : Disk) chk : Disk := mkDisk (d_wal d) chk.
Definition with_wal (d : Disk) (dir : wal_dir) : Disk := mkDisk dir (d_chk d).

(** An append that fails before the crash leaves no bytes of its line; lines
    fit the scanner, and fewer than 2^64 segments are used. *)
Inductive step : Sys → Sys → Prop :=
| step_request s w d il ak pd ph r now s' e :
    text_request r → perform s r now = Some (s', e) → loggable e →
    step (mkSys s w d il ak pd ph) (mkSys s' w d (il ++ [e]) ak (pd ++ [e]) ph)
| step_append s w d il ak pd pd' ph e ok out w' dir r :
    pd ≡ₚ e :: pd' → segmentIdx w + 1 < 2 ^ 64 → Append ok out w (d_wal d) e = (w', dir, r) →
    (∀ err, r = Err err → out = WroteAll ∨ out = WroteSome 0) →
    step (mkSys s w d il ak pd ph) (mkSys s w' (with_wal d dir) il (if is_ok r then e :: ak else ak) pd' ph)
| step_capture s w d il ak pd now jo bo :
    1 ≤ nextSeq s - 1 → jo ≡ₚ (map_to_list (jobs s)).*1 → bo ≡ₚ (map_to_list (bundles s)).*1 →
    step (mkSys s w d il ak pd Idle) (mkSys s w d il ak pd (Captured (take_snapshot s now jo bo)))
| step_snapshot s w d il ak pd sn io chk r :
    writeSnapshot io sn (d_chk d) = (chk, r) →
    step (mkSys s w d il ak pd (Captured sn))
         (mkSys s w (with_chk d chk) il ak pd (match r with Some file => Written (CheckpointSeq sn) file | None => Idle end))
| step_checkpoint s w d il ak pd c file io chk ok :
    write_checkpoint io (mkCheckpoint c file) (d_chk d) = (chk, ok) →
    step (mkSys s w d il ak pd (Written c file)) (mkSys s w (with_chk d chk) il ak pd (if ok then Committed c file else Idle))
| step_delete s w d il ak pd c file remove_ok :
    step (mkSys s w d il ak pd (Committed c file))
         (mkSys s w (with_wal d (DeleteSegmentsBelow w c remove_ok (d_wal d))) il ak pd (Deleted file))
| step_cleanup s w d il ak pd file remove_ok :
    step (mkSys s w d il ak pd (Deleted file))
         (mkSys s w (with_chk d (cleanupOldSnapshots file remove_ok (d_chk d))) il ak pd Idle)
| step_restart s w d il ak pd ph s' w' d' :
    New true d = Ok (s', w', d') →
    step (mkSys s w d il ak pd ph)
         (mkSys s' w' d' (found (d_chk d) (default [] (ReplayEntries (d_wal d) 0)) il) ak [] Idle).

Definition initial (y : Sys) : Prop :=
  ∃ s w d, New true (mkDisk ∅ ∅) = Ok (s, w, d) ∧ y = mkSys s w d [] [] [] Idle.

Definition reachable (y : Sys) : Prop := ∃ y0, initial y0 ∧ rtc step y0 y.

(** A crash, possibly in the middle of one append and with any content in
    the temporary files. *)
Definition crash (y : Sys) (d : Disk) : Prop :=
  (d_wal d = d_wal (y_disk y) ∨
   ∃ e ok out w err, e ∈ y_pending y ∧ segmentIdx (y_wal y) + 1 < 2 ^ 64 ∧
     Append ok out (y_wal y) (d_wal (y_disk y)) e = (w, d_wal d, Err err)) ∧
  ∀ name, HasSuffix name ".tmp" = false → d_chk d !! name = d_chk (y_disk y) !! name.

(** A compaction that nothing interrupts is a run of its stages. *)
Lemma compact_steps s w d il ak pd threshold now jo bo io :
  jo ≡ₚ (map_to_list (jobs s)).*1 → bo ≡ₚ (map_to_list (bundles s)).*1 →
  rtc step (mkSys s w d il ak pd Idle) (mkSys s w (compact s threshold now jo bo io w d) il ak pd Idle).
Proof.
  intros Hjo Hbo. unfold compact. case_bool_decide; [done|]. case_bool_decide; [done|].
  eapply rtc_l; [apply step_capture; [lia|exact Hjo|exact Hbo]|].
  destruct (writeSnapshot _ _ _) as [chk [file|]] eqn:Ew.
  - eapply rtc_l; [by eapply step_snapshot|].
    destruct (write_checkpoint _ _ _) as [chk' [|]] eqn:Ec.
    + eapply rtc_l; [by eapply step_checkpoint|]. eapply rtc_l; [apply (step_delete _ _ _ _ _ _ _ _ (c_segments io))|].
      apply rtc_once. exact (step_cleanup s w (mkDisk _ chk') il ak pd file (c_cleanup io)).
    + apply rtc_once. by apply (step_checkpoint s w (with_chk d chk) il ak pd _ _ (c_checkpoint io) chk' false).
  - apply rtc_once. by apply (step_snapshot s w d il ak pd _ (c_snapshot io) chk None).
Qed.

(** ** The invariant *)

Definition mem_inv (s : Store) issued : Prop :=
  by_seq issued ∧ Forall issued_ok issued ∧ Forall (λ e, Seq e < nextSeq s) issued ∧
  store_equiv s (replay issued) ∧ 1 ≤ nextSeq s.

(** Logged and pending entries are distinct, and an acknowledged entry is in
    the log unless the checkpoint covers it. *)
Definition log_inv (w : walWriter) (dir : wal_dir) issued (acked pending : list WALEntry) (c : Z) : Prop :=
  ∃ segs, wal_rep dir segs ∧ wal_writer w segs ∧ NoDup (pending ++ seg_entries segs) ∧
    pending ++ seg_entries segs ⊆ issued ∧ acked ⊆ issued ∧
    ∀ e, e ∈ acked → c < Seq e → e ∈ seg_entries segs.

Definition phase_inv (s : Store) chk issued (ph : phase) : Prop :=
  match ph with
  | Idle => True
  | Captured sn =>
      1 ≤ CheckpointSeq sn < nextSeq s ∧ chk_seq chk ≤ CheckpointSeq sn ∧
      snapshot_of (snapshot_without_seq sn) (CheckpointSeq sn) (filter (λ e, Seq e ≤ CheckpointSeq sn) issued) ∧
      Forall text_bundle (sn_Bundles sn) ∧ Forall text_audit (sn_AuditEvents sn)
  | Written c file => file = snapshot_name c ∧ 1 ≤ c < nextSeq s ∧ chk_seq chk ≤ c ∧ snap_on_disk chk c issued
  | Committed c file => file = snapshot_name c ∧ chk_seq chk = c
  | Deleted file => file = snapshot_name (chk_seq chk)
  end.

Definition inv (y : Sys) : Prop :=
  mem_inv (y_store y) (y_issued y) ∧
  log_inv (y_wal y) (d_wal (y_disk y)) (y_issued y) (y_acked y) (y_pending y) (chk_seq (d_chk (y_disk y))) ∧
  chk_ok (d_chk (y_disk y)) (nextSeq (y_store y)) (y_issued y) ∧
  phase_inv (y_store y) (d_chk (y_disk y)) (y_issued y) (y_phase y).

(** *** Files of the checkpoint directory *)

Lemma snapshot_name_inj c c' : 0 ≤ c → 0 ≤ c' → snapshot_name c = snapshot_name c' → c = c'.
Proof.
  intros Hc Hc' E. unfold snapshot_name in E. apply (f_equal (λ s, TrimPrefix s "snapshot-")) in E.
  rewrite !TrimPrefix_app in E. by apply str_app_inj_r, dec_pad_inj in E.
Qed.

Lemma snapshot_name_text c : ValidString (snapshot_name c) = true.
Proof.
  apply ValidString_ascii. unfold snapshot_name. rewrite !bytes_of_app. apply Forall_app.
  split; [|apply Forall_app; split; [apply dec_pad_ascii|]].
  all: by repeat (constructor; [vm_compute; done|]).
Qed.

Lemma snapshot_name_last c : last (bytes_of_string (snapshot_name c)) = Some "n"%char.
Proof. unfold snapshot_name. by rewrite !bytes_of_app, !last_app. Qed.

Lemma snapshot_name_checkpoint c : snapshot_name c ≠ checkpoint_file.
Proof.
  intros E. assert (HasPrefix (snapshot_name c) "snapshot-" = true) as Hp by apply HasPrefix_app. by rewrite E in Hp.
Qed.

Lemma tmp_last name : HasSuffix name ".tmp" = true → last (bytes_of_string name) = Some "p"%char.
Proof. intros [r ->]%HasSuffix_spec. by rewrite bytes_of_app, last_app. Qed.

Lemma not_tmp_snapshot c : HasSuffix (snapshot_name c) ".tmp" = false.
Proof. destruct (HasSuffix _ _) eqn:E; [|done]. apply tmp_last in E. by rewrite snapshot_name_last in E. Qed.

Lemma is_tmp name : HasSuffix (name +:+ ".tmp") ".tmp" = true.
Proof. apply HasSuffix_spec. eauto. Qed.

Lemma not_tmp_ne name name' : HasSuffix name ".tmp" = false → name ≠ name' +:+ ".tmp".
Proof. intros E ->. by rewrite is_tmp in E. Qed.

Lemma writeSnapshot_spec io sn chk chk' r :
  Forall text_bundle (sn_Bundles sn) → Forall text_audit (sn_AuditEvents sn) →
  writeSnapshot io sn chk = (chk', r) →
  (∀ name, HasSuffix name ".tmp" = false → name ≠ snapshot_name (CheckpointSeq sn) → chk' !! name = chk !! name) ∧
  match r with
  | None => chk' !! snapshot_name (CheckpointSeq sn) = chk !! snapshot_name (CheckpointSeq sn)
  | Some file => file = snapshot_name (CheckpointSeq sn) ∧
      ∃ data, chk' !! file = Some data ∧ decode_snapshot data = Some (snapshot_without_seq sn)
  end.
Proof.
  intros Hb Ha. unfold writeSnapshot. destruct (encode_snapshot sn) as [data|] eqn:E; [|by intros [= <- <-]].
  set (file := snapshot_name _). assert (file ≠ file +:+ ".tmp") as Hne by apply not_tmp_ne, not_tmp_snapshot.
  destruct (replace_file _ _ _ _ _) as [[chk1 wok] rok] eqn:Er.
  apply replace_file_spec in Er as [Hf Ho]; [|done]. destruct (wok && rok); intros [= <- <-].
  - split; [intros name Hn Hn'; apply Ho; [by apply not_tmp_ne|done]|]. split; [done|]. exists data. split; [done|].
    by apply snapshot_ok.
  - split; [|by rewrite lookup_delete_ne].
    intros name Hn Hn'. rewrite lookup_delete_ne by (apply not_eq_sym; by apply not_tmp_ne).
    apply Ho; [by apply not_tmp_ne|done].
Qed.

Lemma write_checkpoint_spec io c file chk chk' ok :
  ValidString file = true → write_checkpoint io (mkCheckpoint c file) chk = (chk', ok) →
  (∀ name, HasSuffix name ".tmp" = false → name ≠ checkpoint_file → chk' !! name = chk !! name) ∧
  if ok then ∃ data, chk' !! checkpoint_file = Some data ∧ decode_checkpoint data = Some (mkCheckpoint c file)
  else chk' !! checkpoint_file = chk !! checkpoint_file.
Proof.
  intros Hv. unfold write_checkpoint. destruct (encode_checkpoint _) as [data|] eqn:E; [|by intros [= <- <-]].
  destruct (replace_file _ _ _ _ _) as [[chk1 wok] rok] eqn:Er.
  apply replace_file_spec in Er as [Hf Ho]; [|done]. intros [= <- <-].
  split; [intros name Hn Hn'; apply Ho; [by apply not_tmp_ne|done]|].
  destruct (wok && rok); [|done]. exists data. split; [done|]. by apply checkpoint_ok.
Qed.

(** What recovery reads of the directory. *)
Lemma chk_ok_same chk chk' next issued :
  chk' !! checkpoint_file = chk !! checkpoint_file →
  chk' !! snapshot_name (chk_seq chk) = chk !! snapshot_name (chk_seq chk) →
  chk_ok chk next issued → chk_ok chk' next issued ∧ chk_seq chk' = chk_seq chk.
Proof.
  intros Hc Hs Hok. assert (loadCheckpoint chk' = loadCheckpoint chk) as E by (unfold loadCheckpoint; by rewrite Hc).
  split; [|unfold chk_seq; by rewrite E]. unfold chk_ok in *. rewrite Hc.
  destruct (chk !! checkpoint_file) as [data|] eqn:Ed; [|done]. destruct Hok as (c & Edc & Hr & data' & sn & Hd & Hsn & Hof).
  exists c. split; [done|]. split; [done|]. exists data', sn. split; [|done].
  unfold chk_seq, loadCheckpoint in Hs. rewrite Ed in Hs. simpl in Hs. rewrite Edc in Hs. simpl in Hs. by rewrite Hs.
Qed.

(** *** Steps *)

Lemma filter_snoc_above c issued e : c < Seq e → filter (λ e, Seq e ≤ c) (issued ++ [e]) = filter (λ e, Seq e ≤ c) issued.
Proof. intros Hc. rewrite filter_app, filter_cons, decide_False by lia. by rewrite filter_nil, app_nil_r. Qed.

Lemma chk_ok_snoc chk next issued e :
  chk_ok chk next issued → next ≤ Seq e → chk_ok chk (next + 1) (issued ++ [e]).
Proof.
  unfold chk_ok. destruct (chk !! checkpoint_file); [|done]. intros (c & E & Hc & Hs) He. exists c.
  split; [done|]. split; [lia|]. unfold snap_on_disk. by rewrite filter_snoc_above by lia.
Qed.

Lemma phase_inv_snoc s s' chk issued ph e :
  phase_inv s chk issued ph → Seq e = nextSeq s → nextSeq s' = nextSeq s + 1 → phase_inv s' chk (issued ++ [e]) ph.
Proof.
  intros Hph He Hn. destruct ph as [|sn|c file|c file|file]; simpl in *; try done.
  - destruct Hph as (Hr & ? & ?). rewrite filter_snoc_above by lia. split; [lia|done].
  - destruct Hph as (? & Hr & ? & ?). unfold snap_on_disk. rewrite filter_snoc_above by lia. split_and!; try done; lia.
Qed.

Lemma inv_request s w d il ak pd ph r now s' e :
  inv (mkSys s w d il ak pd ph) → text_request r → perform s r now = Some (s', e) → loggable e →
  inv (mkSys s' w d (il ++ [e]) ak (pd ++ [e]) ph).
Proof.
  intros ((Hs & Hok & Hlt & Heq & Hone) & (segs & Hrep & Hw & Hnd & Hsub & Hak & Hack) & Hc & Hph) Ht Hp Hl.
  destruct (perform_apply s r now s' e Ht Hp) as (-> & He & Hn & Hent & _). simpl in *.
  rewrite Forall_forall in Hlt. split; [|split; [|split]].
  - split_and!; simpl.
    + apply StronglySorted_app_2; [|done|by repeat constructor]. intros x1 x2 Hx1 ->%list_elem_of_singleton. rewrite He. by apply Hlt.
    + apply Forall_app. split; [done|]. apply Forall_singleton. split; [done|]. split; [by exists r|lia].
    + apply Forall_app. split; [|apply Forall_singleton; lia]. apply Forall_forall. intros x Hx%Hlt. lia.
    + unfold replay. rewrite foldl_app. simpl. by rewrite Heq.
    + lia.
  - exists segs. cbn [y_pending y_issued y_acked]. split; [done|]. split; [done|]. rewrite <- app_assoc.
    assert (e ∉ pd ++ seg_entries segs) as Hnew by (intros Hin%Hsub%Hlt; lia).
    split_and!; [|set_solver|set_solver|done].
    simpl. rewrite <- Permutation_middle. by constructor.
  - cbn [y_disk y_store y_issued]. rewrite Hn. apply chk_ok_snoc; [done|lia].
  - by eapply phase_inv_snoc.
Qed.

Lemma inv_append s w d il ak pd pd' ph e ok out w' dir r :
  inv (mkSys s w d il ak pd ph) → pd ≡ₚ e :: pd' → segmentIdx w + 1 < 2 ^ 64 →
  Append ok out w (d_wal d) e = (w', dir, r) → (∀ err, r = Err err → out = WroteAll ∨ out = WroteSome 0) →
  inv (mkSys s w' (with_wal d dir) il (if is_ok r then e :: ak else ak) pd' ph).
Proof.
  intros (Hm & (segs & Hrep & Hw & Hnd & Hsub & Hak & Hack) & Hc & Hph) Hpd Hlt HA Hout.
  split; [done|]. split; [|done]. simpl in *.
  assert (e ∈ il) as Hin by (apply Hsub; rewrite Hpd; set_solver).
  destruct Hm as (_ & Hok & _). rewrite Forall_forall in Hok. destruct (Hok e Hin) as (He & _ & _).
  destruct (Append_rep ok out w (d_wal d) segs e w' dir r Hrep Hw Hlt He HA) as (segs' & Hw' & Hr).
  exists segs'. destruct r as [u|err]; simpl.
  - destruct Hr as [Hrep' Hp]. split_and!; [done|done| | | |].
    + rewrite Hp, <- Permutation_middle. by rewrite Hpd in Hnd.
    + intros x. rewrite Hp, <- Permutation_middle. intros Hx. apply Hsub. by rewrite Hpd.
    + set_solver.
    + intros x Hx Hcx. rewrite Hp. apply elem_of_cons in Hx as [->|Hx]; [by left|]. right. by apply Hack.
  - destruct Hr as [[Hrep'|(Htorn & n & Hn)] Hp].
    + rewrite Hpd in Hnd, Hsub. apply NoDup_cons in Hnd as [_ Hnd].
      split_and!; [done|done|by rewrite Hp| |done|intros x; rewrite Hp; auto]. intros x. rewrite Hp. set_solver.
    + by destruct (Hout err eq_refl) as [E|E]; rewrite E in Hn.
Qed.

Lemma chk_seq_lt chk next issued : chk_ok chk next issued → 1 ≤ next → 0 ≤ chk_seq chk < next.
Proof. intros [[_ ->]|(_ & ? & _)]%chk_ok_cases Hn; lia. Qed.

Lemma filter_all issued next : Forall (λ e, Seq e < next) issued → filter (λ e, Seq e ≤ next - 1) issued = issued.
Proof. induction 1 as [|e es He Hes IH]; [done|]. rewrite filter_cons, decide_True by lia. by rewrite IH. Qed.

Lemma inv_capture s w d il ak pd now jo bo :
  inv (mkSys s w d il ak pd Idle) →
  1 ≤ nextSeq s - 1 → jo ≡ₚ (map_to_list (jobs s)).*1 → bo ≡ₚ (map_to_list (bundles s)).*1 →
  inv (mkSys s w d il ak pd (Captured (take_snapshot s now jo bo))).
Proof.
  intros (Hm & Hl & Hc & _) Hn Hjo Hbo. split; [done|]. split; [done|]. split; [done|].
  destruct Hm as (_ & Hok & Hlt & Heq & Hone). cbn [y_store y_issued y_disk] in *.
  destruct (take_snapshot_of s now jo bo il) as (Hof & Hb & Ha); [done| |done|done|].
  { eapply Forall_impl; [exact Hok|]. by intros e (_ & ? & _). }
  pose proof (chk_seq_lt _ _ _ Hc Hone). cbn [y_phase phase_inv].
  change (CheckpointSeq (take_snapshot s now jo bo)) with (nextSeq s - 1). rewrite filter_all by done.
  split_and!; try done; lia.
Qed.

(** Writing the snapshot leaves the current checkpoint's readable. *)
Lemma inv_snapshot s w d il ak pd sn io chk r :
  inv (mkSys s w d il ak pd (Captured sn)) → writeSnapshot io sn (d_chk d) = (chk, r) →
  inv (mkSys s w (with_chk d chk) il ak pd (match r with Some file => Written (CheckpointSeq sn) file | None => Idle end)).
Proof.
  intros (Hm & Hl & Hc & Hr & Hle & Hof & Hb & Ha) Hw. cbn [y_store y_issued y_disk d_chk] in *.
  destruct (writeSnapshot_spec io sn _ chk r Hb Ha Hw) as [Ho Hf]. set (c := CheckpointSeq sn) in *.
  assert (chk !! checkpoint_file = d_chk d !! checkpoint_file) as Hcf.
  { apply Ho; [done|]. apply not_eq_sym, snapshot_name_checkpoint. }
  pose proof (chk_seq_lt _ _ _ Hc (proj2 (proj2 (proj2 (proj2 Hm))))) as Hcs.
  assert (∀ file, r = Some file → snap_on_disk chk c il) as Hnew.
  { intros file ->. destruct Hf as (-> & data & Hd & Hdec). by exists data, (snapshot_without_seq sn). }
  assert (chk_ok chk (nextSeq s) il ∧ chk_seq chk = chk_seq (d_chk d)) as [Hc' Hseq].
  { destruct (decide (c = chk_seq (d_chk d) ∧ is_Some r)) as [[E [file Hfile]]|Hne].
    - assert (loadCheckpoint chk = loadCheckpoint (d_chk d)) as El by (unfold loadCheckpoint; by rewrite Hcf).
      split; [|unfold chk_seq; by rewrite El]. unfold chk_ok. rewrite Hcf. unfold chk_ok in Hc.
      destruct (d_chk d !! checkpoint_file) as [data|] eqn:Ed; [|done]. destruct Hc as (c' & Edc & Hcr & _).
      assert (c' = c) as ->. { rewrite E. unfold chk_seq, loadCheckpoint. rewrite Ed. simpl. by rewrite Edc. }
      exists c. split; [done|]. split; [done|]. by eapply Hnew.
    - apply chk_ok_same; [done| |done]. destruct (decide (c = chk_seq (d_chk d))) as [E|E].
      + rewrite <- E. destruct r as [file|]; [|done]. destruct Hne. split; [done|by eexists].
      + apply Ho; [apply not_tmp_snapshot|]. intros Es%snapshot_name_inj; lia. }
  split; [done|]. split; [cbn; by rewrite Hseq|]. split; [done|]. destruct r as [file|]; [|done].
  cbn [y_phase phase_inv y_disk with_chk d_chk y_store y_issued]. rewrite Hseq. destruct Hf as [-> _]. split_and!; try done; by eauto || lia.
Qed.

Lemma inv_checkpoint s w d il ak pd c file io chk ok :
  inv (mkSys s w d il ak pd (Written c file)) → write_checkpoint io (mkCheckpoint c file) (d_chk d) = (chk, ok) →
  inv (mkSys s w (with_chk d chk) il ak pd (if ok then Committed c file else Idle)).
Proof.
  intros (Hm & Hl & Hc & -> & Hr & Hle & Hsn) Hw. cbn [y_store y_issued y_disk d_chk] in *.
  destruct (write_checkpoint_spec io c _ _ chk ok (snapshot_name_text c) Hw) as [Ho Hf].
  assert (∀ c', chk !! snapshot_name c' = d_chk d !! snapshot_name c') as Hsame.
  { intros c'. apply Ho; [apply not_tmp_snapshot|apply snapshot_name_checkpoint]. }
  destruct ok.
  - destruct Hf as (data & Hd & Hdec).
    assert (loadCheckpoint chk = Some (mkCheckpoint c (snapshot_name c))) as El by (unfold loadCheckpoint; by rewrite Hd).
    assert (chk_seq chk = c) as Hseq by (unfold chk_seq; by rewrite El).
    split; [done|]. split.
    { destruct Hl as (segs & ? & ? & ? & ? & ? & Hack). exists segs. split_and!; try done.
      cbn [y_disk with_chk d_chk]. rewrite Hseq. intros e He Hce. apply Hack; [done|]. cbn. lia. }
    split; [|done]. unfold chk_ok. cbn [y_disk with_chk d_chk y_store y_issued]. rewrite Hd. exists c. split; [done|]. split; [done|].
    unfold snap_on_disk. by rewrite Hsame.
  - destruct (chk_ok_same _ chk _ _ Hf (Hsame _) Hc) as [Hc' Hseq]. split; [done|]. split; [cbn; by rewrite Hseq|]. done.
Qed.

Lemma inv_delete s w d il ak pd c file remove_ok :
  inv (mkSys s w d il ak pd (Committed c file)) →
  inv (mkSys s w (with_wal d (DeleteSegmentsBelow w c remove_ok (d_wal d))) il ak pd (Deleted file)).
Proof.
  intros (Hm & Hl & Hc & -> & Hseq). cbn [y_store y_issued y_disk d_chk y_wal y_acked y_pending] in *.
  split; [done|]. split; [|split; [done|by simpl; rewrite Hseq]].
  destruct Hl as (segs & Hrep & Hw & Hnd & Hsub & Hak & Hack).
  destruct (DeleteSegmentsBelow_rep w c remove_ok _ segs Hrep Hw) as (segs' & gone & Hrep' & Hw' & Hp & Hgone).
  rewrite Forall_forall in Hgone. exists segs'. cbn [y_wal y_disk with_wal d_wal y_issued y_acked y_pending d_chk].
  rewrite Hp in Hnd, Hsub. split_and!; [done|done| |set_solver|done|].
  - rewrite (Permutation_app_comm gone), app_assoc in Hnd. by apply NoDup_app in Hnd as [? _].
  - intros e He Hce. specialize (Hack e He Hce). rewrite Hp in Hack.
    apply elem_of_app in Hack as [Hg|]; [|done]. apply Hgone in Hg. lia.
Qed.

Lemma inv_cleanup s w d il ak pd file remove_ok :
  inv (mkSys s w d il ak pd (Deleted file)) →
  inv (mkSys s w (with_chk d (cleanupOldSnapshots file remove_ok (d_chk d))) il ak pd Idle).
Proof.
  intros (Hm & Hl & Hc & ->). cbn [y_store y_issued y_disk d_chk] in *.
  assert (∀ name, (is_snapshot_file name && bool_decide (name ≠ snapshot_name (chk_seq (d_chk d))) && remove_ok name) = false →
    cleanupOldSnapshots (snapshot_name (chk_seq (d_chk d))) remove_ok (d_chk d) !! name = d_chk d !! name) as Hkeep.
  { intros name Hn. unfold cleanupOldSnapshots. destruct (d_chk d !! name) as [v|] eqn:E.
    - by apply map_lookup_filter_Some.
    - apply map_lookup_filter_None. by left. }
  destruct (chk_ok_same (d_chk d) (cleanupOldSnapshots (snapshot_name (chk_seq (d_chk d))) remove_ok (d_chk d)) (nextSeq s) il) as [Hc' Hseq].
  - by apply Hkeep.
  - apply Hkeep. rewrite bool_decide_eq_false_2 by auto. by rewrite andb_false_r.
  - done.
  - split; [done|]. split; [cbn; by rewrite Hseq|]. done.
Qed.

(** *** Restarting *)

Lemma filter_ext_in (P Q : WALEntry → Prop) `{!∀ e, Decision (P e), !∀ e, Decision (Q e)} es :
  (∀ e, e ∈ es → P e ↔ Q e) → filter P es = filter Q es.
Proof.
  induction es as [|e es IH]; intros HPQ; [done|]. rewrite !filter_cons.
  rewrite (decide_ext (P e) (Q e)) by (apply HPQ; left). rewrite IH; [done|]. intros; apply HPQ. by right.
Qed.

Lemma found_ext chk log log' issued : (∀ e, e ∈ issued → e ∈ log ↔ e ∈ log') → found chk log issued = found chk log' issued.
Proof.
  intros Hl. unfold found. apply filter_ext_in. intros e He. by rewrite (Hl e).
Qed.

(** [New] on a disk that reads as the given segments. *)
Lemma New_found dir dir1 segs chk next issued :
  reads_as dir dir1 → wal_rep dir1 segs → chk_ok chk next issued → by_seq issued → Forall issued_ok issued →
  NoDup (seg_entries segs) → seg_entries segs ⊆ issued →
  ∃ s w dir' dir1' segs', New true (mkDisk dir chk) = Ok (s, w, mkDisk dir' chk) ∧
    newWALWriter true dir = Some (w, dir') ∧ reads_as dir' dir1' ∧ wal_rep dir1' segs' ∧
    seg_entries segs' ≡ₚ seg_entries segs ∧
    store_equiv s (replay (found chk (seg_entries segs) issued)) ∧
    Forall (λ e, Seq e < nextSeq s) (found chk (seg_entries segs) issued) ∧ chk_seq chk < nextSeq s ∧ 1 ≤ nextSeq s.
Proof.
  intros Hr Hrep Hc Hs Hok Hnd Hsub.
  destruct (newWALWriter_rep dir1 segs Hrep) as (w1 & dir1' & segs' & Hnew & Hrep' & _ & Hp).
  destruct (newWALWriter_reads_as dir dir1 w1 dir1' Hr Hnew) as (w & dir' & Hnew' & Hr').
  destruct (recover_found dir' dir1' segs' chk next issued) as (s & Hrec & Hrest); [done..|by rewrite Hp|by rewrite Hp|].
  exists s, w, dir', dir1', segs'. unfold New. cbn [d_wal d_chk]. rewrite Hnew', Hrec.
  rewrite (found_ext chk (seg_entries segs') (seg_entries segs)) in Hrest by (intros; by rewrite Hp).
  by split_and!; try apply Hrest.
Qed.

Lemma reads_as_refl dir : reads_as dir dir.
Proof. by intros name. Qed.

Lemma chk_ok_found chk next next' log issued :
  chk_ok chk next issued → chk_seq chk < next' → chk_ok chk next' (found chk log issued).
Proof.
  intros Hc Hlt. destruct (chk_ok_cases _ _ _ Hc) as [[E _]|(E & Hr & Hsn)]; unfold chk_ok in *.
  - unfold loadCheckpoint in E. destruct (chk !! checkpoint_file); [|done]. destruct Hc as (c & Hd & _). simpl in E. congruence.
  - unfold loadCheckpoint in E. destruct (chk !! checkpoint_file); [|done]. simpl in E. eexists. split; [exact E|]. split; [lia|].
    unfold snap_on_disk. replace (filter _ (found chk log issued)) with (filter (λ e, Seq e ≤ chk_seq chk) issued); [done|].
    unfold found. rewrite list_filter_filter. apply filter_ext_in. intros e _. tauto.
Qed.

Lemma logged_iff (log : list WALEntry) issued e :
  Forall issued_ok issued → e ∈ issued → e ∈ filter (λ e, 0 < Seq e ∧ e ∈ log) issued ↔ e ∈ log.
Proof.
  rewrite Forall_forall. intros Hok He. destruct (Hok e He) as (_ & _ & Hseq). rewrite list_elem_of_filter.
  split; [by intros [[_ ?] _]|]. intros Hl. split; [split; [lia|exact Hl]|exact He].
Qed.

Lemma inv_restart s w d il ak pd ph s' w' d' :
  inv (mkSys s w d il ak pd ph) → New true d = Ok (s', w', d') →
  inv (mkSys s' w' d' (found (d_chk d) (default [] (ReplayEntries (d_wal d) 0)) il) ak [] Idle).
Proof.
  destruct d as [dir chk].
  intros (Hm & (segs & Hrep & Hw & Hnd & Hsub & Hak & Hack) & Hc & _) HN. cbn [y_store y_issued y_disk d_chk d_wal y_pending y_acked y_wal] in *.
  destruct Hm as (Hs & Hok & Hlt & Heq & Hone). apply NoDup_app in Hnd as (_ & _ & Hnd).
  assert (seg_entries segs ⊆ il) as Hsub' by set_solver.
  rewrite (ReplayEntries_issued dir dir segs il 0 (reads_as_refl dir) Hrep Hs Hnd Hsub'). cbn [from_option id].
  rewrite (found_ext chk _ (seg_entries segs)) by (intros e He; by apply logged_iff).
  destruct (newWALWriter_rep dir segs Hrep) as (w1 & dir1 & segs1 & Hnew & Hrep1 & Hw1 & Hp1).
  destruct (New_found dir dir segs chk (nextSeq s) il) as (s1 & w2 & dir2 & _ & _ & HN' & Hnew' & _ & _ & _ & Heq' & Hlt' & Hcs & Hone');
    [apply reads_as_refl|assumption..|].
  rewrite HN' in HN. injection HN as <- <- <-. rewrite Hnew in Hnew'. injection Hnew' as <- <-.
  set (D := found chk (seg_entries segs) il) in *.
  assert (D ⊆ il) as HD by (intros e; unfold D, found; rewrite list_elem_of_filter; by intros [_ ?]).
  split; [|split; [|split]]; cbn [y_store y_issued y_disk d_chk d_wal y_pending y_acked y_wal].
  - split_and!; [by apply by_seq_filter| |done..]. apply Forall_forall. intros e He%HD. by rewrite Forall_forall in Hok; apply Hok.
  - exists segs1. cbn [app]. split_and!; [done|done|by rewrite Hp1| | |].
    + intros e. rewrite Hp1. intros He. apply list_elem_of_filter. auto.
    + intros e He. apply list_elem_of_filter. split; [|by apply Hak].
      destruct (decide (Seq e ≤ chk_seq chk)); [by left|]. right. apply Hack; [done|lia].
    + intros e He Hce. rewrite Hp1. by apply Hack.
  - by eapply chk_ok_found.
  - done.
Qed.

Lemma inv_step y y' : step y y' → inv y → inv y'.
Proof.
  destruct 1; intros Hi; [eapply inv_request | eapply inv_append | eapply inv_capture | eapply inv_snapshot |
    eapply inv_checkpoint | eapply inv_delete | eapply inv_cleanup | eapply inv_restart]; done.
Qed.

Lemma inv_initial y : initial y → inv y.
Proof.
  intros (s & w & d & HN & ->).
  assert (wal_rep ∅ ∅) as Hrep by (split; [by rewrite fmap_empty, kmap_empty | apply map_Forall_empty]).
  destruct (newWALWriter_rep ∅ ∅ Hrep) as (w1 & dir1 & segs1 & Hnew & Hrep1 & Hw1 & Hp1).
  destruct (New_found ∅ ∅ ∅ ∅ 1 []) as (s1 & w2 & dir2 & _ & _ & HN' & Hnew' & _ & _ & _ & Heq' & _ & _ & Hone');
    [apply reads_as_refl|done|done|constructor|constructor|constructor|done|].
  rewrite HN' in HN. injection HN as <- <- <-. rewrite Hnew in Hnew'. injection Hnew' as <- <-.
  split; [split_and!; [constructor|constructor|constructor|exact Heq'|exact Hone']|]. split; [|split; exact I].
  exists segs1. cbn [y_store y_issued y_disk d_chk d_wal y_pending y_acked y_wal app]. change (seg_entries ∅) with (@nil WALEntry) in Hp1.
  apply Permutation_nil_r in Hp1. rewrite Hp1.
  refine (conj Hrep1 (conj Hw1 (conj (NoDup_nil_2) (conj _ (conj _ _))))); [by intros e|by intros e|].
  intros e He. destruct (not_elem_of_nil e He).
Qed.

Lemma inv_reachable y : reachable y → inv y.
Proof.
  intros (y0 & H0' & Hr). apply inv_initial in H0'. induction Hr as [|y0 y1 y2 Hst Hr IH]; [done|].
  apply IH. by eapply inv_step.
Qed.

(** ** Theorems *)

(** What a crash leaves reads as a log of issued entries that has lost none
    of the logged ones. *)
Lemma crash_reads_as y d :
  inv y → crash y d →
  ∃ dir1 segs1, reads_as (d_wal d) dir1 ∧ wal_rep dir1 segs1 ∧ NoDup (seg_entries segs1) ∧
    seg_entries segs1 ⊆ y_issued y ∧
    ∀ e, e ∈ y_acked y → chk_seq (d_chk (y_disk y)) < Seq e → e ∈ seg_entries segs1.
Proof.
  intros (Hm & (segs & Hrep & Hw & Hnd & Hsub & Hak & Hack) & _ & _) [Hcr _].
  pose proof Hnd as (_ & Hdisj & Hnd')%NoDup_app.
  assert (∀ segs1 e, e ∈ y_pending y →
    (seg_entries segs1 ≡ₚ seg_entries segs ∨ seg_entries segs1 ≡ₚ e :: seg_entries segs) →
    NoDup (seg_entries segs1) ∧ seg_entries segs1 ⊆ y_issued y ∧
    ∀ e, e ∈ y_acked y → chk_seq (d_chk (y_disk y)) < Seq e → e ∈ seg_entries segs1) as Hlog.
  { intros segs1 e He [Hp|Hp].
    - split; [by rewrite Hp|]. split; [intros x; rewrite Hp; set_solver|]. intros x Hx Hcx. rewrite Hp. by apply Hack.
    - split; [rewrite Hp; constructor; [by apply Hdisj|done]|].
      split; [intros x; rewrite Hp, elem_of_cons; set_solver|]. intros x Hx Hcx. rewrite Hp. right. by apply Hack. }
  destruct Hcr as [E|(e & ok & out & w & err & He & Hlt & HA)].
  { exists (d_wal d), segs. rewrite E. split; [apply reads_as_refl|]. split; [exact Hrep|].
    split; [exact Hnd'|]. split; [set_solver|exact Hack]. }
  assert (loggable e) as Hl.
  { destruct Hm as (_ & Hok & _). rewrite Forall_forall in Hok. apply (Hok e), Hsub. set_solver. }
  destruct (Append_rep ok out _ _ segs e w (d_wal d) (Err err) Hrep Hw Hlt Hl HA) as (segs' & _ & [Hr|[Ht _]] & Hp).
  - exists (d_wal d), segs'. split; [apply reads_as_refl|]. split; [exact Hr|]. apply (Hlog segs' e He). by left.
  - destruct (torn_reads_as _ _ _ Ht Hl) as (dir1 & segs1 & Hr1 & Hrep1 & Hp1). exists dir1, segs1.
    split; [exact Hr1|]. split; [exact Hrep1|]. apply (Hlog segs1 e He). by rewrite <- Hp.
Qed.

(** C1: no acknowledged request is lost.  Take any run of the store:
    requests, appends in any order, rotations, failed appends and renames,
    compactions interleaved stage by stage with the requests, clean restarts.
    After a crash at any point, tearing the last append anywhere and leaving
    anything in the temporary files, [New] succeeds, and the tables it
    recovers are the replay, in the order of issue, of issued requests among
    which is every one that was acknowledged; new sequence numbers follow all
    of theirs. *)
Theorem crash_durable y d :
  reachable y → crash y d →
  ∃ s w d' D, New true d = Ok (s, w, d') ∧ D `sublist_of` y_issued y ∧ y_acked y ⊆ D ∧
    store_equiv s (replay D) ∧ Forall (λ e, Seq e < nextSeq s) D.
Proof.
  intros Hy Hcr. apply inv_reachable in Hy.
  destruct (crash_reads_as y d Hy Hcr) as (dir1 & segs1 & Hr & Hrep & Hnd & Hsub & Hack).
  destruct Hy as (Hm & (_ & _ & _ & _ & _ & Hak & _) & Hc & _), Hcr as [_ Htmp].
  destruct (chk_ok_same _ (d_chk d) _ _ (Htmp checkpoint_file eq_refl) (Htmp _ (not_tmp_snapshot _)) Hc) as [Hc' Hseq].
  destruct d as [dir chk]. cbn [d_wal d_chk] in *.
  destruct (New_found dir dir1 segs1 chk _ (y_issued y) Hr Hrep Hc') as (s & w & dir' & _ & _ & HN & _ & _ & _ & _ & Heq & Hlt & _);
    [apply Hm..|exact Hnd|exact Hsub|].
  exists s, w, (mkDisk dir' chk), (found chk (seg_entries segs1) (y_issued y)).
  split; [exact HN|]. split; [apply sublist_filter|]. split; [|by split].
  intros e He. apply list_elem_of_filter. split; [|by apply Hak]. rewrite Hseq.
  destruct (decide (Seq e ≤ chk_seq (d_chk (y_disk y)))); [by left|]. right. apply Hack; [done|lia].
Qed.

(** a torn line swallows the next entry.  After an append that failed
    with part of its line written, the next append to the same segment is
    acknowledged, and no replay ever finds it: both lines read as one that is
    not JSON.  The same bytes arise when a crash tears a line and the
    restarted store appends to that segment. *)
Theorem torn_line_swallows_next dir segs w e e' k :
  wal_rep dir segs → wal_writer w segs → w_open w = true → loggable e → loggable e' →
  (0 < k < String.length (line e))%nat → Z.of_nat (k + String.length (line e')) < maxLine →
  segmentSize w + Z.of_nat (String.length (line e)) + 1 ≤ maxSegmentSize →
  segmentSize w + Z.of_nat (String.length (line e')) + 1 ≤ maxSegmentSize →
  ∃ w1 dir1 w2 dir2,
    Append true (WroteSome k) w dir e = (w1, dir1, Err WriteEntry) ∧
    Append true WroteAll w1 dir1 e' = (w2, dir2, Ok tt) ∧
    ∀ c, ∃ l, ReplayEntries dir2 c = Some l ∧ l ≡ₚ filter (λ e, c < Seq e) (seg_entries segs).
Proof.
  intros Hrep (i & Hi & _ & Hact) Hop He He' Hk Hlen Hsz Hsz'. destruct (Hact Hop) as [es Hes].
  pose proof (wal_rep_loggable _ _ _ _ Hrep Hes) as Hgood.
  unfold Append. rewrite (line_marshal e (proj1 He)), (line_marshal e' (proj1 He')).
  assert (∀ s, String.length (s +:+ str1 newline) = (String.length s + 1)%nat) as Hsl by (intros; by rewrite str_length_app).
  rewrite !Hsl, bool_decide_eq_false_2 by lia. cbn [negb].
  rewrite (write_active_torn w dir segs i es) by done. cbn [negb].
  do 2 eexists. eexists _, _. split; [reflexivity|]. rewrite bool_decide_eq_false_2 by lia. cbn [negb].
  unfold write_active. rewrite Hop, Hi. change (segmentPath (Z.of_N i)) with (seg_name i). cbn [negb].
  split; [reflexivity|]. intros c. rewrite lookup_insert_eq. cbn [from_option id]. rewrite insert_insert_eq.
  rewrite str_take_app_l by lia.
  destruct (ReplayEntries_rep dir segs c Hrep) as (l & Hl & Hp & _). exists l. split; [|exact Hp].
  rewrite <- Hl. apply reads_as_replay. rewrite <- (insert_id dir (seg_name i) (log_bytes es)) at 2.
  - apply reads_as_insert. by rewrite read_log_glued, read_log.
  - by rewrite (wal_rep_lookup _ _ _ Hrep), Hes.
Qed.
End durability.

(** ** An example run *)

#[local] Existing Instance brace_wal_json.
#[local] Existing Instance brace_store_json.
#[local] Existing Instance go_insertion_sort.

Definition ex_new : Store * walWriter * Disk :=
  match New true (mkDisk ∅ ∅) with Ok r => r | Err _ => (empty_store, mkWal 0 0 false, mkDisk ∅ ∅) end.
Definition ex_boot : Sys := mkSys ex_new.1.1 ex_new.1.2 ex_new.2 [] [] [] Idle.

(** A request made and logged. *)
Definition ex_request (y : Sys) (job : string) : Sys :=
  match UpsertJob (y_store y) job 5 with
  | None => y
  | Some (s, e) => mkSys s (y_wal y) (y_disk y) (y_issued y ++ [e]) (y_acked y) (y_pending y ++ [e]) (y_phase y)
  end.
Definition ex_append (y : Sys) : Sys :=
  match y_pending y with
  | [] => y
  | e :: pd =>
      let '(w, dir, r) := Append true WroteAll (y_wal y) (d_wal (y_disk y)) e in
      mkSys (y_store y) w (with_wal (y_disk y) dir) (y_issued y) (if is_ok r then e :: y_acked y else y_acked y) pd (y_phase y)
  end.

Definition ex_logged : Sys := ex_append (ex_request ex_boot "job-1").
Definition ex_run : Sys := ex_request ex_logged "job-2".
Definition ex_entry : WALEntry := mkEntry 2 5 OpUpsert KindJob (marshal_any "job-2").
Definition ex_crash : Disk := with_wal (y_disk ex_run) (Append true (WroteSome 3) (y_wal ex_run) (d_wal (y_disk ex_run)) ex_entry).1.2.

Lemma ex_request_step y job :
  loggable (mkEntry (nextSeq (y_store y)) 5 OpUpsert KindJob (marshal_any job)) → step y (ex_request y job).
Proof.
  destruct y as [st w d il ak pd ph]. intros Hl.
  by apply (step_request st w d il ak pd ph (@ReqJob _ brace_store_json job) 5).
Qed.

Lemma ex_append_step y e pd :
  y_pending y = e :: pd → segmentIdx (y_wal y) + 1 < 2 ^ 64 → step y (ex_append y).
Proof.
  destruct y as [st w d il ak pd' ph]. unfold ex_append. cbn [y_pending y_wal y_disk y_store y_acked y_issued y_phase].
  intros -> Hlt. destruct (Append true WroteAll w (d_wal d) e) as [[w' dir] r] eqn:EA.
  eapply step_append; [reflexivity|exact Hlt|exact EA|by left].
Qed.

Lemma ex_run_reachable : reachable ex_run.
Proof.
  exists ex_boot. split; [exists ex_new.1.1, ex_new.1.2, ex_new.2; split; [|reflexivity]|].
  { vm_cast_no_check (eq_refl (New true (mkDisk ∅ ∅))). }
  apply (rtc_l _ _ (ex_request ex_boot "job-1")).
  { apply ex_request_step. split; [exact I|]. vm_compute. reflexivity. }
  apply (rtc_l _ _ ex_logged).
  { eapply ex_append_step; [vm_compute; reflexivity|]. vm_compute. reflexivity. }
  apply rtc_once, ex_request_step. split; [exact I|]. vm_compute. reflexivity.
Qed.

Lemma ex_run_crash : crash ex_run ex_crash.
Proof.
  split; [|done]. right. exists ex_entry, true, (WroteSome 3), (y_wal ex_run), WriteEntry.
  split; [vm_compute; left|]. split; [vm_compute; reflexivity|]. vm_compute. reflexivity.
Qed.

Lemma crash_durable_witness :
  length (y_acked ex_run) = 1%nat ∧ length (y_issued ex_run) = 2%nat ∧ bool_decide (d_wal ex_crash = d_wal (y_disk ex_run)) = false ∧
  ∃ s w d' D, New true ex_crash = Ok (s, w, d') ∧ D `sublist_of` y_issued ex_run ∧ y_acked ex_run ⊆ D ∧
    store_equiv s (replay D) ∧ Forall (λ e, Seq e < nextSeq s) D.
Proof.
  split; [vm_compute; reflexivity|]. split; [vm_compute; reflexivity|]. split; [vm_compute; reflexivity|].
  exact (crash_durable ex_run ex_crash ex_run_reachable ex_run_crash).
Defined.

Definition ex_lost : WALEntry := mkEntry 3 5 OpUpsert KindJob (marshal_any "job-3").

Lemma torn_line_swallows_next_witness :
  ∃ w1 dir1 w2 dir2,
    Append true (WroteSome 3) ex_new.1.2 (d_wal ex_new.2) ex_entry = (w1, dir1, Err WriteEntry) ∧
    Append true WroteAll w1 dir1 ex_lost = (w2, dir2, Ok tt) ∧
    ∀ c, ∃ l, ReplayEntries dir2 c = Some l ∧ l ≡ₚ [].
Proof.
  destruct (torn_line_swallows_next (d_wal ex_new.2) {[1%N := []]} ex_new.1.2 ex_entry ex_lost 3)
    as (w1 & dir1 & w2 & dir2 & H1 & H2 & H3).
  - split; [vm_cast_no_check (eq_refl (d_wal ex_new.2))|]. by apply map_Forall_singleton.
  - exists 1%N. split; [vm_compute; reflexivity|]. split; [|intros _; by exists []].
    intros j [es Hj]. apply lookup_singleton_Some in Hj as [<- _]. done.
  - vm_compute. reflexivity.
  - split; [exact I|]. vm_compute. reflexivity.
  - split; [exact I|]. vm_compute. reflexivity.
  - split; apply Nat.ltb_lt; vm_compute; reflexivity.
  - vm_compute. reflexivity.
  - apply Z.leb_le. vm_compute. reflexivity.
  - apply Z.leb_le. vm_compute. reflexivity.
  - exists w1, dir1, w2, dir2. split; [exact H1|]. split; [exact H2|]. exact H3.
Defined.
