(* ===== verification/LogQuery.v ===== *)
(** * The log query language

    Model of internal/storage/logquery/parser.go: label selectors and line
    filters, the subset of LogQL the log engine evaluates.  Strings are byte
    strings; an index found by a loop is used to cut them as in the source. *)

From stdpp Require Import options.
From S2P Require Import Prelude GoStrings GoUnicode GoQuote.

Record Matcher := mkMatcher { m_Name : string; m_Op : string; m_Value : string }.
Record LineFilter := mkLineFilter { f_Op : string; f_Value : string }.
Record Query := mkQuery { Matchers : list Matcher; LineFilters : list LineFilter }.

#[export] Instance Matcher_eq_dec : EqDecision Matcher.
Proof. solve_decision. Defined.
#[export] Instance LineFilter_eq_dec : EqDecision LineFilter.
Proof. solve_decision. Defined.
#[export] Instance Query_eq_dec : EqDecision Query.
Proof. solve_decision. Defined.

Inductive parse_error :=
| EmptyQuery
| UnterminatedSelector
| UnterminatedString
| ExpectedString
| BadLiteral
| EmptyMatcher
| MissingName (input : string)
| TrailingContent (input : string)
| UnsupportedMatcher (input : string)
| UnsupportedStage (rest : string)
| UnsupportedFragment (rest : string).

(** ** Scanning *)

(** [findSelectorEnd]'s loop, at index [i] of the input. *)
Fixpoint selector_end (i : nat) (inQuote escaped : bool) (s : string) : option nat :=
  match s with
  | "" => None
  | String c s =>
      if bool_decide (c = backslash) && inQuote && negb escaped then selector_end (S i) inQuote true s
      else if bool_decide (c = dquote) then selector_end (S i) (if escaped then inQuote else negb inQuote) false s
      else if bool_decide (c = "}"%char) && negb inQuote then Some i
      else selector_end (S i) inQuote false s
  end.
Definition findSelectorEnd (input : string) : result parse_error nat :=
  match selector_end 1 false false (str_drop 1 input) with
  | Some i => Ok i
  | None => Err UnterminatedSelector
  end.

(** [splitOutsideQuotes]'s loop; [cur] is the part since the last separator. *)
Fixpoint split_outside (separator : ascii) (inQuote escaped : bool) (cur s : string) : option (list string) :=
  match s with
  | "" => if inQuote then None else Some [cur]
  | String c s =>
      if bool_decide (c = backslash) && inQuote && negb escaped
      then split_outside separator inQuote true (cur +:+ str1 c) s
      else if bool_decide (c = dquote)
      then split_outside separator (if escaped then inQuote else negb inQuote) false (cur +:+ str1 c) s
      else if bool_decide (c = separator) && negb inQuote
      then parts ← split_outside separator inQuote false "" s; Some (cur :: parts)
      else split_outside separator inQuote false (cur +:+ str1 c) s
  end.
Definition splitOutsideQuotes (input : string) (separator : ascii) : result parse_error (list string) :=
  match split_outside separator false false "" input with
  | Some parts => Ok parts
  | None => Err UnterminatedString
  end.

(** [consumeQuotedString]'s loop, at index [i]: the index of the closing quote. *)
Fixpoint closing_quote (quote : Z) (i : nat) (escaped : bool) (s : string) : option nat :=
  match s with
  | "" => None
  | String c s =>
      if bool_decide (c = backslash) && bool_decide (quote ≠ Z_of_byte bquote) && negb escaped
      then closing_quote quote (S i) true s
      else if bool_decide (Z_of_byte c = quote) && negb escaped then Some i
      else closing_quote quote (S i) false s
  end.
Definition consumeQuotedString (input : string) : result parse_error (string * string) :=
  if bool_decide (input = "") then Err ExpectedString
  else
    let '(quote, width) := decode_rune (bytes_of_string input) in
    if negb (bool_decide (quote = Z_of_byte dquote) || bool_decide (quote = Z_of_byte squote) || bool_decide (quote = Z_of_byte bquote))
    then Err ExpectedString
    else
      match closing_quote quote width false (str_drop width input) with
      | None => Err UnterminatedString
      | Some i =>
          match Unquote (str_take (i + 1) input) with
          | None => Err BadLiteral
          | Some value => Ok (value, str_drop (i + 1) input)
          end
      end.

(** ** Matchers and filters *)

(** The loop of [parseMatcher] over the operators. *)
Fixpoint matcher_ops (input : string) (ops : list string) : result parse_error Matcher :=
  match ops with
  | [] => Err (UnsupportedMatcher input)
  | op :: ops =>
      match Index input op with
      | None => matcher_ops input ops
      | Some idx =>
          let name := TrimSpace (str_take idx input) in
          if bool_decide (name = "") then Err (MissingName input)
          else
            let! (value, rest) := consumeQuotedString (TrimSpace (str_drop (idx + String.length op) input)) in
            if bool_decide (TrimSpace rest ≠ "") then Err (TrailingContent input)
            else Ok (mkMatcher name op value)
      end
  end.
Definition matcherOps : list string := ["=~"; "!~"; "!="; "="].
Definition parseMatcher (input : string) : result parse_error Matcher :=
  if bool_decide (input = "") then Err EmptyMatcher else matcher_ops input matcherOps.

Definition filterOps : list string := ["|="; "!="; "|~"; "!~"].
(** [Ok None] where the input does not start with an operator. *)
Definition parseLineFilter (input : string) : result parse_error (option (LineFilter * string)) :=
  match find (HasPrefix input) filterOps with
  | None => Ok None
  | Some op =>
      let! (value, rest) := consumeQuotedString (TrimSpace (str_drop (String.length op) input)) in
      Ok (Some (mkLineFilter op value, rest))
  end.

Definition parseSelector (input : string) : result parse_error (list Matcher * string) :=
  let! end_ := findSelectorEnd input in
  let body := TrimSpace (str_drop 1 (str_take end_ input)) in
  let rest := str_drop (end_ + 1) input in
  if bool_decide (body = "") then Ok ([], rest)
  else
    let! parts := splitOutsideQuotes body "," in
    let! matchers := rmap (λ part, parseMatcher (TrimSpace part)) parts in
    Ok (matchers, rest).

(** The loop of [Parse]; a filter takes bytes off the rest, so that the length
    of the input is fuel enough. *)
Fixpoint parse_filters (fuel : nat) (rest : string) : result parse_error (list LineFilter) :=
  let rest := TrimSpace rest in
  if bool_decide (rest = "") then Ok []
  else
    let! parsed := parseLineFilter rest in
    match parsed, fuel with
    | Some (filter, remaining), S fuel => let! filters := parse_filters fuel remaining in Ok (filter :: filters)
    | _, _ => if HasPrefix rest "|" then Err (UnsupportedStage rest) else Err (UnsupportedFragment rest)
    end.

Definition Parse (input : string) : result parse_error Query :=
  let trimmed := TrimSpace input in
  if bool_decide (trimmed = "") then Err EmptyQuery
  else
    let! (matchers, rest) := if HasPrefix trimmed "{" then parseSelector trimmed else Ok ([], trimmed) in
    let! filters := parse_filters (String.length rest) rest in
    Ok (mkQuery matchers filters).

(** ** What the engine asks of a query *)

Definition ServiceEquals (q : Query) : string :=
  match find (λ m, bool_decide (m_Name m = "service") && bool_decide (m_Op m = "=")) (Matchers q) with
  | Some m => m_Value m
  | None => ""
  end.

Definition PositiveLineContainsFilters (q : Query) : list string :=
  f_Value <$> filter (λ f, f_Op f = "|=") (LineFilters q).
