(* ===== verification/LogQueryProps.v ===== *)
(** * The log query language: theorems

    Queries are printed in a canonical form and read back.  Reading gives the
    query that was printed, unless the value of a matcher contains an operator
    the parser looks for before the matcher's own: then the query is refused. *)

From stdpp Require Import options.
From S2P Require Import Prelude GoStrings GoUnicode GoQuote LogQuery.

(** ** Canonical form *)

Definition print_matcher (m : Matcher) : string := m_Name m +:+ m_Op m +:+ quoted (m_Value m).
Definition print_filter (f : LineFilter) : string := " " +:+ f_Op f +:+ quoted (f_Value f).
Definition print_filters (fs : list LineFilter) : string := foldr (λ f s, print_filter f +:+ s) "" fs.
Definition print (q : Query) : string :=
  "{" +:+ Join (print_matcher <$> Matchers q) "," +:+ "}" +:+ print_filters (LineFilters q).

(** Bytes of a label name. *)
Definition plain (b : ascii) : bool :=
  visible b && negb (bool_decide (b ∈ [dquote; ","; "}"; "="; "!"]%char)).
Definition plain_name (name : string) : Prop := name ≠ "" ∧ forallb plain (bytes_of_string name) = true.

Definition canonical (q : Query) : Prop :=
  Forall (λ m, plain_name (m_Name m) ∧ m_Op m ∈ matcherOps) (Matchers q) ∧
  Forall (λ f, f_Op f ∈ filterOps) (LineFilters q).

(** The operators tried before [op]. *)
Fixpoint before (op : string) (ops : list string) : list string :=
  match ops with
  | [] => []
  | o :: ops => if bool_decide (o = op) then [] else o :: before op ops
  end.

(** No operator tried before the matcher's own occurs in its value. *)
Definition unambiguous (m : Matcher) : Prop := Forall (λ o, Contains (m_Value m) o = false) (before (m_Op m) matcherOps).

(** ** Scanning over names, operators and quoted values *)

Lemma string_of_bytes_app a b : string_of_bytes (a ++ b) = string_of_bytes a +:+ string_of_bytes b.
Proof.
  induction a as [|x a IH]; [done|].
  change (String x (string_of_bytes (a ++ b)) = String x (string_of_bytes a +:+ string_of_bytes b)). by rewrite IH.
Qed.

Lemma escapes_cons b v : escapes (String b v) = string_of_bytes (escape b) +:+ escapes v.
Proof. unfold escapes. cbn. by rewrite string_of_bytes_app. Qed.

(** A step lemma for one escaped byte, by going through all bytes. *)
Ltac each_byte b := destruct b as [[] [] [] [] [] [] [] []]; reflexivity.

Lemma selector_end_escape b i s :
  selector_end i true false (string_of_bytes (escape b) +:+ s) = selector_end (length (escape b) + i) true false s.
Proof. each_byte b. Qed.

Lemma closing_quote_escape b i s :
  closing_quote (Z_of_byte dquote) i false (string_of_bytes (escape b) +:+ s) =
  closing_quote (Z_of_byte dquote) (length (escape b) + i) false s.
Proof. each_byte b. Qed.

Lemma split_outside_escape b cur s :
  split_outside "," true false cur (string_of_bytes (escape b) +:+ s) =
  split_outside "," true false (foldl (λ cur c, cur +:+ str1 c) cur (escape b)) s.
Proof. each_byte b. Qed.

Lemma foldl_append cur l : foldl (λ cur c, cur +:+ str1 c) cur l = cur +:+ string_of_bytes l.
Proof.
  revert cur. induction l as [|c l IH]; intros cur; simpl; [by rewrite str_app_nil_r|].
  rewrite IH, str_app_assoc. done.
Qed.

Lemma length_escapes_cons b v : String.length (escapes (String b v)) = (length (escape b) + String.length (escapes v))%nat.
Proof. by rewrite escapes_cons, str_length_app, <- length_bytes_of_string, bytes_of_string_of_bytes. Qed.

Lemma selector_end_escapes v i s :
  selector_end i true false (escapes v +:+ s) = selector_end (String.length (escapes v) + i) true false s.
Proof.
  revert i. induction v as [|b v IH]; intros i; [done|].
  rewrite length_escapes_cons, escapes_cons, str_app_assoc, selector_end_escape, IH. f_equal. lia.
Qed.

Lemma closing_quote_escapes v i s :
  closing_quote (Z_of_byte dquote) i false (escapes v +:+ String dquote s) = Some (String.length (escapes v) + i)%nat.
Proof.
  revert i. induction v as [|b v IH]; intros i; [done|].
  rewrite length_escapes_cons, escapes_cons, str_app_assoc, closing_quote_escape, IH. f_equal. lia.
Qed.

Lemma split_outside_escapes v cur s :
  split_outside "," true false cur (escapes v +:+ s) = split_outside "," true false (cur +:+ escapes v) s.
Proof.
  revert cur. induction v as [|b v IH]; intros cur; [change (escapes "") with ""; by rewrite str_app_nil_r|].
  rewrite escapes_cons, str_app_assoc, split_outside_escape, IH, foldl_append, str_app_assoc. done.
Qed.

(** Both scanners pass over [s] outside quotes. *)
Record passed (s : string) : Prop := {
  passed_end i r : selector_end i false false (s +:+ r) = selector_end (String.length s + i) false false r;
  passed_split cur r : split_outside "," false false cur (s +:+ r) = split_outside "," false false (cur +:+ s) r }.

Lemma passed_app a b : passed a → passed b → passed (a +:+ b).
Proof.
  intros [He Hs] [He' Hs']. split; intros.
  - rewrite str_app_assoc, He, He', str_length_app. f_equal. lia.
  - by rewrite str_app_assoc, Hs, Hs', str_app_assoc.
Qed.

Lemma passed_plain s : Forall (λ b, b ≠ dquote ∧ b ≠ ","%char ∧ b ≠ "}"%char) (bytes_of_string s) → passed s.
Proof.
  induction s as [|c s IH]; intros Hs.
  - split; intros; [done|by rewrite str_app_nil_r].
  - apply Forall_cons in Hs as [(Hq & Hc & Hb) Hs]. destruct (IH Hs) as [He Hp].
    split; intros; change (String c s +:+ r) with (String c (s +:+ r)); cbn [selector_end split_outside].
    + rewrite andb_false_r, !bool_decide_eq_false_2 by done. cbn [andb]. rewrite He. f_equal. cbn [String.length]. lia.
    + rewrite andb_false_r, !bool_decide_eq_false_2 by done. cbn [andb]. by rewrite Hp, str_app_assoc.
Qed.

Lemma passed_quoted v : passed (quoted v).
Proof.
  split; intros; unfold quoted; rewrite !str_app_assoc;
    change (str1 dquote +:+ escapes v +:+ str1 dquote +:+ r) with (String dquote (escapes v +:+ String dquote r)); cbn [selector_end split_outside].
  - change (bool_decide (dquote = backslash)) with false. change (bool_decide (dquote = dquote)) with true. cbn [andb negb].
    rewrite selector_end_escapes. cbn [selector_end].
    change (bool_decide (dquote = backslash)) with false. change (bool_decide (dquote = dquote)) with true. cbn [andb negb].
    f_equal. rewrite !str_length_app. cbn [String.length]. lia.
  - change (bool_decide (dquote = backslash)) with false. change (bool_decide (dquote = dquote)) with true. cbn [andb negb].
    rewrite split_outside_escapes. cbn [split_outside].
    change (bool_decide (dquote = backslash)) with false. change (bool_decide (dquote = dquote)) with true. cbn [andb negb].
    by rewrite !str_app_assoc.
Qed.

Lemma consume_quoted v s : consumeQuotedString (quoted v +:+ s) = Ok (v, s).
Proof.
  unfold consumeQuotedString. rewrite bool_decide_eq_false_2 by done.
  change (decode_rune (bytes_of_string (quoted v +:+ s))) with (34, 1%nat). cbn [negb orb].
  change (negb _) with false. cbv iota.
  assert (quoted v +:+ s = String dquote (escapes v +:+ String dquote s)) as E by (unfold quoted; by rewrite !str_app_assoc).
  rewrite E at 1. cbn [str_drop]. rewrite (closing_quote_escapes v 1).
  replace (String.length (escapes v) + 1 + 1)%nat with (String.length (quoted v)) by (unfold quoted; rewrite !str_length_app; simpl; lia).
  by rewrite str_take_app, Unquote_quoted, str_drop_app.
Qed.

(** ** Operators inside values *)

Lemma Index_String a s p :
  p ≠ "" → Index (String a s) p = if HasPrefix (String a s) p then Some O else S <$> Index s p.
Proof.
  intros Hp. unfold Index, HasPrefix. destruct p; [done|]. cbn [String.index].
  destruct (String.prefix _ _); [done|]. by destruct (String.index 0 _ s).
Qed.

Lemma Index_skip s r c p :
  c ∉ bytes_of_string s → Index (s +:+ r) (String c p) = Nat.add (String.length s) <$> Index r (String c p).
Proof.
  induction s as [|a s IH]; intros Hc.
  - change ("" +:+ r) with r. by destruct (Index r _).
  - apply not_elem_of_cons in Hc as [Ha Hs]. change (String a s +:+ r) with (String a (s +:+ r)).
    rewrite Index_String, IH by done. unfold HasPrefix. cbn [String.prefix].
    destruct (ascii_dec c a); [done|]. by destruct (Index r _).
Qed.

(** The operators that hide others. *)
Definition hiding : list string := ["=~"; "!~"; "!="].

Lemma escape_only c b : c ∈ ["="; "!"]%char → c ∈ escape b → b = c.
Proof.
  intros [->|[->| ?%elem_of_nil]%elem_of_cons]%elem_of_cons Hb; [| |done];
    (apply (bool_decide_unpack _); revert Hb; destruct b as [[] [] [] [] [] [] [] []]; intros Hb%(bool_decide_pack _); try exact Hb; exact I).
Qed.

Lemma HasPrefix_str1 a s c : HasPrefix (String a s) (str1 c) = bool_decide (a = c).
Proof.
  unfold HasPrefix. cbn [String.prefix]. destruct (ascii_dec c a) as [->|]; [|by rewrite bool_decide_eq_false_2].
  rewrite bool_decide_eq_true_2 by done. by destruct s.
Qed.

Lemma escape_head c b : c ∈ ["="; "~"]%char → ∃ a r, escape b = a :: r ∧ bool_decide (a = c) = bool_decide (b = c).
Proof.
  intros [->|[->| ?%elem_of_nil]%elem_of_cons]%elem_of_cons; [..|done];
    (destruct b as [[] [] [] [] [] [] [] []]; eexists _, _; split; reflexivity).
Qed.

Lemma next_escaped c v : c ∈ ["="; "~"]%char → HasPrefix (escapes v +:+ str1 dquote) (str1 c) = HasPrefix v (str1 c).
Proof.
  intros Hc. destruct v as [|b v].
  - by apply elem_of_cons in Hc as [->|[->| ?%elem_of_nil]%elem_of_cons].
  - rewrite escapes_cons, str_app_assoc, HasPrefix_str1. destruct (escape_head c b Hc) as (a & r & -> & <-).
    change (string_of_bytes (a :: r) +:+ escapes v +:+ str1 dquote) with (String a (string_of_bytes r +:+ escapes v +:+ str1 dquote)).
    apply HasPrefix_str1.
Qed.

Lemma Index_escapes o v :
  o ∈ hiding →
  Index (escapes v +:+ str1 dquote) o = (λ i, String.length (escapes (str_take i v))) <$> Index v o.
Proof.
  intros Ho. assert (∃ c1 c2, o = String c1 (str1 c2) ∧ c1 ∈ ["="; "!"]%char ∧ c2 ∈ ["="; "~"]%char) as (c1 & c2 & -> & H1 & H2).
  { apply elem_of_cons in Ho as [->|[->|[->| ?%elem_of_nil]%elem_of_cons]%elem_of_cons]; [..|done];
      eexists _, _; (split; [reflexivity|]); rewrite !elem_of_cons; auto. }
  induction v as [|b v IH].
  - change (escapes "" +:+ str1 dquote) with (str1 dquote). apply elem_of_cons in H1 as [->|[->| ?%elem_of_nil]%elem_of_cons]; done.
  - rewrite escapes_cons, str_app_assoc, Index_String by done. unfold HasPrefix at 1. cbn [String.prefix].
    destruct (ascii_dec c1 b) as [<-|Hb].
    + assert (escape c1 = [c1]) as -> by (apply elem_of_cons in H1 as [->|[->| ?%elem_of_nil]%elem_of_cons]; done).
      change (string_of_bytes [c1] +:+ escapes v +:+ str1 dquote) with (String c1 (escapes v +:+ str1 dquote)).
      rewrite Index_String by done. unfold HasPrefix at 1. cbn [String.prefix]. destruct (ascii_dec c1 c1); [|done].
      pose proof (next_escaped c2 v H2) as HP. unfold HasPrefix in HP. cbn [String.prefix] in HP. rewrite HP.
      destruct (String.prefix (str1 c2) v); [done|]. rewrite IH. destruct (Index v _); [|done]. cbn [fmap option_fmap option_map].
      cbn [str_take]. rewrite length_escapes_cons.
      assert (escape c1 = [c1]) as -> by (apply elem_of_cons in H1 as [->|[->| ?%elem_of_nil]%elem_of_cons]; done). done.
    + rewrite Index_skip by (rewrite bytes_of_string_of_bytes; intros ?%escape_only; [congruence|done]).
      rewrite IH. destruct (Index v _); [|done]. cbn [fmap option_fmap option_map str_take]. rewrite length_escapes_cons.
      by rewrite <- length_bytes_of_string, bytes_of_string_of_bytes.
Qed.

Lemma escapes_app a b : escapes (a +:+ b) = escapes a +:+ escapes b.
Proof.
  induction a as [|x a IH]; [done|]. change (String x a +:+ b) with (String x (a +:+ b)).
  by rewrite !escapes_cons, IH, str_app_assoc.
Qed.

(** ** Strings with visible ends *)

Definition starts (s : string) : Prop := ∃ a r, bytes_of_string s = a :: r ∧ visible a = true.
Definition ends (s : string) : Prop := ∃ l b, bytes_of_string s = l ++ [b] ∧ visible b = true.

Lemma TrimSpace_ends s : starts s → ends s → TrimSpace s = s.
Proof. intros (a & r & Ha & Va) (l & b & Hb & Vb). by eapply TrimSpace_visible. Qed.

Lemma starts_app a b : starts a → starts (a +:+ b).
Proof. intros (c & r & E & V). exists c, (r ++ bytes_of_string b). by rewrite bytes_of_app, E. Qed.

Lemma ends_app a b : ends b → ends (a +:+ b).
Proof. intros (l & c & E & V). exists (bytes_of_string a ++ l), c. by rewrite bytes_of_app, E, app_assoc. Qed.

Lemma ends_app_nil a b : ends a → b = "" ∨ ends b → ends (a +:+ b).
Proof. intros Ha [->|Hb]; [by rewrite str_app_nil_r|by apply ends_app]. Qed.

Lemma starts_quoted v : starts (quoted v).
Proof. by eexists _, _. Qed.
Lemma ends_quoted v : ends (quoted v).
Proof. unfold quoted. rewrite <- str_app_assoc. apply ends_app. by exists [], dquote. Qed.

#[local] Hint Resolve starts_app ends_app starts_quoted ends_quoted : monofs.

Lemma plain_visible name : plain_name name → starts name ∧ ends name.
Proof.
  intros [Hne Hp]. assert (∀ b, b ∈ bytes_of_string name → visible b = true) as Hv.
  { intros b Hb. rewrite forallb_forall in Hp. apply list_elem_of_In, Hp in Hb. unfold plain in Hb. by bool_hyps. }
  destruct name as [|a name]; [done|]. split.
  - exists a, (bytes_of_string name). split; [done|]. apply Hv. by constructor.
  - destruct (exists_last (l := bytes_of_string (String a name))) as (l & b & E); [done|]. exists l, b. split; [done|].
    apply Hv. rewrite E, elem_of_app, list_elem_of_singleton. auto.
Qed.

Lemma plain_bytes name b : plain_name name → b ∈ bytes_of_string name → b ∉ [dquote; ","; "}"; "="; "!"]%char.
Proof.
  intros [_ Hp] Hb. rewrite forallb_forall in Hp. apply list_elem_of_In, Hp in Hb. unfold plain in Hb. by bool_hyps.
Qed.

(** ** Matchers *)

Lemma op_cases op : op ∈ matcherOps → op = "=~" ∨ op = "!~" ∨ op = "!=" ∨ op = "=".
Proof. unfold matcherOps. rewrite !elem_of_cons, elem_of_nil. tauto. Qed.

Lemma before_cases op : op ∈ matcherOps →
  (op = "=~" ∧ before op matcherOps = []) ∨ (op = "!~" ∧ before op matcherOps = ["=~"]) ∨
  (op = "!=" ∧ before op matcherOps = ["=~"; "!~"]) ∨ (op = "=" ∧ before op matcherOps = hiding).
Proof.
  intros [->|[->|[->| ->]]]%op_cases; [left|right; left|right; right; left|right; right; right]; split; reflexivity.
Qed.

Section matcher.
Context (name op v : string) (Hname : plain_name name) (Hop : op ∈ matcherOps).
Let input := name +:+ op +:+ quoted v.

Lemma input_trim : TrimSpace input = input.
Proof using Hname. destruct (plain_visible name Hname). apply TrimSpace_ends; unfold input; auto with monofs. Qed.

Lemma Index_input c p :
  c ∈ ["="; "!"]%char → Index input (String c p) = Nat.add (String.length name) <$> Index (op +:+ quoted v) (String c p).
Proof using Hname.
  intros Hc. apply Index_skip. intros Hin. apply (plain_bytes _ _ Hname Hin).
  apply elem_of_cons in Hc as [->|[->| ?%elem_of_nil]%elem_of_cons]; [..|done]; rewrite !elem_of_cons; auto 10.
Qed.

Lemma Index_own : Index input op = Some (String.length name).
Proof using Hname Hop.
  assert (∃ c p, op = String c p ∧ c ∈ ["="; "!"]%char) as (c & p & E & Hc).
  { destruct (op_cases op Hop) as [->|[->|[->| ->]]]; eexists _, _; (split; [reflexivity|]); rewrite !elem_of_cons; auto. }
  rewrite E at 1. rewrite Index_input, <- E by done. rewrite E at 1. change (String c p +:+ quoted v) with (String c (p +:+ quoted v)).
  rewrite Index_String by (by rewrite E). change (String c (p +:+ quoted v)) with (String c p +:+ quoted v).
  rewrite <- E, HasPrefix_app. cbn. f_equal. lia.
Qed.

Lemma Index_hidden o :
  o ∈ before op matcherOps →
  Index input o = (λ i, String.length (name +:+ op +:+ str1 dquote +:+ escapes (str_take i v))) <$> Index v o.
Proof using Hname Hop.
  intros Ho. assert (o ∈ hiding) as Hh.
  { destruct (before_cases op Hop) as [[_ E]|[[_ E]|[[_ E]|[_ E]]]]; rewrite E in Ho; [..|done];
      rewrite ?elem_of_cons, ?elem_of_nil in Ho; unfold hiding; rewrite !elem_of_cons; tauto. }
  assert (∃ c p, o = String c p ∧ c ∈ ["="; "!"]%char) as (c & p & E & Hc).
  { unfold hiding in Hh. rewrite !elem_of_cons, elem_of_nil in Hh.
    destruct Hh as [->|[->|[->|[]]]]; eexists _, _; (split; [reflexivity|]); rewrite !elem_of_cons; auto. }
  rewrite E at 1. rewrite Index_input, <- E by done.
  assert (Index (op +:+ quoted v) o = Nat.add (String.length op + 1) <$> Index (escapes v +:+ str1 dquote) o) as ->.
  { change (quoted v) with (String dquote (escapes v +:+ str1 dquote)).
    destruct (before_cases op Hop) as [[-> E']|[[-> E']|[[-> E']|[-> E']]]]; rewrite E' in Ho;
      unfold hiding in Ho; rewrite ?elem_of_cons, ?elem_of_nil in Ho; clear -Ho;
      generalize (escapes v +:+ str1 dquote); intros X;
      (repeat destruct Ho as [->|Ho]; try done; rewrite ?str_app_cons, str_app_nil_l; unfold Index; cbn;
       by destruct (String.index 0 _ _)). }
  rewrite Index_escapes by done. destruct (Index v o); [|done]. cbn [fmap option_fmap option_map]. f_equal.
  rewrite !str_length_app. simpl. lia.
Qed.

(** What is left of a value behind an operator is not a matcher's value. *)
Lemma tail_shape w :
  TrimSpace (escapes w +:+ str1 dquote) = str1 dquote ∨
  ∃ c r, TrimSpace (escapes w +:+ str1 dquote) = String c (r +:+ str1 dquote) ∧ visible c = true ∧ c ≠ dquote.
Proof.
  induction w as [|b w IH]; [by left|]. rewrite escapes_cons, str_app_assoc.
  destruct (decide (b = " "%char)) as [->|Hb].
  - change (string_of_bytes (escape " ") +:+ escapes w +:+ str1 dquote) with (String " " (escapes w +:+ str1 dquote)).
    by rewrite TrimSpace_space.
  - right. assert (∃ c r, escape b = c :: r ∧ visible c = true ∧ c ≠ dquote) as (c & r & -> & Hc & Hq).
    { revert Hb. destruct b as [[] [] [] [] [] [] [] []]; intros Hb; try (by destruct Hb);
        (eexists _, _; split; [reflexivity|split; [reflexivity|discriminate]]). }
    exists c, (string_of_bytes r +:+ escapes w). split; [|done]. rewrite str_app_assoc. apply TrimSpace_ends.
    + by eexists _, _.
    + change (ends (str1 c +:+ string_of_bytes r +:+ escapes w +:+ str1 dquote)).
      apply ends_app, ends_app, ends_app. by exists [], dquote.
Qed.

Lemma closing_quote_spec quote i e s j :
  closing_quote quote i e s = Some j → ∃ a c b, s = a +:+ String c b ∧ j = (i + String.length a)%nat ∧ Z_of_byte c = quote.
Proof.
  revert i e. induction s as [|c s IH]; intros i e; [done|]. cbn [closing_quote].
  assert (∀ e', closing_quote quote (S i) e' s = Some j → ∃ a c0 b, String c s = a +:+ String c0 b ∧ j = (i + String.length a)%nat ∧ Z_of_byte c0 = quote) as Hs.
  { intros e' (a & c0 & b & -> & -> & Hc)%IH. exists (String c a), c0, b. simpl. split_and!; [done|lia|done]. }
  destruct (_ && _ && _); [apply Hs|]. destruct (_ && _) eqn:E; [|apply Hs]. intros [= <-]. bool_hyps.
  exists "", c, s. split_and!; [done|simpl; lia|done].
Qed.

Lemma consume_tail w val rest :
  consumeQuotedString (TrimSpace (escapes w +:+ str1 dquote)) = Ok (val, rest) → TrimSpace rest ≠ "".
Proof.
  destruct (tail_shape w) as [->|(c & r & -> & Hv & Hq)]; [done|]. unfold consumeQuotedString.
  rewrite bool_decide_eq_false_2 by done. unfold visible in Hv. apply bool_decide_eq_true in Hv.
  replace (decode_rune (bytes_of_string (String c (r +:+ str1 dquote)))) with (Z_of_byte c, 1%nat)
    by (cbn [bytes_of_string String.list_ascii_of_string decode_rune]; by rewrite bool_decide_eq_true_2 by lia).
  destruct (negb _); [done|]. cbn [str_drop]. destruct (closing_quote _ _ _ _) as [j|] eqn:E; [|done].
  apply closing_quote_spec in E as (a & c' & b & E & -> & Hc).
  destruct (Unquote _); [|done]. intros [= _ <-]. cbn [str_drop Nat.add]. rewrite E.
  replace (String.length a + 1)%nat with (String.length (a +:+ str1 c')) by (by rewrite str_length_app).
  replace (a +:+ String c' b) with ((a +:+ str1 c') +:+ b) by (by rewrite str_app_assoc). rewrite str_drop_app.
  destruct (decide (b = "")) as [->|Hb].
  - apply (f_equal bytes_of_string) in E. rewrite !bytes_of_app in E. apply app_inj_tail in E as [_ <-].
    destruct Hq. rewrite <- (byte_of_Z_of_byte c), <- Hc. reflexivity.
  - apply (f_equal bytes_of_string) in E. rewrite !bytes_of_app in E. cbn [bytes_of_string String.list_ascii_of_string] in E.
    destruct (exists_last (l := bytes_of_string b)) as (l & y & El); [by destruct b|].
    change (String.list_ascii_of_string b) with (bytes_of_string b) in E. rewrite El, app_comm_cons, app_assoc in E.
    apply app_inj_tail in E as [_ <-]. rewrite <- (string_of_bytes_of_string b), El, string_of_bytes_app.
    by apply TrimSpace_end.
Qed.

Lemma hidden_refused o ops :
  o ∈ before op matcherOps → Contains v o = true → ∃ e, matcher_ops input (o :: ops) = Err e.
Proof using Hname Hop.
  intros Ho Hc. cbn [matcher_ops]. rewrite (Index_hidden o Ho). unfold Contains in Hc. apply bool_decide_eq_true in Hc as [i Hi].
  rewrite Hi. cbn [fmap option_fmap option_map]. case_bool_decide; [by eexists|].
  apply Index_Some in Hi. set (u := str_take i v) in *. set (w := str_drop _ v) in *.
  assert (escapes o = o) as Eo.
  { destruct (before_cases op Hop) as [[_ E]|[[_ E]|[[_ E]|[_ E]]]]; rewrite E in Ho; unfold hiding in Ho;
      rewrite ?elem_of_cons, ?elem_of_nil in Ho; repeat destruct Ho as [->|Ho]; done. }
  assert (input = (name +:+ op +:+ str1 dquote +:+ escapes u +:+ o) +:+ (escapes w +:+ str1 dquote)) as Ei.
  { unfold input, quoted. rewrite Hi at 1. rewrite !escapes_app, Eo, !str_app_assoc. done. }
  rewrite <- str_length_app, !str_app_assoc.
  assert (str_drop (String.length (name +:+ op +:+ str1 dquote +:+ escapes u +:+ o)) input = escapes w +:+ str1 dquote) as ->
    by (etrans; [exact (f_equal _ Ei)|apply str_drop_app]).
  destruct (consumeQuotedString _) as [[val rest]|e] eqn:E; [|by eexists]. cbn [rbind].
  rewrite bool_decide_eq_true_2 by by eapply consume_tail. by eexists.
Qed.

Lemma own_parsed ops : matcher_ops input (op :: ops) = Ok (mkMatcher name op v).
Proof using Hname Hop.
  cbn [matcher_ops]. rewrite Index_own. unfold input. rewrite str_take_app, <- str_length_app, <- str_app_assoc, str_drop_app.
  destruct (plain_visible name Hname) as [Hs He]. rewrite (TrimSpace_ends name), (TrimSpace_ends (quoted v)) by auto with monofs.
  rewrite bool_decide_eq_false_2 by by destruct Hname.
  rewrite <- (str_app_nil_r (quoted v)), consume_quoted. reflexivity.
Qed.

Lemma not_hidden o : o ∈ before op matcherOps → Contains v o = false → Index input o = None.
Proof using Hname Hop.
  intros Ho Hc. rewrite Index_hidden by done. unfold Contains in Hc. apply bool_decide_eq_false in Hc.
  destruct (Index v o); [by destruct Hc|done].
Qed.

Lemma matcher_ops_list l ops :
  l ⊆ before op matcherOps →
  (Forall (λ o, Contains v o = false) l → matcher_ops input (l ++ op :: ops) = Ok (mkMatcher name op v)) ∧
  (¬ Forall (λ o, Contains v o = false) l → ∃ e, matcher_ops input (l ++ op :: ops) = Err e).
Proof using Hname Hop.
  induction l as [|o l IH]; intros Hl; [split; [intros _; apply own_parsed|intros []; constructor]|].
  apply list_subseteq_cons_iff in Hl as [Ho Hl]. specialize (IH Hl) as [IHok IHerr]. rewrite Forall_cons. cbn [app].
  destruct (Contains v o) eqn:Hc.
  - split; [by intros [? _]|]. intros _. by apply hidden_refused.
  - cbn [matcher_ops]. rewrite not_hidden by done. split; [intros [_ ?]; auto|]. intros Hn. apply IHerr. tauto.
Qed.

Lemma parseMatcher_print :
  (unambiguous (mkMatcher name op v) → parseMatcher (TrimSpace input) = Ok (mkMatcher name op v)) ∧
  (¬ unambiguous (mkMatcher name op v) → ∃ e, parseMatcher (TrimSpace input) = Err e).
Proof using Hname Hop.
  rewrite input_trim. unfold parseMatcher. rewrite bool_decide_eq_false_2 by (unfold input; destruct Hname; by destruct name).
  assert (∃ ops, matcherOps = before op matcherOps ++ op :: ops) as [ops E].
  { destruct (before_cases op Hop) as [[-> ->]|[[-> ->]|[[-> ->]|[-> ->]]]]; by eexists. }
  rewrite E. by apply matcher_ops_list.
Qed.

Lemma input_passed : passed input.
Proof using Hname Hop.
  apply passed_app; [|apply passed_app; [|apply passed_quoted]]; apply passed_plain, Forall_forall; intros b Hb.
  - pose proof (plain_bytes _ _ Hname Hb) as Hp. rewrite !elem_of_cons in Hp. tauto.
  - destruct (op_cases op Hop) as [->|[->|[->| ->]]]; cbn in Hb; rewrite ?elem_of_cons, elem_of_nil in Hb;
      repeat destruct Hb as [->|Hb]; done.
Qed.
End matcher.

(** ** Selectors *)

Abbreviation proper_matcher m := (plain_name (m_Name m) ∧ m_Op m ∈ matcherOps).

Lemma print_matcher_ends m : proper_matcher m → starts (print_matcher m) ∧ ends (print_matcher m).
Proof. intros [Hn Ho]. destruct (plain_visible _ Hn). unfold print_matcher. auto with monofs. Qed.

Lemma print_matcher_passed m : proper_matcher m → passed (print_matcher m).
Proof. intros [Hn Ho]. by apply input_passed. Qed.

Lemma Join_ends ms : ms ≠ [] → Forall (λ m, proper_matcher m) ms →
  starts (Join (print_matcher <$> ms) ",") ∧ ends (Join (print_matcher <$> ms) ",").
Proof.
  intros Hne Hms. induction Hms as [|m ms Hm Hms IH]; [done|]. destruct (print_matcher_ends m Hm).
  destruct ms as [|m' ms]; [done|]. rewrite fmap_cons, Join_cons by done. destruct IH; [done|]. auto with monofs.
Qed.

Lemma selector_end_Join ms i r : Forall (λ m, proper_matcher m) ms →
  selector_end i false false (Join (print_matcher <$> ms) "," +:+ r) =
  selector_end (String.length (Join (print_matcher <$> ms) ",") + i) false false r.
Proof.
  intros Hms. revert i. induction Hms as [|m ms Hm Hms IH]; intros i; [done|].
  pose proof (passed_end _ (print_matcher_passed m Hm)) as Hp. destruct ms as [|m' ms]; [apply Hp|].
  rewrite fmap_cons, Join_cons by done. rewrite !str_app_assoc, Hp.
  change ("," +:+ ?s) with (String "," s). cbn [selector_end]. change (selector_end ?n) with (selector_end n).
  change (bool_decide ("," = backslash)%char) with false. change (bool_decide ("," = dquote)%char) with false.
  change (bool_decide ("," = "}")%char) with false. cbn [andb]. rewrite IH, !str_length_app. f_equal. simpl. lia.
Qed.

Lemma split_Join cur p ps :
  Forall passed (p :: ps) → split_outside "," false false cur (Join (p :: ps) ",") = Some ((cur +:+ p) :: ps).
Proof.
  revert cur p. induction ps as [|p' ps IH]; intros cur p [Hp Hps]%Forall_cons.
  - change (Join [p] ",") with p. rewrite <- (str_app_nil_r p) at 1. by rewrite (passed_split _ Hp).
  - rewrite Join_cons, (passed_split _ Hp) by done. change ("," +:+ ?s) with (String "," s). cbn [split_outside].
    change (bool_decide ("," = backslash)%char) with false. change (bool_decide ("," = dquote)%char) with false.
    change (bool_decide ("," = ",")%char) with true. cbn [andb negb]. by rewrite IH.
Qed.

Lemma rmap_print ms :
  Forall (λ m, proper_matcher m) ms →
  (Forall unambiguous ms → rmap (λ part, parseMatcher (TrimSpace part)) (print_matcher <$> ms) = Ok ms) ∧
  (¬ Forall unambiguous ms → ∃ e, rmap (λ part, parseMatcher (TrimSpace part)) (print_matcher <$> ms) = Err e).
Proof.
  induction 1 as [|[n o v] ms [Hn Ho] Hms [IHok IHerr]]; [split; [done|by intros []]|].
  destruct (parseMatcher_print n o v Hn Ho) as [Hok Herr]. change (n +:+ o +:+ quoted v) with (print_matcher (mkMatcher n o v)) in *.
  rewrite Forall_cons. cbn [fmap list_fmap rmap]. split.
  - intros [Hu Hus]. rewrite Hok by done. cbn [rbind]. fold (print_matcher <$> ms). by rewrite IHok.
  - intros Hno. destruct (decide (unambiguous (mkMatcher n o v))) as [Hu|Hu].
    + rewrite Hok by done. cbn [rbind]. destruct IHerr as [e He]; [tauto|]. fold (print_matcher <$> ms). rewrite He. by eexists.
    + destruct (Herr Hu) as [e He]. rewrite He. by eexists.
Qed.

Lemma parseSelector_print ms F :
  Forall (λ m, proper_matcher m) ms →
  (Forall unambiguous ms → parseSelector ("{" +:+ Join (print_matcher <$> ms) "," +:+ "}" +:+ F) = Ok (ms, F)) ∧
  (¬ Forall unambiguous ms → ∃ e, parseSelector ("{" +:+ Join (print_matcher <$> ms) "," +:+ "}" +:+ F) = Err e).
Proof.
  intros Hms. set (J := Join _ _). unfold parseSelector, findSelectorEnd.
  assert (selector_end 1 false false (str_drop 1 ("{" +:+ J +:+ "}" +:+ F)) = Some (String.length J + 1)%nat) as ->.
  { change (str_drop 1 _) with (J +:+ "}" +:+ F). by apply (selector_end_Join ms 1). }
  cbn [rbind]. replace (str_drop 1 (str_take (String.length J + 1) ("{" +:+ J +:+ "}" +:+ F))) with J.
  2:{ rewrite Nat.add_comm. change (J = str_take (String.length J) (J +:+ "}" +:+ F)). by rewrite str_take_app. }
  replace (str_drop (String.length J + 1 + 1) ("{" +:+ J +:+ "}" +:+ F)) with F.
  2:{ replace (String.length J + 1 + 1)%nat with (String.length ("{" +:+ J +:+ "}")) by (rewrite !str_length_app; simpl; lia).
      replace ("{" +:+ J +:+ "}" +:+ F) with (("{" +:+ J +:+ "}") +:+ F) by (by rewrite !str_app_assoc). by rewrite str_drop_app. }
  destruct (decide (ms = [])) as [->|Hne]; [split; [done|by intros []; constructor]|].
  destruct (Join_ends ms Hne Hms) as [Hs He]. fold J in Hs, He. rewrite TrimSpace_ends by done.
  rewrite bool_decide_eq_false_2 by (destruct Hs as (a & r & E & _); by intros E'; rewrite E' in E).
  assert (splitOutsideQuotes J "," = Ok (print_matcher <$> ms)) as ->.
  { unfold splitOutsideQuotes, J. destruct ms as [|m ms]; [done|]. rewrite fmap_cons, split_Join; [done|].
    rewrite <- fmap_cons. apply Forall_fmap. eapply Forall_impl; [exact Hms|]. apply print_matcher_passed. }
  cbn [rbind]. destruct (rmap_print ms Hms) as [Hok Herr]. split.
  - intros Hu. by rewrite Hok.
  - intros Hu. destruct (Herr Hu) as [e E]. rewrite E. by eexists.
Qed.

(** ** Filters *)

Lemma print_filters_ends fs : print_filters fs = "" ∨ ends (print_filters fs).
Proof.
  induction fs as [|f fs IH]; [by left|]. right. cbn [print_filters foldr]. apply ends_app_nil; [|exact IH].
  unfold print_filter. auto with monofs.
Qed.

Lemma parse_filters_print fuel fs :
  (length fs ≤ fuel)%nat → Forall (λ f, f_Op f ∈ filterOps) fs → parse_filters fuel (print_filters fs) = Ok fs.
Proof.
  intros Hf Hfs. revert fuel Hf. induction Hfs as [|[op v] fs Hop Hfs IH]; intros fuel Hf; [by destruct fuel|].
  destruct fuel as [|fuel]; [simpl in Hf; lia|]. cbn [f_Op] in Hop.
  change (print_filters (mkLineFilter op v :: fs)) with (String " " ((op +:+ quoted v) +:+ print_filters fs)).
  cbn [parse_filters]. rewrite TrimSpace_space.
  assert (ends (quoted v +:+ print_filters fs)) as He by (apply ends_app_nil; [auto with monofs|apply print_filters_ends]).
  assert (∃ a b, op = String a (str1 b) ∧ visible a = true ∧ find (HasPrefix (op +:+ quoted v +:+ print_filters fs)) filterOps = Some op)
    as (a & b & Eop & Ha & Hfind).
  { unfold filterOps in Hop. rewrite !elem_of_cons, elem_of_nil in Hop.
    destruct Hop as [->|[->|[->|[->|[]]]]]; eexists _, _; (split; [reflexivity|split; reflexivity]). }
  rewrite str_app_assoc, TrimSpace_ends; [|by subst op; eexists _, _|auto with monofs].
  rewrite bool_decide_eq_false_2 by (by subst op). unfold parseLineFilter. rewrite Hfind, str_drop_app.
  rewrite TrimSpace_ends by auto with monofs. rewrite consume_quoted. cbn [rbind]. by rewrite IH by (simpl in Hf; lia).
Qed.

Lemma length_filters fs : (length fs ≤ String.length (print_filters fs))%nat.
Proof.
  induction fs as [|f fs IH]; [done|]. change (print_filters (f :: fs)) with (print_filter f +:+ print_filters fs).
  unfold print_filter. rewrite !str_length_app. cbn [length String.length]. lia.
Qed.

(** ** The fuel is enough *)

Lemma TrimSpace_length s : (String.length (TrimSpace s) ≤ String.length s)%nat.
Proof.
  rewrite <- !length_bytes_of_string. unfold TrimSpace, trim_space_bytes. rewrite bytes_of_string_of_bytes.
  pose proof (prefix_length _ _ (trim_right_prefix (trim_run false 0 (bytes_of_string s)))).
  pose proof (suffix_length _ _ (trim_run_suffix false 0 (bytes_of_string s))). lia.
Qed.

Lemma parseLineFilter_shorter input f rest :
  parseLineFilter input = Ok (Some (f, rest)) → (String.length rest < String.length input)%nat.
Proof.
  unfold parseLineFilter. destruct (find _ _) as [op|] eqn:Hf; [|done]. apply find_some in Hf as [Hin Hp].
  intros H. inv_bind H. destruct a as [val rest']. injection H as <- <-.
  apply HasPrefix_spec in Hp as [r ->]. rewrite str_drop_app in E.
  assert (String.length rest' ≤ String.length r)%nat.
  { pose proof (TrimSpace_length r). unfold consumeQuotedString in E. case_bool_decide; [done|]. destruct (decode_rune _) as [q w].
    destruct (negb _); [done|]. destruct (closing_quote _ _ _ _); [|done]. destruct (Unquote _); [|done]. injection E as <- <-.
    rewrite str_length_drop. lia. }
  rewrite str_length_app. assert (0 < String.length op)%nat; [|lia].
  apply list_elem_of_In in Hin. unfold filterOps in Hin. rewrite !elem_of_cons, elem_of_nil in Hin.
  destruct Hin as [->|[->|[->|[->|[]]]]]; simpl; lia.
Qed.

(** More rounds change nothing. *)
Lemma parse_filters_fuel f g s :
  (String.length s ≤ f)%nat → (String.length s ≤ g)%nat → parse_filters f s = parse_filters g s.
Proof.
  revert g s. induction f as [|f IH]; intros g s Hf Hg; pose proof (TrimSpace_length s).
  - assert (s = "") as -> by (destruct s; simpl in *; [done|lia]). by destruct g.
  - destruct g as [|g]; [assert (s = "") as -> by (destruct s; simpl in *; [done|lia]); done|].
    cbn [parse_filters]. case_bool_decide; [done|]. destruct (parseLineFilter (TrimSpace s)) as [[[f' rest]|]|e] eqn:E; [|done..].
    apply parseLineFilter_shorter in E. cbn [rbind]. rewrite (IH g) by lia. done.
Qed.

(** ** Reading printed queries *)

(** C27: a query in canonical form is read back as it was printed, whatever
    bytes its values hold, unless the value of a matcher contains an operator
    that the parser tries before the matcher's own; every query with such a
    value is refused. *)
Theorem parse_print q :
  canonical q →
  (Forall unambiguous (Matchers q) → Parse (print q) = Ok q) ∧
  (¬ Forall unambiguous (Matchers q) → ∃ e, Parse (print q) = Err e).
Proof.
  intros [Hms Hfs]. unfold Parse.
  assert (TrimSpace (print q) = print q) as ->.
  { apply TrimSpace_ends; [by eexists _, _|]. unfold print. apply ends_app, ends_app, ends_app_nil; [|apply print_filters_ends].
    by exists [], "}"%char. }
  rewrite bool_decide_eq_false_2 by done. assert (HasPrefix (print q) "{" = true) as -> by apply HasPrefix_app.
  destruct (parseSelector_print (Matchers q) (print_filters (LineFilters q)) Hms) as [Hok Herr]. unfold print. split.
  - intros Hu. rewrite Hok by done. cbn [rbind]. rewrite parse_filters_print by (apply length_filters || done). by destruct q.
  - intros Hu. destruct (Herr Hu) as [e He]. rewrite He. by exists e.
Qed.

Definition service_query (v : string) : Query :=
  mkQuery [mkMatcher "service" "=" v] [mkLineFilter "|=" "timeout"].

Lemma parse_print_witness :
  Parse (print (service_query "api,{eu}")) = Ok (service_query "api,{eu}") ∧
  ∃ e, Parse (print (service_query "a!=b")) = Err e.
Proof.
  assert (∀ v, canonical (service_query v)) as Hc.
  { intros v. split; repeat constructor; (discriminate || (rewrite !elem_of_cons; auto) || done). }
  split.
  - apply parse_print; [apply Hc|]. repeat constructor; reflexivity.
  - apply parse_print; [apply Hc|]. intros [Hu _]%Forall_cons.
    assert (Contains "a!=b" "!=" = false) as E by (eapply Forall_forall in Hu; [exact Hu|]; vm_compute; right; right; left).
    discriminate E.
Defined.
