(* ===== verification/LogEngine.v ===== *)
(** * The log engine: chunks and queries

    Model of internal/storage/logengine: the records of a chunk and the
    manifest written with them (models.go, partition.go and the log part of
    ingester.go), the scope of a caller (scope.go), and the evaluation of log
    queries by pruning, scanning and merging chunks (the log part of query.go,
    ParseChunkTimeRangeFromID of storage.go).

    A [time.Time] is a number of nanoseconds; the bounds [from] and [to] of a
    query are [None] for the zero time.  Regular expressions, the tables of
    package unicode and the store with its text index are classes and records
    of functions.  Metrics and observability are left out. *)

From stdpp Require Import options.
From S2P Require Import Prelude GoStrings GoUnicode GoQuote GoFmt GoHash GoSort GoHeap GoRange GoPath LogQuery.

(** [regexp.Compile] with [MatchString]. *)
Class Regexp := regexp_Compile : string → option (string → bool).
(** [unicode.IsLetter(r) || unicode.IsDigit(r)]. *)
Class UnicodeWord := is_word : Z → bool.

(** ** Records and scopes *)

Record LogRecord := mkLog {
  Timestamp : Z; Level : string; Service : string; TraceID : string; SpanID : string; RawMessage : string;
  Labels : gmap string string }.
#[export] Instance LogRecord_inhabited : Inhabited LogRecord := populate (mkLog 0 "" "" "" "" "" ∅).

Abbreviation partitionLabelKeys := (["guardian.partition"; "guardian_partition"; "partition"]) (only parsing).
Definition recordPartition (labels : gmap string string) : string :=
  default "" (find (λ v, bool_decide (v ≠ "")) ((λ key, TrimSpace (default "" (labels !! key))) <$> partitionLabelKeys)).

Record QueryScope := mkScope { Partitions : list string; Restricted : bool }.
Definition AllowsPartition (s : QueryScope) (partition : string) : bool :=
  if negb (Restricted s) then true
  else if bool_decide (partition = "") then false
  else existsb (λ allowed, bool_decide (allowed = partition)) (Partitions s).
Definition allowsLog (s : QueryScope) (record : LogRecord) : bool :=
  if negb (Restricted s) then true else AllowsPartition s (recordPartition (Labels record)).

(** ** Manifests *)

(** The part of the manifest that log queries read. *)
Record ChunkManifest := mkManifest {
  MinTime : Z; MaxTime : Z; Services : list string; Levels : list string;
  LabelValues : gmap string (list string); TraceBloom : list Z }.

Definition sortedKeys (values : gset string) : list string := sort_Strings (elements values).

Abbreviation maxManifestLabelKeys := 64%nat (only parsing).
Abbreviation maxManifestLabelValues := 64%nat (only parsing).

Definition collectLogServices (logs : list LogRecord) : list string :=
  sortedKeys (foldl (λ s log, if bool_decide (Service log = "") then s else {[Service log]} ∪ s) ∅ logs).

(** The loop returns early with nothing when there are too many levels. *)
Fixpoint log_levels (levels : gset string) (logs : list LogRecord) : list string :=
  match logs with
  | [] => sortedKeys levels
  | log :: logs =>
      if bool_decide (Level log = "") then log_levels levels logs
      else
        let levels := {[Level log]} ∪ levels in
        if bool_decide (maxManifestLabelValues < size levels)%nat then [] else log_levels levels logs
  end.
Abbreviation collectLogLevels := (log_levels ∅) (only parsing).

(** One label of one record. *)
Definition collect_label (byName : gmap string (gset string)) (label : string * string) : gmap string (gset string) :=
  let '(name, value) := label in
  if bool_decide (name = "" ∨ value = "") then byName
  else
    match byName !! name with
    | None => if bool_decide (maxManifestLabelKeys ≤ size byName)%nat then byName else <[name := {[value]}]> byName
    | Some values =>
        if bool_decide (maxManifestLabelValues ≤ size values)%nat then byName else <[name := {[value]} ∪ values]> byName
    end.
Definition collectLogLabelValues `{GoRange} (logs : list LogRecord) : gmap string (list string) :=
  let valuesByName := foldl collect_label ∅ (concat (imap (λ n log, range n (Labels log)) logs)) in
  sortedKeys <$> filter (λ kv, (size kv.2 < maxManifestLabelValues)%nat) valuesByName.

Definition bloomIndexes (value : string) (bitCount hashCount : nat) : list nat :=
  let primarySum := fnv1a (bytes_of_string value) in
  let secondarySum := let s := fnv1 (bytes_of_string value) in if bool_decide (s = 0) then 1 else s in
  (λ idx, Z.to_nat (wrap 64 (primarySum + wrap 64 (Z.of_nat idx * secondarySum)) `mod` Z.of_nat bitCount)) <$> seq 0 hashCount.

Definition set_bit (bloom : list Z) (idx : nat) : list Z :=
  alter (λ b, Z.lor b (Z.shiftl 1 (Z.of_nat (idx `mod` 8)))) (idx / 8)%nat bloom.
Definition buildTraceBloomFromIDs (traceIDs : list string) : list Z :=
  if bool_decide (traceIDs = []) then []
  else
    let bloomBytes := Z.to_nat (Z.min (Z.max 256 (Z.of_nat (length traceIDs) * 2)) (2 ^ 20)) in
    foldl (λ bloom traceID, foldl set_bit bloom (bloomIndexes traceID (bloomBytes * 8) 4)) (replicate bloomBytes 0) traceIDs.
Definition traceBloomMayContain (bloom : list Z) (traceID : string) : bool :=
  if bool_decide (bloom = [] ∨ traceID = "") then true
  else forallb (λ idx, Z.testbit (default 0 (bloom !! (idx / 8)%nat)) (Z.of_nat (idx `mod` 8)))
         (bloomIndexes traceID (length bloom * 8) 4).

(** The order of the rows of a chunk. *)
Definition log_less (a b : LogRecord) : bool :=
  let '(pa, pb) := (recordPartition (Labels a), recordPartition (Labels b)) in
  if bool_decide (pa ≠ pb) then str_lt pa pb
  else if bool_decide (Service a ≠ Service b) then str_lt (Service a) (Service b)
  else bool_decide (Timestamp a < Timestamp b).
Definition sortLogRecords (records : list LogRecord) : list LogRecord := sort_stable log_less records.

(** What [flushLogs] writes: the manifest and the rows; nothing for an empty
    batch. *)
Definition flushLogs `{GoRange} (logs : list LogRecord) : option (ChunkManifest * list LogRecord) :=
  match sortLogRecords logs with
  | [] => None
  | (l0 :: _) as logs =>
      let minTime := foldl (λ t l, if bool_decide (Timestamp l < t) then Timestamp l else t) (Timestamp l0) logs in
      let maxTime := foldl (λ t l, if bool_decide (t < Timestamp l) then Timestamp l else t) (Timestamp l0) logs in
      let traceIDs := filter (λ id, id ≠ "") (TraceID <$> logs) in
      Some (mkManifest minTime maxTime (collectLogServices logs) (collectLogLevels logs)
              (collectLogLabelValues logs) (buildTraceBloomFromIDs traceIDs), logs)
  end.

(** ** Matching records *)

(** A name and its two normalized forms. *)
Definition spellings (name : string) : list string :=
  name :: filter (λ alt, alt ≠ name) [ReplaceAll name "_" "."; ReplaceAll name "." "_"].
Definition lookupLabelValue (values : gmap string string) (name : string) : string * bool :=
  match omap (λ k, values !! k) (spellings name) with
  | value :: _ => (value, true)
  | [] => ("", false)
  end.

Definition logRecordField (record : LogRecord) (name : string) : string * bool :=
  if bool_decide (name ∈ ["service"; "service_name"]) then (Service record, true)
  else if bool_decide (name ∈ ["level"; "severity_text"]) then (Level record, true)
  else if bool_decide (name = "trace_id") then (TraceID record, bool_decide (TraceID record ≠ ""))
  else if bool_decide (name = "span_id") then (SpanID record, bool_decide (SpanID record ≠ ""))
  else if bool_decide (name ∈ ["body"; "raw_message"]) then (RawMessage record, true)
  else lookupLabelValue (Labels record) name.

Record compiledLogMatcher := mkCMatcher { cm_matcher : Matcher; cm_regex : option (string → bool) }.
Record compiledLineFilter := mkCFilter { cf_filter : LineFilter; cf_regex : option (string → bool) }.
Record compiledLogQuery := mkCompiled { c_query : Query; c_matchers : list compiledLogMatcher; c_lineFilters : list compiledLineFilter }.

Abbreviation anchorLabelRegex pattern := ("^(?:" +:+ pattern +:+ ")$") (only parsing).

Inductive store_error := ErrGhostChunk | StoreFailed.
Inductive query_error :=
| BadQuery (e : parse_error)
| BadRegexp (pattern : string)
| QueryTooBroad
| StoreError (e : store_error)
| Panic.

Section engine.
  Context `{Regexp, UnicodeWord, GoSort}.

Definition compile_matcher (m : Matcher) : result query_error compiledLogMatcher :=
  if bool_decide (m_Op m = "=~" ∨ m_Op m = "!~") then
    match regexp_Compile (anchorLabelRegex (m_Value m)) with
    | Some re => Ok (mkCMatcher m (Some re))
    | None => Err (BadRegexp (m_Value m))
    end
  else Ok (mkCMatcher m None).
Definition compile_filter (f : LineFilter) : result query_error compiledLineFilter :=
  if bool_decide (f_Op f = "|~" ∨ f_Op f = "!~") then
    match regexp_Compile (f_Value f) with
    | Some re => Ok (mkCFilter f (Some re))
    | None => Err (BadRegexp (f_Value f))
    end
  else Ok (mkCFilter f None).
Definition compileLogQuery (query : Query) : result query_error compiledLogQuery :=
  let! matchers := rmap compile_matcher (Matchers query) in
  let! lineFilters := rmap compile_filter (LineFilters query) in
  Ok (mkCompiled query matchers lineFilters).

Definition matchesLogMatcher (value : string) (found : bool) (m : compiledLogMatcher) : bool :=
  let value := if found then value else "" in
  let op := m_Op (cm_matcher m) in
  let re_matches := match cm_regex m with Some re => re value | None => false end in
  if bool_decide (op = "=") then bool_decide (value = m_Value (cm_matcher m))
  else if bool_decide (op = "!=") then bool_decide (value ≠ m_Value (cm_matcher m))
  else if bool_decide (op = "=~") then re_matches
  else if bool_decide (op = "!~") then negb re_matches
  else false.

Definition matchesLineFilter (message : string) (f : compiledLineFilter) : bool :=
  let op := f_Op (cf_filter f) in
  let re_matches := match cf_regex f with Some re => re message | None => false end in
  if bool_decide (op = "|=") then Contains message (f_Value (cf_filter f))
  else if bool_decide (op = "!=") then negb (Contains message (f_Value (cf_filter f)))
  else if bool_decide (op = "|~") then re_matches
  else if bool_decide (op = "!~") then negb re_matches
  else false.

Definition matchesRecord (q : compiledLogQuery) (record : LogRecord) : bool :=
  forallb (λ m, let '(value, found) := logRecordField record (m_Name (cm_matcher m)) in matchesLogMatcher value found m) (c_matchers q) &&
  forallb (matchesLineFilter (RawMessage record)) (c_lineFilters q).

(** ** Pruning *)

(** The bounds in the name of a chunk: [ts_<min>_<max>_<id>],
    [compact-<min>-<max>-<sequence>] or [chunk-<min>-<max>]. *)
Definition ParseChunkTimeRangeFromID (chunkID : string) : option (Z * Z) :=
  let chunkID := Base (TrimSuffix (TrimSpace chunkID) "/") in
  '(minStr, maxStr) ←
    (if HasPrefix chunkID "ts_" then
       match Split (TrimPrefix chunkID "ts_") "_" with
       | a :: b :: _ :: _ => if bool_decide (a = "" ∨ b = "") then None else Some (a, b)
       | _ => None
       end
     else if HasPrefix chunkID "compact-" then
       match Split (TrimPrefix chunkID "compact-") "-" with
       | a :: b :: _ :: _ => Some (a, b)
       | _ => None
       end
     else if HasPrefix chunkID "chunk-" then
       match Split (TrimPrefix chunkID "chunk-") "-" with
       | [a; b] => if bool_decide (a = "" ∨ b = "") then None else Some (a, b)
       | _ => None
       end
     else None);
  minNano ← ParseInt minStr;
  maxNano ← ParseInt maxStr;
  if bool_decide (maxNano < minNano) then None else Some (minNano, maxNano).

(** [minT.After(to)] or [maxT.Before(from)], where the bound is set. *)
Definition outside (from to : option Z) (minT maxT : Z) : bool :=
  match to with Some t => bool_decide (t < minT) | None => false end ||
  match from with Some t => bool_decide (maxT < t) | None => false end.

Definition manifestLabelValues (values : gmap string (list string)) (name : string) : list string :=
  foldl (λ out value, if bool_decide (value ∈ out) then out else out ++ [value]) []
    (concat ((λ key, default [] (values !! key)) <$> spellings name)).

Definition manifestValuesMayMatch (values : list string) (m : compiledLogMatcher) : bool :=
  if bool_decide (values = []) then true
  else if bool_decide (m_Op (cm_matcher m) = "=") then
    if bool_decide (m_Value (cm_matcher m) = "") then true
    else existsb (λ value, bool_decide (value = m_Value (cm_matcher m))) values
  else if bool_decide (m_Op (cm_matcher m) = "=~") then
    match cm_regex m with
    | None => true
    | Some re => if re "" then true else existsb re values
    end
  else true.

Definition manifest_matches (manifest : ChunkManifest) (m : compiledLogMatcher) : bool :=
  let name := m_Name (cm_matcher m) in
  if bool_decide (name ∈ ["service"; "service_name"]) then true
  else if bool_decide (name = "trace_id") then
    negb (bool_decide (m_Op (cm_matcher m) = "=")) || traceBloomMayContain (TraceBloom manifest) (m_Value (cm_matcher m))
  else if bool_decide (name ∈ ["body"; "raw_message"; "span_id"]) then true
  else if bool_decide (name ∈ ["level"; "severity_text"]) then manifestValuesMayMatch (Levels manifest) m
  else manifestValuesMayMatch (manifestLabelValues (LabelValues manifest) name) m.
Definition manifestMatchesLogQuery (manifest : ChunkManifest) (c : compiledLogQuery) : bool :=
  forallb (manifest_matches manifest) (c_matchers c).

(** What the queries call of the object store: the listing for a time range,
    and per chunk the manifest, the answer of the text index (the matching row
    numbers, or [None] where the index cannot tell) and the row groups.
    LogStore.v gives the operations over the objects that were written. *)
Record CachedStore := mkStore {
  ListChunkPaths : option Z → option Z → result store_error (list string);
  ReadManifest : string → result store_error ChunkManifest;
  SearchIndex : string → list string → result store_error (option (gset nat));
  ReadRowGroups : string → result store_error (list (list LogRecord)) }.

Record QueryEngine := mkEngine { store : CachedStore; maxQueryChunks : Z; maxQueryRecords : Z }.
Definition chunkLimit (q : QueryEngine) : Z := if bool_decide (maxQueryChunks q ≤ 0) then 20000 else maxQueryChunks q.
Definition recordLimit (q : QueryEngine) : Z := if bool_decide (maxQueryRecords q ≤ 0) then 1000000 else maxQueryRecords q.

Record candidateChunk := mkCandidate { chunkID : string; cutoffMax : Z }.

(** The loop over the manifests. *)
Fixpoint read_candidates (st : CachedStore) (service : string) (c : compiledLogQuery) (from to : option Z) (chunkIDs : list string)
    : result store_error (list candidateChunk) :=
  match chunkIDs with
  | [] => Ok []
  | id :: chunkIDs =>
      match ReadManifest st id with
      | Err ErrGhostChunk => read_candidates st service c from to chunkIDs
      | Err e => Err e
      | Ok manifest =>
          let! rest := read_candidates st service c from to chunkIDs in
          if outside from to (MinTime manifest) (MaxTime manifest) then Ok rest
          else if bool_decide (service ≠ "") && negb (bool_decide (service ∈ Services manifest)) then Ok rest
          else if negb (manifestMatchesLogQuery manifest c) then Ok rest
          else Ok (mkCandidate id (MaxTime manifest) :: rest)
      end
  end.
Definition as_query_error {A} (r : result store_error A) : result query_error A :=
  match r with Ok a => Ok a | Err e => Err (StoreError e) end.
Definition logCandidates (q : QueryEngine) (chunkIDs : list string) (service : string) (c : compiledLogQuery) (from to : option Z)
    : result query_error (list candidateChunk) :=
  let remaining := filter (λ id, match ParseChunkTimeRangeFromID id with
                                 | Some (minT, maxT) => outside from to minT maxT
                                 | None => false
                                 end = false) chunkIDs in
  if bool_decide (Z.of_nat (length remaining) > chunkLimit q) then Err QueryTooBroad
  else
    let! candidates := as_query_error (read_candidates (store q) service c from to remaining) in
    Ok (sort_slice (λ a b, bool_decide (cutoffMax a > cutoffMax b)) candidates).

(** ** Scanning a chunk *)

Definition lineFilterIndexable (value : string) : bool := existsb is_word (runes value).

(** The rows that can match the positive line filters; [None] for all. *)
Definition logValidRows (st : CachedStore) (id : string) (textFilters : list string) : result store_error (option (gset nat)) :=
  if bool_decide (textFilters = []) then Ok None
  else if negb (forallb lineFilterIndexable textFilters) then Ok None
  else match SearchIndex st id textFilters with
       | Err ErrGhostChunk => Ok None
       | answer => answer
       end.

(** Whether the row at [i] is yielded. *)
Definition row_matches (validRows : option (gset nat)) (c : compiledLogQuery) (from to : option Z) (i : nat) (record : LogRecord) : bool :=
  match validRows with Some rows => bool_decide (i ∈ rows) | None => true end &&
  negb (outside from to (Timestamp record) (Timestamp record)) &&
  matchesRecord c record.

(** The records yielded from the row groups, the first of them at row
    [rowBase]. *)
Fixpoint scanLogParquet (validRows : option (gset nat)) (c : compiledLogQuery) (from to : option Z) (rowBase : nat)
    (groups : list (list LogRecord)) : list LogRecord :=
  match groups with
  | [] => []
  | rg :: groups =>
      omap (λ ir, if row_matches validRows c from to ir.1 ir.2 then Some ir.2 else None) (imap (λ i r, (rowBase + i, r)%nat) rg) ++
      scanLogParquet validRows c from to (rowBase + length rg) groups
  end.

(** The records of a candidate, in the order of the rows. *)
Definition candidate_records (st : CachedStore) (c : compiledLogQuery) (textFilters : list string) (from to : option Z) (id : string)
    : result store_error (list LogRecord) :=
  let! validRows := logValidRows st id textFilters in
  if bool_decide (validRows = Some ∅) then Ok []
  else let! groups := ReadRowGroups st id in Ok (scanLogParquet validRows c from to 0 groups).

Definition newer (a b : LogRecord) : bool := bool_decide (Timestamp a > Timestamp b).
Definition older (a b : LogRecord) : bool := bool_decide (Timestamp a < Timestamp b).

(** ** The newest records *)

(** One record offered to the heap of the newest [limit]. *)
Definition offer (limit : nat) (top : list LogRecord) (record : LogRecord) : list LogRecord :=
  if bool_decide (length top < limit)%nat then heap_Push older record top
  else match top with
       | oldest :: rest => if newer record oldest then heap_Fix older 0 (record :: rest) else top
       | [] => top
       end.

Fixpoint top_candidates (st : CachedStore) (c : compiledLogQuery) (textFilters : list string) (from to : option Z) (limit : nat)
    (candidates : list candidateChunk) (top : list LogRecord) : result store_error (list LogRecord) :=
  match candidates with
  | [] => Ok top
  | cand :: candidates =>
      if bool_decide (limit ≤ length top)%nat && match top with oldest :: _ => bool_decide (cutoffMax cand < Timestamp oldest) | [] => false end
      then Ok top
      else match candidate_records st c textFilters from to (chunkID cand) with
           | Err ErrGhostChunk => top_candidates st c textFilters from to limit candidates top
           | Err e => Err e
           | Ok records => top_candidates st c textFilters from to limit candidates (foldl (offer limit) top records)
           end
  end.

(** ** Merging all records *)

Record logChunkCursor := mkCursor { cur_records : list LogRecord; cur_index : nat }.
#[export] Instance logChunkCursor_inhabited : Inhabited logChunkCursor := populate (mkCursor [] 0).
(** [None] where the source indexes out of range: no cursor in the heap is at
    the end of its records. *)
Definition current (c : logChunkCursor) : option LogRecord := cur_records c !! cur_index c.
Definition cursor_less (a b : logChunkCursor) : bool := newer (default inhabitant (current a)) (default inhabitant (current b)).

Definition collectLogChunkRecords (st : CachedStore) (c : compiledLogQuery) (textFilters : list string) (from to : option Z) (id : string)
    : result store_error (list LogRecord) :=
  let! records := candidate_records st c textFilters from to id in Ok (sort_slice newer records).

(** The inner loop of [emitMergedLogChunks]: opens candidates that may hold the
    next record. *)
Fixpoint open_cursors (st : CachedStore) (c : compiledLogQuery) (textFilters : list string) (from to : option Z)
    (candidates : list candidateChunk) (active : list logChunkCursor) : result store_error (list candidateChunk * list logChunkCursor) :=
  match candidates with
  | [] => Ok ([], active)
  | cand :: rest =>
      if match head active ≫= current with Some r => bool_decide (cutoffMax cand < Timestamp r) | None => false end
      then Ok (candidates, active)
      else match collectLogChunkRecords st c textFilters from to (chunkID cand) with
           | Err ErrGhostChunk | Ok [] => open_cursors st c textFilters from to rest active
           | Err e => Err e
           | Ok records => open_cursors st c textFilters from to rest (heap_Push cursor_less (mkCursor records 0) active)
           end
  end.

(** The outer loop; every round emits a record, so that the number of rows is
    fuel enough. *)
Fixpoint emit_loop {Y : Type} (st : CachedStore) (c : compiledLogQuery) (textFilters : list string) (from to : option Z)
    (yield : Y → LogRecord → result query_error Y) (fuel : nat) (candidates : list candidateChunk) (active : list logChunkCursor) (s : Y)
    : result query_error Y :=
  match as_query_error (open_cursors st c textFilters from to candidates active), fuel with
  | Err e, _ => Err e
  | Ok (_, []), _ => Ok s
  | Ok _, O => Err Panic
  | Ok (candidates, active), S fuel =>
      match heap_Pop cursor_less active with
      | Some (cursor, active) =>
          match current cursor with
          | None => Err Panic
          | Some record =>
              let! s := yield s record in
              let cursor := mkCursor (cur_records cursor) (cur_index cursor + 1) in
              let active := if bool_decide (cur_index cursor < length (cur_records cursor))%nat then heap_Push cursor_less cursor active else active in
              emit_loop st c textFilters from to yield fuel candidates active s
          end
      | None => Err Panic
      end
  end.

Definition rows_of (st : CachedStore) (cand : candidateChunk) : nat :=
  match ReadRowGroups st (chunkID cand) with Ok groups => length (concat groups) | Err _ => O end.
Definition emitMergedLogChunks {Y : Type} (st : CachedStore) (c : compiledLogQuery) (textFilters : list string) (from to : option Z)
    (yield : Y → LogRecord → result query_error Y) (candidates : list candidateChunk) (s : Y) : result query_error Y :=
  emit_loop st c textFilters from to yield (sum_list (rows_of st <$> candidates)) candidates [] s.

Fixpoint emitQueryResults {Y : Type} (yield : Y → LogRecord → result query_error Y) (records : list LogRecord) (s : Y) : result query_error Y :=
  match records with
  | [] => Ok s
  | record :: records => let! s := yield s record in emitQueryResults yield records s
  end.

(** ** Queries *)

(** [yield] behind the record budget and the caller's scope, with the number
    of records so far. *)
Definition guarded {Y : Type} (limit : Z) (scope : QueryScope) (yield : Y → LogRecord → result query_error Y)
    (s : Z * Y) (record : LogRecord) : result query_error (Z * Y) :=
  let n := s.1 + 1 in
  if bool_decide (n > limit) then Err QueryTooBroad
  else if Restricted scope && negb (allowsLog scope record) then Ok (n, s.2)
  else let! s' := yield s.2 record in Ok (n, s').

Definition with_service (service : string) (parsed : Query) : Query :=
  if bool_decide (service ≠ "") then mkQuery (Matchers parsed ++ [mkMatcher "service" "=" service]) (LineFilters parsed) else parsed.

Definition StreamLogs {Y : Type} (q : QueryEngine) (scope : QueryScope) (queryStr service : string) (from to : option Z) (limit : Z)
    (yield : Y → LogRecord → result query_error Y) (s : Y) : result query_error Y :=
  if bool_decide (limit > 0 ∧ limit > recordLimit q) then Err QueryTooBroad
  else
    match Parse queryStr with
    | Err e => Err (BadQuery e)
    | Ok parsed =>
        let! c := compileLogQuery (with_service service parsed) in
        let textFilters := PositiveLineContainsFilters (c_query c) in
        let serviceFilter := ServiceEquals (c_query c) in
        let! chunkIDs := as_query_error (ListChunkPaths (store q) from to) in
        let! candidates := logCandidates q chunkIDs serviceFilter c from to in
        let emit := guarded (recordLimit q) scope yield in
        let! (_, s) :=
          if bool_decide (limit > 0) then
            let! top := as_query_error (top_candidates (store q) c textFilters from to (Z.to_nat limit) candidates []) in
            emitQueryResults emit (sort_slice newer top) (0, s)
          else emitMergedLogChunks (store q) c textFilters from to emit candidates (0, s) in
        Ok s
    end.

Definition QueryLogs (q : QueryEngine) (scope : QueryScope) (queryStr service : string) (from to : option Z) (limit : Z)
    : result query_error (list LogRecord) :=
  StreamLogs q scope queryStr service from to limit (λ out record, Ok (out ++ [record])) [].

End engine.
