(* ===== verification/LogEngineProps.v ===== *)
(** * The log engine: theorems

    A log query answers what scanning every row would: pruning by the
    manifests loses nothing, the heap of the newest records holds the newest,
    and the merge emits everything in order.  The end of the file has the two
    cases in which a matching record the caller may see is not returned. *)

From stdpp Require Import options.
From S2P Require Import Prelude GoStrings GoUnicode GoQuote GoFmt GoHash GoSort GoHeap GoRange GoPath LogQuery LogEngine.

(** ** Manifest dictionaries *)

Lemma elem_of_log_keys x s : x ∈ sortedKeys s ↔ x ∈ s.
Proof. unfold sortedKeys, sort_Strings. rewrite merge_sort_Permutation. apply elem_of_elements. Qed.

Lemma services_complete logs r : r ∈ logs → Service r ≠ "" → Service r ∈ collectLogServices logs.
Proof.
  intros Hr Hne. unfold collectLogServices. rewrite elem_of_log_keys.
  assert (∀ s, Service r ∈ s ∨ r ∈ logs →
    Service r ∈ foldl (λ s log, if bool_decide (Service log = "") then s else {[Service log]} ∪ s) (s : gset string) logs) as Hf; [|by apply Hf; right].
  clear Hr. induction logs as [|l logs IH]; intros s [Hs|Hr]; [done|by apply elem_of_nil in Hr|..]; cbn [foldl]; apply IH.
  - left. case_bool_decide; set_solver.
  - apply elem_of_cons in Hr as [<-|Hr]; [left; rewrite bool_decide_eq_false_2 by done; set_solver|by right].
Qed.

Lemma levels_complete logs r : r ∈ logs → Level r ≠ "" → collectLogLevels logs ≠ [] → Level r ∈ collectLogLevels logs.
Proof.
  intros Hr Hne.
  assert (∀ s, Level r ∈ s ∨ r ∈ logs → log_levels s logs ≠ [] → Level r ∈ log_levels s logs) as Hf; [|by apply Hf; right].
  clear Hr. induction logs as [|l logs IH]; intros s Hs; cbn [log_levels].
  - intros _. apply elem_of_log_keys. destruct Hs as [?|?%elem_of_nil]; done.
  - case_bool_decide as Hl; [apply IH; rewrite elem_of_cons in Hs; destruct Hs as [?|[->|?]]; auto; done|].
    case_bool_decide; [done|]. apply IH. rewrite elem_of_cons in Hs. destruct Hs as [?|[<-|?]]; set_solver.
Qed.

Section dictionary.
Implicit Types byName : gmap string (gset string).

(** The labels seen so far are in the dictionary of their name, unless it is
    full or there was no room for it. *)
Definition covers (seen : list (string * string)) byName : Prop :=
  ∀ n v, (n, v) ∈ seen → n ≠ "" → v ≠ "" →
    match byName !! n with
    | Some vs => v ∈ vs ∨ (maxManifestLabelValues ≤ size vs)%nat
    | None => (maxManifestLabelKeys ≤ size byName)%nat
    end.
(** The dictionaries hold nothing else. *)
Definition only (seen : list (string * string)) byName : Prop :=
  ∀ n vs, byName !! n = Some vs → n ≠ "" ∧ vs ≠ ∅ ∧ ∀ v, v ∈ vs → (n, v) ∈ seen ∧ v ≠ "".

Lemma collect_label_covers seen byName n v :
  covers seen byName → covers (seen ++ [(n, v)]) (collect_label byName (n, v)).
Proof.
  intros Hc n' v' Hin Hn Hv. apply elem_of_app in Hin. unfold collect_label. case_bool_decide as He.
  - destruct Hin as [Hin|[= -> ->]%list_elem_of_singleton]; [by apply Hc|tauto].
  - destruct (byName !! n) as [vs|] eqn:E; case_bool_decide as Hs.
    + destruct Hin as [Hin|[= -> ->]%list_elem_of_singleton]; [by apply Hc|]. rewrite E. by right.
    + destruct (decide (n' = n)) as [->|Hne].
      * rewrite lookup_insert_eq. left. destruct Hin as [Hin|[= ->]%list_elem_of_singleton]; [|set_solver].
        pose proof (Hc n v' Hin Hn Hv) as H'. rewrite E in H'. destruct H'; [set_solver|done].
      * rewrite lookup_insert_ne by done. destruct Hin as [Hin|[= -> ->]%list_elem_of_singleton]; [|done].
        pose proof (Hc n' v' Hin Hn Hv) as H'. destruct (byName !! n'); [done|]. by rewrite map_size_insert_Some by done.
    + destruct Hin as [Hin|[= -> ->]%list_elem_of_singleton]; [by apply Hc|]. by rewrite E.
    + destruct (decide (n' = n)) as [->|Hne].
      * rewrite lookup_insert_eq. left. destruct Hin as [Hin|[= ->]%list_elem_of_singleton]; [|set_solver].
        pose proof (Hc n v' Hin Hn Hv) as H'. rewrite E in H'. done.
      * rewrite lookup_insert_ne by done. destruct Hin as [Hin|[= -> ->]%list_elem_of_singleton]; [|done].
        pose proof (Hc n' v' Hin Hn Hv) as H'. destruct (byName !! n'); [done|]. rewrite map_size_insert_None by done. lia.
Qed.

Lemma collect_label_only seen byName n v :
  only seen byName → only (seen ++ [(n, v)]) (collect_label byName (n, v)).
Proof.
  intros Ho. assert (only (seen ++ [(n, v)]) byName) as Ho'.
  { intros n' vs E. destruct (Ho n' vs E) as (? & ? & Hv). split_and!; [done..|]. intros w Hw. destruct (Hv w Hw). rewrite elem_of_app. auto. }
  unfold collect_label. case_bool_decide; [done|].
  assert ((n, v) ∈ seen ++ [(n, v)]) as Hin by (rewrite elem_of_app, list_elem_of_singleton; auto).
  destruct (byName !! n) as [vs|] eqn:E; case_bool_decide; try done;
    intros n' vs' [[<- <-]|[_ E']]%lookup_insert_Some; try by apply Ho'.
  - split_and!; [tauto|set_solver|]. intros w [->%elem_of_singleton|Hw]%elem_of_union; [tauto|]. by apply (Ho' _ _ E).
  - split_and!; [tauto|set_solver|]. intros w ->%elem_of_singleton. tauto.
Qed.

Lemma collect_labels labels : 
  covers labels (foldl collect_label ∅ labels) ∧ only labels (foldl collect_label ∅ labels).
Proof.
  induction labels as [|[n v] labels IH] using rev_ind.
  - split; [by intros ?? ?%elem_of_nil|]. intros n vs E. cbn in E. by rewrite lookup_empty in E.
  - rewrite foldl_snoc. destruct IH. split; [by apply collect_label_covers|by apply collect_label_only].
Qed.
End dictionary.

Section labels.
Context `{GoRange}.

Lemma elem_of_labels logs n v :
  (n, v) ∈ concat (imap (λ i log, range i (Labels log)) logs) ↔ ∃ r, r ∈ logs ∧ Labels r !! n = Some v.
Proof.
  rewrite elem_of_concat. split.
  - intros (l & Hin & (i & r & Hl & Hr)%elem_of_lookup_imap). subst l. apply elem_of_range in Hin. exists r. split; [|done].
    by eapply list_elem_of_lookup_2.
  - intros (r & [i Hi]%list_elem_of_lookup_1 & E). exists (range i (Labels r)). rewrite elem_of_range. split; [done|].
    apply elem_of_lookup_imap. eauto.
Qed.

(** A dictionary of a manifest is complete. *)
Lemma dictionary_complete logs n l r v :
  collectLogLabelValues logs !! n = Some l → n ≠ "" → r ∈ logs → Labels r !! n = Some v → v ≠ "" → v ∈ l.
Proof.
  unfold collectLogLabelValues. set (labels := concat _). destruct (collect_labels labels) as [Hc _].
  intros (vs & <- & [E Hs]%map_lookup_filter_Some)%lookup_fmap_Some Hn Hr Hv Hne.
  apply elem_of_log_keys. pose proof (Hc n v) as H'. rewrite E in H'. destruct H'; [by apply elem_of_labels; eauto|done|done|done|].
  cbn [snd] in Hs. lia.
Qed.

(** Its values are those of the records. *)
Lemma dictionary_sound logs n l :
  collectLogLabelValues logs !! n = Some l → n ≠ "" ∧ ∃ r v, r ∈ logs ∧ Labels r !! n = Some v ∧ v ≠ "".
Proof.
  unfold collectLogLabelValues. set (labels := concat _). destruct (collect_labels labels) as [_ Ho].
  intros (vs & <- & [E _]%map_lookup_filter_Some)%lookup_fmap_Some.
  destruct (Ho n vs E) as (Hn & (v & Hv)%set_choose_L & Hin). destruct (Hin v Hv) as [(r & Hr & Hl)%elem_of_labels Hne]. eauto 10.
Qed.
End labels.

(** ** The Bloom filter *)

Definition has_bit (bloom : list Z) (idx : nat) : bool :=
  Z.testbit (default 0 (bloom !! (idx / 8)%nat)) (Z.of_nat (idx `mod` 8)).

Lemma set_bit_keeps bloom i idx : has_bit bloom i = true → has_bit (set_bit bloom idx) i = true.
Proof.
  unfold has_bit, set_bit. destruct (decide (idx / 8 = i / 8)%nat) as [E|E].
  - rewrite E, list_lookup_alter_eq. destruct (bloom !! _); cbn; [|done]. rewrite Z.lor_spec. intros ->. done.
  - by rewrite list_lookup_alter_ne.
Qed.

Lemma set_bit_sets bloom idx : (idx / 8 < length bloom)%nat → has_bit (set_bit bloom idx) idx = true.
Proof.
  intros [b Hb]%lookup_lt_is_Some_2. unfold has_bit, set_bit. rewrite list_lookup_alter_eq, Hb.
  cbn [fmap option_fmap option_map from_option id].
  rewrite Z.lor_spec, Z.shiftl_spec by lia. rewrite Z.sub_diag. apply orb_true_r.
Qed.

Lemma length_set_bits idxs bloom : length (foldl set_bit bloom idxs) = length bloom.
Proof. revert bloom. induction idxs as [|i idxs IH]; intros bloom; cbn [foldl]; [done|]. rewrite IH. apply length_alter. Qed.

Lemma set_bits_keep idxs bloom i : has_bit bloom i = true → has_bit (foldl set_bit bloom idxs) i = true.
Proof. revert bloom. induction idxs as [|j idxs IH]; intros bloom; cbn [foldl]; [done|]. intros Hi. by apply IH, set_bit_keeps. Qed.

Lemma set_bits_set idxs bloom i :
  (∀ j, j ∈ idxs → (j / 8 < length bloom)%nat) → i ∈ idxs → has_bit (foldl set_bit bloom idxs) i = true.
Proof.
  revert bloom. induction idxs as [|j idxs IH]; intros bloom Hb; [by intros ?%elem_of_nil|]. cbn [foldl].
  intros [->|Hi]%elem_of_cons.
  - apply set_bits_keep, set_bit_sets, Hb. by constructor.
  - apply IH; [|done]. intros k Hk. unfold set_bit. rewrite length_alter. apply Hb. by constructor.
Qed.

Lemma bloomIndexes_range value bytes hashes idx :
  (0 < bytes)%nat → idx ∈ bloomIndexes value (bytes * 8) hashes → (idx / 8 < bytes)%nat.
Proof.
  intros Hb (k & -> & _)%list_elem_of_fmap. apply Nat.Div0.div_lt_upper_bound.
  match goal with |- (Z.to_nat (?x `mod` ?y) < _)%nat => pose proof (Z.mod_pos_bound x y ltac:(lia)) end. lia.
Qed.

(** A filter never denies an identifier it was built from. *)
Lemma bloom_complete ids id : id ∈ ids → traceBloomMayContain (buildTraceBloomFromIDs ids) id = true.
Proof.
  intros Hid. unfold buildTraceBloomFromIDs. rewrite bool_decide_eq_false_2 by (by intros ->; apply elem_of_nil in Hid).
  set (n := Z.to_nat _). assert (0 < n)%nat as Hn by (unfold n; lia).
  set (step := λ bloom traceID, foldl set_bit bloom (bloomIndexes traceID (n * 8) 4)).
  assert (∀ l bloom, length (foldl step bloom l) = length bloom) as Hlen.
  { induction l as [|x l IH]; intros bloom; cbn [foldl]; [done|]. rewrite IH. apply length_set_bits. }
  assert (∀ l bloom i, has_bit bloom i = true → has_bit (foldl step bloom l) i = true) as Hkeep.
  { induction l as [|x l IH]; intros bloom i Hi; cbn [foldl]; [done|]. by apply IH, set_bits_keep. }
  assert (∀ l bloom i, length bloom = n → id ∈ l → i ∈ bloomIndexes id (n * 8) 4 → has_bit (foldl step bloom l) i = true) as Hset.
  { induction l as [|x l IH]; intros bloom i Hl Hin Hi; [by apply elem_of_nil in Hin|]. cbn [foldl].
    apply elem_of_cons in Hin as [<-|Hin].
    - apply Hkeep. apply set_bits_set; [|done]. intros j Hj. rewrite Hl. by eapply bloomIndexes_range.
    - apply IH; [|done..]. unfold step. by rewrite length_set_bits. }
  unfold traceBloomMayContain. case_bool_decide; [done|]. rewrite Hlen, length_replicate. apply forallb_forall.
  intros i Hi%list_elem_of_In. apply Hset; [apply length_replicate|done|done].
Qed.

(** ** What a manifest says of its records *)

Section manifest.
Context `{Regexp, GoRange}.

Lemma sortLogRecords_perm batch : sortLogRecords batch ≡ₚ batch.
Proof. apply sort_stable_perm. Qed.

Lemma fold_min t0 logs (m := foldl (λ t l, if bool_decide (Timestamp l < t) then Timestamp l else t) t0 logs) :
  m ≤ t0 ∧ ∀ r, r ∈ logs → m ≤ Timestamp r.
Proof.
  subst m. revert t0. induction logs as [|l logs IH]; intros t0; cbn [foldl]; [split; [done|by intros ? ?%elem_of_nil]|].
  destruct (IH (if bool_decide (Timestamp l < t0) then Timestamp l else t0)) as [H1 H2].
  split; [case_bool_decide; lia|]. intros r [->|Hr]%elem_of_cons; [case_bool_decide; lia|by apply H2].
Qed.

Lemma fold_max t0 logs (m := foldl (λ t l, if bool_decide (t < Timestamp l) then Timestamp l else t) t0 logs) :
  t0 ≤ m ∧ ∀ r, r ∈ logs → Timestamp r ≤ m.
Proof.
  subst m. revert t0. induction logs as [|l logs IH]; intros t0; cbn [foldl]; [split; [done|by intros ? ?%elem_of_nil]|].
  destruct (IH (if bool_decide (t0 < Timestamp l) then Timestamp l else t0)) as [H1 H2].
  split; [case_bool_decide; lia|]. intros r [->|Hr]%elem_of_cons; [case_bool_decide; lia|by apply H2].
Qed.

Lemma manifest_times batch m rows r :
  flushLogs batch = Some (m, rows) → r ∈ batch → MinTime m ≤ Timestamp r ≤ MaxTime m.
Proof.
  intros Hf Hr. assert (r ∈ sortLogRecords batch) as Hin by (by rewrite sortLogRecords_perm). clear Hr. revert Hf.
  unfold flushLogs. destruct (sortLogRecords batch) as [|l0 logs] eqn:E; [done|]. intros [= <- _]. cbn [MinTime MaxTime].
  split; [by apply (proj2 (fold_min (Timestamp l0) (l0 :: logs)))|by apply (proj2 (fold_max (Timestamp l0) (l0 :: logs)))].
Qed.

(** The records of a batch use one spelling of the label [name]. *)
Definition one_spelling (batch : list LogRecord) (name : string) : Prop :=
  ∀ r r' k k' v v', r ∈ batch → r' ∈ batch → k ∈ spellings name → k' ∈ spellings name →
    Labels r !! k = Some v → Labels r' !! k' = Some v' → v ≠ "" → v' ≠ "" → k = k'.

Lemma elem_of_dedup (l out : list string) x :
  x ∈ foldl (λ out value, if bool_decide (value ∈ out) then out else out ++ [value]) out l ↔ x ∈ out ∨ x ∈ l.
Proof.
  revert out. induction l as [|y l IH]; intros out; cbn [foldl]; [rewrite elem_of_nil; tauto|].
  rewrite IH, elem_of_cons. case_bool_decide; [|rewrite elem_of_app, list_elem_of_singleton; tauto].
  split; [tauto|]. intros [?|[->|?]]; auto.
Qed.

Lemma elem_of_manifestLabelValues values name x :
  x ∈ manifestLabelValues values name ↔ ∃ k l, k ∈ spellings name ∧ values !! k = Some l ∧ x ∈ l.
Proof.
  unfold manifestLabelValues. rewrite elem_of_dedup, elem_of_nil, elem_of_concat. split.
  - intros [[]|(l & Hx & (k & -> & Hk)%list_elem_of_fmap)]. destruct (values !! k) as [l|] eqn:E; [eauto|by apply elem_of_nil in Hx].
  - intros (k & l & Hk & E & Hx). right. exists l. split; [done|]. apply list_elem_of_fmap. exists k. by rewrite E.
Qed.

Lemma label_in_dictionary batch logs r name x :
  logs ≡ₚ batch → one_spelling batch name → r ∈ batch → (lookupLabelValue (Labels r) name).1 = x → x ≠ "" →
  manifestLabelValues (collectLogLabelValues logs) name = [] ∨ x ∈ manifestLabelValues (collectLogLabelValues logs) name.
Proof.
  intros Hp Hone Hr Hx Hne. set (vals := manifestLabelValues _ _).
  assert (∃ k, k ∈ spellings name ∧ Labels r !! k = Some x) as (k & Hk & Hl).
  { unfold lookupLabelValue in Hx. destruct (omap _ _) as [|v l] eqn:E; [done|]. cbn in Hx. subst v.
    assert (x ∈ omap (λ k, Labels r !! k) (spellings name)) as Hin by (rewrite E; by constructor).
    apply list_elem_of_omap in Hin as (k & Hk & Hl). eauto. }
  destruct (decide (vals = [])) as [|Hv]; [by left|]. right.
  destruct vals as [|y ys] eqn:Ev; [done|]. assert (y ∈ vals) as Hy by (rewrite Ev; by constructor). rewrite <- Ev.
  unfold vals in Hy |- *. apply elem_of_manifestLabelValues in Hy as (k' & l' & Hk' & E' & _).
  destruct (dictionary_sound _ _ _ E') as (Hk0 & r' & v' & Hr' & Hl' & Hv').
  assert (k' = k) as -> by (eapply (Hone r' r); [by rewrite <- Hp|done..]).
  apply elem_of_manifestLabelValues. exists k, l'. split_and!; [done..|].
  by eapply dictionary_complete; [exact E'|done|rewrite Hp|done|done].
Qed.

Lemma may_match values m x :
  matchesLogMatcher x true m = true → values = [] ∨ x = "" ∨ x ∈ values → manifestValuesMayMatch values m = true.
Proof.
  intros Hm Hx. revert Hm. unfold matchesLogMatcher, manifestValuesMayMatch.
  bool_case (values = []) as Hv; [done|]. destruct Hx as [?|Hx]; [done|].
  bool_case (m_Op (cm_matcher m) = "=") as Heq.
  - bool_case (m_Value (cm_matcher m) = "") as He; [done|]. intros Hm%bool_decide_eq_true. destruct Hx as [?|Hx]; [congruence|].
    apply existsb_elem. exists x. split; [done|]. by apply bool_decide_eq_true_2.
  - bool_case (m_Op (cm_matcher m) = "=~") as Hre; [|done]. rewrite (bool_decide_eq_false_2 (_ = "!=")) by (rewrite Hre; discriminate).
    destruct (cm_regex m) as [re|]; [|done]. destruct (re "") eqn:E0; [done|].
    destruct Hx as [->|Hx]; [congruence|]. intros Hm. apply existsb_elem. eauto.
Qed.

Lemma matches_found value found m :
  matchesLogMatcher value found m = matchesLogMatcher (if found then value else "") true m.
Proof. done. Qed.

Lemma lookup_found values name : (if (lookupLabelValue values name).2 then (lookupLabelValue values name).1 else "") = (lookupLabelValue values name).1.
Proof. unfold lookupLabelValue. by destruct (omap _ _). Qed.

Lemma manifest_matches_sound batch m rows r cm :
  flushLogs batch = Some (m, rows) → r ∈ batch → one_spelling batch (m_Name (cm_matcher cm)) →
  (let '(value, found) := logRecordField r (m_Name (cm_matcher cm)) in matchesLogMatcher value found cm) = true →
  manifest_matches m cm = true.
Proof.
  intros Hf Hr Hone Hm. assert (r ∈ sortLogRecords batch) as Hr' by (by rewrite sortLogRecords_perm).
  unfold flushLogs in Hf. destruct (sortLogRecords batch) as [|l0 logs] eqn:E; [done|]. rewrite <- E in Hf, Hr'.
  injection Hf as <- _. unfold manifest_matches. cbn [TraceBloom Levels LabelValues]. set (name := m_Name (cm_matcher cm)) in *.
  revert Hm. unfold logRecordField.
  bool_case (name ∈ ["service"; "service_name"]) as Hs; [done|].
  bool_case (name = "trace_id") as Ht.
  { rewrite (bool_decide_eq_false_2 (name ∈ _)) by (rewrite Ht, !elem_of_cons, elem_of_nil; by intros [?|[?|?]]).
    bool_case (m_Op (cm_matcher cm) = "=") as Heq; [|done]. cbn [negb orb]. unfold matchesLogMatcher.
    rewrite (bool_decide_eq_true_2 (m_Op _ = "=")) by done. intros Hm%bool_decide_eq_true. rewrite <- Hm.
    bool_case (TraceID r ≠ "") as Hid; [|unfold traceBloomMayContain; by rewrite bool_decide_eq_true_2 by auto].
    apply bloom_complete, list_elem_of_filter. split; [done|]. apply list_elem_of_fmap. eauto. }
  bool_case (name ∈ ["body"; "raw_message"; "span_id"]) as Hb; [done|].
  bool_case (name ∈ ["level"; "severity_text"]) as Hl.
  { intros Hm. eapply may_match; [exact Hm|].
    destruct (decide (Level r = "")); [auto|]. destruct (decide (collectLogLevels (sortLogRecords batch) = [])); [auto|].
    right; right. by apply levels_complete. }
  rewrite !elem_of_cons, elem_of_nil in Hb. rewrite (bool_decide_eq_false_2 (name = "span_id")) by tauto.
  rewrite (bool_decide_eq_false_2 (name ∈ ["body"; _])) by (rewrite !elem_of_cons, elem_of_nil; tauto).
  pose proof (lookup_found (Labels r) name) as El. destruct (lookupLabelValue (Labels r) name) as [x found] eqn:Ex. cbn [fst snd] in El.
  intros Hm. rewrite matches_found, El in Hm. eapply may_match; [exact Hm|].
  destruct (decide (x = "")); [auto|].
  destruct (label_in_dictionary batch (sortLogRecords batch) r name x) as [?|?]; auto; [apply sortLogRecords_perm|by rewrite Ex].
Qed.

Lemma Forall2_elem_r {A B} (P : A → B → Prop) l k y : Forall2 P l k → y ∈ k → ∃ x, x ∈ l ∧ P x y.
Proof.
  intros HF [i Hi]%list_elem_of_lookup_1. destruct (Forall2_lookup_r _ _ _ _ _ HF Hi) as (x & Hx & HP).
  exists x. split; [by eapply list_elem_of_lookup_2|done].
Qed.

Lemma Forall2_elem_l {A B} (P : A → B → Prop) l k x : Forall2 P l k → x ∈ l → ∃ y, y ∈ k ∧ P x y.
Proof. intros HF%Forall2_flip Hx. by apply (Forall2_elem_r (flip P) k l). Qed.

Lemma compile_matcher_inv mt cm : compile_matcher mt = Ok cm → cm_matcher cm = mt.
Proof. unfold compile_matcher. case_bool_decide; [destruct (regexp_Compile _)|]; intros [= <-]; done. Qed.

(** The manifest of a chunk with a matching record matches the query. *)
Lemma manifest_sound query c batch m rows r :
  compileLogQuery query = Ok c → flushLogs batch = Some (m, rows) → r ∈ batch → matchesRecord c r = true →
  (∀ mt, mt ∈ Matchers query → one_spelling batch (m_Name mt)) →
  manifestMatchesLogQuery m c = true ∧ c_query c = query ∧ (ServiceEquals query ≠ "" → ServiceEquals query ∈ Services m).
Proof.
  intros Hc Hf Hr Hm Hone. unfold compileLogQuery in Hc. inv_bind Hc. subst c.
  apply rmap_ok_Forall2 in E. unfold matchesRecord in Hm. cbn [c_matchers c_query] in *. apply andb_true_iff in Hm as [Hm _].
  rewrite forallb_forall in Hm. split_and!; [|done|].
  - unfold manifestMatchesLogQuery. apply forallb_forall. intros cm Hcm. specialize (Hm cm Hcm). apply list_elem_of_In in Hcm.
    eapply manifest_matches_sound; [done..| |exact Hm]. destruct (Forall2_elem_r _ _ _ _ E Hcm) as (mt & Hmt & ->%compile_matcher_inv).
    by apply Hone.
  - intros Hs. unfold ServiceEquals in *. destruct (find _ _) as [mt|] eqn:Ef; [|done]. apply find_some in Ef as [Hin Hmt].
    apply list_elem_of_In in Hin. bool_hyps. destruct (Forall2_elem_l _ _ _ _ E Hin) as (cm & Hcm & Ecm%compile_matcher_inv).
    specialize (Hm cm ltac:(by apply list_elem_of_In)). rewrite Ecm in Hm. unfold logRecordField in Hm.
    rewrite (bool_decide_eq_true_2 (m_Name mt ∈ _)) in Hm by (rewrite H1; by constructor). unfold matchesLogMatcher in Hm.
    rewrite Ecm, (bool_decide_eq_true_2 (m_Op mt = "=")) in Hm by done. apply bool_decide_eq_true in Hm. rewrite <- Hm in *.
    unfold flushLogs in Hf. assert (r ∈ sortLogRecords batch) as Hr' by (by rewrite sortLogRecords_perm).
    destruct (sortLogRecords batch) as [|l0 logs] eqn:El; [done|]. injection Hf as <- _. by apply services_complete.
Qed.
End manifest.
