(* ===== verification/LogEngineExact.v ===== *)
(** * Log queries answer exactly

    The evaluation of a log query over the chunks it is given: it answers the
    wanted records of all of them, newest first.  LogStore.v applies this
    to the chunks a store lists. *)

From stdpp Require Import options.
From S2P Require Import Prelude GoStrings GoUnicode GoQuote GoFmt GoHash GoSort GoHeap GoRange GoPath LogQuery LogEngine LogEngineProps.

Lemma older_order : WeakOrder older.
Proof. unfold older. split; intros; bool_hyps; rewrite ?bool_decide_eq_true, ?bool_decide_eq_false; lia. Qed.

Lemma newer_order : WeakOrder newer.
Proof. unfold newer. split; intros; bool_hyps; rewrite ?bool_decide_eq_true, ?bool_decide_eq_false; lia. Qed.

Lemma cursor_order : WeakOrder cursor_less.
Proof.
  unfold cursor_less. split; intros; [apply (less_irrefl _ newer_order)|by eapply (less_trans _ newer_order)|by eapply (less_incomp _ newer_order)].
Qed.

Lemma newer_false a b : newer a b = false ↔ Timestamp a ≤ Timestamp b.
Proof. unfold newer. rewrite bool_decide_eq_false. lia. Qed.
Lemma older_false a b : older a b = false ↔ Timestamp b ≤ Timestamp a.
Proof. unfold older. rewrite bool_decide_eq_false. lia. Qed.

Lemma outside_false from to minT maxT t :
  minT ≤ t ≤ maxT → outside from to t t = false → outside from to minT maxT = false.
Proof.
  unfold outside. intros Ht [H1 H2]%orb_false_iff. apply orb_false_iff.
  split; [destruct to|destruct from]; try done; bool_hyps; apply bool_decide_eq_false; lia.
Qed.

Lemma bind_fmap {A B C} (f : A → B) (g : B → list C) l : (f <$> l) ≫= g = l ≫= λ x, g (f x).
Proof. induction l as [|x l IH]; [done|]. by rewrite fmap_cons, !bind_cons, IH. Qed.

Lemma sorted_weaken {A} (R S : A → A → Prop) l : (∀ x y, R x y → S x y) → StronglySorted R l → StronglySorted S l.
Proof. intros HRS. induction 1; constructor; [done|]. eapply Forall_impl; [done|]. eauto. Qed.

(** ** The specification *)

Section exact.
Context `{Regexp, UnicodeWord, GoSort, GoRange}.

(** The store holds the chunks [chunks], given as the batches that were
    flushed, and serves them for the time range without an I/O error. *)
Record holds (st : CachedStore) (from to : option Z) (chunks : gmap string (list LogRecord)) : Prop := {
  holds_listing : ∃ ids, ListChunkPaths st from to = Ok ids ∧ NoDup ids ∧
    ∀ p batch r, chunks !! p = Some batch → r ∈ batch → outside from to (Timestamp r) (Timestamp r) = false → p ∈ ids;
  holds_chunk p batch : chunks !! p = Some batch →
    ∃ m rows groups, flushLogs batch = Some (m, rows) ∧ ReadManifest st p = Ok m ∧ ReadRowGroups st p = Ok groups ∧ concat groups = rows;
  holds_ghost p : chunks !! p = None → ReadManifest st p = Err ErrGhostChunk;
  holds_index p filters : SearchIndex st p filters ≠ Err StoreFailed;
  holds_name p batch r lo hi : chunks !! p = Some batch → r ∈ batch →
    ParseChunkTimeRangeFromID p = Some (lo, hi) → lo ≤ Timestamp r ≤ hi }.

(** The rows that are left when only the given row numbers are read. *)
Definition visible (answer : option (gset nat)) (rows : list LogRecord) : list LogRecord :=
  match answer with
  | None => rows
  | Some s => omap (λ ir, if bool_decide (ir.1 ∈ s) then Some ir.2 else None) (imap pair rows)
  end.

Section query.
Context (st : CachedStore) (c : compiledLogQuery) (from to : option Z) (textFilters : list string).

Definition wanted (r : LogRecord) : bool := negb (outside from to (Timestamp r) (Timestamp r)) && matchesRecord c r.
Definition hits (batch : list LogRecord) : list LogRecord := filter (λ r, wanted r = true) (sortLogRecords batch).
(** Every wanted row of every chunk. *)
Definition chunk_hits (chunks : gmap string (list LogRecord)) : list LogRecord := map_to_list chunks ≫= λ pb, hits pb.2.

(** *** Scanning a chunk *)

Lemma scan_spec valid base groups :
  scanLogParquet valid c from to base groups =
  omap (λ ir, if row_matches valid c from to ir.1 ir.2 then Some ir.2 else None) (imap (λ i r, (base + i, r)%nat) (concat groups)).
Proof.
  revert base. induction groups as [|rg groups IH]; intros base; [done|]. cbn [scanLogParquet concat].
  rewrite imap_app, omap_app, IH. f_equal. f_equal. apply imap_ext. intros i r _. f_equal. lia.
Qed.

Lemma filter_omap {A B} (f : A → option B) (P : B → bool) (l : list A) :
  filter (λ b, P b = true) (omap f l) = omap (λ a, b ← f a; if P b then Some b else None) l.
Proof.
  induction l as [|a l IH]; [done|]. cbn [omap list_omap]. destruct (f a) as [b|]; cbn [mbind option_bind]; [|done].
  rewrite filter_cons. destruct (P b); [rewrite decide_True by done|rewrite decide_False by done]; by rewrite IH.
Qed.

Lemma omap_imap_filter (P : LogRecord → bool) n l :
  omap (λ ir : nat * LogRecord, if P ir.2 then Some ir.2 else None) (imap (λ i r, (n + i, r)%nat) l) = filter (λ r, P r = true) l.
Proof.
  revert n. induction l as [|r l IH]; intros n; [done|]. rewrite filter_cons. cbn.
  rewrite <- (IH (S n)). destruct (P r); [rewrite decide_True by done|rewrite decide_False by done]; [f_equal|];
    f_equal; apply imap_ext; intros i x _; cbn; f_equal; lia.
Qed.

Lemma scan_visible valid groups :
  scanLogParquet valid c from to 0 groups = filter (λ r, wanted r = true) (visible valid (concat groups)).
Proof.
  rewrite scan_spec. unfold visible, row_matches. destruct valid as [s|].
  - rewrite filter_omap. cbn [Nat.add]. apply list_omap_ext, Forall_Forall2_diag, Forall_true. intros [i r]. cbn [fst snd]. unfold wanted.
    destruct (bool_decide (i ∈ s)); cbn; [|done]. by destruct (_ && _).
  - apply (omap_imap_filter wanted).
Qed.

Lemma visible_empty rows : visible (Some ∅) rows = [].
Proof.
  cbn [visible]. assert (∀ (l : list (nat * LogRecord)), omap (λ ir, if bool_decide (ir.1 ∈ (∅ : gset nat)) then Some ir.2 else None) l = []) as Hn; [|apply Hn].
  by induction l.
Qed.

(** Nothing wanted is lost by reading only the rows of [valid]. *)
Lemma visible_wanted (valid : gset nat) rows :
  (∀ i r, rows !! i = Some r → wanted r = true → i ∈ valid) →
  filter (λ r, wanted r = true) (visible (Some valid) rows) = filter (λ r, wanted r = true) rows.
Proof.
  intros Hv. cbn [visible]. rewrite filter_omap, <- (omap_imap_filter wanted 0). cbn [Nat.add].
  apply list_omap_ext, Forall_Forall2_diag, Forall_forall. intros ir (i & r & -> & Hr)%elem_of_lookup_imap. cbn [fst snd].
  case_bool_decide as Hi; cbn; [done|]. destruct (wanted r) eqn:Hw; [|done]. by destruct Hi; eapply Hv.
Qed.

(** *** Candidates *)

Context (query : Query) (chunks : gmap string (list LogRecord)).
Context (Hst : holds st from to chunks) (Hc : compileLogQuery query = Ok c).
Context (Hone : ∀ p batch mt, chunks !! p = Some batch → mt ∈ Matchers query → one_spelling batch (m_Name mt)).
(** The text index, where it is asked, finds every row that contains the
    filters. *)
Context (Htext : textFilters = PositiveLineContainsFilters query).
Context (Hindex : forallb lineFilterIndexable textFilters = true → ∀ p batch valid i r, chunks !! p = Some batch → SearchIndex st p textFilters = Ok (Some valid) →
  sortLogRecords batch !! i = Some r → (∀ f, f ∈ textFilters → Contains (RawMessage r) f = true) → i ∈ valid).

Lemma wanted_contains r f : wanted r = true → f ∈ textFilters → Contains (RawMessage r) f = true.
Proof using Hc Htext.
  unfold wanted, matchesRecord. rewrite Htext. unfold PositiveLineContainsFilters. intros [_ [_ Hw]%andb_true_iff]%andb_true_iff Hf.
  apply list_elem_of_fmap in Hf as (lf & -> & [Hop [i Hlf]%list_elem_of_lookup]%list_elem_of_filter).
  pose proof Hc as Hc'. unfold compileLogQuery in Hc'. inv_bind Hc'. rename E0 into Ef. subst c. cbn [c_lineFilters] in Hw.
  apply rmap_ok_Forall2 in Ef. destruct (Forall2_lookup_l _ _ _ _ _ Ef Hlf) as (cf & Hcf & Ecf).
  assert (cf_filter cf = lf) as El.
  { unfold compile_filter in Ecf. rewrite bool_decide_eq_false_2 in Ecf by (rewrite Hop; by intros [|]). by injection Ecf as <-. }
  rewrite forallb_forall in Hw. specialize (Hw cf). rewrite <- list_elem_of_In in Hw. specialize (Hw (list_elem_of_lookup_2 _ _ _ Hcf)).
  unfold matchesLineFilter in Hw. by rewrite El, Hop in Hw.
Qed.

Lemma candidate_hits p batch :
  chunks !! p = Some batch → candidate_records st c textFilters from to p = Ok (hits batch).
Proof using Hst Hc Htext Hindex.
  intros Hp. destruct (holds_chunk _ _ _ _ Hst p batch Hp) as (m & rows & groups & Hf & _ & Hg & Hr).
  assert (rows = sortLogRecords batch) as ->.
  { unfold flushLogs in Hf. by destruct (sortLogRecords batch) as [|l0 logs]; [|injection Hf as _ <-]. }
  unfold candidate_records, hits. pose proof (holds_index _ _ _ _ Hst p textFilters) as Hi.
  assert (∃ a, logValidRows st p textFilters = Ok a ∧
    filter (λ r, wanted r = true) (visible a (sortLogRecords batch)) = filter (λ r, wanted r = true) (sortLogRecords batch)) as (a & -> & Ha).
  { unfold logValidRows. case_bool_decide; [eauto|]. destruct (forallb _ _) eqn:Ei; cbn [negb]; [|eauto].
    destruct (SearchIndex _ _ _) as [[valid|]|[]] eqn:Es; eauto; [|done].
    exists (Some valid). split; [done|]. apply visible_wanted. intros i r Hir Hw. eapply Hindex; [done..|]. intros f. by apply wanted_contains. }
  cbn [rbind]. rewrite <- Ha. case_bool_decide as He.
  - subst a. by rewrite visible_empty.
  - rewrite Hg. cbn [rbind]. by rewrite scan_visible, Hr.
Qed.

Lemma hits_elem batch r : r ∈ hits batch → r ∈ batch ∧ wanted r = true.
Proof. unfold hits. intros [Hw Hr]%list_elem_of_filter. by rewrite sortLogRecords_perm in Hr. Qed.

(** A chunk with a wanted record survives both rounds of pruning. *)
Lemma survives p batch r m :
  chunks !! p = Some batch → r ∈ batch → wanted r = true → ReadManifest st p = Ok m →
  outside from to (MinTime m) (MaxTime m) = false ∧ manifestMatchesLogQuery m c = true ∧
  (ServiceEquals query ≠ "" → ServiceEquals query ∈ Services m) ∧
  match ParseChunkTimeRangeFromID p with Some (lo, hi) => outside from to lo hi | None => false end = false.
Proof using Hst Hc Hone.
  intros Hp Hr Hw Hm. destruct (holds_chunk _ _ _ _ Hst p batch Hp) as (m' & rows & groups & Hf & Hm' & _).
  assert (m' = m) as -> by congruence. unfold wanted in Hw. apply andb_true_iff in Hw as [Ho Hmatch]. apply negb_true_iff in Ho.
  pose proof (manifest_times _ _ _ _ Hf Hr). destruct (manifest_sound query c batch m rows r) as (H1' & _ & H3'); [done..|by intros; eapply Hone|].
  split_and!; [by eapply outside_false|done|done|].
  destruct (ParseChunkTimeRangeFromID p) as [[lo hi]|] eqn:E; [|done].
  pose proof (holds_name _ _ _ _ Hst p batch r lo hi Hp Hr E). by eapply outside_false.
Qed.

Lemma read_candidates_spec ids :
  NoDup ids →
  ∃ cs, read_candidates st (ServiceEquals query) c from to ids = Ok cs ∧ NoDup (chunkID <$> cs) ∧
    (∀ cand, cand ∈ cs → chunkID cand ∈ ids ∧ ∃ batch, chunks !! chunkID cand = Some batch ∧ ∀ r, r ∈ batch → Timestamp r ≤ cutoffMax cand) ∧
    (∀ p batch r, p ∈ ids → chunks !! p = Some batch → r ∈ batch → wanted r = true → p ∈ chunkID <$> cs).
Proof using Hst Hc Hone.
  induction 1 as [|p ids Hp Hids (cs & E & Hnd & Hcs & Hall)].
  - exists []. split_and!; [done|constructor|by intros ? ?%elem_of_nil|by intros ??? ?%elem_of_nil].
  - cbn [read_candidates]. destruct (chunks !! p) as [batch|] eqn:Ep.
    + destruct (holds_chunk _ _ _ _ Hst p batch Ep) as (m & rows & groups & Hf & Hm & _).
      rewrite Hm, E. cbn [rbind].
      assert (∀ cand, cand ∈ cs → chunkID cand ∈ p :: ids ∧ ∃ batch, chunks !! chunkID cand = Some batch ∧ ∀ r, r ∈ batch → Timestamp r ≤ cutoffMax cand) as Hcs'.
      { intros cand Hin. destruct (Hcs cand Hin). split; [by right|done]. }
      assert (∃ keep : bool, (if outside from to (MinTime m) (MaxTime m) then Ok cs
          else if bool_decide (ServiceEquals query ≠ "") && negb (bool_decide (ServiceEquals query ∈ Services m)) then Ok cs
          else if negb (manifestMatchesLogQuery m c) then Ok cs else Ok (mkCandidate p (MaxTime m) :: cs))
          = (Ok (if keep then mkCandidate p (MaxTime m) :: cs else cs) : result store_error (list candidateChunk)) ∧
          (keep = false → ∀ r, r ∈ batch → wanted r = true → False)) as (keep & -> & Hk).
      { destruct (outside _ _ _ _) eqn:E1; [exists false; split; [done|]; intros _ r Hr Hw; destruct (survives p batch r m) as (? & _); [done..|congruence]|].
        destruct (_ && _) eqn:E2; [exists false; split; [done|]; intros _ r Hr Hw; bool_hyps; destruct (survives p batch r m) as (_ & _ & Hs & _); [done..|by apply Hs in H3]|].
        destruct (manifestMatchesLogQuery m c) eqn:E3; [by exists true|].
        exists false. split; [done|]. intros _ r Hr Hw. destruct (survives p batch r m) as (_ & ? & _); [done..|congruence]. }
      exists (if keep then mkCandidate p (MaxTime m) :: cs else cs). split; [done|]. destruct keep.
      * rewrite fmap_cons. split_and!.
        -- constructor; [|done]. intros (cand & Ec & Hin)%list_elem_of_fmap. cbn in Ec. apply Hp. rewrite Ec. by apply Hcs.
        -- intros cand [->|Hin]%elem_of_cons; [|by apply Hcs']. split; [by left|]. exists batch. split; [done|].
           intros r Hr. by apply (manifest_times _ _ _ _ Hf Hr).
        -- intros p' b r [->|Hin]%elem_of_cons Hb Hr Hw; [by left|]. right. by eapply Hall.
      * split_and!; [done|done|]. intros p' b r [->|Hin]%elem_of_cons Hb Hr Hw; [|by eapply Hall].
        destruct (Hk eq_refl r); [|done]. congruence.
    + rewrite (holds_ghost _ _ _ _ Hst p Ep). exists cs. split_and!; [done|done|..].
      * intros cand Hin. destruct (Hcs cand Hin). split; [by right|done].
      * intros p' b r [->|Hin]%elem_of_cons Hb Hr Hw; [congruence|by eapply Hall].
Qed.

Lemma scan_keys ks (cks : gmap string (list LogRecord)) :
  NoDup ks → (∀ k, k ∈ ks → is_Some (cks !! k)) → (∀ p batch, cks !! p = Some batch → hits batch ≠ [] → p ∈ ks) →
  (ks ≫= λ k, hits (default [] (cks !! k))) ≡ₚ chunk_hits cks.
Proof.
  unfold chunk_hits. intros Hnd. revert cks. induction Hnd as [|k ks Hk Hks IH]; intros cks Hin Hall.
  - cbn. assert (∀ l, (∀ p b, (p, b) ∈ l → hits b = []) → l ≫= (λ pb : string * list LogRecord, hits pb.2) = []) as Hn.
    { induction l as [|[p b] l IHl]; intros Hl; [done|]. rewrite bind_cons. cbn [snd]. rewrite (Hl p b) by constructor. apply IHl.
      intros p' b' ?. apply (Hl p'). by constructor. }
    rewrite Hn; [done|]. intros p b Hpb%elem_of_map_to_list. destruct (hits b) eqn:E; [done|].
    assert (p ∈ []) as ?%elem_of_nil by (apply (Hall p b Hpb); by rewrite E). done.
  - destruct (Hin k) as [b Hb]; [by left|]. rewrite bind_cons, <- (map_to_list_delete cks k b), bind_cons by done. cbn [fst snd].
    rewrite Hb. cbn [default from_option]. unfold id. f_equiv. rewrite <- (IH (delete k cks)).
    + rewrite (bind_ext_in _ (λ k0, hits (default [] (delete k cks !! k0)))); [done|].
      intros k' Hk'. rewrite lookup_delete_ne; [done|]. by intros <-.
    + intros k' Hk'. rewrite lookup_delete_ne by (by intros <-). apply Hin. by right.
    + intros p b' [Hne Hp]%lookup_delete_Some Hh. pose proof (Hall p b' Hp Hh) as [->|?]%elem_of_cons; done.
Qed.

(** The hits of a candidate. *)
Definition found (cand : candidateChunk) : list LogRecord :=
  match candidate_records st c textFilters from to (chunkID cand) with Ok h => h | Err _ => [] end.
(** The records of the candidate can be read and its cutoff bounds them. *)
Definition bounded (cand : candidateChunk) : Prop :=
  candidate_records st c textFilters from to (chunkID cand) = Ok (found cand) ∧ ∀ r, r ∈ found cand → Timestamp r ≤ cutoffMax cand.
(** The order of the candidates. *)
Definition by_cutoff : list candidateChunk → Prop := StronglySorted (λ a b, cutoffMax b ≤ cutoffMax a).

Lemma logCandidates_spec q ids :
  store q = st → ListChunkPaths st from to = Ok ids → Z.of_nat (length ids) ≤ chunkLimit q →
  ∃ cs, logCandidates q ids (ServiceEquals query) c from to = Ok cs ∧ by_cutoff cs ∧ Forall bounded cs ∧
    (cs ≫= found) ≡ₚ chunk_hits chunks.
Proof using Hst Hc Hone Htext Hindex.
  intros Hq Hids Hlen. destruct (holds_listing _ _ _ _ Hst) as (ids' & Hids' & Hnd & Hlist). assert (ids' = ids) as -> by congruence.
  unfold logCandidates. set (remaining := filter _ ids).
  pose proof (length_filter (λ id, match ParseChunkTimeRangeFromID id with Some (minT, maxT) => outside from to minT maxT | None => false end = false) ids) as Hl.
  rewrite bool_decide_eq_false_2 by (unfold remaining; lia). rewrite Hq.
  destruct (read_candidates_spec remaining) as (cs & -> & Hnd' & Hcs & Hall); [by apply NoDup_filter|]. cbn [as_query_error rbind].
  set (cs' := sort_slice _ cs). assert (cs' ≡ₚ cs) as Hp by apply sort_slice_perm.
  assert (∀ cand, cand ∈ cs → ∃ batch, chunks !! chunkID cand = Some batch ∧ found cand = hits batch ∧ bounded cand) as Hb.
  { intros cand Hin. destruct (Hcs cand Hin) as (_ & batch & Hbatch & Hcut). exists batch.
    assert (found cand = hits batch) as Hf by (unfold found; by rewrite (candidate_hits _ _ Hbatch)).
    split_and!; [done..|]. split; [by rewrite Hf, (candidate_hits _ _ Hbatch)|].
    rewrite Hf. intros r [Hr _]%hits_elem. by apply Hcut. }
  exists cs'. split_and!; [done|..].
  - assert (sorted_by (λ a b, bool_decide (cutoffMax a > cutoffMax b)) cs') as Hs.
    { apply sort_slice_sorted. split; intros; bool_hyps; rewrite ?bool_decide_eq_true, ?bool_decide_eq_false; lia. }
    eapply sorted_weaken; [|exact Hs]. intros a b E. apply bool_decide_eq_false in E. lia.
  - rewrite Hp. apply Forall_forall. intros cand Hin. by destruct (Hb cand Hin) as (batch & _ & _ & ?).
  - rewrite Hp, <- (scan_keys (chunkID <$> cs)); [|done|..].
    + rewrite bind_fmap. rewrite (bind_ext_in found (λ cand, hits (default [] (chunks !! chunkID cand)))); [done|].
      intros cand Hin. destruct (Hb cand Hin) as (batch & E & -> & _). by rewrite E.
    + intros k (cand & -> & Hin)%list_elem_of_fmap. destruct (Hb cand Hin) as (batch & E & _). by eexists.
    + intros p batch Hp' Hh. destruct (hits batch) as [|r l] eqn:E; [done|].
      assert (r ∈ hits batch) as [Hr Hw]%hits_elem by (rewrite E; by constructor). eapply Hall; [|done..].
      destruct (holds_chunk _ _ _ _ Hst p batch Hp') as (m & rows & groups & _ & Hm & _).
      unfold remaining. apply list_elem_of_filter. split; [by apply (survives p batch r m)|].
      eapply Hlist; [done..|]. unfold wanted in Hw. by bool_hyps.
Qed.
End query.

(** ** The newest records *)

(** [top] holds the newest [limit] of [all]. *)
Definition newest (limit : nat) (all top : list LogRecord) : Prop :=
  ∃ rest, all ≡ₚ top ++ rest ∧ length top = Nat.min limit (length all) ∧
    ∀ x y, x ∈ rest → y ∈ top → Timestamp x ≤ Timestamp y.

Lemma newest_rest_nil limit (all top rest : list LogRecord) :
  all ≡ₚ top ++ rest → length top = Nat.min limit (length all) → (length top < limit)%nat → rest = [].
Proof. intros Hp Hl Hlt. rewrite (Permutation_length Hp), length_app in Hl. destruct rest; [done|]. simpl in Hl. lia. Qed.

Lemma offer_newest limit all top r :
  (0 < limit)%nat → newest limit all top → is_heap older (length top) top →
  newest limit (r :: all) (offer limit top r) ∧ is_heap older (length (offer limit top r)) (offer limit top r).
Proof.
  intros Hlim (rest & Hp & Hl & Hle) Hh. unfold offer. case_bool_decide as Hlt.
  - rewrite (newest_rest_nil _ _ _ _ Hp Hl Hlt), app_nil_r in Hp.
    destruct (heap_Push_spec older older_order r top Hh) as [Hh' Hp']. split; [|done]. exists [].
    rewrite app_nil_r, Hp', <- Hp. cbn [length]. split_and!; [done|lia|by intros ?? ?%elem_of_nil].
  - destruct top as [|oldest top]; [simpl in Hlt; lia|].
    assert (∀ y, y ∈ oldest :: top → Timestamp oldest ≤ Timestamp y) as Hold.
    { intros y Hy. apply older_false. by eapply heap_head; [apply older_order|exact Hh|]. }
    destruct (newer r oldest) eqn:E.
    + unfold newer in E. apply bool_decide_eq_true in E.
      destruct (heap_Fix_spec older older_order r oldest top Hh) as [Hh' Hp']. split; [|done]. exists (oldest :: rest).
      split_and!.
      * rewrite Hp, Hp'. cbn [app]. constructor. apply Permutation_middle.
      * rewrite (Permutation_length Hp'). cbn [length] in *. lia.
      * intros x y Hx Hy. rewrite Hp' in Hy. apply elem_of_cons in Hx as [->|Hx], Hy as [->|Hy]; [lia|apply Hold; by right| |by apply Hle; [|right]].
        pose proof (Hle x oldest Hx ltac:(by left)). lia.
    + apply newer_false in E. split; [|done]. exists (r :: rest). split_and!.
      * rewrite Hp. apply Permutation_middle.
      * cbn [length] in *. lia.
      * intros x y [->|Hx]%elem_of_cons Hy; [|by apply Hle]. pose proof (Hold y Hy). lia.
Qed.

Lemma offers_newest limit rs all top :
  (0 < limit)%nat → newest limit all top → is_heap older (length top) top →
  newest limit (rs ++ all) (foldl (offer limit) top rs) ∧ is_heap older (length (foldl (offer limit) top rs)) (foldl (offer limit) top rs).
Proof.
  intros Hlim. revert all top. induction rs as [|r rs IH]; intros all top Hn Hh; [done|]. cbn [foldl].
  destruct (offer_newest limit all top r Hlim Hn Hh) as [Hn' Hh']. destruct (IH (r :: all) _ Hn' Hh') as [(rest & Hp & Hl & Hle) Hh'']. split; [|done].
  exists rest. split_and!; [by rewrite <- Hp; apply Permutation_middle| |done]. rewrite Hl, !length_app. cbn [length]. lia.
Qed.

Section sources.
Context (st : CachedStore) (c : compiledLogQuery) (from to : option Z) (textFilters : list string).
Abbreviation found := (found st c from to textFilters).
Abbreviation bounded := (bounded st c from to textFilters).

Lemma top_candidates_spec limit cs all top :
  (0 < limit)%nat → by_cutoff cs → Forall bounded cs → newest limit all top → is_heap older (length top) top →
  ∃ top', top_candidates st c textFilters from to limit cs top = Ok top' ∧ newest limit (all ++ (cs ≫= found)) top'.
Proof.
  intros Hlim Hs Hb. revert all top. induction Hs as [|cand cs Hs IH Hcut]; intros all top Hn Hh.
  - exists top. split; [done|]. by rewrite app_nil_r.
  - apply Forall_cons in Hb as [[Hrec Hbound] Hb]. cbn [top_candidates]. destruct (_ && _) eqn:E.
    + exists top. split; [done|]. apply andb_true_iff in E as [Hfull E]. apply bool_decide_eq_true in Hfull.
      destruct top as [|oldest top]; [done|]. apply bool_decide_eq_true in E. destruct Hn as (rest & Hp & Hl & Hle).
      exists (rest ++ ((cand :: cs) ≫= found)). split_and!.
      * by rewrite Hp, app_assoc.
      * rewrite length_app. cbn [length] in *. lia.
      * intros x y Hx Hy. apply elem_of_app in Hx as [Hx|Hx]; [by apply Hle|].
        assert (Timestamp oldest ≤ Timestamp y) by (apply older_false; by eapply heap_head; [apply older_order|exact Hh|]).
        assert (Timestamp x ≤ cutoffMax cand); [|lia]. rewrite bind_cons in Hx. apply elem_of_app in Hx as [Hx|Hx]; [by apply Hbound|].
        apply list_elem_of_bind in Hx as (cand' & Hx & Hin). rewrite Forall_forall in Hb, Hcut.
        destruct (Hb cand' Hin) as [_ Hb']. specialize (Hb' x Hx). specialize (Hcut cand' Hin). lia.
    + rewrite Hrec. destruct (offers_newest limit (found cand) all top Hlim Hn Hh) as [Hn' Hh'].
      destruct (IH Hb (found cand ++ all) _ Hn' Hh') as (top' & Ht & rest & Hp & Hl & Hle). exists top'. split; [done|]. exists rest.
      rewrite bind_cons. split_and!; [|rewrite Hl, !length_app; lia|done]. rewrite <- Hp. rewrite (Permutation_app_comm (found cand) all).
      by rewrite app_assoc.
Qed.

(** ** Merging *)

Definition newest_first : list LogRecord → Prop := StronglySorted (λ a b, Timestamp b ≤ Timestamp a).

Record cursor_ok (cur : logChunkCursor) : Prop := {
  cursor_in : (cur_index cur < length (cur_records cur))%nat;
  cursor_sorted : newest_first (cur_records cur) }.
(** What a cursor has still to give. *)
Definition ahead (cur : logChunkCursor) : list LogRecord := drop (cur_index cur) (cur_records cur).

Lemma current_ok cur : cursor_ok cur → ∃ r l, current cur = Some r ∧ ahead cur = r :: l ∧ newest_first (r :: l).
Proof.
  intros [[r Hr]%lookup_lt_is_Some_2 Hs]. exists r, (drop (S (cur_index cur)) (cur_records cur)). unfold current, ahead.
  assert (drop (cur_index cur) (cur_records cur) = r :: drop (S (cur_index cur)) (cur_records cur)) as E by (by apply drop_S).
  split_and!; [done..|]. rewrite <- E. rewrite <- (take_drop (cur_index cur) (cur_records cur)) in Hs. by eapply StronglySorted_app_1_r.
Qed.

Lemma sort_newest l : newest_first (sort_slice newer l).
Proof. eapply sorted_weaken; [|apply sort_slice_sorted, newer_order]. intros x y E. by apply newer_false. Qed.

Abbreviation pending active cs := ((active ≫= ahead) ++ (cs ≫= found)).

(** Opening one candidate. *)
Definition opened (cand : candidateChunk) (active : list logChunkCursor) : list logChunkCursor :=
  match sort_slice newer (found cand) with
  | [] => active
  | records => heap_Push cursor_less (mkCursor records 0) active
  end.

Lemma opened_spec cand active :
  Forall cursor_ok active → is_heap cursor_less (length active) active →
  Forall cursor_ok (opened cand active) ∧ is_heap cursor_less (length (opened cand active)) (opened cand active) ∧
  (opened cand active ≫= ahead) ≡ₚ (active ≫= ahead) ++ found cand.
Proof.
  intros Hok Hh. unfold opened. pose proof (sort_newest (found cand)) as Hs. pose proof (sort_slice_perm newer (found cand)) as Hp.
  destruct (sort_slice newer (found cand)) as [|r l]; [split_and!; [done..|by rewrite <- Hp, app_nil_r]|].
  destruct (heap_Push_spec cursor_less cursor_order (mkCursor (r :: l) 0) active Hh) as [Hh' Hp']. split_and!; [|done|].
  - rewrite Hp'. constructor; [|done]. split; [simpl; lia|done].
  - rewrite Hp', bind_cons. unfold ahead at 1. cbn [cur_records cur_index drop]. by rewrite Hp, Permutation_app_comm.
Qed.

Lemma open_cursors_step cand cs active :
  bounded cand → open_cursors st c textFilters from to (cand :: cs) active =
  if match head active ≫= current with Some r => bool_decide (cutoffMax cand < Timestamp r) | None => false end
  then Ok (cand :: cs, active) else open_cursors st c textFilters from to cs (opened cand active).
Proof.
  intros [Hrec _]. cbn [open_cursors]. destruct (match _ with Some _ => _ | None => _ end); [done|].
  unfold collectLogChunkRecords. rewrite Hrec. cbn [rbind]. unfold opened. by destruct (sort_slice newer (found cand)).
Qed.

Lemma open_cursors_spec cs active :
  by_cutoff cs → Forall bounded cs → Forall cursor_ok active → is_heap cursor_less (length active) active →
  ∃ cs' active', open_cursors st c textFilters from to cs active = Ok (cs', active') ∧
    by_cutoff cs' ∧ Forall bounded cs' ∧ Forall cursor_ok active' ∧ is_heap cursor_less (length active') active' ∧
    pending active cs ≡ₚ pending active' cs' ∧
    (cs' = [] ∨ ∃ cur rest r, active' = cur :: rest ∧ current cur = Some r ∧ ∀ x, x ∈ cs' ≫= found → Timestamp x ≤ Timestamp r).
Proof.
  intros Hs. revert active. induction Hs as [|cand cs Hs IH Hcut]; intros active Hb Hok Hh.
  - exists [], active. split_and!; [done|constructor|done..|]. by left.
  - pose proof Hb as [Hcand Hb']%Forall_cons. rewrite open_cursors_step by done.
    destruct (match _ with Some _ => _ | None => _ end) eqn:E.
    + destruct active as [|cur rest]; [done|]. cbn in E. destruct (current cur) as [r|] eqn:Er; [|done]. apply bool_decide_eq_true in E.
      exists (cand :: cs), (cur :: rest). split_and!; [done|by constructor|done..|]. right. exists cur, rest, r. split_and!; [done..|].
      intros x Hx. assert (Timestamp x ≤ cutoffMax cand); [|lia]. rewrite bind_cons in Hx. destruct Hcand as [_ Hbound].
      apply elem_of_app in Hx as [Hx|Hx]; [by apply Hbound|].
      apply list_elem_of_bind in Hx as (cand' & Hx & Hin). rewrite Forall_forall in Hb', Hcut.
      destruct (Hb' cand' Hin) as [_ Hb'']. specialize (Hb'' x Hx). specialize (Hcut cand' Hin). lia.
    + destruct (opened_spec cand active Hok Hh) as (Hok' & Hh' & Hp).
      destruct (IH (opened cand active) Hb' Hok' Hh') as (cs' & active' & -> & ? & ? & ? & ? & Hp' & ?).
      exists cs', active'. split_and!; [done..| |done]. by rewrite <- Hp', Hp, bind_cons, app_assoc.
Qed.

(** The popped record is a newest of all that is pending. *)
Lemma popped_newest cur rest r x :
  Forall cursor_ok (cur :: rest) → is_heap cursor_less (length (cur :: rest)) (cur :: rest) → current cur = Some r →
  x ∈ (cur :: rest) ≫= ahead → Timestamp x ≤ Timestamp r.
Proof.
  intros Hok Hh Hr (cur' & Hx & Hin)%list_elem_of_bind. rewrite Forall_forall in Hok.
  destruct (current_ok cur' (Hok cur' Hin)) as (r' & l & Hr' & El & [Hl _]%StronglySorted_cons).
  pose proof (heap_head _ cursor_order _ _ _ Hh Hin) as Hless. unfold cursor_less in Hless. rewrite Hr, Hr' in Hless. apply newer_false in Hless.
  cbn in Hless. rewrite El in Hx. apply elem_of_cons in Hx as [->|Hx]; [done|]. rewrite Forall_forall in Hl. specialize (Hl x Hx). cbn in Hl. lia.
Qed.

Lemma emit_loop_spec {Y} (yield : Y → LogRecord → result query_error Y) fuel cs active s :
  (length (pending active cs) ≤ fuel)%nat →
  by_cutoff cs → Forall bounded cs → Forall cursor_ok active → is_heap cursor_less (length active) active →
  ∃ out, out ≡ₚ pending active cs ∧ newest_first out ∧
    emit_loop st c textFilters from to yield fuel cs active s = emitQueryResults yield out s.
Proof.
  revert cs active s. induction fuel as [|fuel IH]; intros cs active s Hf Hs Hb Hok Hh;
    destruct (open_cursors_spec cs active Hs Hb Hok Hh) as (cs' & active' & E & Hs' & Hb' & Hok' & Hh' & Hp & Hend);
    cbn [emit_loop]; rewrite E; cbn [as_query_error]; rewrite Hp in Hf; setoid_rewrite Hp;
    (destruct active' as [|cur rest]; [exists []; split_and!; [|constructor|done]; destruct Hend as [->|(? & ? & ? & ? & _)]; done|]);
    pose proof Hok' as [(r & l & Hr & El & _)%current_ok _]%Forall_cons.
  - rewrite bind_cons, El in Hf. cbn in Hf. lia.
  - assert (∀ x, x ∈ pending (cur :: rest) cs' → Timestamp x ≤ Timestamp r) as Hmax.
    { intros x [Hx|Hx]%elem_of_app; [by eapply popped_newest|]. destruct Hend as [->|(cur0 & rest0 & r0 & [= <- <-] & Hr0 & Hall)]; [by apply elem_of_nil in Hx|].
      assert (r0 = r) as <- by congruence. by apply Hall. }
    destruct (heap_Pop_spec cursor_less cursor_order (cur :: rest) Hh') as (cur0 & rest' & -> & Hpop & Hheap & [= <-]); [done|].
    rewrite Hr. set (cur' := mkCursor (cur_records cur) (cur_index cur + 1)).
    set (next := if bool_decide _ then _ else _).
    assert (Forall cursor_ok next ∧ is_heap cursor_less (length next) next ∧ (next ≫= ahead) ≡ₚ l ++ (rest' ≫= ahead)) as (Hok'' & Hh'' & Hl).
    { pose proof Hok' as Hokr. rewrite Hpop in Hokr. apply Forall_cons in Hokr as [[Hin Hsrt] Hokr].
      assert (l = ahead cur') as ->.
      { unfold ahead in El |- *. cbn [cur_records cur_index cur']. replace (cur_index cur + 1)%nat with (S (cur_index cur)) by lia.
        rewrite (drop_S _ r) in El by exact Hr. by injection El as ->. }
      unfold next. case_bool_decide as Hi.
      - destruct (heap_Push_spec cursor_less cursor_order cur' rest' Hheap) as [Hh3 Hp3]. split_and!; [|done|by rewrite Hp3, bind_cons].
        rewrite Hp3. constructor; [by split|done].
      - split_and!; [done..|]. unfold ahead at 2. rewrite drop_ge by (cbn [cur_records cur_index cur'] in *; lia). done. }
    assert (pending (cur :: rest) cs' ≡ₚ r :: pending next cs') as Hstep.
    { rewrite Hpop, bind_cons, El, Hl. cbn [app]. done. }
    rewrite Hstep in Hf. cbn [length] in Hf.
    assert (∀ s', ∃ out, out ≡ₚ pending next cs' ∧ newest_first out ∧
      emit_loop st c textFilters from to yield fuel cs' next s' = emitQueryResults yield out s') as Hrec by (intros; apply IH; [lia|done..]).
    destruct (yield s r) as [s'|e] eqn:Ey.
    + destruct (Hrec s') as (out & Hout & Hsort & Hemit). exists (r :: out). split_and!.
      * by rewrite Hout, Hstep.
      * apply StronglySorted_cons. split; [|done]. apply Forall_forall. intros x Hx. apply Hmax. rewrite Hstep, <- Hout. by right.
      * cbn [emitQueryResults rbind]. by rewrite Ey.
    + destruct (Hrec s) as (out & Hout & Hsort & _). exists (r :: out). split_and!.
      * by rewrite Hout, Hstep.
      * apply StronglySorted_cons. split; [|done]. apply Forall_forall. intros x Hx. apply Hmax. rewrite Hstep, <- Hout. by right.
      * cbn [emitQueryResults rbind]. by rewrite Ey.
Qed.

Lemma omap_length_le {A B} (f : A → option B) l : (length (omap f l) ≤ length l)%nat.
Proof. induction l as [|a l IH]; [done|]. cbn [omap list_omap]. destruct (f a); cbn [length]; lia. Qed.

Lemma found_rows cand : bounded cand → (length (found cand) ≤ rows_of st cand)%nat.
Proof.
  intros [Hrec _]. unfold rows_of. unfold candidate_records in Hrec. inv_bind Hrec. revert Hrec. case_bool_decide.
  - intros [= <-]. simpl. lia.
  - intros Hrec. inv_bind Hrec. rewrite <- Hrec, scan_spec. etrans; [apply omap_length_le|]. by rewrite length_imap.
Qed.

Lemma emit_fuel cs : Forall bounded cs → (length (cs ≫= found) ≤ sum_list (rows_of st <$> cs))%nat.
Proof.
  induction 1 as [|cand cs Hc Hcs IH]; [done|]. rewrite bind_cons, length_app, fmap_cons.
  change (sum_list (?x :: ?l)) with (x + sum_list l)%nat. pose proof (found_rows cand Hc). lia.
Qed.

Lemma emitMerged_spec {Y} (yield : Y → LogRecord → result query_error Y) cs s :
  by_cutoff cs → Forall bounded cs →
  ∃ out, out ≡ₚ (cs ≫= found) ∧ newest_first out ∧ emitMergedLogChunks st c textFilters from to yield cs s = emitQueryResults yield out s.
Proof.
  intros Hs Hb. apply (emit_loop_spec yield _ cs []); [by apply emit_fuel|done..|constructor|]. intros k Hk. simpl in Hk. lia.
Qed.
End sources.

(** ** The caller's view *)

Definition permitted (scope : QueryScope) : list LogRecord → list LogRecord := filter (λ r, allowsLog scope r = true).

Lemma emit_guarded limit scope out n acc :
  n ≤ limit →
  emitQueryResults (guarded limit scope (λ out record, Ok (out ++ [record]))) out (n, acc) =
  if bool_decide (n + Z.of_nat (length out) ≤ limit) then Ok (n + Z.of_nat (length out), acc ++ permitted scope out) else Err QueryTooBroad.
Proof.
  revert n acc. induction out as [|r out IH]; intros n acc Hn; cbn [emitQueryResults length].
  - rewrite bool_decide_eq_true_2 by (simpl; lia). cbn. by rewrite app_nil_r, Z.add_0_r.
  - unfold guarded at 1. cbn [fst snd]. case_bool_decide as Hlim; [rewrite bool_decide_eq_false_2 by lia; done|].
    assert (Restricted scope && negb (allowsLog scope r) = negb (allowsLog scope r)) as ->.
    { unfold allowsLog. by destruct (Restricted scope). }
    unfold permitted. rewrite filter_cons. destruct (allowsLog scope r); [rewrite decide_True by done|rewrite decide_False by done]; cbn [negb rbind];
      rewrite IH by lia; replace (n + 1 + Z.of_nat (length out)) with (n + Z.of_nat (S (length out))) by lia; [|done].
    by rewrite <- app_assoc.
Qed.

(** A query over a store that holds the given chunks. *)
Lemma log_query_held q scope queryStr service from to limit parsed c chunks (filters := PositiveLineContainsFilters (with_service service parsed)) :
  Parse queryStr = Ok parsed → compileLogQuery (with_service service parsed) = Ok c →
  holds (store q) from to chunks →
  (∀ ids, ListChunkPaths (store q) from to = Ok ids → Z.of_nat (length ids) ≤ chunkLimit q) →
  (∀ p batch mt, chunks !! p = Some batch → mt ∈ Matchers (with_service service parsed) → one_spelling batch (m_Name mt)) →
  (forallb lineFilterIndexable filters = true → ∀ p batch valid i r, chunks !! p = Some batch → SearchIndex (store q) p filters = Ok (Some valid) →
     sortLogRecords batch !! i = Some r → (∀ f, f ∈ filters → Contains (RawMessage r) f = true) → i ∈ valid) →
  let all := chunk_hits c from to chunks in
  let answer := QueryLogs q scope queryStr service from to limit in
  (limit ≤ 0 → Z.of_nat (length all) ≤ recordLimit q → ∃ out, out ≡ₚ all ∧ newest_first out ∧ answer = Ok (permitted scope out)) ∧
  (limit ≤ 0 → recordLimit q < Z.of_nat (length all) → answer = Err QueryTooBroad) ∧
  (0 < limit ≤ recordLimit q → ∃ top, newest (Z.to_nat limit) all top ∧ newest_first top ∧ answer = Ok (permitted scope top)).
Proof.
  intros Hparse Hc Hst Hbudget Hone Hindex all answer0. subst answer0.
  assert (c_query c = with_service service parsed) as Hq by (unfold compileLogQuery in Hc; inv_bind Hc; by subst c).
  destruct (holds_listing _ _ _ _ Hst) as (ids & Hids & _).
  destruct (logCandidates_spec (store q) c from to filters _ chunks Hst Hc Hone eq_refl Hindex q ids eq_refl Hids (Hbudget ids Hids))
    as (cs & Hcs & Hsort & Hb & Hp). fold all in Hp.
  assert (0 < recordLimit q) as Hrl by (unfold recordLimit; case_bool_decide; lia).
  unfold QueryLogs, StreamLogs. rewrite Hparse, Hc. cbn [rbind]. rewrite Hq, Hids. cbn [as_query_error rbind]. rewrite Hcs. cbn [rbind]. fold filters.
  assert (∀ out, out ≡ₚ all → Z.of_nat (length out) = Z.of_nat (length all)) as Hlen by (intros out ->; done).
  split_and!.
  - intros Hl Hall. rewrite !bool_decide_eq_false_2 by lia.
    destruct (emitMerged_spec (store q) c from to filters
      (guarded (recordLimit q) scope (λ out record, Ok (out ++ [record]))) cs (0, []) Hsort Hb) as (out & Ho & Hnf & ->).
    rewrite Hp in Ho. exists out. split_and!; [done..|]. rewrite emit_guarded by lia. rewrite bool_decide_eq_true_2 by (rewrite Hlen; [lia|done]). done.
  - intros Hl Hall. rewrite !bool_decide_eq_false_2 by lia.
    destruct (emitMerged_spec (store q) c from to filters
      (guarded (recordLimit q) scope (λ out record, Ok (out ++ [record]))) cs (0, []) Hsort Hb) as (out & Ho & Hnf & ->).
    rewrite Hp in Ho. rewrite emit_guarded by lia. rewrite bool_decide_eq_false_2 by (rewrite Hlen; [lia|done]). done.
  - intros Hl. rewrite bool_decide_eq_false_2, bool_decide_eq_true_2 by lia.
    destruct (top_candidates_spec (store q) c from to filters (Z.to_nat limit) cs [] [])
      as (top & -> & rest & Htop & Hlt & Hle); [lia|done..|exists []; split_and!; [done|simpl; lia|by intros ?? ?%elem_of_nil]|intros k Hk; simpl in Hk; lia|].
    cbn [as_query_error rbind]. pose proof (sort_slice_perm newer top) as Hps. exists (sort_slice newer top).
    cbn [app] in Htop, Hlt. rewrite Hp in Htop, Hlt. split_and!.
    + exists rest. rewrite Hps. split_and!; [done..|]. intros x y Hx Hy. rewrite Hps in Hy. by apply Hle.
    + apply sort_newest.
    + rewrite emit_guarded by lia. rewrite bool_decide_eq_true_2; [done|]. rewrite (Permutation_length Hps), Hlt. lia.
Qed.
End exact.

