(* ===== verification/GoTree.v ===== *)
(** * Directory trees

    The part of package os a session directory needs: files, directories and
    symbolic links under absolute paths.  A call takes its outcome as an
    argument: [Fine], or [Broken remains], where [remains] tells for each path the
    call was to change what is there when it fails half-way.  Whether a call
    that is [Fine] can succeed is decided by the tree.  A link at the end of a
    path is followed as the kernel follows it; the directories above it are
    no links. *)

From stdpp Require Import options.
From S2P Require Import Prelude GoStrings GoPath.

Inductive node : Type :=
| File (content : string)
| Directory
| Link (target : string).
#[export] Instance node_eq_dec : EqDecision node.
Proof. solve_decision. Defined.

Abbreviation tree := (gmap string node).

Inductive io : Type :=
| Fine
| Broken (remains : string → option node).

Definition below (dir p : string) : bool := HasPrefix p (dir +:+ "/").

(** The directories a path lies in. *)
Definition parents (p : string) : list string :=
  filter (λ q, q ≠ "" ∧ below q p = true) ((λ i, str_take i p) <$> seq 0 (String.length p)).

Definition is_dir (t : tree) (p : string) : bool := bool_decide (t !! p = Some Directory).
Definition vacant_or_dir (t : tree) (p : string) : bool := bool_decide (t !! p = None) || is_dir t p.

(** [os.MkdirAll]. *)
Definition MkdirAll (o : io) (p : string) (t : tree) : tree * bool :=
  let dirs := parents p ++ [p] in
  match o with
  | Fine =>
      if forallb (vacant_or_dir t) dirs
      then (t ∪ list_to_map ((λ q, (q, Directory)) <$> dirs), true) else (t, false)
  | Broken remains => (t ∪ list_to_map ((λ q, (q, Directory)) <$> filter (λ q, is_Some (remains q)) dirs), false)
  end.

(** Where a path leads when links at its end are followed, at most 40 of them
    as in Linux. *)
Definition link_path (p target : string) : string :=
  if HasPrefix target "/" then Clean target else PathJoin (Dir p) target.
Fixpoint follow (links : nat) (t : tree) (p : string) : option string :=
  match t !! p with
  | Some (Link target) => match links with O => None | S k => follow k t (link_path p target) end
  | _ => Some p
  end.
Definition resolve (t : tree) (p : string) : option string := follow 40 t p.

(** Whether [os.Stat] succeeds. *)
Definition Stat (t : tree) (p : string) : bool :=
  match resolve t p with Some q => bool_decide (is_Some (t !! q)) | None => false end.

(** A file can be put at [p]: its directory is there, and [p] is no directory. *)
Definition can_put (t : tree) (p : string) : bool :=
  forallb (is_dir t) (parents p) &&
  match t !! p with Some Directory | Some (Link _) => false | _ => true end.

(** [os.WriteFile], and [os.OpenFile] with [O_CREATE|O_TRUNC] for an empty
    [data]; a failed write may leave any content. *)
Definition WriteFile (o : io) (p data : string) (t : tree) : tree * bool :=
  match resolve t p with
  | None => (t, false)
  | Some q =>
      match o with
      | Fine => if can_put t q then (<[q := File data]> t, true) else (t, false)
      | Broken remains =>
          match remains q with
          | Some (File c) => if can_put t q then (<[q := File c]> t, false) else (t, false)
          | _ => (t, false)
          end
      end
  end.

(** Replaces the content of the file at [p] through an open handle, or by
    [os.Truncate]. *)
Definition Modify (o : io) (p : string) (f : string → string) (t : tree) : tree * bool :=
  match resolve t p with
  | None => (t, false)
  | Some q =>
      match o, t !! q with
      | Fine, Some (File c) => (<[q := File (f c)]> t, true)
      | Broken remains, Some (File _) =>
          (match remains q with Some (File c) => <[q := File c]> t | _ => t end, false)
      | _, _ => (t, false)
      end
  end.

Definition empty_dir (t : tree) (p : string) : bool :=
  forallb (λ q, negb (below p q)) (map_to_list t).*1.

(** Nothing above [p] is a file, where the kernel answers [ENOTDIR]. *)
Definition unobstructed (t : tree) (p : string) : bool := forallb (vacant_or_dir t) (parents p).

Inductive removal : Type := Removed | NotExist | Refused.

(** [os.Remove]. *)
Definition Remove (o : io) (p : string) (t : tree) : tree * removal :=
  match t !! p, o with
  | None, Fine => (t, if unobstructed t p then NotExist else Refused)
  | Some n, Fine =>
      if bool_decide (n = Directory) && negb (empty_dir t p) then (t, Refused) else (delete p t, Removed)
  | _, Broken _ => (t, Refused)
  end.

(** [os.RemoveAll]: removing what is not there succeeds, but [ENOTDIR] is an
    error. *)
Definition RemoveAll (o : io) (p : string) (t : tree) : tree * bool :=
  match o with
  | Fine => if unobstructed t p then (filter (λ '(q, _), q ≠ p ∧ below p q = false) t, true) else (t, false)
  | Broken remains => (filter (λ '(q, _), (q ≠ p ∧ below p q = false) ∨ is_Some (remains q)) t, false)
  end.

(** The place of [q] when [src] becomes [dst]. *)
Definition moved (src dst q : string) : string :=
  if bool_decide (q = src) then dst
  else if below src q then dst +:+ str_drop (String.length src) q else q.

(** [os.Rename]: atomic. *)
Definition Rename (o : io) (src dst : string) (t : tree) : tree * bool :=
  match o, t !! src with
  | Fine, Some n =>
      let dst_ok := match t !! dst with
                    | None => true
                    | Some Directory => bool_decide (n = Directory) && empty_dir t dst
                    | Some _ => negb (bool_decide (n = Directory))
                    end in
      if forallb (is_dir t) (parents dst) && dst_ok && negb (below src dst)
      then (kmap (moved src dst) (filter (λ '(q, _), q = src ∨ below src q = true) t) ∪
            filter (λ '(q, _), q ≠ src ∧ below src q = false) t, true)
      else (t, false)
  | _, _ => (t, false)
  end.

(** [WriteAt] on the content of a file: a gap is filled with zero bytes. *)
Definition write_at (off : nat) (data content : string) : string :=
  str_take off content +:+ string_of_bytes (replicate (off - String.length content) "000"%char) +:+
  data +:+ str_drop (off + String.length data) content.

(** [Truncate]. *)
Definition resize (n : nat) (content : string) : string :=
  str_take n content +:+ string_of_bytes (replicate (n - String.length content) "000"%char).

(** [os.Symlink]. *)
Definition Symlink (o : io) (target p : string) (t : tree) : tree * bool :=
  match o with
  | Fine => if forallb (is_dir t) (parents p) && bool_decide (t !! p = None)
            then (<[p := Link target]> t, true) else (t, false)
  | Broken _ => (t, false)
  end.

(** ** Lemmas *)

Lemma parents_spec p q : q ∈ parents p ↔ q ≠ "" ∧ ∃ r, p = q +:+ "/" +:+ r.
Proof.
  unfold parents. rewrite list_elem_of_filter, list_elem_of_fmap. unfold below. split.
  - intros [[Hq Hb] _]. split; [done|]. apply HasPrefix_spec in Hb as [r ->]. exists r. by rewrite str_app_assoc.
  - intros [Hq [r ->]]. split; [split; [done|]|].
    + apply HasPrefix_spec. exists r. by rewrite str_app_assoc.
    + exists (String.length q). split; [by rewrite str_take_app|].
      rewrite elem_of_seq, !str_length_app. simpl. lia.
Qed.

Lemma below_spec d p : below d p = true ↔ ∃ r, p = d +:+ "/" +:+ r.
Proof. unfold below. rewrite HasPrefix_spec. split; intros [r ->]; exists r; by rewrite str_app_assoc. Qed.

Definition dirs_at (l : list string) : tree := list_to_map ((λ q, (q, Directory)) <$> l).

Lemma lookup_dirs_at l q : dirs_at l !! q = if bool_decide (q ∈ l) then Some Directory else None.
Proof.
  unfold dirs_at. induction l as [|x l IH]; [done|]. cbn [fmap list_fmap list_to_map foldr uncurry].
  destruct (decide (x = q)) as [->|Hne].
  - rewrite lookup_insert_eq, bool_decide_eq_true_2; [done|left].
  - rewrite lookup_insert_ne, IH by done.
    rewrite (bool_decide_ext (q ∈ x :: l) (q ∈ l)) by (rewrite elem_of_cons; naive_solver). done.
Qed.

Lemma lookup_with_dirs (t : tree) l q :
  (t ∪ dirs_at l) !! q = match t !! q with Some n => Some n | None => if bool_decide (q ∈ l) then Some Directory else None end.
Proof.
  rewrite lookup_union, lookup_dirs_at. destruct (t !! q); [by destruct (bool_decide _)|]. by destruct (bool_decide _).
Qed.

Lemma MkdirAll_fine p t :
  Forall (λ q, t !! q = None ∨ t !! q = Some Directory) (parents p ++ [p]) →
  MkdirAll Fine p t = (t ∪ dirs_at (parents p ++ [p]), true).
Proof.
  intros H. unfold MkdirAll. replace (forallb _ _) with true; [done|]. symmetry. apply forallb_forall.
  intros q Hq%list_elem_of_In. rewrite Forall_forall in H. unfold vacant_or_dir, is_dir.
  destruct (H q Hq) as [->| ->]; [done|]. by rewrite orb_true_r.
Qed.

(** Two ways to cut a path at a slash. *)
Lemma cut_at_slash a b c r : a +:+ "/" +:+ b = c +:+ "/" +:+ r →
  (∃ u, c = a +:+ "/" +:+ u ∧ b = u +:+ "/" +:+ r) ∨ (c = a ∧ b = r) ∨ ∃ u, a = c +:+ "/" +:+ u.
Proof.
  revert b c r. induction a as [|x a IH]; intros b [|y c] r E.
  - right; left. rewrite !str_app_nil_l in E. by injection E.
  - left. rewrite str_app_nil_l, str_app_cons in E. injection E as <- E. by exists c.
  - rewrite str_app_nil_l, str_app_cons in E. injection E as -> E. right; right. by exists a.
  - rewrite (str_app_cons x a), (str_app_cons y c) in E. injection E as <- E. destruct (IH _ _ _ E) as [(u & -> & ->)|[[-> ->]|[u ->]]].
    + left. by exists u.
    + by right; left.
    + right; right. by exists u.
Qed.

Lemma unobstructed_spec t p : unobstructed t p = true ↔ Forall (λ q, t !! q = None ∨ t !! q = Some Directory) (parents p).
Proof.
  unfold unobstructed. rewrite forallb_forall, Forall_forall. apply forall_proper. intros q. rewrite list_elem_of_In.
  unfold vacant_or_dir, is_dir. by rewrite orb_true_iff, !bool_decide_eq_true.
Qed.

(** Everything on the disk lies in directories. *)
Definition well_formed (t : tree) : Prop := ∀ p n q, t !! p = Some n → q ∈ parents p → t !! q = Some Directory.

Lemma unobstructed_there t p n : well_formed t → t !! p = Some n → unobstructed t p = true.
Proof. intros Hw Hp. apply unobstructed_spec, Forall_forall. intros q Hq. right. by eapply Hw. Qed.

Lemma parents_trans p q r : q ∈ parents p → r ∈ parents q → r ∈ parents p.
Proof.
  rewrite !parents_spec. intros [_ [s ->]] [Hr [u ->]]. split; [done|]. exists (u +:+ "/" +:+ s). by rewrite !str_app_assoc.
Qed.

Lemma parents_irrefl p : p ∉ parents p.
Proof.
  rewrite parents_spec. intros [_ [r E]]. apply (f_equal String.length) in E. rewrite !str_length_app in E. simpl in E. lia.
Qed.

Lemma well_formed_dirs t p : well_formed t → Forall (λ q, t !! q = None ∨ t !! q = Some Directory) (parents p ++ [p]) →
  well_formed (t ∪ dirs_at (parents p ++ [p])).
Proof.
  intros Hw Hp x n q. rewrite !lookup_with_dirs. intros Hx Hq.
  destruct (t !! x) as [m|] eqn:Ex; [by rewrite (Hw x m q)|].
  case_bool_decide as Hin; [|done]. assert (q ∈ parents p ++ [p]) as Hqp.
  { apply elem_of_app in Hin as [Hin|Hin%list_elem_of_singleton]; apply elem_of_app; left; [|by subst].
    by eapply parents_trans. }
  rewrite (bool_decide_eq_true_2 _ Hqp). rewrite Forall_forall in Hp.
  destruct (Hp q Hqp) as [->| ->]; done.
Qed.

Lemma can_put_spec t p : can_put t p = true ↔
  Forall (λ q, t !! q = Some Directory) (parents p) ∧ (t !! p = None ∨ ∃ c, t !! p = Some (File c)).
Proof.
  unfold can_put. rewrite andb_true_iff, forallb_forall, Forall_forall. unfold is_dir.
  split; intros [H1 H2]; (split; [intros q Hq; specialize (H1 q)|]).
  - apply list_elem_of_In in Hq. by apply bool_decide_eq_true in H1.
  - destruct (t !! p) as [[]|]; naive_solver.
  - apply list_elem_of_In in Hq. by apply bool_decide_eq_true, H1.
  - destruct H2 as [->|[c ->]]; done.
Qed.

Lemma resolve_id t p : (∀ x, t !! p ≠ Some (Link x)) → resolve t p = Some p.
Proof. intros H. unfold resolve. cbn. destruct (t !! p) as [[]|]; [done..|by edestruct H|done]. Qed.

Lemma can_put_resolve t p : can_put t p = true → resolve t p = Some p.
Proof. intros [_ H]%can_put_spec. apply resolve_id. intros x E. rewrite E in H. naive_solver. Qed.

Lemma WriteFile_fine p c t : can_put t p = true → WriteFile Fine p c t = (<[p := File c]> t, true).
Proof. intros H. unfold WriteFile. by rewrite (can_put_resolve _ _ H), H. Qed.

Lemma Stat_spec t p : (∀ x, t !! p ≠ Some (Link x)) → Stat t p = bool_decide (is_Some (t !! p)).
Proof. intros H. unfold Stat. by rewrite (resolve_id _ _ H). Qed.

Lemma well_formed_put t p n : well_formed t → can_put t p = true → n ≠ Directory → well_formed (<[p := n]> t).
Proof.
  intros Hw [Hd Hp]%can_put_spec Hn x m q Hx Hq. rewrite Forall_forall in Hd.
  assert (q ≠ p).
  { intros ->. apply lookup_insert_Some in Hx as [[-> _]|[_ Hx]]; [by eapply parents_irrefl|].
    rewrite (Hw x m p Hx Hq) in Hp. naive_solver. }
  rewrite lookup_insert_ne by done. apply lookup_insert_Some in Hx as [[<- _]|[_ Hx]]; [by apply Hd|by eapply Hw].
Qed.

Lemma well_formed_delete t p : well_formed t → t !! p ≠ Some Directory → well_formed (delete p t).
Proof.
  intros Hw Hp x m q [_ Hx]%lookup_delete_Some Hq. pose proof (Hw x m q Hx Hq).
  rewrite lookup_delete_ne; [done|]. intros ->. done.
Qed.

Lemma nothing_below t p n q m : well_formed t → t !! p = Some n → n ≠ Directory → p ≠ "" → t !! q = Some m → below p q = false.
Proof.
  intros Hw Hp Hn Hne Hq. destruct (below p q) eqn:E; [|done]. apply below_spec in E as [r E].
  assert (p ∈ parents q) as Hin by (apply parents_spec; eauto). rewrite (Hw q m p Hq Hin) in Hp. congruence.
Qed.

(** Moving a file: it is at its new place and nowhere else. *)
Lemma Rename_file t src dst n :
  well_formed t → t !! src = Some n → n ≠ Directory → src ≠ "" → src ≠ dst → can_put t dst = true →
  ∃ t', Rename Fine src dst t = (t', true) ∧
        (∀ q, t' !! q = if bool_decide (q = dst) then Some n else if bool_decide (q = src) then None else t !! q).
Proof.
  intros Hw Hs Hn Hne Hsd Hput. pose proof Hput as [Hd Hv]%can_put_spec. rewrite Forall_forall in Hd.
  assert (below src dst = false) as Hb.
  { destruct (below src dst) eqn:E; [|done]. apply below_spec in E as [r E].
    assert (src ∈ parents dst) as Hin by (apply parents_spec; eauto). specialize (Hd _ Hin). congruence. }
  unfold Rename. rewrite Hs, Hb. replace (forallb (is_dir t) (parents dst)) with true
    by (unfold can_put in Hput; by apply andb_true_iff in Hput as [-> _]).
  replace (match t !! dst with None => true | Some Directory => _ | Some _ => _ end) with true.
  2:{ destruct Hv as [->|[c ->]]; [done|]. by rewrite bool_decide_eq_false_2. }
  cbn [andb negb]. eexists. split; [reflexivity|]. intros q.
  replace (filter (λ '(q, _), q = src ∨ below src q = true) t) with ({[src := n]} : tree).
  2:{ apply map_eq. intros x. symmetry. destruct (decide (x = src)) as [->|Hx].
      - rewrite lookup_singleton_eq. apply map_lookup_filter_Some. naive_solver.
      - rewrite lookup_singleton_ne by done. apply map_lookup_filter_None. right. intros m Hm [?|Hbx]; [done|].
        by rewrite (nothing_below t src n x m) in Hbx. }
  rewrite kmap_singleton. unfold moved at 1. rewrite bool_decide_eq_true_2 by done.
  rewrite lookup_union. case_bool_decide as E.
  - subst q. rewrite lookup_singleton_eq. by destruct (filter _ t !! dst).
  - rewrite lookup_singleton_ne by done. rewrite (left_id_L None _). case_bool_decide as E2.
    + subst q. apply map_lookup_filter_None. naive_solver.
    + destruct (t !! q) as [m|] eqn:Eq.
      * apply map_lookup_filter_Some. split; [done|]. split; [done|]. by eapply nothing_below.
      * apply map_lookup_filter_None. by left.
Qed.

Lemma well_formed_moved t t' src dst n :
  well_formed t → t !! src = Some n → n ≠ Directory → can_put t dst = true →
  (∀ q, t' !! q = if bool_decide (q = dst) then Some n else if bool_decide (q = src) then None else t !! q) →
  well_formed t'.
Proof.
  intros Hw Hs Hn [Hd Hv]%can_put_spec Ht x m q. rewrite !Ht. rewrite Forall_forall in Hd. intros Hx Hq.
  assert (t !! q = Some Directory) as Hqd.
  { case_bool_decide; [subst; by apply Hd|]. case_bool_decide; [done|]. by eapply Hw. }
  rewrite !bool_decide_eq_false_2; [done|intros ->; congruence|intros ->; rewrite Hqd in Hv; naive_solver].
Qed.

Lemma lookup_removed (t : tree) p q :
  filter (λ '(q, _), q ≠ p ∧ below p q = false) t !! q =
  if bool_decide (q = p) || below p q then None else t !! q.
Proof.
  destruct (bool_decide (q = p)) eqn:E1; cbn [orb]; [apply map_lookup_filter_None; right; bool_hyps; by intros ? _ [? _]|].
  apply bool_decide_eq_false in E1. destruct (below p q) eqn:E2; [apply map_lookup_filter_None; right; intros ? _ [_ ?]; congruence|].
  destruct (t !! q) eqn:E; [by apply map_lookup_filter_Some|apply map_lookup_filter_None; by left].
Qed.

Lemma well_formed_removed t p : well_formed t → well_formed (filter (λ '(q, _), q ≠ p ∧ below p q = false) t).
Proof.
  intros Hw x n q. rewrite !lookup_removed. destruct (bool_decide (x = p) || below p x) eqn:Ex; [done|].
  intros Hx Hq. rewrite (Hw x n q Hx Hq). apply orb_false_iff in Ex as [_ Eb]. apply parents_spec in Hq as [_ [r ->]].
  replace (bool_decide (q = p) || below p q) with false; [done|]. symmetry. apply orb_false_iff. split.
  - apply bool_decide_eq_false. intros ->. rewrite (proj2 (below_spec _ _)) in Eb; [done|eauto].
  - destruct (below p q) eqn:E; [|done]. apply below_spec in E as [u ->].
    rewrite (proj2 (below_spec _ _)) in Eb; [done|]. exists (u +:+ "/" +:+ r). by rewrite !str_app_assoc.
Qed.
