(* ===== verification/Overlay.v ===== *)
(** * The overlay database of a write session

    Model of internal/fuse/overlaydb.go and overlaydb_vcs.go.  The buckets of
    the embedded database (NutsDB) are maps from keys to the values stored
    under them; a method that changes the database is the function its
    transaction applies, and whether the transaction commits is decided where
    it is run (Session.v).  Values are kept in the form they are written in;
    reading back a document is encoding/json's round trip. *)

From stdpp Require Import options.
From S2P Require Import Prelude GoStrings GoSort.

Abbreviation ChangeType := string (only parsing).
Abbreviation ChangeCreate := "create" (only parsing).
Abbreviation ChangeModify := "modify" (only parsing).
Abbreviation ChangeDelete := "delete" (only parsing).
Abbreviation ChangeMkdir := "mkdir" (only parsing).
Abbreviation ChangeRmdir := "rmdir" (only parsing).
Abbreviation ChangeSymlink := "symlink" (only parsing).
Abbreviation ChangeUserRootDir := "user_root_dir" (only parsing).
Abbreviation ChangeRemoveUserRootDir := "remove_user_root_dir" (only parsing).
Abbreviation ChangeBaseline := "baseline" (only parsing).

Inductive FileEntryType := FileEntryRegular | FileEntryDir | FileEntrySymlink.
#[export] Instance FileEntryType_eq_dec : EqDecision FileEntryType.
Proof. solve_decision. Defined.

Record FileEntry := mkFileEntry {
  fe_Type : FileEntryType; fe_LocalPath : string; fe_Mode : Z; fe_Size : Z; fe_Mtime : Z;
  fe_SymlinkTarget : string; fe_OrigHash : string; fe_ChangeType : ChangeType; fe_Timestamp : Z }.

Record DeletedEntry := mkDeleted { de_Path : string; de_ChangeType : ChangeType; de_DeletedAt : option Z }.

(** What is stored under a deleted path: a document, or in sessions written
    by older versions a timestamp ([None] when it does not parse). *)
Inductive deleted_value := DeletedDoc (e : DeletedEntry) | DeletedStamp (at_ : option Z).

Record StagedIndexEntry := mkStaged {
  st_Path : string; st_RepositoryStorageID : string; st_RepositoryPath : string; st_ChangeType : ChangeType;
  st_StagedAt : option Z; st_Content : string; st_Mode : Z; st_SymlinkTarget : string; st_LocalPath : string }.

Record LocalCommitOperation := mkCommitOperation {
  op_Kind : string; op_Path : string; op_Mode : Z; op_Content : string; op_Target : string }.
Record LocalCommitRepository := mkCommitRepository {
  cr_StorageID : string; cr_DisplayPath : string; cr_RepoURL : string; cr_Branch : string; cr_BaseCommit : string;
  cr_Operations : list LocalCommitOperation }.
Record LocalVirtualCommit := mkLocalCommit {
  lc_ID : string; lc_ParentID : string; lc_LogicalBranch : string; lc_Message : string; lc_AuthorName : string;
  lc_AuthorEmail : string; lc_PrincipalID : string; lc_CreatedAt : option Z;
  lc_Repositories : list LocalCommitRepository; lc_Pushed : bool; lc_PushJobID : string; lc_PushedAt : option Z }.

Record SessionBranchMapping := mkBranchMapping {
  bm_PrincipalID : string; bm_LogicalBranch : string; bm_StorageID : string; bm_DisplayPath : string;
  bm_OriginalBranch : string; bm_ActualBranch : string; bm_LastPushedCommit : string; bm_CreatedAt : option Z }.

Record SessionConflict := mkSessionConflict {
  sc_Path : string; sc_Reason : string; sc_BaseCommit : string; sc_TheirsRef : string; sc_CreatedAt : option Z }.

(** The values of the branch bucket: the name of the current branch under its
    key, mappings under all others. *)
Inductive branch_value := BranchName (name : string) | BranchDoc (m : SessionBranchMapping).

Record OverlayDB := mkOverlay {
  files : gmap string FileEntry; deleted : gmap string deleted_value; userdirs : gmap string Z;
  staged : gmap string StagedIndexEntry; commits : gmap string LocalVirtualCommit;
  branches : gmap string branch_value; conflicts : gmap string SessionConflict }.

Definition empty_overlay : OverlayDB := mkOverlay ∅ ∅ ∅ ∅ ∅ ∅ ∅.

(** A bucket read as the B-tree returns it, by increasing key. *)
Definition entries_of {A} (m : gmap string A) : list (string * A) :=
  omap (λ k, pair k <$> m !! k) (sort_Strings (map_to_list m).*1).

(** ** Files and deletions *)

Definition PutFile (monofsPath : string) (entry : FileEntry) (d : OverlayDB) : OverlayDB :=
  mkOverlay (<[monofsPath := entry]> (files d)) (delete monofsPath (deleted d))
    (userdirs d) (staged d) (commits d) (branches d) (conflicts d).
Definition DeleteFile (monofsPath : string) (d : OverlayDB) : OverlayDB :=
  mkOverlay (delete monofsPath (files d)) (deleted d) (userdirs d) (staged d) (commits d) (branches d) (conflicts d).
Definition MarkDeletedWithType (now : Z) (monofsPath : string) (changeType : ChangeType) (d : OverlayDB) : OverlayDB :=
  mkOverlay (delete monofsPath (files d))
    (<[monofsPath := DeletedDoc (mkDeleted monofsPath changeType (Some now))]> (deleted d))
    (userdirs d) (staged d) (commits d) (branches d) (conflicts d).
Definition UnmarkDeleted (monofsPath : string) (d : OverlayDB) : OverlayDB :=
  mkOverlay (files d) (delete monofsPath (deleted d)) (userdirs d) (staged d) (commits d) (branches d) (conflicts d).
Definition PutUserDir (now : Z) (name : string) (d : OverlayDB) : OverlayDB :=
  mkOverlay (files d) (deleted d) (<[name := now]> (userdirs d)) (staged d) (commits d) (branches d) (conflicts d).
Definition RemoveUserDir (name : string) (d : OverlayDB) : OverlayDB :=
  mkOverlay (files d) (deleted d) (delete name (userdirs d)) (staged d) (commits d) (branches d) (conflicts d).

Record PathStatResult := mkPathStat { ps_IsDeleted : bool; ps_FileEntry : option FileEntry; ps_IsUserRootDir : bool }.
Definition GetPathStatBatch (d : OverlayDB) (monofsPath : string) : PathStatResult :=
  mkPathStat (bool_decide (is_Some (deleted d !! monofsPath))) (files d !! monofsPath)
    (bool_decide (is_Some (userdirs d !! monofsPath))).

(** The entries directly in a directory, under their names there. *)
Definition direct_children {A} (dirPath : string) (m : gmap string A) : list (string * A) :=
  if bool_decide (dirPath = "") then filter (λ kv, has_byte slash kv.1 = false) (entries_of m)
  else omap (λ '(k, v), if HasPrefix k (dirPath +:+ "/") && negb (has_byte slash (TrimPrefix k (dirPath +:+ "/")))
                        then Some (TrimPrefix k (dirPath +:+ "/"), v) else None) (entries_of m).
Definition ListFilesUnderDir (d : OverlayDB) (dirPath : string) : list (string * FileEntry) :=
  direct_children dirPath (files d).
Definition ListDeletedUnderDir (d : OverlayDB) (dirPath : string) : list string :=
  (direct_children dirPath (deleted d)).*1.

Definition deleted_entry (key : string) (v : deleted_value) : DeletedEntry :=
  match v with
  | DeletedDoc e =>
      mkDeleted (if bool_decide (de_Path e = "") then key else de_Path e)
        (if bool_decide (de_ChangeType e = "") then ChangeDelete else de_ChangeType e) (de_DeletedAt e)
  | DeletedStamp at_ => mkDeleted key ChangeDelete at_
  end.
Definition GetAllDeletedEntries `{GoSort} (d : OverlayDB) : list DeletedEntry :=
  sort_slice (λ x y, str_lt (de_Path x) (de_Path y)) ((λ '(k, v), deleted_entry k v) <$> entries_of (deleted d)).

(** [deleteKeysWithPrefix]: the bucket without what lies below the path, and
    how many keys that were. *)
Definition deleteKeysWithPrefix {A} (path : string) (m : gmap string A) : gmap string A * nat :=
  let trimmed := Trim (TrimSpace path) slash in
  if bool_decide (trimmed = "") then (m, O)
  else
    let m' := filter (λ '(k, _), HasPrefix k (trimmed +:+ "/") = false) m in
    (m', (size m - size m')%nat).

(** [strings.Replace(s, old, new, 1)]. *)
Definition replace_first (s old new : string) : string :=
  match Index s old with
  | Some i => str_take i s +:+ new +:+ str_drop (i + String.length old) s
  | None => s
  end.

(** One entry of the loops of [RenamePrefix]. *)
Definition rekey {A} (oldDir newDir : string) (f : A → A) (m : gmap string A) (kv : string * A) : gmap string A :=
  <[newDir +:+ TrimPrefix kv.1 oldDir := f kv.2]> (delete kv.1 m).
Definition relocate (oldPrefix newPrefix : string) (e : FileEntry) : FileEntry :=
  mkFileEntry (fe_Type e)
    (if bool_decide (fe_LocalPath e = "") then ""
     else replace_first (fe_LocalPath e) ("/" +:+ oldPrefix) ("/" +:+ newPrefix))
    (fe_Mode e) (fe_Size e) (fe_Mtime e) (fe_SymlinkTarget e) (fe_OrigHash e) (fe_ChangeType e) (fe_Timestamp e).
Definition RenamePrefix (oldPrefix newPrefix : string) (d : OverlayDB) : OverlayDB :=
  let oldDir := oldPrefix +:+ "/" in
  let newDir := newPrefix +:+ "/" in
  let scan {A} (m : gmap string A) := filter (λ kv, HasPrefix kv.1 oldDir = true) (entries_of m) in
  match scan (files d) with
  | [] => d
  | toRename =>
      mkOverlay (foldl (rekey oldDir newDir (relocate oldPrefix newPrefix)) (files d) toRename)
        (foldl (rekey oldDir newDir id) (deleted d) (scan (deleted d)))
        (userdirs d) (staged d) (commits d) (branches d) (conflicts d)
  end.

(** ** The index, local commits, branches, conflicts *)

Inductive overlay_error :=
| StagedPathRequired | CommitIDRequired | MappingIncomplete | ConflictPathRequired | UnmarshalMapping.

Definition PutStagedEntry (path : string) (entry : StagedIndexEntry) (d : OverlayDB) : result overlay_error OverlayDB :=
  let path := TrimSpace path in
  if bool_decide (path = "") then Err StagedPathRequired
  else
    let entry := mkStaged (if bool_decide (st_Path entry = "") then path else st_Path entry)
      (st_RepositoryStorageID entry) (st_RepositoryPath entry) (st_ChangeType entry) (st_StagedAt entry)
      (st_Content entry) (st_Mode entry) (st_SymlinkTarget entry) (st_LocalPath entry) in
    Ok (mkOverlay (files d) (deleted d) (userdirs d) (<[path := entry]> (staged d)) (commits d) (branches d) (conflicts d)).
Definition DeleteStagedEntry (path : string) (d : OverlayDB) : OverlayDB :=
  mkOverlay (files d) (deleted d) (userdirs d) (delete path (staged d)) (commits d) (branches d) (conflicts d).
Definition ListStagedEntries `{GoSort} (d : OverlayDB) : list StagedIndexEntry :=
  sort_slice (λ x y, str_lt (st_Path x) (st_Path y))
    ((λ '(k, e), if bool_decide (st_Path e = "")
                 then mkStaged k (st_RepositoryStorageID e) (st_RepositoryPath e) (st_ChangeType e) (st_StagedAt e)
                        (st_Content e) (st_Mode e) (st_SymlinkTarget e) (st_LocalPath e)
                 else e) <$> entries_of (staged d)).
Definition ClearStagedEntries (d : OverlayDB) : OverlayDB :=
  mkOverlay (files d) (deleted d) (userdirs d) ∅ (commits d) (branches d) (conflicts d).

Definition with_id (id : string) (c : LocalVirtualCommit) : LocalVirtualCommit :=
  mkLocalCommit id (lc_ParentID c) (lc_LogicalBranch c) (lc_Message c) (lc_AuthorName c) (lc_AuthorEmail c)
    (lc_PrincipalID c) (lc_CreatedAt c) (lc_Repositories c) (lc_Pushed c) (lc_PushJobID c) (lc_PushedAt c).
Definition PutLocalVirtualCommit (commit : LocalVirtualCommit) (d : OverlayDB) : result overlay_error OverlayDB :=
  let id := TrimSpace (lc_ID commit) in
  if bool_decide (id = "") then Err CommitIDRequired
  else Ok (mkOverlay (files d) (deleted d) (userdirs d) (staged d) (<[id := with_id id commit]> (commits d))
             (branches d) (conflicts d)).
Definition DeleteLocalVirtualCommit (id : string) (d : OverlayDB) : OverlayDB :=
  mkOverlay (files d) (deleted d) (userdirs d) (staged d) (delete id (commits d)) (branches d) (conflicts d).

(** The zero time is before every other. *)
Definition time_before (a b : option Z) : bool :=
  match a, b with
  | None, Some _ => true
  | Some x, Some y => bool_decide (x < y)
  | _, None => false
  end.
Definition commit_before (x y : LocalVirtualCommit) : bool :=
  if bool_decide (lc_CreatedAt x = lc_CreatedAt y) then str_lt (lc_ID x) (lc_ID y)
  else time_before (lc_CreatedAt x) (lc_CreatedAt y).
Definition ListLocalVirtualCommits `{GoSort} (d : OverlayDB) : list LocalVirtualCommit :=
  sort_slice commit_before ((λ '(k, c), if bool_decide (lc_ID c = "") then with_id k c else c) <$> entries_of (commits d)).

Abbreviation currentLogicalBranchKey := "current_logical_branch" (only parsing).
Definition put_branches (b : gmap string branch_value) (d : OverlayDB) : OverlayDB :=
  mkOverlay (files d) (deleted d) (userdirs d) (staged d) (commits d) b (conflicts d).
Definition SetCurrentLogicalBranch (branch : string) (d : OverlayDB) : OverlayDB :=
  let branch := TrimSpace branch in
  put_branches (if bool_decide (branch = "") then delete currentLogicalBranchKey (branches d)
                else <[currentLogicalBranchKey := BranchName branch]> (branches d)) d.
Definition GetCurrentLogicalBranch (d : OverlayDB) : option string :=
  match branches d !! currentLogicalBranchKey with Some (BranchName n) => Some n | _ => None end.

Definition unit_separator : ascii := "031".
Definition branchMappingKey (principalID logicalBranch storageID : string) : string :=
  Join [principalID; logicalBranch; storageID] (str1 unit_separator).
Definition PutBranchMapping (now : Z) (m : SessionBranchMapping) (d : OverlayDB) : result overlay_error OverlayDB :=
  let m := mkBranchMapping (TrimSpace (bm_PrincipalID m)) (TrimSpace (bm_LogicalBranch m)) (TrimSpace (bm_StorageID m))
    (bm_DisplayPath m) (bm_OriginalBranch m) (bm_ActualBranch m) (bm_LastPushedCommit m)
    (Some (default now (bm_CreatedAt m))) in
  if bool_decide (bm_PrincipalID m = "" ∨ bm_LogicalBranch m = "" ∨ bm_StorageID m = "") then Err MappingIncomplete
  else Ok (put_branches (<[branchMappingKey (bm_PrincipalID m) (bm_LogicalBranch m) (bm_StorageID m) := BranchDoc m]> (branches d)) d).
Definition DeleteBranchMapping (principalID logicalBranch storageID : string) (d : OverlayDB) : OverlayDB :=
  put_branches (delete (branchMappingKey principalID logicalBranch storageID) (branches d)) d.
Definition mapping_before (x y : SessionBranchMapping) : bool :=
  if bool_decide (bm_PrincipalID x ≠ bm_PrincipalID y) then str_lt (bm_PrincipalID x) (bm_PrincipalID y)
  else if bool_decide (bm_LogicalBranch x ≠ bm_LogicalBranch y) then str_lt (bm_LogicalBranch x) (bm_LogicalBranch y)
  else str_lt (bm_StorageID x) (bm_StorageID y).
Definition ListBranchMappings `{GoSort} (d : OverlayDB) : result overlay_error (list SessionBranchMapping) :=
  let! l := rmap (λ kv, match kv.2 with BranchDoc m => Ok m | BranchName _ => Err UnmarshalMapping end)
    (filter (λ kv, kv.1 ≠ currentLogicalBranchKey) (entries_of (branches d))) in
  Ok (sort_slice mapping_before l).

Definition PutSessionConflict (now : Z) (c : SessionConflict) (d : OverlayDB) : result overlay_error OverlayDB :=
  let path := TrimSpace (sc_Path c) in
  if bool_decide (path = "") then Err ConflictPathRequired
  else Ok (mkOverlay (files d) (deleted d) (userdirs d) (staged d) (commits d) (branches d)
             (<[path := mkSessionConflict path (sc_Reason c) (sc_BaseCommit c) (sc_TheirsRef c)
                          (Some (default now (sc_CreatedAt c)))]> (conflicts d))).
Definition DeleteSessionConflict (path : string) (d : OverlayDB) : OverlayDB :=
  mkOverlay (files d) (deleted d) (userdirs d) (staged d) (commits d) (branches d) (delete path (conflicts d)).
Definition ListSessionConflicts `{GoSort} (d : OverlayDB) : list SessionConflict :=
  sort_slice (λ x y, str_lt (sc_Path x) (sc_Path y))
    ((λ '(k, c), if bool_decide (sc_Path c = "")
                 then mkSessionConflict k (sc_Reason c) (sc_BaseCommit c) (sc_TheirsRef c) (sc_CreatedAt c) else c)
       <$> entries_of (conflicts d)).
