(* ===== verification/Session.v ===== *)
(** * Write sessions

    Model of the session manager of a writable mount, internal/fuse/session.go
    and session_vcs.go, over the overlay database (Overlay.v) and the session
    directory (GoTree.v).  Methods run in a state monad: the world holds the
    manager, the directory tree, the clock, and the outcomes of the calls to
    come.  A database transaction that fails changes nothing. *)

From stdpp Require Import options.
From S2P Require Import Prelude GoStrings GoSort GoRange GoPath GoTree Overlay.

Record WriteSession := mkWriteSession { ws_ID : string; ws_CreatedAt : Z; ws_BasePath : string }.

(** [w_stat] gives what the disk reports beyond its content (permission bits,
    modification time, and the size of a directory), [w_id] the next random session id, [w_stamp] the clock as
    ["20060102-150405"] prints it, and [w_io] the outcomes of the calls to
    come, [Fine] when exhausted. *)
Record World := mkWorld {
  w_base : string; w_current : option WriteSession; w_db : option OverlayDB; w_disk : tree;
  w_now : Z; w_id : string; w_stamp : string; w_stat : string → Z * Z * Z; w_io : list io }.

Definition set_session (s : option WriteSession) (d : option OverlayDB) (w : World) : World :=
  mkWorld (w_base w) s d (w_disk w) (w_now w) (w_id w) (w_stamp w) (w_stat w) (w_io w).
Definition set_disk (t : tree) (w : World) : World :=
  mkWorld (w_base w) (w_current w) (w_db w) t (w_now w) (w_id w) (w_stamp w) (w_stat w) (w_io w).
Definition set_io (l : list io) (w : World) : World :=
  mkWorld (w_base w) (w_current w) (w_db w) (w_disk w) (w_now w) (w_id w) (w_stamp w) (w_stat w) l.

(** ** The monad *)

Definition M (A : Type) : Type := World → World * A.
Definition ret {A} (a : A) : M A := λ w, (w, a).
#[export] Instance M_bind : MBind M := λ A B f m w, let '(w', a) := m w in f a w'.

Definition act {A} (f : World → World * A) : M A := f.
Definition look : M World := λ w, (w, w).
Definition next_io : M io := λ w, match w_io w with [] => (w, Fine) | o :: os => (set_io os w, o) end.

(** A call on the disk. *)
Definition on_disk {A} (f : io → tree → tree * A) : M A :=
  o ← next_io; act (λ w, let '(t, a) := f o (w_disk w) in (set_disk t w, a)).

(** A transaction on the open database, and whether it commits. *)
Definition Update (f : OverlayDB → OverlayDB) : M bool :=
  o ← next_io;
  act (λ w, match o, w_db w with
            | Fine, Some d => (set_session (w_current w) (Some (f d)) w, true)
            | _, _ => (w, false)
            end).

Inductive session_error :=
| NoActiveSession | DbFailed | DiskFailed | UnknownChangeType (changeType : string) | BranchRequired
| Refusal (e : overlay_error).

Definition db_result (ok : bool) : result session_error unit := if ok then Ok tt else Err DbFailed.
Definition disk_result (ok : bool) : result session_error unit := if ok then Ok tt else Err DiskFailed.

(** [sm.current] and [sm.db] when neither is nil. *)
Definition active (w : World) : option (WriteSession * OverlayDB) :=
  match w_current w, w_db w with Some s, Some d => Some (s, d) | _, _ => None end.

(** A method that needs a session. *)
Definition with_session {A} (k : WriteSession → OverlayDB → M (result session_error A)) : M (result session_error A) :=
  w ← look; match active w with Some (s, d) => k s d | None => ret (Err NoActiveSession) end.

(** ** Sessions *)

Definition currentLink (w : World) : string := PathJoin (w_base w) "current".

(** [OpenOverlayDB] in a directory no database was opened in before. *)
Definition OpenOverlayDB (dir : string) : M bool :=
  made ← on_disk (λ o, MkdirAll o (PathJoin dir "overlay.db"));
  if negb made then ret false
  else o ← next_io; ret (match o with Fine => true | Broken _ => false end).

Definition StartSession : M (result session_error WriteSession) :=
  w ← look;
  match w_current w with
  | Some s => ret (Ok s)
  | None =>
      let basePath := PathJoin (PathJoin (w_base w) "sessions") (w_id w) in
      let session := mkWriteSession (w_id w) (w_now w) basePath in
      made ← on_disk (λ o, MkdirAll o basePath);
      if negb made then ret (Err DiskFailed)
      else
        opened ← OpenOverlayDB basePath;
        if negb opened then ret (Err DbFailed)
        else
          _ ← on_disk (λ o, Remove o (currentLink w));
          _ ← on_disk (λ o, Symlink o basePath (currentLink w));
          act (λ w, (set_session (Some session) (Some empty_overlay) w, Ok session))
  end.

(** The database is closed before the directory is moved, and stays closed
    when that fails. *)
Definition CommitSession : M (result session_error unit) :=
  w ← look;
  match w_current w with
  | None => ret (Err NoActiveSession)
  | Some session =>
      _ ← act (λ w, (set_session (Some session) None w, tt));
      let archiveName := w_stamp w +:+ "-" +:+ str_take 8 (ws_ID session) in
      let archivePath := PathJoin (PathJoin (w_base w) "committed") archiveName in
      moved ← on_disk (λ o, Rename o (ws_BasePath session) archivePath);
      if negb moved then ret (Err DiskFailed)
      else
        _ ← on_disk (λ o, Remove o (currentLink w));
        act (λ w, (set_session None None w, Ok tt))
  end.

Definition DiscardSession : M (result session_error unit) :=
  w ← look;
  match w_current w with
  | None => ret (Ok tt)
  | Some session =>
      _ ← act (λ w, (set_session (Some session) None w, tt));
      removed ← on_disk (λ o, RemoveAll o (ws_BasePath session));
      if negb removed then ret (Err DiskFailed)
      else
        _ ← on_disk (λ o, Remove o (currentLink w));
        act (λ w, (set_session None None w, Ok tt))
  end.

(** ** Paths *)

Record PathState := mkPathState {
  HasSession : bool; IsDeleted : bool; SymlinkTarget : option string; HasOverride : bool; IsUserRootDir : bool;
  LocalPath : string }.

Definition local_path (s : WriteSession) (monofsPath : string) : string := PathJoin (ws_BasePath s) monofsPath.

Definition GetPathState (w : World) (monofsPath : string) : PathState :=
  match active w with
  | None => mkPathState false false None false false ""
  | Some (s, d) =>
      let batch := GetPathStatBatch d monofsPath in
      mkPathState true (ps_IsDeleted batch)
        (match ps_FileEntry batch with
         | Some e => if bool_decide (fe_Type e = FileEntrySymlink) then Some (fe_SymlinkTarget e) else None
         | None => None
         end)
        (bool_decide (is_Some (ps_FileEntry batch))) (ps_IsUserRootDir batch) (local_path s monofsPath)
  end.

Definition GetLocalPath (w : World) (monofsPath : string) : result session_error string :=
  match w_current w with Some s => Ok (local_path s monofsPath) | None => Err NoActiveSession end.

Definition HasLocalOverride (w : World) (monofsPath : string) : bool := HasOverride (GetPathState w monofsPath).
Definition isUserRootDir (w : World) (name : string) : bool := IsUserRootDir (GetPathState w name).

Definition GetSymlinkTarget (w : World) (linkPath : string) : option string := SymlinkTarget (GetPathState w linkPath).

(** ** Tracking changes *)

Definition RenameChildren (oldPath newPath : string) : M (result session_error unit) :=
  w ← look;
  match active w with
  | None => ret (Ok tt)
  | Some _ => ok ← Update (RenamePrefix oldPath newPath); ret (db_result ok)
  end.

(** The seconds of a time. *)
Definition unix (ns : Z) : Z := ns / 1000000000.

(** Type, mode, size and mtime of the entry written for a changed file (420 is
    0644, 493 is 0755, 511 is 0777); with
    a negative [knownSize] they are read from the disk. *)
Definition entry_metadata (w : World) (localPath : string) (knownSize : Z) : FileEntryType * Z * Z * Z :=
  let '(bits, mtime, dirsize) := w_stat w localPath in
  if bool_decide (0 ≤ knownSize) then (FileEntryRegular, 420, knownSize, unix (w_now w))
  else match w_disk w !! localPath with
       | Some Directory => (FileEntryDir, bits, dirsize, mtime)
       | Some (File c) => (FileEntryRegular, bits, Z.of_nat (String.length c), mtime)
       | Some (Link tgt) => (FileEntryRegular, bits, Z.of_nat (String.length tgt), mtime)
       | None => (FileEntryRegular, 420, 0, unix (w_now w))
       end.

Definition trackChangeInternal (changeType : ChangeType) (monofsPath origHash : string) (knownSize : Z)
    : M (result session_error unit) :=
  with_session (λ s d,
    w ← look;
    let entry := files d !! monofsPath in
    if bool_decide (changeType ∈ [ChangeDelete; ChangeRmdir]) then
      let created := match entry with Some e => bool_decide (fe_ChangeType e ∈ [ChangeCreate; ChangeMkdir]) | None => false end in
      ok ← Update (if created then DeleteFile monofsPath else MarkDeletedWithType (w_now w) monofsPath changeType);
      ret (db_result ok)
    else if bool_decide (changeType ∈ [ChangeCreate; ChangeModify; ChangeMkdir]) then
      let effectiveType :=
        match entry with
        | Some e => if bool_decide (changeType = ChangeModify ∧ fe_ChangeType e = ChangeCreate) then ChangeCreate else changeType
        | None => changeType
        end in
      let localPath := local_path s monofsPath in
      let '(entryType, mode, size, mtime) := entry_metadata w localPath knownSize in
      ok ← Update (PutFile monofsPath (mkFileEntry entryType localPath mode size mtime "" origHash effectiveType (w_now w)));
      ret (db_result ok)
    else if bool_decide (changeType = ChangeSymlink) then ret (Ok tt)
    else if bool_decide (changeType = ChangeUserRootDir) then ok ← Update (PutUserDir (w_now w) monofsPath); ret (db_result ok)
    else if bool_decide (changeType = ChangeRemoveUserRootDir) then ok ← Update (RemoveUserDir monofsPath); ret (db_result ok)
    else ret (Err (UnknownChangeType changeType))).
Definition TrackChange (changeType : ChangeType) (monofsPath origHash : string) : M (result session_error unit) :=
  trackChangeInternal changeType monofsPath origHash (-1).

Definition isVisibleChangeType (changeType : ChangeType) : bool :=
  bool_decide (TrimSpace changeType ≠ "" ∧ changeType ≠ ChangeBaseline).

Record Change := mkChange {
  ch_Type : ChangeType; ch_Path : string; ch_LocalPath : string; ch_OrigHash : string; ch_SymlinkTarget : string; ch_Timestamp : Z }.

Definition GetChanges `{GoSort, GoRange} (w : World) : list Change :=
  match active w with
  | None => []
  | Some (_, d) =>
      ((λ '(path, e), mkChange (fe_ChangeType e) path (fe_LocalPath e) (fe_OrigHash e) (fe_SymlinkTarget e) (fe_Timestamp e))
         <$> filter (λ '(_, e), isVisibleChangeType (fe_ChangeType e) = true) (range 0 (files d))) ++
      ((λ e, mkChange (de_ChangeType e) (de_Path e) "" "" "" (default (w_now w) (de_DeletedAt e)))
         <$> filter (λ e, isVisibleChangeType (de_ChangeType e) = true) (GetAllDeletedEntries d))
  end.

(** ** Directories at the root, symbolic links *)

Definition CreateUserRootDir (name : string) : M (result session_error unit) :=
  with_session (λ s d,
    w ← look;
    let localPath := local_path s name in
    made ← on_disk (λ o, MkdirAll o localPath);
    if negb made then ret (Err DiskFailed)
    else
      ok ← Update (PutUserDir (w_now w) name);
      if negb ok then ret (Err DbFailed)
      else
        ok ← Update (PutFile name (mkFileEntry FileEntryDir localPath 493 0 (unix (w_now w)) "" "" ChangeUserRootDir (w_now w)));
        ret (db_result ok)).

Definition RemoveUserRootDir (name : string) : M (result session_error unit) :=
  with_session (λ s d,
    removed ← on_disk (λ o, RemoveAll o (local_path s name));
    if negb removed then ret (Err DiskFailed)
    else
      ok ← Update (RemoveUserDir name);
      if negb ok then ret (Err DbFailed) else _ ← Update (DeleteFile name); ret (Ok tt)).

Definition CreateSymlink (linkPath target : string) : M (result session_error unit) :=
  with_session (λ s d,
    w ← look;
    let localPath := local_path s linkPath in
    made ← on_disk (λ o, MkdirAll o (Dir localPath));
    if negb made then ret (Err DiskFailed)
    else
      linked ← on_disk (λ o, Symlink o target localPath);
      if negb linked then ret (Err DiskFailed)
      else
        ok ← Update (PutFile linkPath (mkFileEntry FileEntrySymlink localPath 511 (Z.of_nat (String.length target)) 0 target "" ChangeSymlink (w_now w)));
        ret (db_result ok)).

(** ** Dependencies *)

Abbreviation depPrefix := "dependency/" (only parsing).
Definition below_dep (p : string) : bool := bool_decide (String.length depPrefix < String.length p)%nat && HasPrefix p depPrefix.
Definition isDep (p : string) : bool := bool_decide (p = "dependency") || below_dep p.

Definition GetAllBlobFiles (w : World) : gmap string FileEntry :=
  match active w with Some (_, d) => filter (λ '(p, _), below_dep p = true) (files d) | None => ∅ end.

Definition GetDeletedBlobPaths (w : World) : list string :=
  match active w with
  | Some (_, d) => (λ p, str_drop (String.length depPrefix) p) <$> filter (λ p, below_dep p = true) (entries_of (deleted d)).*1
  | None => []
  end.

(** Each removal is a transaction of its own; one that fails is counted all
    the same. *)
Fixpoint update_all (fs : list (OverlayDB → OverlayDB)) : M unit :=
  match fs with [] => ret tt | f :: fs => _ ← Update f; update_all fs end.
Definition RemoveBlobChanges `{GoRange} : M nat :=
  w ← look;
  match active w with
  | None => ret O
  | Some (_, d) =>
      let fs := filter (λ p, isDep p = true) (range 1 (files d)).*1 in
      let ds := filter (λ p, isDep p = true) (entries_of (deleted d)).*1 in
      _ ← update_all ((DeleteFile <$> fs) ++ (UnmarkDeleted <$> ds));
      _ ← Update (RemoveUserDir "dependency");
      ret (length fs + length ds)%nat
  end.

(** ** Conflicts, the index, branches *)

(** A database method behind the session guard. *)
Definition guarded_update (f : OverlayDB → result overlay_error OverlayDB) : M (result session_error unit) :=
  with_session (λ _ d,
    match f d with
    | Err e => ret (Err (Refusal e))
    | Ok d' => ok ← Update (λ _, d'); ret (db_result ok)
    end).
Definition sm_PutSessionConflict (c : SessionConflict) : M (result session_error unit) :=
  w ← look; guarded_update (PutSessionConflict (w_now w) c).
Definition sm_ClearSessionConflict (path : string) : M (result session_error unit) :=
  guarded_update (λ d, Ok (DeleteSessionConflict path d)).
Definition sm_DeleteStagedEntry (path : string) : M (result session_error unit) :=
  guarded_update (λ d, Ok (DeleteStagedEntry path d)).

(** Deletes until a transaction fails; how many succeeded, and whether all
    did. *)
Fixpoint delete_each (fs : list (OverlayDB → OverlayDB)) : M (nat * bool) :=
  match fs with
  | [] => ret (O, true)
  | f :: fs =>
      ok ← Update f;
      if negb ok then ret (O, false) else '(n, all) ← delete_each fs; ret (S n, all)
  end.
Definition DeleteLogicalBranch `{GoSort} (branch : string) : M (nat * nat * result session_error unit) :=
  if bool_decide (branch = "") then ret (O, O, Err BranchRequired)
  else
    w ← look;
    match active w with
    | None => ret (O, O, Err NoActiveSession)
    | Some (_, d) =>
        let mine := filter (λ c, lc_LogicalBranch c = branch ∧ lc_Pushed c = false) (ListLocalVirtualCommits d) in
        '(deletedCommits, ok) ← delete_each ((λ c, DeleteLocalVirtualCommit (lc_ID c)) <$> mine);
        if negb ok then ret (deletedCommits, O, Err DbFailed)
        else
          match ListBranchMappings d with
          | Err e => ret (deletedCommits, O, Err (Refusal e))
          | Ok ms =>
              '(deletedMappings, ok) ← delete_each ((λ m, DeleteBranchMapping (bm_PrincipalID m) (bm_LogicalBranch m) (bm_StorageID m))
                                                      <$> filter (λ m, bm_LogicalBranch m = branch) ms);
              if negb ok then ret (deletedCommits, deletedMappings, Err DbFailed)
              else
                _ ← (if bool_decide (GetCurrentLogicalBranch d = Some branch)
                     then _ ← Update (SetCurrentLogicalBranch ""); ret tt else ret tt);
                ret (deletedCommits, deletedMappings, Ok tt)
          end
    end.
