(* ===== verification/Mount.v ===== *)
(** * A writable mount

    Model of the FUSE operations of internal/fuse that read or change a
    session: op_create.go, op_unlink.go, op_mkdir.go, op_rmdir.go,
    op_rename.go, op_symlink.go, op_setattr.go, the write side of op_open.go
    and file_handle.go, the overlay part of op_lookup.go, overlay.go, and the
    path rules of workspace.go.

    [backend] is what the cluster serves: the node at a path, and [read] the
    answer of a read request, [None] for any error. *)

From stdpp Require Import options.
From S2P Require Import Prelude GoStrings GoSort GoPath GoHash GoTree Overlay Session.

(** ** Reserved paths *)

Inductive WorkspaceExclusionReason := WorkspaceExcludedSystemNamespace | WorkspaceExcludedNestedGit | WorkspaceExcludedFilter.

Abbreviation hiddenWorkspaceRoots := ["doctor"; "guardian"; "guardian-system"] (only parsing).
Abbreviation excludedWorkspaceRoots := ["dependency"; "doctor"; "guardian"; "guardian-system"] (only parsing).

(** Whether a path is excluded, and why. *)
Definition workspacePathExclusion (path : string) (roots : list string) : option WorkspaceExclusionReason :=
  let trimmed := Trim path slash in
  if bool_decide (trimmed = "" ∨ trimmed = ".git" ∨ trimmed = ".monofs") || HasPrefix trimmed ".monofs/" then None
  else
    let parts := Split trimmed slash in
    if existsb (λ r, bool_decide (head parts = Some r)) roots then Some WorkspaceExcludedSystemNamespace
    else if bool_decide (".git" ∈ parts) then Some WorkspaceExcludedNestedGit
    else None.

Definition isWorkspaceSystemPath (path : string) : bool :=
  let trimmed := Trim path slash in bool_decide (trimmed = ".monofs/system") || HasPrefix trimmed ".monofs/system/".
Definition isWorkspaceReadOnlyPath (path : string) : bool :=
  let trimmed := Trim path slash in
  bool_decide (trimmed = ".monofs" ∨ trimmed = ".monofs/workspace.json") || isWorkspaceSystemPath trimmed.

(** The manifest: whether a repository filter is set, and the repositories
    last listed with their inclusion. *)
Record WorkspaceManifest := mkManifest { wm_filtered : bool; wm_entries : list (string * bool) }.

Definition pathUnderFilteredRepo (m : WorkspaceManifest) (path : string) : bool :=
  let trimmed := Trim path slash in
  wm_filtered m && bool_decide (trimmed ≠ "") &&
  existsb (λ '(displayPath, included),
    let dp := Trim displayPath slash in
    bool_decide (dp ≠ "") && negb included && (bool_decide (trimmed = dp) || HasPrefix trimmed (dp +:+ "/"))) (wm_entries m).
Definition ShouldHidePath (m : WorkspaceManifest) (path : string) : bool :=
  bool_decide (is_Some (workspacePathExclusion path hiddenWorkspaceRoots)) || pathUnderFilteredRepo m path.
Definition ShouldReserveRoot (m : WorkspaceManifest) (name : string) : bool :=
  bool_decide (name = ".monofs") || bool_decide (is_Some (workspacePathExclusion name hiddenWorkspaceRoots)).

(** ** Nodes *)

(** A node of the mount; [n_session] tells whether the mount is writable, and
    [n_workspace] is the manifest of a virtual monorepo. *)
Record MonoNode := mkNode {
  n_path : string; n_session : bool; n_workspace : option WorkspaceManifest;
  n_mode : Z; n_size : Z; n_isLocalWrite : bool }.

Inductive Errno := Success | ENOENT | EROFS | EPERM | EIO.
#[export] Instance Errno_eq_dec : EqDecision Errno.
Proof. solve_decision. Defined.

Definition shouldHideWorkspacePath (n : MonoNode) (path : string) : bool :=
  match n_workspace n with Some m => ShouldHidePath m path | None => false end.
Definition shouldReserveWorkspaceRoot (n : MonoNode) (name : string) : bool :=
  match n_workspace n with Some m => bool_decide (name = ".git") || ShouldReserveRoot m name | None => false end.

(** A handler ends with this error number. *)
Abbreviation fails e := (ret e) (only parsing).

Definition splitPath (path : string) : list string := if bool_decide (path = "") then [] else Split path slash.

(** Below a directory the user made at the root of the mount. *)
Definition under_user_dir (w : World) (path : string) : bool :=
  match splitPath path with first :: _ :: _ => isUserRootDir w first | _ => false end.

(** ** Looking up *)

(** Where a name leads: nowhere, a directory made at the root, the virtual
    query results, a link, the session directory, or the cluster. *)
Inductive source := Absent | UserRoot | Virtual | LinkTo (target : string) | Local (path : string) | Backend.

Definition is_results_file (parts : list string) : bool :=
  match parts with
  | [a; b; c; _; e] => bool_decide (a = "doctor" ∧ b = "v1" ∧ c = "query" ∧ e = "results.json")
  | _ => false
  end.

(** What the session says of a path. *)
Definition overlay_source (w : World) (path : string) : source :=
  let state := GetPathState w path in
  if bool_decide (length (splitPath path) = 1%nat) && IsUserRootDir state then UserRoot
  else if IsDeleted state then Absent
  else match SymlinkTarget state with
       | Some target => LinkTo target
       | None =>
           if HasOverride state || under_user_dir w path
           then match GetLocalPath w path with Ok lp => Local lp | Err _ => Absent end
           else Backend
       end.

Definition child_path (n : MonoNode) (name : string) : string :=
  if bool_decide (n_path n = "") then name else n_path n +:+ "/" +:+ name.

Definition Lookup (w : World) (n : MonoNode) (name : string) : source :=
  let childPath := child_path n name in
  if shouldHideWorkspacePath n childPath then Absent
  else if n_session n && negb (isWorkspaceSystemPath (n_path n)) then
    if is_results_file (splitPath childPath) then Virtual else overlay_source w childPath
  else Backend.

(** What is found there; in the session directory, what [Lstat] finds. *)
Definition node_at (backend : string → option node) (w : World) (path : string) (s : source) : option node :=
  match s with
  | Absent => None
  | UserRoot => Some Directory
  | Virtual => Some (File "")
  | LinkTo target => Some (Link target)
  | Local lp => w_disk w !! lp
  | Backend => backend path
  end.

(** ** Local copies *)

Definition ensureLocalCopyFor (read : string → option string) (monofsPath : string) : M (result session_error unit) :=
  started ← StartSession;
  match started with
  | Err e => ret (Err e)
  | Ok s =>
      let localPath := local_path s monofsPath in
      w ← look;
      if Stat (w_disk w) localPath then ret (Ok tt)
      else
        made ← on_disk (λ o, MkdirAll o (Dir localPath));
        if negb made then ret (Err DiskFailed)
        else
          let content := if under_user_dir w monofsPath then "" else default "" (read monofsPath) in
          wrote ← on_disk (λ o, WriteFile o localPath content);
          ret (disk_result wrote)
  end.

(** ** Changing the tree *)

(** The guards shared by the handlers that change an entry of a directory
    below the root. *)
Definition read_only (n : MonoNode) : bool := negb (n_session n) || isWorkspaceReadOnlyPath (n_path n).

Definition Create (n : MonoNode) (name : string) : M Errno :=
  if read_only n || bool_decide (n_path n = "") then fails EROFS
  else
    started ← StartSession;
    match started with
    | Err _ => fails EIO
    | Ok s =>
        let newPath := n_path n +:+ "/" +:+ name in
        if isWorkspaceReadOnlyPath newPath then fails EROFS
        else if shouldHideWorkspacePath n newPath then fails EPERM
        else
          let localPath := local_path s newPath in
          made ← on_disk (λ o, MkdirAll o (Dir localPath));
          if negb made then fails EIO
          else
            opened ← on_disk (λ o, WriteFile o localPath "");
            if negb opened then fails EIO
            else _ ← TrackChange ChangeCreate newPath ""; fails Success
    end.

Definition Unlink (n : MonoNode) (name : string) : M Errno :=
  if read_only n || bool_decide (n_path n = "") then fails EROFS
  else
    started ← StartSession;
    match started with
    | Err _ => fails EIO
    | Ok s =>
        let targetPath := n_path n +:+ "/" +:+ name in
        if isWorkspaceReadOnlyPath targetPath then fails EROFS
        else
          w ← look;
          removed ← (if HasLocalOverride w targetPath
                     then on_disk (λ o, Remove o (local_path s targetPath)) else ret Removed);
          match removed with
          | Refused => fails EIO
          | _ => _ ← TrackChange ChangeDelete targetPath ""; fails Success
          end
    end.

Definition Mkdir (n : MonoNode) (name : string) : M Errno :=
  if read_only n then fails EROFS
  else
    started ← StartSession;
    match started with
    | Err _ => fails EIO
    | Ok s =>
        if bool_decide (n_path n = "") then
          if shouldReserveWorkspaceRoot n name then fails EPERM
          else made ← CreateUserRootDir name; fails (if is_ok made then Success else EIO)
        else
          let newPath := n_path n +:+ "/" +:+ name in
          if isWorkspaceReadOnlyPath newPath then fails EROFS
          else if shouldHideWorkspacePath n newPath then fails EPERM
          else
            made ← on_disk (λ o, MkdirAll o (local_path s newPath));
            if negb made then fails EIO
            else _ ← TrackChange ChangeMkdir newPath ""; fails Success
    end.

Definition Rmdir (n : MonoNode) (name : string) : M Errno :=
  if read_only n then fails EROFS
  else
    started ← StartSession;
    match started with
    | Err _ => fails EIO
    | Ok s =>
        w ← look;
        if bool_decide (n_path n = "") then
          if negb (isUserRootDir w name) then fails EROFS
          else removed ← RemoveUserRootDir name; fails (if is_ok removed then Success else EIO)
        else
          let targetPath := n_path n +:+ "/" +:+ name in
          if isWorkspaceReadOnlyPath targetPath then fails EROFS
          else
            removed ← (if HasLocalOverride w targetPath
                       then on_disk (λ o, RemoveAll o (local_path s targetPath)) else ret true);
            if negb removed then fails EIO
            else _ ← TrackChange ChangeRmdir targetPath ""; fails Success
    end.

(** [newParentPath] is the path of the new parent node. *)
Definition Rename (read : string → option string) (n : MonoNode) (name newParentPath newName : string) : M Errno :=
  if read_only n || bool_decide (n_path n = "") || bool_decide (newParentPath = "") then fails EROFS
  else
    started ← StartSession;
    match started with
    | Err _ => fails EIO
    | Ok s =>
        let oldPath := n_path n +:+ "/" +:+ name in
        let newPath := newParentPath +:+ "/" +:+ newName in
        if isWorkspaceReadOnlyPath oldPath || isWorkspaceReadOnlyPath newPath then fails EROFS
        else if shouldHideWorkspacePath n newPath then fails EPERM
        else
          copied ← ensureLocalCopyFor read oldPath;
          if negb (is_ok copied) then fails EIO
          else
            made ← on_disk (λ o, MkdirAll o (Dir (local_path s newPath)));
            if negb made then fails EIO
            else
              renamed ← on_disk (λ o, GoTree.Rename o (local_path s oldPath) (local_path s newPath));
              if negb renamed then fails EIO
              else
                _ ← RenameChildren oldPath newPath;
                _ ← TrackChange ChangeDelete oldPath "";
                _ ← TrackChange ChangeCreate newPath "";
                fails Success
    end.

Definition Symlink (n : MonoNode) (target name : string) : M Errno :=
  if read_only n || bool_decide (n_path n = "") then fails EROFS
  else
    started ← StartSession;
    match started with
    | Err _ => fails EIO
    | Ok s =>
        let newPath := n_path n +:+ "/" +:+ name in
        if isWorkspaceReadOnlyPath newPath then fails EROFS
        else if shouldHideWorkspacePath n newPath then fails EPERM
        else made ← CreateSymlink newPath target; fails (if is_ok made then Success else EIO)
    end.

(** ** Writing *)

Definition set_node (mode size : Z) (dirty : bool) (n : MonoNode) : MonoNode :=
  mkNode (n_path n) (n_session n) (n_workspace n) mode size dirty.

(** The handle of an open file: the file at the local path, and whether it was
    opened with [O_APPEND]. *)
Record FileHandle := mkHandle { fh_append : bool }.

(** [Open] with a flag that makes it a write. *)
Definition OpenWrite (read : string → option string) (n : MonoNode) (trunc append : bool) : M (MonoNode * option FileHandle * Errno) :=
  if isWorkspaceReadOnlyPath (n_path n) || negb (n_session n) then ret (n, None, EROFS)
  else
    copied ← ensureLocalCopyFor read (n_path n);
    if negb (is_ok copied) then ret (n, None, EIO)
    else
      w ← look;
      match GetLocalPath w (n_path n) with
      | Err _ => ret (n, None, EIO)
      | Ok localPath =>
          opened ← on_disk (λ o, Modify o localPath (λ c, if trunc then "" else c));
          ret (if negb opened then (n, None, EIO)
               else (set_node (n_mode n) (n_size n) true n, Some (mkHandle append), Success))
      end.

(** [Write] through the handle; [os.File.WriteAt] refuses a file opened for
    appending. *)
Definition HandleWrite (n : MonoNode) (h : FileHandle) (off : nat) (data : string) : M (MonoNode * Errno) :=
  if fh_append h then ret (n, EIO)
  else
    w ← look;
    match GetLocalPath w (n_path n) with
    | Err _ => ret (n, EIO)
    | Ok localPath =>
        wrote ← on_disk (λ o, Modify o localPath (write_at off data));
        ret (if negb wrote then (n, EIO)
             else (set_node (n_mode n) (Z.max (n_size n) (Z.of_nat (off + String.length data))) true n, Success))
    end.

(** A change that could not be tracked stays marked. *)
Definition Flush (n : MonoNode) : M (MonoNode * Errno) :=
  if n_session n && n_isLocalWrite n then
    tracked ← trackChangeInternal ChangeModify (n_path n) "" (n_size n);
    ret (set_node (n_mode n) (n_size n) (negb (is_ok tracked)) n, Success)
  else ret (n, Success).

(** [size] and [mode] are the attributes to set. *)
Definition Setattr (read : string → option string) (n : MonoNode) (size : option nat) (mode : option Z) : M (MonoNode * Errno) :=
  if read_only n then ret (n, EROFS)
  else
    started ← StartSession;
    match started with
    | Err _ => ret (n, EIO)
    | Ok s =>
        let localPath := local_path s (n_path n) in
        ready ← (match size, mode with
                 | None, None => ret true
                 | Some O, _ =>
                     made ← on_disk (λ o, MkdirAll o (Dir localPath));
                     if negb made then ret false else on_disk (λ o, WriteFile o localPath "")
                 | _, _ => copied ← ensureLocalCopyFor read (n_path n); ret (is_ok copied)
                 end);
        if negb ready then ret (n, EIO)
        else
          truncated ← (match size with
                       | Some (S k) => on_disk (λ o, Modify o localPath (resize (S k)))
                       | _ => ret true
                       end);
          if negb truncated then ret (n, EIO)
          else
            let n := match size with Some k => set_node (n_mode n) (Z.of_nat k) true n | None => n end in
            chmodded ← (match mode with
                        | Some _ => o ← next_io; w ← look;
                            ret (match o with Fine => Stat (w_disk w) localPath | Broken _ => false end)
                        | None => ret true
                        end);
            if negb chmodded then ret (n, EIO)
            else
              let n := match mode with Some m => set_node m (n_size n) (n_isLocalWrite n) n | None => n end in
              _ ← (match size, mode with
                   | None, None => ret (Ok tt)
                   | _, _ => trackChangeInternal ChangeModify (n_path n) "" (n_size n)
                   end);
              ret (n, Success)
    end.

(** ** Listing *)

Abbreviation S_IFDIR := 16384 (only parsing).
Abbreviation S_IFREG := 32768 (only parsing).
Abbreviation S_IFLNK := 40960 (only parsing).

Record DirEntry := mkDirEntry { d_Name : string; d_Mode : Z; d_Ino : Z }.

Definition hashPathForNode (path : string) : Z := fnv1a (bytes_of_string path).

Definition full_path (dirPath name : string) : string :=
  if bool_decide (dirPath = "") then name else dirPath +:+ "/" +:+ name.

(** The entries of a directory of the session. *)
Definition disk_entries (t : tree) (dir dirPath : string) : list DirEntry :=
  (λ '(name, n), mkDirEntry name
     (match n with Directory => Z.lor 493 S_IFDIR | Link _ => Z.lor 511 S_IFLNK | File _ => Z.lor 420 S_IFREG end)
     (hashPathForNode (full_path dirPath name)))
  <$> filter (λ '(name, _), name ≠ "overlay.db") (direct_children dir t).

Definition overlay_entry (dirPath name : string) (e : FileEntry) : DirEntry :=
  mkDirEntry name
    (Z.lor (Z.land (fe_Mode e) 511)
       (match fe_Type e with FileEntryDir => S_IFDIR | FileEntrySymlink => S_IFLNK | FileEntryRegular => S_IFREG end))
    (hashPathForNode (full_path dirPath name)).

Definition put_entries (es : list DirEntry) (m : gmap string DirEntry) : gmap string DirEntry :=
  foldl (λ m e, <[d_Name e := e]> m) m es.

Definition toSlice `{GoSort} (m : gmap string DirEntry) : list DirEntry :=
  sort_slice (λ x y, str_lt (d_Name x) (d_Name y)) ((map_to_list m).*2).

(** [backendEntries] is nil below a directory made at the root. *)
Definition MergeReadDir `{GoSort} (w : World) (backendEntries : option (list DirEntry)) (dirPath : string) : list DirEntry :=
  let entries := put_entries (default [] backendEntries) ∅ in
  let entries :=
    match backendEntries, GetLocalPath w dirPath with
    | None, Ok dir => if is_dir (w_disk w) dir then put_entries (disk_entries (w_disk w) dir dirPath) entries else entries
    | _, _ => entries
    end in
  match w_db w with
  | None => toSlice entries
  | Some d =>
      let entries :=
        if bool_decide (dirPath = "")
        then put_entries ((λ name, mkDirEntry name (Z.lor 493 S_IFDIR) (hashPathForNode name)) <$> (entries_of (userdirs d)).*1) entries
        else entries in
      let entries := put_entries ((λ '(name, e), overlay_entry dirPath name e) <$> ListFilesUnderDir d dirPath) entries in
      toSlice (foldl (λ m name, delete name m) entries (ListDeletedUnderDir d dirPath))
  end.
