(* ===== verification/MountProps.v ===== *)
(** * A session over the cluster's tree

    The invariant of a session and what each handler does to it when no call
    fails: the entry it names changes in what the mount shows, and nothing
    else does.  MountView.v composes the handlers to sessions and says which
    operations are covered. *)

From stdpp Require Import options.
From S2P Require Import Prelude GoStrings GoSort GoRange GoPath GoTree Overlay Session Mount.

(** ** Running without failures *)

Lemma bind_run {A B} (m : M A) (f : A → M B) w w' a : m w = (w', a) → (m ≫= f) w = f a w'.
Proof. intros E. unfold mbind, M_bind. by rewrite E. Qed.

Lemma on_disk_fine {A} (f : io → tree → tree * A) w t a :
  w_io w = [] → f Fine (w_disk w) = (t, a) → on_disk f w = (set_disk t w, a).
Proof. intros Hio E. unfold on_disk, mbind, M_bind, next_io, act. by rewrite Hio, E. Qed.

Lemma Update_fine f w d :
  w_io w = [] → w_db w = Some d → Update f w = (set_session (w_current w) (Some (f d)) w, true).
Proof. intros Hio E. unfold Update, mbind, M_bind, next_io, act. by rewrite Hio, E. Qed.

Lemma StartSession_active w s : w_current w = Some s → StartSession w = (w, Ok s).
Proof. intros E. unfold StartSession, look, mbind, M_bind. cbn. by rewrite E. Qed.

(** One call of a handler, by the lemma that runs it. *)
Tactic Notation "run" uconstr(H) := erewrite bind_run by (by apply H); cbv beta iota zeta.
Tactic Notation "run" := erewrite bind_run by done; cbv beta iota zeta.

(** The world with another database and another disk. *)
Definition with_state (d : OverlayDB) (t : tree) (w : World) : World :=
  set_disk t (set_session (w_current w) (Some d) w).

Lemma with_state_id d w : w_db w = Some d → with_state d (w_disk w) w = w.
Proof. destruct w; cbn. by intros ->. Qed.

(** ** Tracking *)

Lemma with_state_twice d1 t1 d2 t2 w : with_state d2 t2 (with_state d1 t1 w) = with_state d2 t2 w.
Proof. done. Qed.

Lemma set_disk_state d t w : w_db w = Some d → set_disk t w = with_state d t w.
Proof. destruct w; cbn. by intros ->. Qed.

Definition effective (ct : string) (entry : option FileEntry) : string :=
  match entry with
  | Some e => if bool_decide (ct = ChangeModify ∧ fe_ChangeType e = ChangeCreate) then ChangeCreate else ct
  | None => ct
  end.

Lemma track_put ct p h k w s d :
  w_io w = [] → w_current w = Some s → w_db w = Some d → ct ∈ [ChangeCreate; ChangeModify; ChangeMkdir] →
  ∃ e, trackChangeInternal ct p h k w = (with_state (PutFile p e d) (w_disk w) w, Ok tt) ∧
       fe_ChangeType e = effective ct (files d !! p) ∧ fe_LocalPath e = local_path s p ∧
       fe_Type e = (if bool_decide (0 ≤ k) then FileEntryRegular
                    else match w_disk w !! local_path s p with Some Directory => FileEntryDir | _ => FileEntryRegular end).
Proof.
  intros Hio Hcur Hdb Hct. unfold trackChangeInternal, with_session. erewrite bind_run by done.
  unfold active. rewrite Hcur, Hdb. erewrite bind_run by done.
  rewrite (bool_decide_eq_false_2 (ct ∈ [ChangeDelete; ChangeRmdir])) by set_solver.
  rewrite (bool_decide_eq_true_2 _ Hct).
  destruct (entry_metadata w (local_path s p) k) as [[[ty mode] size] mtime] eqn:E.
  eexists. split.
  - erewrite bind_run by (by apply Update_fine). done.
  - cbn. split; [done|]. split; [done|]. unfold entry_metadata in E. destruct (w_stat w (local_path s p)) as [[? ?] ?].
    case_bool_decide; [by injection E|]. destruct (w_disk w !! local_path s p) as [[]|]; by injection E.
Qed.

Lemma modify_not_new : ChangeModify ∉ [ChangeCreate; ChangeMkdir].
Proof. by apply (bool_decide_unpack _). Qed.

Definition created (entry : option FileEntry) : Prop :=
  ∃ e, entry = Some e ∧ fe_ChangeType e ∈ [ChangeCreate; ChangeMkdir].

Lemma track_drop ct p h k w s d :
  w_io w = [] → w_current w = Some s → w_db w = Some d → ct ∈ [ChangeDelete; ChangeRmdir] →
  ∃ d', trackChangeInternal ct p h k w = (with_state d' (w_disk w) w, Ok tt) ∧
        ((created (files d !! p) ∧ d' = DeleteFile p d) ∨
         (¬ created (files d !! p) ∧ d' = MarkDeletedWithType (w_now w) p ct d)).
Proof.
  intros Hio Hcur Hdb Hct. unfold trackChangeInternal, with_session. erewrite bind_run by done.
  unfold active. rewrite Hcur, Hdb. erewrite bind_run by done. rewrite (bool_decide_eq_true_2 _ Hct).
  eexists. split; [erewrite bind_run by (by apply Update_fine); done|].
  destruct (files d !! p) as [e|] eqn:E; [|right; split; [by intros (? & ? & _)|done]].
  case_bool_decide; [left; split; [by exists e|done]|right; split; [|done]]. intros (? & [= <-] & ?). done.
Qed.

(** The types of changes a session reports. *)
Definition change_type (ct : string) : Prop :=
  ct ∈ [ChangeCreate; ChangeModify; ChangeMkdir; ChangeSymlink; ChangeUserRootDir].
Definition removal_type (ct : string) : Prop := ct ∈ [ChangeDelete; ChangeRmdir].

Lemma effective_file ct entry : ct ∈ [ChangeCreate; ChangeModify] → effective ct entry ∈ [ChangeCreate; ChangeModify].
Proof. intros H. unfold effective. destruct entry; [|done]. destruct (bool_decide _); [left|done]. Qed.
Lemma effective_dir entry : effective ChangeMkdir entry = ChangeMkdir.
Proof. by destruct entry. Qed.

(** ** What the mount shows *)

Section mount.
Context (backend : string → option node) (base : string) (ud : gmap string Z).
Context (Hbase : rooted_path base).

Definition local (p : string) : string := base +:+ "/" +:+ p.

(** Paths of the mount; the database lies in the session directory, too. *)
Definition mount_path (p : string) : Prop := proper_path p ∧ p ≠ "overlay.db" ∧ below "overlay.db" p = false.

Definition user_root (p : string) : bool := bool_decide (length (splitPath p) = 1%nat ∧ is_Some (ud !! p)).
Definition in_user_root (p : string) : bool :=
  match splitPath p with first :: _ :: _ => bool_decide (is_Some (ud !! first)) | _ => false end.

Definition view (d : OverlayDB) (t : tree) (p : string) : option node :=
  if user_root p then Some Directory
  else match deleted d !! p, files d !! p with
       | Some _, _ => None
       | None, Some e => if bool_decide (fe_Type e = FileEntrySymlink) then Some (Link (fe_SymlinkTarget e)) else t !! local p
       | None, None => if in_user_root p then t !! local p else backend p
       end.

(** The kind of node an entry stands for. *)
Definition kind_of (e : FileEntry) (n : node) : Prop :=
  match fe_Type e with
  | FileEntryRegular => ∃ c, n = File c
  | FileEntryDir => n = Directory
  | FileEntrySymlink => n = Link (fe_SymlinkTarget e)
  end.

(** An entry written for a change: of the type of the change, for the local
    file of its path. *)
Definition entry_ok (p : string) (e : FileEntry) : Prop :=
  fe_LocalPath e = local p ∧
  ((fe_ChangeType e ∈ [ChangeCreate; ChangeModify] ∧ fe_Type e = FileEntryRegular) ∨
   (fe_ChangeType e = ChangeMkdir ∧ fe_Type e = FileEntryDir) ∨
   (fe_ChangeType e = ChangeSymlink ∧ fe_Type e = FileEntrySymlink) ∨
   (fe_ChangeType e = ChangeUserRootDir ∧ fe_Type e = FileEntryDir ∧ has_byte slash p = false)).

Lemma entry_ok_type p e : entry_ok p e → change_type (fe_ChangeType e).
Proof.
  unfold change_type. intros (_ & [[H _]|[[-> _]|[[-> _]|[-> _]]]]); [|by apply (bool_decide_unpack _)..].
  apply elem_of_cons in H as [->|H]; [left|]. apply list_elem_of_singleton in H as ->. right; left.
Qed.

(** The change at a path is reported. *)
Definition reported (d : OverlayDB) (p : string) : Prop :=
  (∀ e, files d !! p = Some e → entry_ok p e) ∧
  (∀ v, deleted d !! p = Some v → ∃ e, v = DeletedDoc e ∧ de_Path e = p ∧ de_ChangeType e = ChangeDelete).

Record good (R : gset string) (d : OverlayDB) (t : tree) : Prop := {
  g_ud : userdirs d = ud;
  g_disjoint p : is_Some (files d !! p) → deleted d !! p = None;
  g_local p e : mount_path p → files d !! p = Some e → ∃ n, t !! local p = Some n ∧ kind_of e n;
  g_tracked p n : mount_path p → t !! local p = Some n → n ≠ Directory ∨ in_user_root p = true → is_Some (files d !! p);
  g_dirs p : mount_path p → t !! local p = Some Directory → view d t p = Some Directory;
  g_fresh p e : files d !! p = Some e → fe_ChangeType e ∈ [ChangeCreate; ChangeMkdir] → backend p = None ∨ p ∈ R;
  g_wf : well_formed t;
  g_base : t !! base = Some Directory;
  g_user p n : mount_path p → user_root p = true → t !! local p = Some n → n = Directory;
  g_keys p : is_Some (files d !! p) ∨ is_Some (deleted d !! p) → mount_path p;
  g_parents p q : is_Some (files d !! p) → q ∈ parents p → view d t q = Some Directory;
  g_reported p : reported d p }.

Definition session_ok (R : gset string) (w : World) (s : WriteSession) (d : OverlayDB) : Prop :=
  w_io w = [] ∧ w_current w = Some s ∧ ws_BasePath s = base ∧ w_db w = Some d ∧ good R d (w_disk w).

Lemma local_inj p q : local p = local q → p = q.
Proof.
  unfold local. rewrite <- !str_app_assoc. intros E. apply (f_equal (str_drop (String.length (base +:+ "/")))) in E.
  by rewrite !str_drop_app in E.
Qed.

Lemma local_path_eq s p : ws_BasePath s = base → proper_path p → local_path s p = local p.
Proof using Hbase. intros E Hp. unfold local_path, local. rewrite E. by apply PathJoin_rooted. Qed.

Lemma mount_ne p : mount_path p → p ≠ "".
Proof. intros [? _]. by apply proper_ne. Qed.

(** The parents of a local path: the session directory with its parents, and
    the local paths of the parents. *)
Lemma proper_head p r : proper_path p → p ≠ "/" +:+ r.
Proof.
  intros (es & Hne & Hes & ->). destruct es as [|e es]; [done|]. apply Forall_cons_1 in Hes as [(He & _ & _ & Hs) _].
  destruct e as [|a e]; [done|]. cbn [has_byte] in Hs. apply orb_false_iff in Hs as [Hs _].
  destruct es as [|f es]; [|rewrite Join_cons by done; rewrite str_app_cons]; intros [= E _]; bool_hyps; congruence.
Qed.

Lemma parents_local p x : proper_path p → x ∈ parents (local p) →
  x = base ∨ x ∈ parents base ∨ ∃ q, x = local q ∧ q ∈ parents p.
Proof.
  intros Hp [Hx [r E]]%parents_spec. unfold local in *.
  destruct (cut_at_slash _ _ _ _ E) as [(u & -> & ->)|[[-> ->]|[u Eu]]].
  - right; right. exists u. split; [done|]. apply parents_spec. split; [|by exists r].
    intros ->. by apply (proper_head _ r) in Hp.
  - by left.
  - right; left. apply parents_spec. split; [done|]. by exists u.
Qed.

Lemma parents_mount p q : mount_path p → q ∈ parents p → mount_path q.
Proof.
  intros (Hp & Hne & Hb) [Hq [r ->]]%parents_spec. destruct Hp as (es & Hes & Hpr & E).
  assert (Split q slash ++ Split r slash = es) as Es.
  { rewrite <- Split_app_gen. change (str1 slash) with "/". rewrite E. by apply Split_proper. }
  split_and!.
  - exists (Split q slash). split_and!; [apply Split_ne|subst es; by apply Forall_app in Hpr as [? _]|by rewrite Join_Split].
  - intros ->. by rewrite (proj2 (below_spec _ _)) in Hb by eauto.
  - destruct (below "overlay.db" q) eqn:Eb; [|done]. apply below_spec in Eb as [u ->].
    rewrite (proj2 (below_spec _ _)) in Hb; [done|]. exists (u +:+ "/" +:+ r). by rewrite !str_app_assoc.
Qed.

(** The disk changes at [X] only, apart from new directories the mount shows
    already. *)
Definition grows (d : OverlayDB) (t t' : tree) (X : list string) : Prop :=
  ∀ x, x ∉ X → t' !! x = t !! x ∨
    (t !! x = None ∧ t' !! x = Some Directory ∧ ∀ q, mount_path q → x = local q → view d t q = Some Directory).

Lemma view_frame R d t d' t' q :
  good R d t → mount_path q → files d' !! q = files d !! q → deleted d' !! q = deleted d !! q →
  t' !! local q = t !! local q ∨ (t !! local q = None ∧ view d t q = Some Directory) →
  view d' t' q = view d t q.
Proof.
  intros G Hq Ef Ed Ht. unfold view. rewrite Ef, Ed. destruct (user_root q) eqn:Eu; [done|].
  destruct (deleted d !! q) eqn:Eq; [done|]. destruct Ht as [->|[Hn Hv]]; [done|].
  unfold view in Hv. rewrite Eu, Eq, Hn in Hv. destruct (files d !! q) as [e|] eqn:Ee.
  - destruct (g_local _ _ _ G q e Hq Ee) as (n & Hn' & _). congruence.
  - by destruct (in_user_root q).
Qed.

Lemma base_not_local p : base ≠ local p.
Proof. unfold local. intros E. apply (f_equal String.length) in E. rewrite !str_length_app in E. simpl in E. lia. Qed.

(** The session changes at [p] only. *)
Definition changes_at (p : string) (d d' : OverlayDB) : Prop :=
  userdirs d' = userdirs d ∧ ∀ q, q ≠ p → files d' !! q = files d !! q ∧ deleted d' !! q = deleted d !! q.

(** On the paths of the mount the disk changes at [p] only, apart from new
    directories the mount shows already. *)
Definition agrees (p : string) (d : OverlayDB) (t t' : tree) : Prop :=
  t' !! base = Some Directory ∧
  ∀ q, mount_path q → q ≠ p → t' !! local q = t !! local q ∨
    (t !! local q = None ∧ t' !! local q = Some Directory ∧ view d t q = Some Directory).

Lemma grows_agrees R d t t' p : good R d t → grows d t t' [local p] → agrees p d t t'.
Proof.
  intros G Hg. split.
  - destruct (Hg base) as [->|(Hn & _)]; [|apply (g_base _ _ _ G)|by rewrite (g_base _ _ _ G) in Hn].
    intros Hin%list_elem_of_singleton. by apply base_not_local in Hin.
  - intros q Hq Hne. destruct (Hg (local q)) as [?|(? & ? & ?)]; [|by left|right; by auto].
    intros Hin%list_elem_of_singleton. by apply local_inj in Hin.
Qed.

(** Below a directory of the user the mount shows what is on the disk. *)
Lemma in_home R d t q :
  good R d t → mount_path q → in_user_root q = true → view d t q = Some Directory → is_Some (t !! local q).
Proof.
  intros G Hq Hu. unfold view. replace (user_root q) with false.
  2:{ unfold in_user_root in Hu. unfold user_root. symmetry. apply bool_decide_eq_false. intros [Hl _].
      destruct (splitPath q) as [|? [|? ?]]; done. }
  destruct (deleted d !! q); [done|]. destruct (files d !! q) as [e|] eqn:E.
  - destruct (g_local _ _ _ G q e Hq E) as (n & -> & _). by eexists.
  - rewrite Hu. intros ->. by eexists.
Qed.

Lemma good_change R R' d t d' t' p :
  R ⊆ R' → good R d t → mount_path p → (∀ q, q ∈ parents p → view d t q = Some Directory) →
  (∀ r, is_Some (files d !! r) → p ∉ parents r) → changes_at p d d' → agrees p d t t' → well_formed t' →
  (is_Some (files d' !! p) → deleted d' !! p = None) →
  (∀ e, files d' !! p = Some e → (∃ n, t' !! local p = Some n ∧ kind_of e n) ∧
                                 (fe_ChangeType e ∈ [ChangeCreate; ChangeMkdir] → backend p = None ∨ p ∈ R')) →
  (∀ n, t' !! local p = Some n → n ≠ Directory ∨ in_user_root p = true → is_Some (files d' !! p)) →
  (t' !! local p = Some Directory → view d' t' p = Some Directory) → user_root p = false → reported d' p →
  good R' d' t' ∧ ∀ q, mount_path q → q ≠ p → view d' t' q = view d t q.
Proof.
  intros HR G Hp Hpar Hnd [Eud Hoff] [Hbd Hg] Hwf Hdis Hloc Htr Hdirs Hup Hrep.
  assert (∀ q, mount_path q → q ≠ p → view d' t' q = view d t q) as Hframe.
  { intros q Hq Hne. destruct (Hoff q Hne). eapply view_frame; [done..|].
    destruct (Hg q Hq Hne) as [?|(? & _ & ?)]; auto. }
  split; [|done]. constructor.
  - by rewrite Eud, (g_ud _ _ _ G).
  - intros q Hq. destruct (decide (q = p)) as [->|Hne]; [by auto|]. destruct (Hoff q Hne) as [Ef Ed].
    rewrite Ed. rewrite Ef in Hq. by apply (g_disjoint _ _ _ G).
  - intros q e Hq. destruct (decide (q = p)) as [->|Hne]; [intros He; by destruct (Hloc e He)|].
    destruct (Hoff q Hne) as [-> _]. intros He. destruct (g_local _ _ _ G q e Hq He) as (m & Hm & Hkm).
    exists m. split; [|done]. destruct (Hg q Hq Hne) as [->|(Hn & _)]; [done|congruence].
  - intros q m Hq. destruct (decide (q = p)) as [->|Hne]; [by apply Htr|]. destruct (Hoff q Hne) as [-> _].
    intros Hm Hmd. destruct (Hg q Hq Hne) as [E|(E0 & E & Hv)]; [rewrite E in Hm; by eapply (g_tracked _ _ _ G)|].
    destruct Hmd as [?|Hu]; [congruence|]. destruct (in_home _ _ _ _ G Hq Hu Hv). congruence.
  - intros q Hq Hm. destruct (decide (q = p)) as [->|Hne]; [by auto|]. rewrite Hframe by done.
    destruct (Hg q Hq Hne) as [E|(_ & _ & Hv)]; [|done]. rewrite E in Hm. by apply (g_dirs _ _ _ G).
  - intros q e He. destruct (decide (q = p)) as [->|Hne]; [by apply Hloc|]. destruct (Hoff q Hne) as [Ef _].
    rewrite Ef in He. intros Hct. destruct (g_fresh _ _ _ G q e He Hct) as [?|Hq]; [by left|right; by apply HR].
  - done.
  - done.
  - intros q m Hq Hu Hm. destruct (decide (q = p)) as [->|Hne]; [congruence|].
    destruct (Hg q Hq Hne) as [E|(_ & E & _)]; [rewrite E in Hm; by eapply (g_user _ _ _ G)|congruence].
  - intros q Hq. destruct (decide (q = p)) as [->|Hne]; [done|]. destruct (Hoff q Hne) as [Ef Ed].
    rewrite Ef, Ed in Hq. by apply (g_keys _ _ _ G).
  - intros q r Hq Hr. destruct (decide (q = p)) as [->|Hne].
    { rewrite Hframe; [by apply Hpar|by eapply parents_mount|intros ->; by apply parents_irrefl in Hr]. }
    destruct (Hoff q Hne) as [Ef Ed]. rewrite Ef in Hq.
    rewrite Hframe; [by eapply (g_parents _ _ _ G)| |intros ->; by apply (Hnd q)].
    eapply parents_mount; [|done]. apply (g_keys _ _ _ G). by left.
  - intros q. destruct (decide (q = p)) as [->|Hne]; [done|]. destruct (Hoff q Hne) as [Ef Ed].
    unfold reported. rewrite Ef, Ed. apply (g_reported _ _ _ G).
Qed.

(** A path of the session gets an entry. *)
Lemma good_put R R' d t t' p e n :
  R ⊆ R' → good R d t → mount_path p → user_root p = false → (∀ q, q ∈ parents p → view d t q = Some Directory) →
  view d t p ≠ Some Directory → (fe_ChangeType e ∈ [ChangeCreate; ChangeMkdir] → backend p = None ∨ p ∈ R') →
  kind_of e n → entry_ok p e →
  t' !! local p = Some n → grows d t t' [local p] → well_formed t' →
  good R' (PutFile p e d) t' ∧ view (PutFile p e d) t' p = Some n ∧
  ∀ q, mount_path q → q ≠ p → view (PutFile p e d) t' q = view d t q.
Proof.
  intros HR G Hp Hu Hpar Hnd Hfresh Hk Hvis Ht Hg Hwf.
  assert (view (PutFile p e d) t' p = Some n) as Hvp.
  { unfold view. rewrite Hu. cbn. rewrite lookup_delete_eq, lookup_insert_eq. unfold kind_of in Hk.
    case_bool_decide as E; [|done]. rewrite E in Hk. by subst. }
  edestruct (good_change R R' d t (PutFile p e d) t' p) as [G' Hf]; [done|done|done|done| | |by eapply grows_agrees|done| | | | |done| |split_and!; done].
  - intros r Hr Hin. by apply Hnd, (g_parents _ _ _ G r p).
  - split; [done|]. intros q Hq. cbn. by rewrite lookup_insert_ne, lookup_delete_ne.
  - intros _. cbn. by rewrite lookup_delete_eq.
  - intros e'. cbn. rewrite lookup_insert_eq. intros [= <-]. eauto.
  - intros m _ _. cbn. rewrite lookup_insert_eq. by eexists.
  - intros Hd. rewrite Hvp, <- Hd. done.
  - split; cbn; intros ?; rewrite ?lookup_insert_eq, ?lookup_delete_eq; congruence.
Qed.

(** A path of the session loses its entry. *)
Lemma good_drop R R' d t t' p d' :
  R ⊆ R' → good R d t → mount_path p → user_root p = false → (∀ q, q ∈ parents p → view d t q = Some Directory) →
  (∀ r, is_Some (files d !! r) → p ∉ parents r) → t' !! local p = None → agrees p d t t' → well_formed t' →
  (d' = DeleteFile p d ∧ backend p = None ∧ is_Some (files d !! p)) ∨
  (∃ now, d' = MarkDeletedWithType now p ChangeDelete d) →
  good R' d' t' ∧ view d' t' p = None ∧ ∀ q, mount_path q → q ≠ p → view d' t' q = view d t q.
Proof.
  intros HR G Hp Hu Hpar Hnd Ht Hg Hwf Hd'.
  assert (files d' !! p = None) as Hf by (destruct Hd' as [[-> _]|(? & ->)]; cbn; apply lookup_delete_eq).
  assert (view d' t' p = None) as Hv.
  { unfold view. rewrite Hu, Hf. destruct Hd' as [(-> & Hb & He)|(? & ->)]; cbn; [|by rewrite lookup_insert_eq].
    rewrite (g_disjoint _ _ _ G) by done. rewrite Ht, Hb. by destruct (in_user_root p). }
  edestruct (good_change R R' d t d' t' p) as [G' Hfr]; [done|done|done|done|done| |done|done| | | | |done| |split_and!; done].
  - destruct Hd' as [[-> _]|(? & ->)]; (split; [done|]); intros q Hq; cbn;
      by rewrite ?lookup_delete_ne, ?lookup_insert_ne.
  - rewrite Hf. by intros [? ?].
  - rewrite Hf. done.
  - rewrite Ht. done.
  - rewrite Ht. done.
  - split; [by rewrite Hf|]. destruct Hd' as [[-> _]|(? & ->)]; cbn; intros v; [apply (g_reported _ _ _ G)|].
    rewrite lookup_insert_eq. intros [= <-]. eauto.
Qed.

(** ** The session directory *)

Definition shown_dirs (d : OverlayDB) (t : tree) (p : string) : Prop := ∀ q, q ∈ parents p → view d t q = Some Directory.

Lemma parents_vacant R d t p x :
  good R d t → mount_path p → shown_dirs d t p → x ∈ parents (local p) →
  t !! x = Some Directory ∨ (t !! x = None ∧ ∀ q, mount_path q → x = local q → view d t q = Some Directory).
Proof.
  intros G Hp Hs Hx. destruct (parents_local _ _ (proj1 Hp) Hx) as [->|[Hb|(q & -> & Hq)]].
  - left. apply (g_base _ _ _ G).
  - left. by apply (g_wf _ _ _ G _ _ _ (g_base _ _ _ G)).
  - assert (mount_path q) as Hmq by by eapply parents_mount.
    destruct (t !! local q) as [n|] eqn:E; [|right; split; [done|]; intros r _ ->%local_inj; by apply Hs].
    left. destruct (decide (n = Directory)) as [->|Hn]; [done|]. destruct (user_root q) eqn:Eu.
    { by rewrite (g_user _ _ _ G q n) in Hn. }
    destruct (g_tracked _ _ _ G q n Hmq E (or_introl Hn)) as [e He]. pose proof (Hs q Hq) as Hv. unfold view in Hv.
    rewrite Eu, He, (g_disjoint _ _ _ G), E in Hv by (rewrite He; by eexists). case_bool_decide; congruence.
Qed.

Lemma parents_child parent name x : proper_elem name →
  x ∈ parents (local (parent +:+ "/" +:+ name)) ↔ x ∈ parents (local parent) ++ [local parent].
Proof using Hbase.
  intros (_ & _ & _ & Hs). rewrite elem_of_app, list_elem_of_singleton. unfold local.
  replace (base +:+ "/" +:+ parent +:+ "/" +:+ name) with ((base +:+ "/" +:+ parent) +:+ "/" +:+ name) by by rewrite !str_app_assoc.
  set (a := base +:+ "/" +:+ parent). split.
  - intros [Hx [r E]]%parents_spec. destruct (cut_at_slash _ _ _ _ E) as [(u & _ & En)|[[-> _]|[u Eu]]].
    + rewrite En, !has_byte_app in Hs. by rewrite orb_true_r in Hs.
    + by right.
    + left. apply parents_spec. split; [done|]. by exists u.
  - rewrite !parents_spec. intros [[Hx [r Er]]| ->].
    + split; [done|]. exists (r +:+ "/" +:+ name). rewrite Er. by rewrite !str_app_assoc.
    + split; [|by exists name]. unfold a. destruct Hbase as (q & _ & ->). done.
Qed.

(** Making the directory of [parent/name] on a disk [t1] grown from [t]. *)
Lemma mkdir_parent R d t t1 X parent name :
  let p := parent +:+ "/" +:+ name in
  good R d t → mount_path p → proper_path parent → proper_elem name → shown_dirs d t p →
  grows d t t1 X → well_formed t1 → (∀ x, x ∈ X → x ∉ parents (local p)) →
  ∃ t', MkdirAll Fine (Dir (local p)) t1 = (t', true) ∧ grows d t t' X ∧ well_formed t' ∧
        t' !! local p = t1 !! local p ∧ (∀ x n, t1 !! x = Some n → t' !! x = Some n) ∧
        Forall (λ q, t' !! q = Some Directory) (parents (local p)).
Proof using Hbase.
  intros p G Hp Hpar Hname Hs Hg Hw HX.
  assert (Dir (local p) = local parent) as ->.
  { unfold local, p. replace (base +:+ "/" +:+ parent +:+ "/" +:+ name) with ((base +:+ "/" +:+ parent) +:+ "/" +:+ name)
      by by rewrite !str_app_assoc. apply Dir_rooted; [by apply rooted_app|done]. }
  pose proof (λ x, parents_child parent name x Hname) as Hch. fold p in Hch.
  assert (Forall (λ q, t1 !! q = None ∨ t1 !! q = Some Directory) (parents (local parent) ++ [local parent])) as Hv.
  { apply Forall_forall. intros x Hx%Hch. destruct (Hg x) as [->|(_ & -> & _)]; [by intros ?%HX| |by right].
    destruct (parents_vacant R d t p x) as [?|[? _]]; auto. }
  assert (∀ x n, t1 !! x = Some n → (t1 ∪ dirs_at (parents (local parent) ++ [local parent])) !! x = Some n) as Hkeep.
  { intros x n Hx. by rewrite lookup_with_dirs, Hx. }
  exists (t1 ∪ dirs_at (parents (local parent) ++ [local parent])). split_and!.
  - by apply MkdirAll_fine.
  - intros x HxX. rewrite lookup_with_dirs. destruct (t1 !! x) eqn:E; [rewrite <- E; by apply Hg|].
    destruct (Hg x HxX) as [Ht|(_ & ? & _)]; [|congruence]. rewrite E in Ht.
    case_bool_decide as Hx; [|by left]. right. split_and!; [done..|]. apply Hch in Hx.
    destruct (parents_vacant R d t p x) as [?|[_ ?]]; [done..|congruence|done].
  - by apply well_formed_dirs.
  - rewrite lookup_with_dirs. destruct (t1 !! local p); [done|]. rewrite bool_decide_eq_false_2; [done|].
    intros Hx%Hch. by apply parents_irrefl in Hx.
  - done.
  - apply Forall_forall. intros x Hx%Hch. rewrite lookup_with_dirs, (bool_decide_eq_true_2 _ Hx).
    rewrite Forall_forall in Hv. by destruct (Hv x Hx) as [->| ->].
Qed.

Lemma vacant R d t p : good R d t → mount_path p → view d t p = None → t !! local p = None.
Proof.
  intros G Hp Hv. destruct (t !! local p) as [n|] eqn:E; [|done]. destruct (decide (n = Directory)) as [->|Hn].
  { by rewrite (g_dirs _ _ _ G p Hp E) in Hv. }
  destruct (g_tracked _ _ _ G p n Hp E (or_introl Hn)) as [e He]. unfold view in Hv.
  destruct (user_root p); [done|]. rewrite He, (g_disjoint _ _ _ G), E in Hv by (rewrite He; by eexists).
  by case_bool_decide.
Qed.

(** What the mount shows of a file with a local copy is the copy. *)
Lemma shown_copy R d t p c n : good R d t → mount_path p → view d t p = Some (File c) → t !! local p = Some n → n = File c.
Proof.
  intros G Hp Hv E. destruct (decide (n = Directory)) as [->|Hn].
  { by rewrite (g_dirs _ _ _ G p Hp E) in Hv. }
  destruct (g_tracked _ _ _ G p n Hp E (or_introl Hn)) as [e He]. unfold view in Hv.
  destruct (user_root p); [done|]. rewrite He, (g_disjoint _ _ _ G), E in Hv by (rewrite He; by eexists).
  case_bool_decide; congruence.
Qed.

Lemma grows_insert d t t' x n X : grows d t t' X → grows d t (<[x := n]> t') (x :: X).
Proof. intros Hg y [Hy HX]%not_elem_of_cons. rewrite lookup_insert_ne by done. by apply Hg. Qed.

(** ** The handlers *)

(** [parent/name] lies in directories the mount shows. *)
Record place (V : string → option node) (parent name : string) : Prop := {
  pl_path : mount_path (parent +:+ "/" +:+ name);
  pl_parent : proper_path parent;
  pl_name : proper_elem name;
  pl_dirs q : q ∈ parents (parent +:+ "/" +:+ name) → V q = Some Directory }.

Lemma user_root_child parent name : proper_path parent → proper_elem name → user_root (parent +:+ "/" +:+ name) = false.
Proof.
  intros Hp Hn. unfold user_root, splitPath. apply bool_decide_eq_false. rewrite bool_decide_eq_false_2.
  - intros [Hl _]. change "/" with (str1 slash) in Hl. rewrite Split_app_gen, length_app in Hl.
    destruct (Split parent slash) eqn:E; [by apply Split_ne in E|]. destruct (Split name slash) eqn:E2; [by apply Split_ne in E2|].
    cbn in Hl. lia.
  - by destruct parent.
Qed.

Lemma under_user_dir_eq w s d p :
  active w = Some (s, d) → userdirs d = ud → under_user_dir w p = in_user_root p.
Proof.
  intros Ha Hu. unfold under_user_dir, in_user_root, isUserRootDir, GetPathState. rewrite Ha. cbn. by rewrite Hu.
Qed.

Lemma ok_active R w s d : session_ok R w s d → active w = Some (s, d).
Proof. intros (_ & Hc & _ & Hd & _). unfold active. by rewrite Hc, Hd. Qed.

(** The paths the handlers work with. *)
Lemma ok_local R w s d V parent name :
  session_ok R w s d → place V parent name → local_path s (parent +:+ "/" +:+ name) = local (parent +:+ "/" +:+ name).
Proof using Hbase. intros (_ & _ & Hb & _) Hp. apply local_path_eq; [done|]. apply (pl_path _ _ _ Hp). Qed.

Lemma set_disk_id w : set_disk (w_disk w) w = w.
Proof. by destruct w. Qed.

Lemma grows_refl d t : grows d t t [].
Proof. by left. Qed.

Lemma mkdir_place R d t t1 parent name X :
  let p := parent +:+ "/" +:+ name in
  good R d t → place (view d t) parent name → grows d t t1 X → well_formed t1 → (∀ x, x ∈ X → x ∉ parents (local p)) →
  ∃ t', MkdirAll Fine (Dir (local p)) t1 = (t', true) ∧ grows d t t' X ∧ well_formed t' ∧
        t' !! local p = t1 !! local p ∧ (∀ x n, t1 !! x = Some n → t' !! x = Some n) ∧
        Forall (λ q, t' !! q = Some Directory) (parents (local p)).
Proof using Hbase. intros p G []. by apply mkdir_parent with R. Qed.

(** A copy of a file the mount shows. *)
Lemma ensure_copy (read : string → option string) R w s d parent name c :
  let p := parent +:+ "/" +:+ name in
  (∀ q x, backend q = Some (File x) → read q = Some x) →
  session_ok R w s d → place (view d (w_disk w)) parent name → view d (w_disk w) p = Some (File c) →
  ∃ t', ensureLocalCopyFor read p w = (set_disk t' w, Ok tt) ∧ grows d (w_disk w) t' [local p] ∧ well_formed t' ∧
        t' !! local p = Some (File c) ∧ Forall (λ q, t' !! q = Some Directory) (parents (local p)).
Proof using Hbase.
  intros p Hread Hok Hpl Hv. pose proof (ok_local _ _ _ _ _ _ _ Hok Hpl) as El. fold p in El.
  pose proof Hok as (Hio & Hcur & Hb & Hdb & G). pose proof (pl_path _ _ _ Hpl) as Hp. fold p in Hp.
  unfold ensureLocalCopyFor. run StartSession_active. run. rewrite El.
  destruct (w_disk w !! local p) as [n|] eqn:E.
  - assert (n = File c) as -> by by eapply shown_copy. rewrite Stat_spec, (bool_decide_eq_true_2 _) by (rewrite E; by eauto || done).
    exists (w_disk w). rewrite set_disk_id. split_and!; [done|by left|apply (g_wf _ _ _ G)| |].
    + done.
    + apply Forall_forall. intros q Hq. by apply (g_wf _ _ _ G _ _ _ E).
  - assert (read p = Some c ∧ in_user_root p = false) as [Hr Hu].
    { unfold view in Hv. rewrite (user_root_child _ _ (pl_parent _ _ _ Hpl) (pl_name _ _ _ Hpl) : user_root p = false) in Hv.
      destruct (deleted d !! p); [done|]. destruct (files d !! p) as [e|] eqn:Ee.
      { destruct (g_local _ _ _ G p e Hp Ee) as (? & ? & _). congruence. }
      destruct (in_user_root p); [congruence|]. by auto. }
    destruct (mkdir_place _ _ _ _ _ _ [] G Hpl (grows_refl _ _) (g_wf _ _ _ G)) as (t1 & E1 & Hg1 & Hw1 & Hl1 & _ & Hd1); [set_solver|].
    fold p in E1, Hl1, Hd1.
    rewrite Stat_spec, bool_decide_eq_false_2 by (rewrite E; done || by intros [? ?]). run on_disk_fine. cbn [negb].
    rewrite (under_user_dir_eq _ _ _ _ (ok_active _ _ _ _ Hok) (g_ud _ _ _ G)), Hu, Hr. cbn [default].
    assert (can_put t1 (local p) = true) as Hput by (apply can_put_spec; split; [done|left; congruence]).
    erewrite bind_run by (apply (on_disk_fine _ _ (<[local p := File c]> t1) true); [done|by apply WriteFile_fine]).
    eexists. split; [done|]. split_and!.
    + by apply grows_insert.
    + by apply well_formed_put.
    + apply lookup_insert_eq.
    + eapply Forall_impl; [exact Hd1|]. intros q Hq. rewrite lookup_insert_ne; [done|]. intros <-. congruence.
Qed.

(** The nodes that act on [parent/name]: a writable mount, no reserved and no
    hidden path. *)
Record allowed (n : MonoNode) (parent name : string) : Prop := {
  al_session : n_session n = true;
  al_path : n_path n = parent;
  al_parent : isWorkspaceReadOnlyPath parent = false;
  al_child : isWorkspaceReadOnlyPath (parent +:+ "/" +:+ name) = false;
  al_shown : shouldHideWorkspacePath n (parent +:+ "/" +:+ name) = false }.

Definition upd (V : string → option node) (p : string) (x : option node) : string → option node :=
  λ q, if bool_decide (q = p) then x else V q.

(** A handler succeeds, and the mount shows [V'] afterwards. *)
Definition yields {A} (R' : gset string) (w : World) (out : World * A) (a : A) (V' : string → option node) : Prop :=
  ∃ d' t', out = (with_state d' t' w, a) ∧ good R' d' t' ∧ ∀ q, mount_path q → view d' t' q = V' q.

(** The path of a created entry is new, or noted as created again. *)
Definition noted (R R' : gset string) (p : string) : Prop := R ⊆ R' ∧ (backend p = None ∨ p ∈ R').

Lemma allowed_writable n parent name : allowed n parent name → read_only n = false.
Proof. intros [Hs Hp Hr _ _]. unfold read_only. by rewrite Hs, Hp, Hr. Qed.

Lemma tracked_put R R' w s d parent name t1 x ct h k :
  let p := parent +:+ "/" +:+ name in
  session_ok R w s d → place (view d (w_disk w)) parent name → view d (w_disk w) p ≠ Some Directory →
  grows d (w_disk w) t1 [local p] → well_formed t1 → t1 !! local p = Some x →
  ((∃ c, x = File c) ∧ ct ≠ ChangeMkdir ∨ x = Directory ∧ ct = ChangeMkdir ∧ k < 0) →
  (ct = ChangeModify ∧ R' = R) ∨ (ct ∈ [ChangeCreate; ChangeMkdir] ∧ noted R R' p) →
  yields R' w (trackChangeInternal ct p h k (set_disk t1 w)) (Ok tt) (upd (view d (w_disk w)) p (Some x)).
Proof using Hbase.
  intros p Hok Hpl Hv Hg Hw Hx Hk Hct. pose proof (ok_local _ _ _ _ _ _ _ Hok Hpl) as El.
  pose proof Hok as (Hio & Hcur & Hb & Hdb & G).
  destruct (track_put ct p h k (set_disk t1 w) s d) as (e & -> & Ht & Hlp & Hty); [done..| |].
  { destruct Hct as [[-> _]|[? _]]; set_solver. }
  cbn [w_disk set_disk] in Hty. fold p in El. rewrite El, Hx in Hty.
  destruct (good_put R R' d (w_disk w) t1 p e x) as (G' & Hp & Hf); try done.
  - destruct Hct as [[_ ->]|[_ [? _]]]; done.
  - apply Hpl.
  - apply user_root_child; apply Hpl.
  - apply (pl_dirs _ _ _ Hpl).
  - clear Hty. rewrite Ht. destruct Hct as [[-> ->]|[_ [_ ?]]]; [|done]. unfold effective.
    destruct (files d !! p) as [e0|] eqn:E0; [|by intros ?%modify_not_new]. case_bool_decide as H0; [|by intros ?%modify_not_new].
    intros _. apply (g_fresh _ _ _ G p e0 E0). rewrite (proj2 H0). left.
  - unfold kind_of. rewrite Hty. destruct Hk as [[[c ->] _]|(-> & _ & Hk)]; [destruct (bool_decide _); by exists c|].
    by rewrite bool_decide_eq_false_2 by lia.
  - split; [by rewrite Hlp|]. rewrite Ht, Hty. destruct Hk as [[[c ->] Hm]|(-> & -> & Hk)].
    + left. split; [|by destruct (bool_decide _)]. apply effective_file. destruct Hct as [[-> _]|[Hct _]]; set_solver.
    + right; left. rewrite bool_decide_eq_false_2 by lia. split; [|done]. by apply effective_dir.
  - clear Hty. exists (PutFile p e d), t1. split_and!; [done..|]. intros q Hq. unfold upd. case_bool_decide; [by subst|by apply Hf].
Qed.

Lemma dropped_entry R d t now p ct d' :
  good R d t → p ∉ R → ct = ChangeDelete ∨ created (files d !! p) →
  (created (files d !! p) ∧ d' = DeleteFile p d) ∨ (¬ created (files d !! p) ∧ d' = MarkDeletedWithType now p ct d) →
  (d' = DeleteFile p d ∧ backend p = None ∧ is_Some (files d !! p)) ∨
  (∃ now, d' = MarkDeletedWithType now p ChangeDelete d).
Proof.
  intros G HR Hct [[(e & He & Hc) ->]|[Hn ->]]; [left|right].
  - destruct (g_fresh _ _ _ G p e He Hc); [|done]. rewrite He. eauto.
  - destruct Hct as [->|?]; [by exists now|done].
Qed.

Lemma tracked_drop R w s d parent name t1 ct h k :
  let p := parent +:+ "/" +:+ name in
  session_ok R w s d → place (view d (w_disk w)) parent name → (∀ r, is_Some (files d !! r) → p ∉ parents r) → p ∉ R →
  agrees p d (w_disk w) t1 → well_formed t1 → t1 !! local p = None → ct ∈ [ChangeDelete; ChangeRmdir] → ct = ChangeDelete ∨ created (files d !! p) →
  yields R w (trackChangeInternal ct p h k (set_disk t1 w)) (Ok tt) (upd (view d (w_disk w)) p None).
Proof using Hbase.
  intros p Hok Hpl Hv HR Hg Hw Hx Hct Hcr. pose proof Hok as (Hio & Hcur & Hb & Hdb & G).
  destruct (track_drop ct p h k (set_disk t1 w) s d) as (d' & -> & Hd'); [done..|].
  destruct (good_drop R R d (w_disk w) t1 p d') as (G' & Hp & Hf); try done.
  - apply Hpl.
  - apply user_root_child; apply Hpl.
  - apply (pl_dirs _ _ _ Hpl).
  - by eapply dropped_entry.
  - exists d', t1. split_and!; [done..|]. intros q Hq. unfold upd. case_bool_decide; [by subst|by apply Hf].
Qed.

Lemma Create_yields R R' w s d n parent name :
  let p := parent +:+ "/" +:+ name in
  session_ok R w s d → place (view d (w_disk w)) parent name → allowed n parent name → noted R R' p →
  view d (w_disk w) p = None → yields R' w (Create n name w) Success (upd (view d (w_disk w)) p (Some (File ""))).
Proof using Hbase.
  intros p Hok Hpl Hal HR Hv. pose proof (ok_local _ _ _ _ _ _ _ Hok Hpl) as El. fold p in El.
  pose proof Hok as (Hio & Hcur & Hb & Hdb & G).
  destruct (mkdir_place _ _ _ _ _ _ [] G Hpl (grows_refl _ _) (g_wf _ _ _ G)) as (t1 & E1 & Hg1 & Hw1 & Hl1 & _ & Hd1); [set_solver|].
  fold p in E1, Hl1, Hd1. rewrite (vacant _ _ _ p G (pl_path _ _ _ Hpl) Hv) in Hl1.
  assert (can_put t1 (local p) = true) as Hput by (apply can_put_spec; auto).
  edestruct (tracked_put R R' w s d parent name (<[local p := File ""]> t1) (File "") ChangeCreate "" (-1)) as (d' & t' & E & HG); try done.
  - fold p. by rewrite Hv.
  - by apply grows_insert.
  - by apply well_formed_put.
  - apply lookup_insert_eq.
  - left. split; [by eexists|done].
  - right. split; [set_solver|done].
  - unfold Create. rewrite (allowed_writable _ _ _ Hal), (al_path _ _ _ Hal), bool_decide_eq_false_2 by (apply proper_ne, Hpl).
    cbn [orb]. run StartSession_active. rewrite (al_child _ _ _ Hal), (al_shown _ _ _ Hal). fold p. rewrite El.
    run on_disk_fine. cbn [negb].
    erewrite bind_run by (apply (on_disk_fine _ _ (<[local p := File ""]> t1) true); [done|by apply WriteFile_fine]).
    cbn [negb]. run E. by exists d', t'.
Qed.

Lemma no_keys_below R d t p : good R d t → view d t p ≠ Some Directory → ∀ r, is_Some (files d !! r) → p ∉ parents r.
Proof. intros G Hv r Hr Hin. by apply Hv, (g_parents _ _ _ G r p). Qed.

Lemma override_eq R w s d p : session_ok R w s d → HasLocalOverride w p = bool_decide (is_Some (files d !! p)).
Proof. intros Hok. unfold HasLocalOverride, GetPathState. by rewrite (ok_active _ _ _ _ Hok). Qed.

(** The opening of the handlers. *)
Ltac enter n Hal Hpl El :=
  rewrite (allowed_writable _ _ _ Hal), (al_path _ _ _ Hal); try rewrite bool_decide_eq_false_2 by (apply proper_ne, Hpl);
  cbn [orb]; run StartSession_active; try rewrite (al_path _ _ _ Hal); rewrite ?(al_child _ _ _ Hal), ?(al_shown _ _ _ Hal);
  rewrite ?El.

Lemma Unlink_yields R w s d n parent name :
  let p := parent +:+ "/" +:+ name in
  session_ok R w s d → place (view d (w_disk w)) parent name → allowed n parent name → p ∉ R →
  (∃ x, view d (w_disk w) p = Some x ∧ x ≠ Directory) →
  yields R w (Unlink n name w) Success (upd (view d (w_disk w)) p None).
Proof using Hbase.
  intros p Hok Hpl Hal HR (x & Hv & Hx). pose proof (ok_local _ _ _ _ _ _ _ Hok Hpl) as El. fold p in El.
  pose proof Hok as (Hio & Hcur & Hb & Hdb & G). pose proof (pl_path _ _ _ Hpl) as Hp. fold p in Hp.
  assert (view d (w_disk w) p ≠ Some Directory) as Hnd by congruence.
  assert (w_disk w !! local p ≠ Some Directory) as Hnl by (intros E; by apply Hnd, (g_dirs _ _ _ G)).
  unfold Unlink. enter n Hal Hpl El. fold p. run. rewrite (override_eq _ _ _ _ _ Hok).
  assert (∃ t1 r, (if bool_decide (is_Some (files d !! p)) then on_disk (λ o, Remove o (local_path s p)) else ret Removed) w
                  = (set_disk t1 w, r) ∧ r = Removed ∧ t1 = delete (local p) (w_disk w)) as (t1 & r & Er & -> & Et).
  { rewrite El. case_bool_decide as Hf.
    - destruct Hf as [e He]. destruct (g_local _ _ _ G p e Hp He) as (y & Hy & _).
      eexists _, _. split; [|split; [reflexivity|reflexivity]]. apply on_disk_fine; [done|]. unfold Remove. rewrite Hy.
      by rewrite bool_decide_eq_false_2 by congruence.
    - exists (w_disk w), Removed. rewrite set_disk_id. split_and!; [done..|]. rewrite delete_id; [done|].
      destruct (w_disk w !! local p) as [y|] eqn:Ey; [|done]. destruct Hf. apply (g_tracked _ _ _ G p y); [done|done|left; congruence]. }
  run Er. edestruct (tracked_drop R w s d parent name t1 ChangeDelete "" (-1)) as (d' & t' & E & HG); [done|done|..].
  - by eapply no_keys_below.
  - done.
  - subst t1. eapply grows_agrees; [done|]. intros y Hy%not_elem_of_cons. left. rewrite lookup_delete_ne; [done|naive_solver].
  - subst t1. apply well_formed_delete; [apply (g_wf _ _ _ G)|done].
  - subst t1. apply lookup_delete_eq.
  - left.
  - by left.
  - run E. by exists d', t'.
Qed.

Lemma Mkdir_yields R R' w s d n parent name :
  let p := parent +:+ "/" +:+ name in
  session_ok R w s d → place (view d (w_disk w)) parent name → allowed n parent name → noted R R' p →
  view d (w_disk w) p = None → yields R' w (Mkdir n name w) Success (upd (view d (w_disk w)) p (Some Directory)).
Proof using Hbase.
  intros p Hok Hpl Hal HR Hv. pose proof (ok_local _ _ _ _ _ _ _ Hok Hpl) as El. fold p in El.
  pose proof Hok as (Hio & Hcur & Hb & Hdb & G). pose proof (vacant _ _ _ p G (pl_path _ _ _ Hpl) Hv) as Hl.
  assert (Forall (λ q, w_disk w !! q = None ∨ w_disk w !! q = Some Directory) (parents (local p) ++ [local p])) as Hvac.
  { apply Forall_app. split; [|apply Forall_singleton; by left]. apply Forall_forall. intros x Hx.
    destruct (parents_vacant _ _ _ p x G (pl_path _ _ _ Hpl) (pl_dirs _ _ _ Hpl) Hx) as [?|[? _]]; auto. }
  set (t1 := w_disk w ∪ dirs_at (parents (local p) ++ [local p])).
  edestruct (tracked_put R R' w s d parent name t1 Directory ChangeMkdir "" (-1)) as (d' & t' & E & HG); [done|done|..].
  - fold p. by rewrite Hv.
  - intros x [Hx _]%not_elem_of_cons. unfold t1. rewrite lookup_with_dirs. destruct (w_disk w !! x) eqn:Ex; [by left|].
    case_bool_decide as Hin; [|by left]. apply elem_of_app in Hin as [Hin|Hin%list_elem_of_singleton]; [|done].
    right. split_and!; [done..|].
    destruct (parents_vacant _ _ _ p x G (pl_path _ _ _ Hpl) (pl_dirs _ _ _ Hpl) Hin) as [?|[_ ?]]; [congruence|done].
  - apply well_formed_dirs; [apply (g_wf _ _ _ G)|done].
  - fold p. unfold t1. rewrite lookup_with_dirs, Hl. rewrite bool_decide_eq_true_2; [done|]. apply elem_of_app. right. left.
  - right. split_and!; [done..|lia].
  - right. split; [right; left|done].
  - unfold Mkdir. enter n Hal Hpl El. fold p. rewrite El.
    erewrite bind_run by (apply on_disk_fine; [done|by apply MkdirAll_fine]). cbn [negb]. fold t1. run E. by exists d', t'.
Qed.

Lemma Symlink_yields R w s d n parent name target :
  let p := parent +:+ "/" +:+ name in
  session_ok R w s d → place (view d (w_disk w)) parent name → allowed n parent name →
  view d (w_disk w) p = None → yields R w (Symlink n target name w) Success (upd (view d (w_disk w)) p (Some (Link target))).
Proof using Hbase.
  intros p Hok Hpl Hal Hv. pose proof (ok_local _ _ _ _ _ _ _ Hok Hpl) as El. fold p in El.
  pose proof Hok as (Hio & Hcur & Hb & Hdb & G). pose proof (pl_path _ _ _ Hpl) as Hp. fold p in Hp.
  destruct (mkdir_place _ _ _ _ _ _ [] G Hpl (grows_refl _ _) (g_wf _ _ _ G)) as (t1 & E1 & Hg1 & Hw1 & Hl1 & _ & Hd1); [set_solver|].
  fold p in E1, Hl1, Hd1. rewrite (vacant _ _ _ p G Hp Hv) in Hl1.
  assert (can_put t1 (local p) = true) as Hput by (apply can_put_spec; auto).
  set (t2 := <[local p := Link target]> t1).
  set (e := mkFileEntry FileEntrySymlink (local p) 511 (Z.of_nat (String.length target)) 0 target "" ChangeSymlink (w_now w)).
  destruct (good_put R R d (w_disk w) t2 p e (Link target)) as (G' & Hvp & Hf); try done.
  - apply user_root_child; apply Hpl.
  - apply (pl_dirs _ _ _ Hpl).
  - by rewrite Hv.
  - intros H%(bool_decide_eq_true_2 _). by vm_compute in H.
  - split; [done|]. by right; right; left.
  - apply lookup_insert_eq.
  - by apply grows_insert.
  - by apply well_formed_put.
  - unfold Symlink. enter n Hal Hpl El. fold p. unfold CreateSymlink, with_session.
    exists (PutFile p e d), t2. split_and!; [|done|intros q Hq; unfold upd; case_bool_decide; [by subst|by apply Hf]].
    erewrite (bind_run (look ≫= _)). 2:{
      run. rewrite (ok_active _ _ _ _ Hok). cbv beta iota. run. rewrite El. run on_disk_fine. cbn [negb].
      erewrite bind_run.
      2:{ apply (on_disk_fine _ _ t2 true); [done|]. cbn. unfold can_put in Hput. apply andb_true_iff in Hput as [-> _].
          by rewrite bool_decide_eq_true_2. }
      cbn [negb]. run Update_fine. reflexivity. }
    done.
Qed.

(** A directory made in the session, with nothing in it. *)
Lemma Rmdir_yields R w s d n parent name :
  let p := parent +:+ "/" +:+ name in
  session_ok R w s d → place (view d (w_disk w)) parent name → allowed n parent name → p ∉ R → backend p = None →
  view d (w_disk w) p = Some Directory → (∀ q, mount_path q → p ∈ parents q → view d (w_disk w) q = None) →
  yields R w (Rmdir n name w) Success (upd (view d (w_disk w)) p None).
Proof using Hbase.
  intros p Hok Hpl Hal HR Hnew Hv Hempty. pose proof (ok_local _ _ _ _ _ _ _ Hok Hpl) as El. fold p in El.
  pose proof Hok as (Hio & Hcur & Hb & Hdb & G). pose proof (pl_path _ _ _ Hpl) as Hp. fold p in Hp.
  assert (is_Some (files d !! p)) as Hf.
  { destruct (files d !! p) eqn:E; [by eexists|]. unfold view in Hv.
    rewrite (user_root_child _ _ (pl_parent _ _ _ Hpl) (pl_name _ _ _ Hpl) : user_root p = false), E, Hnew in Hv.
    destruct (deleted d !! p); [done|]. destruct (in_user_root p) eqn:Eu; [|done].
    destruct (g_tracked _ _ _ G p _ Hp Hv (or_intror Eu)). congruence. }
  set (t1 := filter (λ '(q, _), q ≠ local p ∧ below (local p) q = false) (w_disk w)).
  edestruct (tracked_drop R w s d parent name t1 ChangeRmdir "" (-1)) as (d' & t' & E & HG); [done|done|..].
  - intros r Hr Hin. destruct Hr as [e He]. assert (mount_path r) as Hmr by (apply (g_keys _ _ _ G); eauto).
    destruct (g_local _ _ _ G r e Hmr He) as (y & Hy & _). by rewrite (vacant _ _ _ r G Hmr (Hempty r Hmr Hin)) in Hy.
  - done.
  - unfold t1. split; [|intros q Hq Hne]; rewrite lookup_removed.
    + rewrite bool_decide_eq_false_2 by apply base_not_local. destruct (below (local p) base) eqn:Eb; [|apply (g_base _ _ _ G)].
      apply below_spec in Eb as [r Er]. apply (f_equal String.length) in Er. unfold local in Er.
      rewrite !str_length_app in Er. simpl in Er. lia.
    + left. rewrite bool_decide_eq_false_2 by (by intros ?%local_inj). destruct (below (local p) (local q)) eqn:Eb; [|done].
      symmetry. apply (vacant R d); [done..|]. apply Hempty; [done|]. apply below_spec in Eb as [r Er].
      apply parents_spec. split; [by apply mount_ne|]. exists r. apply local_inj. rewrite Er. unfold local. by rewrite !str_app_assoc.
  - apply well_formed_removed, (g_wf _ _ _ G).
  - unfold t1. rewrite lookup_removed. by rewrite bool_decide_eq_true_2.
  - right. left.
  - right. destruct Hf as [e He]. exists e. split; [done|]. fold p. destruct (g_local _ _ _ G p e Hp He) as (y & Hy & Hk).
    unfold view in Hv. rewrite (user_root_child _ _ (pl_parent _ _ _ Hpl) (pl_name _ _ _ Hpl) : user_root p = false), He in Hv.
    rewrite (g_disjoint _ _ _ G) in Hv by (by rewrite He). case_bool_decide as Ety; [done|]. rewrite Hy in Hv. injection Hv as ->.
    destruct (proj1 (g_reported _ _ _ G p) e He) as [_ [[_ Et]|[[-> _]|[[_ Et]|(_ & _ & Hs)]]]]; [|by right; left|done|].
    + unfold kind_of in Hk. rewrite Et in Hk. by destruct Hk.
    + unfold p in Hs. rewrite !has_byte_app in Hs. by rewrite orb_true_r in Hs.
  - unfold Rmdir. enter n Hal Hpl El. run.
    fold p. rewrite (override_eq _ _ _ _ _ Hok), (bool_decide_eq_true_2 _ Hf), El.
    destruct Hf as [e He]. destruct (g_local _ _ _ G p e Hp He) as (y & Hy & _).
    assert (RemoveAll Fine (local p) (w_disk w) = (t1, true)) as Er
      by (unfold RemoveAll; by rewrite (unobstructed_there _ _ _ (g_wf _ _ _ G) Hy)).
    erewrite bind_run by (apply (on_disk_fine _ _ t1 true); done). cbn [negb]. run E. by exists d', t'.
Qed.

(** ** Writing *)

(** A file opened, written at an offset, and closed. *)
Definition write_file (read : string → option string) (n : MonoNode) (trunc append : bool) (off : nat) (data : string) : M Errno :=
  '(n, h, e) ← OpenWrite read n trunc append;
  match h with
  | None => ret e
  | Some h =>
      '(n, e) ← HandleWrite n h off data;
      if negb (bool_decide (e = Success)) then ret e else '(_, e) ← Flush n; ret e
  end.

Lemma Modify_fine w p c f :
  w_io w = [] → w_disk w !! p = Some (File c) →
  on_disk (λ o, Modify o p f) w = (set_disk (<[p := File (f c)]> (w_disk w)) w, true).
Proof. intros Hio E. apply on_disk_fine; [done|]. unfold Modify. rewrite resolve_id by congruence. by rewrite E. Qed.

Lemma well_formed_rewrite t p c c' : well_formed t → t !! p = Some (File c) → well_formed (<[p := File c']> t).
Proof.
  intros Hw Hp. apply well_formed_put; [done| |done]. apply can_put_spec. split; [|by right; exists c].
  apply Forall_forall. intros q Hq. by apply (Hw _ _ _ Hp).
Qed.

Lemma write_yields read R w s d n parent name c trunc off data :
  let p := parent +:+ "/" +:+ name in
  (∀ q x, backend q = Some (File x) → read q = Some x) →
  session_ok R w s d → place (view d (w_disk w)) parent name →
  n_session n = true → n_path n = p → isWorkspaceReadOnlyPath p = false → view d (w_disk w) p = Some (File c) →
  yields R w (write_file read n trunc false off data w) Success
    (upd (view d (w_disk w)) p (Some (File (write_at off data (if trunc then "" else c))))).
Proof using Hbase.
  intros p Hread Hok Hpl Hns Hnp Hro Hv. pose proof (ok_local _ _ _ _ _ _ _ Hok Hpl) as El. fold p in El.
  pose proof Hok as (Hio & Hcur & Hb & Hdb & G).
  destruct (ensure_copy read _ _ _ _ _ _ c Hread Hok Hpl Hv) as (t1 & E1 & Hg1 & Hw1 & Hl1 & _). fold p in E1, Hg1, Hl1.
  set (c1 := if trunc then "" else c). set (t2 := <[local p := File c1]> t1).
  set (t3 := <[local p := File (write_at off data c1)]> t2).
  edestruct (tracked_put R R w s d parent name t3 (File (write_at off data c1)) ChangeModify ""
               (Z.max (n_size n) (Z.of_nat (off + String.length data)))) as (d' & t' & E & HG); [done|done|..].
  - fold p. by rewrite Hv.
  - unfold t3, t2. rewrite insert_insert_eq. intros x Hx. assert (x ≠ local p) by (by apply not_elem_of_cons in Hx as [? _]).
    rewrite lookup_insert_ne by done. by apply Hg1.
  - unfold t3, t2. rewrite insert_insert_eq. by eapply well_formed_rewrite.
  - apply lookup_insert_eq.
  - left. split; [by eexists|done].
  - by left.
  - unfold write_file, OpenWrite. rewrite Hnp, Hro, Hns. cbn [negb orb].
    erewrite bind_run.
    2:{ run E1. cbn [negb is_ok]. run. unfold GetLocalPath. cbn [w_current set_disk]. rewrite Hcur, El.
        erewrite bind_run by (by apply Modify_fine). reflexivity. }
    cbn [negb]. erewrite bind_run.
    2:{ unfold HandleWrite. cbn [fh_append]. run. unfold GetLocalPath. cbn [w_current set_disk n_path set_node]. rewrite Hcur, Hnp, El.
        erewrite bind_run by (apply (Modify_fine _ _ c1); [done|apply lookup_insert_eq]). reflexivity. }
    cbn [negb]. rewrite bool_decide_eq_true_2 by done. unfold Flush. cbn. rewrite Hns, Hnp. cbn [andb].
    erewrite bind_run by (erewrite bind_run by exact E; reflexivity). by exists d', t'.
Qed.

(** The local path after the directories above it were made. *)
Lemma mkdir_for_file R w s d parent name c :
  let p := parent +:+ "/" +:+ name in
  session_ok R w s d → place (view d (w_disk w)) parent name → view d (w_disk w) p = Some (File c) →
  ∃ t1, MkdirAll Fine (Dir (local p)) (w_disk w) = (t1, true) ∧ grows d (w_disk w) t1 [] ∧ well_formed t1 ∧
        can_put t1 (local p) = true.
Proof using Hbase.
  intros p (Hio & Hcur & Hb & Hdb & G) Hpl Hv.
  destruct (mkdir_place _ _ _ _ _ _ [] G Hpl (grows_refl _ _) (g_wf _ _ _ G)) as (t1 & E1 & Hg1 & Hw1 & Hl1 & _ & Hd1); [set_solver|].
  fold p in E1, Hl1, Hd1. exists t1. split_and!; [done..|]. apply can_put_spec. split; [done|]. rewrite Hl1.
  destruct (w_disk w !! local p) as [y|] eqn:E; [|by left]. right. exists c. f_equal.
  by eapply shown_copy, E; [|apply Hpl|].
Qed.

Lemma truncate_yields read R w s d n parent name c k :
  let p := parent +:+ "/" +:+ name in
  (∀ q x, backend q = Some (File x) → read q = Some x) →
  session_ok R w s d → place (view d (w_disk w)) parent name →
  n_session n = true → n_path n = p → isWorkspaceReadOnlyPath p = false → view d (w_disk w) p = Some (File c) →
  yields R w (Setattr read n (Some k) None w) (set_node (n_mode n) (Z.of_nat k) true n, Success)
    (upd (view d (w_disk w)) p (Some (File (resize k c)))).
Proof using Hbase.
  intros p Hread Hok Hpl Hns Hnp Hro Hv. pose proof (ok_local _ _ _ _ _ _ _ Hok Hpl) as El. fold p in El.
  pose proof Hok as (Hio & Hcur & Hb & Hdb & G).
  assert (∃ t1, Setattr read n (Some k) None w =
    (_ ← trackChangeInternal ChangeModify p "" (Z.of_nat k); ret (set_node (n_mode n) (Z.of_nat k) true n, Success)) (set_disk t1 w) ∧
    grows d (w_disk w) t1 [local p] ∧ well_formed t1 ∧ t1 !! local p = Some (File (resize k c))) as (t1 & -> & Hg & Hw & Hl).
  { unfold Setattr, read_only. rewrite Hns, Hnp, Hro. cbn [negb orb]. run StartSession_active. rewrite El. destruct k as [|k].
    - destruct (mkdir_for_file _ _ _ _ _ _ _ Hok Hpl Hv) as (t1 & E1 & Hg1 & Hw1 & Hput). fold p in E1, Hput.
      exists (<[local p := File ""]> t1). split_and!; [|by apply grows_insert|by apply well_formed_put|by rewrite lookup_insert_eq].
      erewrite bind_run.
      2:{ run on_disk_fine. cbn [negb]. apply (on_disk_fine _ _ (<[local p := File ""]> t1) true); [done|by apply WriteFile_fine]. }
      cbn [negb]. run. cbn [negb]. run. cbn [negb]. by rewrite <- Hnp.
    - destruct (ensure_copy read _ _ _ _ _ _ c Hread Hok Hpl Hv) as (t1 & E1 & Hg1 & Hw1 & Hl1 & _). fold p in E1, Hg1, Hl1.
      exists (<[local p := File (resize (S k) c)]> t1). split_and!; [|  |by eapply well_formed_rewrite|apply lookup_insert_eq].
      + erewrite bind_run by (erewrite bind_run by exact E1; reflexivity). cbn [negb is_ok].
        erewrite bind_run by (by apply Modify_fine). cbn [negb]. run. cbn [negb]. by rewrite <- Hnp.
      + intros x Hx. assert (x ≠ local p) by (by apply not_elem_of_cons in Hx as [? _]).
        rewrite lookup_insert_ne by done. by apply Hg1. }
  edestruct (tracked_put R R w s d parent name t1 (File (resize k c)) ChangeModify "" (Z.of_nat k)) as (d' & t' & E & HG);
    [done|done| |done|done|done|left; split; [by eexists|done]|by left|].
  - fold p. by rewrite Hv.
  - erewrite bind_run by exact E. by exists d', t'.
Qed.

(** A change of the mode makes the copy that carries it. *)
Lemma chmod_yields read R w s d n parent name c m :
  let p := parent +:+ "/" +:+ name in
  (∀ q x, backend q = Some (File x) → read q = Some x) →
  session_ok R w s d → place (view d (w_disk w)) parent name →
  n_session n = true → n_path n = p → isWorkspaceReadOnlyPath p = false → view d (w_disk w) p = Some (File c) →
  yields R w (Setattr read n None (Some m) w) (set_node m (n_size n) (n_isLocalWrite n) n, Success)
    (upd (view d (w_disk w)) p (Some (File c))).
Proof using Hbase.
  intros p Hread Hok Hpl Hns Hnp Hro Hv. pose proof (ok_local _ _ _ _ _ _ _ Hok Hpl) as El. fold p in El.
  pose proof Hok as (Hio & Hcur & Hb & Hdb & G).
  destruct (ensure_copy read _ _ _ _ _ _ c Hread Hok Hpl Hv) as (t1 & E1 & Hg1 & Hw1 & Hl1 & Hpar). fold p in E1, Hg1, Hl1, Hpar.
  assert (Setattr read n None (Some m) w =
    (_ ← trackChangeInternal ChangeModify p "" (n_size n); ret (set_node m (n_size n) (n_isLocalWrite n) n, Success)) (set_disk t1 w)) as ->.
  { unfold Setattr, read_only. rewrite Hns, Hnp, Hro. cbn [negb orb]. run StartSession_active. rewrite El.
    erewrite bind_run by (erewrite bind_run by exact E1; reflexivity). cbn [negb is_ok]. run. cbn [negb].
    erewrite bind_run.
    2:{ erewrite bind_run by (unfold next_io; cbn [w_io set_disk]; by rewrite Hio). cbv beta iota zeta. run. cbn [w_disk set_disk].
        rewrite Stat_spec, (bool_decide_eq_true_2 _) by (rewrite Hl1; by eauto || done). reflexivity. }
    cbn [negb]. by rewrite <- Hnp. }
  edestruct (tracked_put R R w s d parent name t1 (File c) ChangeModify "" (n_size n)) as (d' & t' & E & HG);
    [done|done| |done|done|done|left; split; [by eexists|done]|by left|].
  - fold p. by rewrite Hv.
  - erewrite bind_run by exact E. by exists d', t'.
Qed.

(** Entries are moved with a directory; with a file there are none. *)
Lemma RenamePrefix_none old new d : (∀ k, is_Some (files d !! k) → below old k = false) → RenamePrefix old new d = d.
Proof.
  intros H. unfold RenamePrefix. replace (filter _ (entries_of (files d))) with (@nil (string * FileEntry)); [done|].
  symmetry. apply elem_of_nil_inv. intros [k e] [Hk Hin]%list_elem_of_filter. unfold entries_of in Hin.
  apply list_elem_of_omap in Hin as (k' & _ & Hk'). destruct (files d !! k') eqn:E; [|done]. injection Hk' as -> _.
  specialize (H k (ltac:(rewrite E; by eexists))). unfold below in H. cbn [fst] in Hk. congruence.
Qed.

Lemma RenameChildren_none w s d old new :
  w_io w = [] → active w = Some (s, d) → (∀ k, is_Some (files d !! k) → below old k = false) →
  RenameChildren old new w = (w, Ok tt).
Proof.
  intros Hio Ha Hk. unfold RenameChildren. run. rewrite Ha. unfold active in Ha.
  destruct (w_current w) as [s'|] eqn:Ec; [|done]. destruct (w_db w) as [d'|] eqn:Ed; [|done]. injection Ha as -> ->.
  erewrite bind_run by (by apply Update_fine). rewrite RenamePrefix_none by done. rewrite Ec. unfold ret, db_result.
  f_equal. destruct w; cbn in *. by subst.
Qed.

(** The disk part of [Rename]: the file is moved, through a local copy. *)
Lemma rename_disk read R w s d po no pn nn c :
  let old := po +:+ "/" +:+ no in
  let new := pn +:+ "/" +:+ nn in
  (∀ q x, backend q = Some (File x) → read q = Some x) → session_ok R w s d →
  place (view d (w_disk w)) po no → place (view d (w_disk w)) pn nn → old ≠ new →
  view d (w_disk w) old = Some (File c) → (view d (w_disk w) new = None ∨ ∃ x, view d (w_disk w) new = Some (File x)) →
  ∃ t1 t2 t3, ensureLocalCopyFor read old w = (set_disk t1 w, Ok tt) ∧
    MkdirAll Fine (Dir (local new)) t1 = (t2, true) ∧ GoTree.Rename Fine (local old) (local new) t2 = (t3, true) ∧
    grows d (w_disk w) t2 [local old] ∧ well_formed t2 ∧ t2 !! local old = Some (File c) ∧ well_formed t3 ∧
    ∀ q, t3 !! q = if bool_decide (q = local new) then Some (File c) else if bool_decide (q = local old) then None else t2 !! q.
Proof using Hbase.
  intros old new Hread Hok Hpo Hpn Hne Hvo Hvn. pose proof Hok as (Hio & Hcur & Hb & Hdb & G).
  destruct (ensure_copy read _ _ _ _ _ _ c Hread Hok Hpo Hvo) as (t1 & E1 & Hg1 & Hw1 & Hl1 & _). fold old in E1, Hg1, Hl1.
  assert (local old ∉ parents (local new)) as Hnp.
  { intros Hin. destruct (parents_local _ _ (proj1 (pl_path _ _ _ Hpn)) Hin) as [Hx|[Hx|(q & ->%local_inj & Hq)]].
    - symmetry in Hx. by apply base_not_local in Hx.
    - apply parents_spec in Hx as [_ [r Hr]]. apply (f_equal String.length) in Hr. unfold local in Hr.
      rewrite !str_length_app in Hr. simpl in Hr. lia.
    - pose proof (pl_dirs _ _ _ Hpn _ Hq). congruence. }
  destruct (mkdir_place _ _ _ _ _ _ [local old] G Hpn Hg1 Hw1) as (t2 & E2 & Hg2 & Hw2 & Hl2 & Hk2 & Hd2).
  { by intros x ->%list_elem_of_singleton. }
  fold new in E2, Hl2, Hd2. assert (t2 !! local old = Some (File c)) as Hlo by by apply Hk2.
  assert (can_put t2 (local new) = true) as Hput.
  { apply can_put_spec. split; [done|]. destruct (Hg2 (local new)) as [->|(_ & _ & Hv)].
    - intros Hin%list_elem_of_singleton. by apply local_inj in Hin.
    - destruct Hvn as [Hn|[x Hx]]; [left; by apply (vacant R d); [|apply Hpn|]|].
      destruct (w_disk w !! local new) as [y|] eqn:E; [|by left]. right. exists x. f_equal.
      by eapply shown_copy, E; [|apply Hpn|].
    - specialize (Hv new (pl_path _ _ _ Hpn) eq_refl). destruct Hvn as [Hn|[x Hx]]; congruence. }
  destruct (Rename_file t2 (local old) (local new) (File c)) as (t3 & E3 & H3); [done|done|done| | |done|].
  - unfold local. destruct Hbase as (q & _ & ->). done.
  - by intros ?%local_inj.
  - exists t1, t2, t3. split_and!; try done. by eapply (well_formed_moved t2).
Qed.

Lemma Rename_yields read R R' w s d n po no pn nn c :
  let old := po +:+ "/" +:+ no in
  let new := pn +:+ "/" +:+ nn in
  (∀ q x, backend q = Some (File x) → read q = Some x) → session_ok R w s d →
  place (view d (w_disk w)) po no → place (view d (w_disk w)) pn nn → allowed n po no →
  isWorkspaceReadOnlyPath new = false → shouldHideWorkspacePath n new = false → old ≠ new → old ∉ R → noted R R' new →
  view d (w_disk w) old = Some (File c) → (view d (w_disk w) new = None ∨ ∃ x, view d (w_disk w) new = Some (File x)) →
  yields R' w (Rename read n no pn nn w) Success (upd (upd (view d (w_disk w)) old None) new (Some (File c))).
Proof using Hbase.
  intros old new Hread Hok Hpo Hpn Hal Hro Hhide Hne HR [HRR Hnew] Hvo Hvn. pose proof Hok as (Hio & Hcur & Hb & Hdb & G).
  pose proof (ok_local _ _ _ _ _ _ _ Hok Hpo) as Elo. pose proof (ok_local _ _ _ _ _ _ _ Hok Hpn) as Eln. fold old in Elo. fold new in Eln.
  destruct (rename_disk read _ _ _ _ _ _ _ _ c Hread Hok Hpo Hpn Hne Hvo Hvn) as (t1 & t2 & t3 & E1 & E2 & E3 & Hg2 & Hw2 & Hlo & Hw3 & H3).
  fold old in E1, E3, Hg2, Hlo, H3. fold new in E2, E3, H3.
  assert (∀ k, is_Some (files d !! k) → old ∉ parents k) as Hkeys by (eapply no_keys_below; [done|congruence]).
  destruct (track_drop ChangeDelete old "" (-1) (set_disk t3 w) s d) as (d1 & Ed1 & Hd1); [done..|left|].
  destruct (good_drop R R d (w_disk w) (delete (local old) t2) old d1) as (G1 & Hv1 & Hf1); [done|done|apply Hpo| | |done|..].
  { apply user_root_child; apply Hpo. }
  { apply (pl_dirs _ _ _ Hpo). }
  { apply lookup_delete_eq. }
  { eapply grows_agrees; [done|]. intros x Hx. assert (x ≠ local old) by (by apply not_elem_of_cons in Hx as [? _]).
    rewrite lookup_delete_ne by done. by apply Hg2. }
  { apply well_formed_delete; [done|congruence]. }
  { eapply dropped_entry; [done|done|by left|done]. }
  destruct (track_put ChangeCreate new "" (-1) (with_state d1 t3 w) s d1) as (e & Ee & Hct & Hlp & Hty); [done..|left|].
  cbn [w_disk with_state set_disk] in Hty. rewrite Eln, H3 in Hty. rewrite (bool_decide_eq_true_2 (local new = _)) in Hty by done.
  change (bool_decide (0 ≤ -1)) with false in Hty.
  destruct (good_put R R' d1 (delete (local old) t2) t3 new e (File c)) as (G2 & Hv2 & Hf2); [done|done|apply Hpn|..].
  { apply user_root_child; apply Hpn. }
  { intros q Hq. rewrite Hf1; [by apply (pl_dirs _ _ _ Hpn)|eapply parents_mount; [apply Hpn|done]|].
    intros ->. pose proof (pl_dirs _ _ _ Hpn _ Hq). congruence. }
  { rewrite Hf1; [|apply Hpn|done]. destruct Hvn as [Hn|[x Hx]]; congruence. }
  { done. }
  { unfold kind_of. rewrite Hty. by exists c. }
  { split; [by rewrite Hlp|]. left. rewrite Hct. split; [apply effective_file; left|done]. }
  { rewrite H3. by rewrite bool_decide_eq_true_2. }
  { intros x [Hx _]%not_elem_of_cons. left. rewrite H3, (bool_decide_eq_false_2 _ Hx). case_bool_decide as Hxo.
    - subst. by rewrite lookup_delete_eq.
    - by rewrite lookup_delete_ne. }
  { done. }
  exists (PutFile new e d1), t3. split_and!; [|done|].
  - unfold Rename. rewrite (bool_decide_eq_false_2 (pn = "")) by (apply proper_ne, Hpn). rewrite orb_false_r.
    enter n Hal Hpo Elo. cbn [orb]. fold new. rewrite Hro, Hhide. cbn [orb]. fold old.
    run E1. cbn [negb is_ok]. rewrite Eln. run on_disk_fine. cbn [negb]. rewrite Elo. run on_disk_fine. cbn [negb].
    erewrite bind_run.
    2:{ apply (RenameChildren_none _ s d); [done|unfold active; cbn; by rewrite Hcur, Hdb|].
        intros k Hk. destruct (below old k) eqn:Eb; [|done]. destruct (Hkeys k Hk). apply parents_spec.
        split; [apply proper_ne, Hpo|]. by apply below_spec. }
    run Ed1. run Ee. done.
  - intros q Hq. unfold upd. case_bool_decide; [by subst|]. rewrite Hf2 by done. case_bool_decide; [by subst|by apply Hf1].
Qed.

End mount.
