(* ===== verification/MountView.v ===== *)
(** * Operations on a mount, and what it shows

    The mount as a tree: operations on a writable mount change what the mount
    shows the way they change a tree, whatever the cluster holds, in any order
    and number.  Which operations are covered is [admissible]; the handlers go
    wrong on several of the others, as MountFaults.v shows.  The proofs of the
    single handlers are in MountProps.v. *)

From stdpp Require Import options.
From S2P Require Import Prelude GoStrings GoSort GoRange GoPath GoTree Overlay Session Mount MountProps.

(** ** Operations *)

Inductive op : Type :=
| OpCreate (parent name : string)
| OpUnlink (parent name : string)
| OpMkdir (parent name : string)
| OpRmdir (parent name : string)
| OpSymlink (parent name target : string)
| OpRename (parent name newParent newName : string)
| OpWrite (parent name : string) (trunc : bool) (off : nat) (data : string)
| OpTruncate (parent name : string) (size : nat)
| OpChmod (parent name : string) (mode : Z).

(** What the mount shows, and the paths of the cluster that were created again
    after they were removed. *)
Record shown := mkShown { sh_view : string → option node; sh_again : gset string }.

Definition child (parent name : string) : string := parent +:+ "/" +:+ name.

Section operations.
Context (backend : string → option node) (read : string → option string).
Context (ws : option WorkspaceManifest) (attrs : string → Z * Z).

(** The nodes the kernel has looked up. *)
Definition node_of (p : string) : MonoNode := mkNode p true ws (attrs p).1 (attrs p).2 false.

Definition run_op (o : op) : M Errno :=
  match o with
  | OpCreate parent name => Create (node_of parent) name
  | OpUnlink parent name => Unlink (node_of parent) name
  | OpMkdir parent name => Mkdir (node_of parent) name
  | OpRmdir parent name => Rmdir (node_of parent) name
  | OpSymlink parent name target => Mount.Symlink (node_of parent) target name
  | OpRename parent name newParent newName => Mount.Rename read (node_of parent) name newParent newName
  | OpWrite parent name trunc off data => write_file read (node_of (child parent name)) trunc false off data
  | OpTruncate parent name size => '(_, e) ← Setattr read (node_of (child parent name)) (Some size) None; ret e
  | OpChmod parent name mode => '(_, e) ← Setattr read (node_of (child parent name)) None (Some mode); ret e
  end.

Fixpoint run_ops (os : list op) : M (list Errno) :=
  match os with
  | [] => ret []
  | o :: os => e ← run_op o; es ← run_ops os; ret (e :: es)
  end.

(** The same on a tree. *)
Definition again (p : string) (R : gset string) : gset string := match backend p with Some _ => {[p]} ∪ R | None => R end.

Definition apply_op (v : shown) (o : op) : shown :=
  let '(mkShown V R) := v in
  match o with
  | OpCreate parent name => mkShown (upd V (child parent name) (Some (File ""))) (again (child parent name) R)
  | OpUnlink parent name | OpRmdir parent name => mkShown (upd V (child parent name) None) R
  | OpMkdir parent name => mkShown (upd V (child parent name) (Some Directory)) (again (child parent name) R)
  | OpSymlink parent name target => mkShown (upd V (child parent name) (Some (Link target))) R
  | OpRename parent name newParent newName =>
      mkShown (upd (upd V (child parent name) None) (child newParent newName) (V (child parent name)))
        (again (child newParent newName) R)
  | OpWrite parent name trunc off data =>
      let c := match V (child parent name) with Some (File c) => c | _ => "" end in
      mkShown (upd V (child parent name) (Some (File (write_at off data (if trunc then "" else c))))) R
  | OpTruncate parent name size =>
      let c := match V (child parent name) with Some (File c) => c | _ => "" end in
      mkShown (upd V (child parent name) (Some (File (resize size c)))) R
  | OpChmod parent name mode => v
  end.

(** ** The operations covered *)

Definition permitted (parent name : string) : Prop :=
  isWorkspaceReadOnlyPath parent = false ∧ isWorkspaceReadOnlyPath (child parent name) = false ∧
  shouldHideWorkspacePath (node_of parent) (child parent name) = false.

(** The operations the theorems on a session cover, all in a directory that
    is there and not at the root of the mount:
    - an entry is made where there is none;
    - a file or link is removed, and a file renamed, but not at a path of the
      cluster that was removed and created again in the session
      ([MountFaults.recreated_file_reappears]);
    - files are renamed, over nothing or over another file, but no links
      ([MountFaults.renamed_link_listed_as_file]) and no directories
      ([MountFaults.renamed_directory_becomes_file]);
    - a directory is removed only when it is empty
      ([MountFaults.rmdir_removes_content]) and the cluster has none there: of
      a directory of the cluster a local copy stays behind
      ([MountFaults.removed_directory_blocks_file]);
    - files are written at an offset, truncated, and have their mode changed,
      but are not appended to ([MountFaults.append_fails]). *)
Definition admissible (v : shown) (o : op) : Prop :=
  let '(mkShown V R) := v in
  match o with
  | OpCreate parent name | OpMkdir parent name | OpSymlink parent name _ =>
      place V parent name ∧ permitted parent name ∧ V (child parent name) = None
  | OpUnlink parent name =>
      place V parent name ∧ permitted parent name ∧ child parent name ∉ R ∧
      ∃ x, V (child parent name) = Some x ∧ x ≠ Directory
  | OpRmdir parent name =>
      place V parent name ∧ permitted parent name ∧ child parent name ∉ R ∧ backend (child parent name) = None ∧
      V (child parent name) = Some Directory ∧
      ∀ q, mount_path q → child parent name ∈ parents q → V q = None
  | OpRename parent name newParent newName =>
      place V parent name ∧ place V newParent newName ∧ permitted parent name ∧
      isWorkspaceReadOnlyPath (child newParent newName) = false ∧
      shouldHideWorkspacePath (node_of parent) (child newParent newName) = false ∧
      child parent name ≠ child newParent newName ∧ child parent name ∉ R ∧
      (∃ c, V (child parent name) = Some (File c)) ∧
      (V (child newParent newName) = None ∨ ∃ x, V (child newParent newName) = Some (File x))
  | OpWrite parent name _ _ _ | OpTruncate parent name _ | OpChmod parent name _ =>
      place V parent name ∧ isWorkspaceReadOnlyPath (child parent name) = false ∧
      ∃ c, V (child parent name) = Some (File c)
  end.

Fixpoint all_admissible (v : shown) (os : list op) : Prop :=
  match os with
  | [] => True
  | o :: os => admissible v o ∧ all_admissible (apply_op v o) os
  end.

(** ** Trees that agree on the paths of the mount *)

Definition same_tree (v v' : shown) : Prop :=
  sh_again v = sh_again v' ∧ ∀ q, mount_path q → sh_view v q = sh_view v' q.

#[export] Instance same_tree_equiv : Equivalence same_tree.
Proof.
  split.
  - by intros v.
  - intros v v' [? H]. split; [done|]. intros q Hq. by rewrite H.
  - intros v1 v2 v3 [? H1] [? H2]. split; [congruence|]. intros q Hq. by rewrite H1, H2.
Qed.

Lemma place_same V V' parent name :
  (∀ q, mount_path q → V q = V' q) → place V parent name → place V' parent name.
Proof.
  intros H [Hp Hpa Hn Hd]. split; [done..|]. intros q Hq. rewrite <- H by by eapply parents_mount. by apply Hd.
Qed.

Lemma same_upd V V' p x q : V q = V' q → upd V p x q = upd V' p x q.
Proof. unfold upd. by intros ->. Qed.

#[export] Instance admissible_proper : Proper (same_tree ==> eq ==> impl) admissible.
Proof.
  intros [V R] [V' R'] [HR H] o ? <-. cbn in HR, H. subst R'.
  pose proof (λ parent name, place_same V V' parent name H) as Hpl.
  assert (∀ parent name, place V parent name → V (child parent name) = V' (child parent name)) as Hc.
  { intros parent name Hp. apply H, (pl_path _ _ _ Hp). }
  destruct o; cbn; unfold impl.
  1,3,5: intros (Hp & ? & ?); rewrite <- Hc by done; by auto.
  - intros (Hp & ? & ? & ?). rewrite <- Hc by done. by auto.
  - intros (Hp & ? & ? & ? & ? & Hq). rewrite <- Hc by done. split_and!; auto. intros q Hm Hin. rewrite <- H by done. by auto.
  - intros (Hp & Hp' & ? & ? & ? & ? & ? & ? & ?). rewrite <- !Hc by done. by split_and!; auto.
  - intros (Hp & ? & ?). rewrite <- Hc by done. by auto.
  - intros (Hp & ? & ?). rewrite <- Hc by done. by auto.
  - intros (Hp & ? & ?). rewrite <- Hc by done. by auto.
Qed.

Lemma apply_same v v' o : same_tree v v' → admissible v o → same_tree (apply_op v o) (apply_op v' o).
Proof.
  destruct v as [V R], v' as [V' R']. intros [HR H] Ha. cbn in HR, H. subst R'.
  assert (∀ parent name, place V parent name → V (child parent name) = V' (child parent name)) as Hc.
  { intros parent name Hp. apply H, (pl_path _ _ _ Hp). }
  destruct o; cbn; (split; [done|]); cbn; intros q Hq; try (apply same_upd; by apply H); try by apply H.
  - destruct Ha as (Hp & _). rewrite (Hc _ _ Hp). apply same_upd, same_upd. by apply H.
  - destruct Ha as (Hp & _). rewrite (Hc _ _ Hp). apply same_upd. by apply H.
  - destruct Ha as (Hp & _). rewrite (Hc _ _ Hp). apply same_upd. by apply H.
Qed.

End operations.

(** ** The handlers are the operations on the tree *)

Section refinement.
Context (backend : string → option node) (read : string → option string).
Context (ws : option WorkspaceManifest) (attrs : string → Z * Z) (base : string) (ud : gmap string Z).
Context (Hbase : rooted_path base) (Hread : ∀ q x, backend q = Some (File x) → read q = Some x).

Abbreviation the_view := (view backend base ud).
Abbreviation the_session := (session_ok backend base ud).
Abbreviation the_run := (run_op read ws attrs).

Definition shows (w : World) (s : WriteSession) (d : OverlayDB) (v : shown) : Prop :=
  the_session (sh_again v) w s d ∧ ∀ q, mount_path q → the_view d (w_disk w) q = sh_view v q.

Lemma allowed_node parent name : permitted ws attrs parent name → allowed (node_of ws attrs parent) parent name.
Proof. by intros (? & ? & ?). Qed.

Lemma noted_again p R : noted backend R (again backend p R) p.
Proof.
  unfold noted, again. destruct (backend p); [|by auto].
  split; [apply union_subseteq_r|right; by apply elem_of_union_l, elem_of_singleton_2].
Qed.

Lemma yields_shows {A} R w s d (out : World * A) a v :
  the_session R w s d → yields backend base ud (sh_again v) w out a (sh_view v) →
  ∃ d' w', out = (w', a) ∧ shows w' s d' v.
Proof.
  intros (Hio & Hcur & Hb & _) (d' & t' & -> & G & Hv). exists d', (with_state d' t' w). split; [done|]. unfold shows, session_ok. by split_and!.
Qed.

Lemma shows_same w s d v v' : shows w s d v → same_tree v v' → shows w s d v'.
Proof. intros [H1 H2] [E Hv]. unfold shows. rewrite <- E. split; [done|]. intros q Hq. by rewrite H2, Hv. Qed.

(** One operation from a session that shows its own view. *)
Lemma step_view R w s d o (v := mkShown (the_view d (w_disk w)) R) :
  the_session R w s d → admissible backend ws attrs v o →
  ∃ d' w', the_run o w = (w', Success) ∧ shows w' s d' (apply_op backend v o).
Proof using Hbase Hread.
  intros Hok Ha. destruct o; cbn in Ha.
  - destruct Ha as (Hp & Hal%allowed_node & Hv). eapply yields_shows; [done|].
    eapply Create_yields; [done|done|done|done|apply noted_again|done].
  - destruct Ha as (Hp & Hal%allowed_node & HR & Hv). eapply yields_shows; [done|]. by eapply Unlink_yields.
  - destruct Ha as (Hp & Hal%allowed_node & Hv). eapply yields_shows; [done|].
    eapply Mkdir_yields; [done|done|done|done|apply noted_again|done].
  - destruct Ha as (Hp & Hal%allowed_node & HR & Hb & Hv & He). eapply yields_shows; [done|]. by eapply Rmdir_yields.
  - destruct Ha as (Hp & Hal%allowed_node & Hv). eapply yields_shows; [done|]. by eapply Symlink_yields.
  - destruct Ha as (Hp & Hp' & Hal%allowed_node & Hro & Hh & Hne & HR & [c Hc] & Hn). eapply yields_shows; [done|].
    cbn [apply_op v sh_view sh_again]. rewrite Hc.
    eapply Rename_yields; [done|done|done|done|done|done|done|done|done|done|apply noted_again|done|done].
  - destruct Ha as (Hp & Hro & [c Hc]). eapply yields_shows; [done|]. cbn [apply_op v sh_view sh_again]. rewrite Hc.
    by eapply write_yields.
  - destruct Ha as (Hp & Hro & [c Hc]). eapply yields_shows; [done|]. cbn [apply_op v sh_view sh_again]. rewrite Hc.
    edestruct truncate_yields as (d' & t' & E & HG); [done|done|done|done|..]; last (exists d', t'; cbn; by run E); done.
  - destruct Ha as (Hp & Hro & [c Hc]). destruct (yields_shows R w s d (the_run (OpChmod parent name mode) w) Success
      (mkShown (upd (the_view d (w_disk w)) (child parent name) (Some (File c))) R)) as (d' & w' & E & Hsh); [done| |].
    + cbn [sh_view sh_again].
      edestruct chmod_yields as (d' & t' & E & HG); [done|done|done|done|..]; last (exists d', t'; cbn; by run E); done.
    + exists d', w'. split; [done|]. eapply shows_same; [done|]. split; [done|]. cbn. intros q _. unfold upd. case_bool_decide; by subst.
Qed.

Lemma step_shows w s d v o :
  shows w s d v → admissible backend ws attrs v o →
  ∃ d' w', the_run o w = (w', Success) ∧ shows w' s d' (apply_op backend v o).
Proof using Hbase Hread.
  intros [Hok Hv] Ha. set (v0 := mkShown (the_view d (w_disk w)) (sh_again v)).
  assert (same_tree v0 v) as Hs by done. assert (admissible backend ws attrs v0 o) as Ha0 by (by rewrite Hs).
  destruct (step_view _ w s d o Hok Ha0) as (d' & w' & E & Hsh). exists d', w'. split; [done|].
  eapply shows_same; [done|]. by eapply apply_same.
Qed.

Lemma run_shows w s d v os :
  shows w s d v → all_admissible backend ws attrs v os →
  ∃ d' w', run_ops read ws attrs os w = (w', replicate (length os) Success) ∧ shows w' s d' (foldl (apply_op backend) v os).
Proof using Hbase Hread.
  revert w d v. induction os as [|o os IH]; intros w d v Hsh Ha; [by exists d, w|].
  destruct Ha as [Ha Has]. destruct (step_shows w s d v o Hsh Ha) as (d1 & w1 & E1 & H1).
  destruct (IH w1 d1 _ H1 Has) as (d2 & w2 & E2 & H2). exists d2, w2. split; [|done].
  cbn. by run E1; run E2.
Qed.

(** What a session says of a path leads to its view. *)
Lemma source_view w s d p :
  active w = Some (s, d) → ws_BasePath s = base → userdirs d = ud → proper_path p →
  node_at backend w p (overlay_source w p) = the_view d (w_disk w) p.
Proof using Hbase.
  intros Ha Hb Hu Hp. assert (w_current w = Some s) as Hcur.
  { unfold active in Ha. destruct (w_current w), (w_db w); congruence. }
  unfold overlay_source, GetPathState. rewrite (under_user_dir_eq _ _ _ _ _ Ha Hu), Ha.
  unfold GetLocalPath. rewrite Hcur, (local_path_eq _ Hbase _ _ Hb Hp). cbn. rewrite Hu.
  unfold view, user_root. rewrite bool_decide_and.
  destruct (bool_decide (length _ = 1%nat) && bool_decide (is_Some (ud !! _))); [done|].
  destruct (deleted d !! _); [done|]. destruct (files d !! _) as [e|]; cbn.
  - destruct (bool_decide (fe_Type e = _)); done.
  - by destruct (in_user_root _ _).
Qed.

(** A lookup finds what the session shows. *)
Lemma lookup_shows w s d v parent name :
  shows w s d v → mount_path (child parent name) → parent ≠ "" →
  shouldHideWorkspacePath (node_of ws attrs parent) (child parent name) = false →
  isWorkspaceSystemPath parent = false → is_results_file (splitPath (child parent name)) = false →
  node_at backend w (child parent name) (Lookup w (node_of ws attrs parent) name) = sh_view v (child parent name).
Proof using Hbase.
  intros [Hok Hv] Hp Hne Hh Hs Hr. rewrite <- Hv by done. unfold Lookup, child_path. cbn [node_of n_path n_session].
  rewrite bool_decide_eq_false_2 by done. fold (child parent name). rewrite Hh, Hs, Hr. cbn [negb andb].
  pose proof Hok as (_ & _ & Hb & _ & G). apply (source_view w s); [by eapply ok_active|done|apply G|apply Hp].
Qed.

End refinement.

(** ** A new session *)

(** A manager without a session, its directory tree set up. *)
Record fresh (w : World) : Prop := {
  fr_io : w_io w = [];
  fr_none : w_current w = None;
  fr_base : rooted_path (w_base w);
  fr_id : proper_elem (w_id w);
  fr_wf : well_formed (w_disk w);
  fr_sessions : w_disk w !! (w_base w +:+ "/sessions") = Some Directory;
  fr_link : w_disk w !! (w_base w +:+ "/current") ≠ Some Directory;
  fr_new x : x = w_base w +:+ "/sessions/" +:+ w_id w ∨ below (w_base w +:+ "/sessions/" +:+ w_id w) x = true → w_disk w !! x = None }.

Definition session_dir (w : World) : string := w_base w +:+ "/sessions/" +:+ w_id w.

Lemma app_inj (a b c : string) : a +:+ b = a +:+ c → b = c.
Proof. intros E. apply (f_equal (str_drop (String.length a))) in E. by rewrite !str_drop_app in E. Qed.

Lemma session_dir_rooted w : fresh w → rooted_path (session_dir w).
Proof.
  intros F. unfold session_dir. change "/sessions/" with ("/" +:+ "sessions" +:+ "/"). rewrite !str_app_assoc.
  apply rooted_app; [apply (fr_base _ F)|]. apply proper_app; [|apply proper_name, (fr_id _ F)].
  apply proper_name. unfold proper_elem. by split_and!.
Qed.

(** The link to the current session lies beside the sessions. *)
Lemma link_apart w r : w_base w +:+ "/current" ≠ session_dir w +:+ r.
Proof. unfold session_dir. rewrite !str_app_assoc. intros E%app_inj. done. Qed.

Lemma link_apart' w r r' : w_base w +:+ "/current" +:+ r ≠ session_dir w +:+ r'.
Proof. unfold session_dir. rewrite !str_app_assoc. intros E%app_inj. done. Qed.

(** The directories a session starts with. *)
Lemma start_dirs w (db := session_dir w +:+ "/overlay.db") : fresh w →
  Forall (λ q, w_disk w !! q = None ∨ w_disk w !! q = Some Directory) (parents db ++ [db]).
Proof.
  intros F. apply Forall_app. split; [|apply Forall_singleton; left; apply (fr_new _ F); right; apply below_spec; by exists "overlay.db"].
  apply Forall_forall. intros x [Hx [r E]]%parents_spec. unfold db in E. change "/overlay.db" with ("/" +:+ "overlay.db") in E.
  destruct (cut_at_slash _ _ _ _ E) as [(u & -> & _)|[[-> _]|[u Eu]]].
  - left. apply (fr_new _ F). right. apply below_spec. by exists u.
  - left. apply (fr_new _ F). by left.
  - unfold session_dir in Eu. change "/sessions/" with ("/sessions" +:+ "/") in Eu. rewrite (str_app_assoc "/sessions"), <- str_app_assoc in Eu.
    right. destruct (cut_at_slash _ _ _ _ Eu) as [(v & -> & Ev)|[[-> _]|[v Ev]]].
    + destruct (fr_id _ F) as (_ & _ & _ & Hs). rewrite Ev, !has_byte_app in Hs. by rewrite orb_true_r in Hs.
    + apply (fr_sessions _ F).
    + apply (fr_wf _ F _ _ _ (fr_sessions _ F)). apply parents_spec. split; [done|]. by exists v.
Qed.

Lemma vacant_more (t : tree) l l' :
  Forall (λ q, t !! q = None ∨ t !! q = Some Directory) l →
  Forall (λ q, (t ∪ dirs_at l') !! q = None ∨ (t ∪ dirs_at l') !! q = Some Directory) l.
Proof.
  intros H. eapply Forall_impl; [exact H|]. intros q Hq. cbn in Hq. rewrite lookup_with_dirs.
  destruct Hq as [->| ->]; [destruct (bool_decide _)|]; auto.
Qed.

(** The disk after both directories were made. *)
Definition started_disk (w : World) : tree :=
  let db := session_dir w +:+ "/overlay.db" in
  w_disk w ∪ dirs_at (parents (session_dir w) ++ [session_dir w]) ∪ dirs_at (parents db ++ [db]).

Lemma session_dir_made w : fresh w →
  Forall (λ q, w_disk w !! q = None ∨ w_disk w !! q = Some Directory) (parents (session_dir w) ++ [session_dir w]).
Proof.
  intros F. pose proof (start_dirs w F) as H. rewrite Forall_forall in H |- *. intros x Hx. apply H, elem_of_app. left.
  assert (session_dir w ∈ parents (session_dir w +:+ "/overlay.db")) as Hin.
  { apply parents_spec. split; [apply rooted_ne, session_dir_rooted, F|]. by exists "overlay.db". }
  apply elem_of_app in Hx as [Hx|Hx%list_elem_of_singleton]; [by eapply parents_trans|by subst].
Qed.

Lemma started_wf w : fresh w → well_formed (started_disk w).
Proof.
  intros F. apply well_formed_dirs; [|by apply vacant_more, start_dirs].
  apply well_formed_dirs; [apply (fr_wf _ F)|by apply session_dir_made].
Qed.

Lemma lookup_started w x : fresh w →
  x ∉ parents (session_dir w +:+ "/overlay.db") → x ≠ session_dir w +:+ "/overlay.db" → started_disk w !! x = w_disk w !! x.
Proof.
  intros F Hx Hne. unfold started_disk. rewrite !lookup_with_dirs. destruct (w_disk w !! x); [done|].
  rewrite !bool_decide_eq_false_2; [done| |].
  - intros [H|H%list_elem_of_singleton]%elem_of_app; done.
  - intros Hin. apply Hx. assert (session_dir w ∈ parents (session_dir w +:+ "/overlay.db")) as Hs.
    { apply parents_spec. split; [apply rooted_ne, session_dir_rooted, F|]. by exists "overlay.db". }
    apply elem_of_app in Hin as [Hin|Hin%list_elem_of_singleton]; [by eapply parents_trans|by subst].
Qed.

Lemma started_base w : fresh w → started_disk w !! session_dir w = Some Directory.
Proof.
  intros F. unfold started_disk. rewrite !lookup_with_dirs. rewrite (fr_new _ F) by by left.
  rewrite bool_decide_eq_true_2; [done|]. apply elem_of_app. right. left.
Qed.

Lemma started_mount w p : fresh w → mount_path p → started_disk w !! local (session_dir w) p = None.
Proof.
  intros F (Hp & Hne & Hb). unfold local. rewrite lookup_started.
  - apply (fr_new _ F). right. apply below_spec. by exists p.
  - done.
  - rewrite parents_spec. intros [_ [r E]]. change "/overlay.db" with ("/" +:+ "overlay.db") in E.
    rewrite !str_app_assoc in E. apply app_inj, app_inj in E.
    apply (f_equal (has_byte slash)) in E. rewrite !has_byte_app in E. cbn in E. by rewrite orb_true_r in E.
  - change "/overlay.db" with ("/" +:+ "overlay.db"). by intros E%app_inj%app_inj.
Qed.

Lemma started_link w : fresh w → started_disk w !! (w_base w +:+ "/current") = w_disk w !! (w_base w +:+ "/current").
Proof.
  intros F. apply lookup_started; [done| |apply link_apart].
  rewrite parents_spec. intros [_ [r E]]. rewrite !str_app_assoc in E. symmetry in E. by apply link_apart' in E.
Qed.

(** Replacing the link changes nothing else. *)
Lemma relink_spec (t : tree) cur target : well_formed t → t !! cur ≠ Some Directory →
  let t' := (GoTree.Symlink Fine target cur (Remove Fine cur t).1).1 in
  well_formed t' ∧ ∀ x, x ≠ cur → t' !! x = t !! x.
Proof.
  intros Hw Hc t'. assert ((Remove Fine cur t).1 = delete cur t) as E.
  { unfold Remove. destruct (t !! cur) as [n|] eqn:En; [by rewrite bool_decide_eq_false_2 by congruence|by rewrite delete_id]. }
  unfold t'. rewrite E. pose proof (well_formed_delete t cur Hw Hc) as Hd. unfold GoTree.Symlink.
  destruct (forallb _ _ && bool_decide _) eqn:Eg; cbn; (split; [|intros x Hx]).
  - apply well_formed_put; [done| |done]. apply andb_true_iff in Eg as [Eg En]. unfold can_put. rewrite Eg.
    apply bool_decide_eq_true in En. by rewrite En.
  - by rewrite lookup_insert_ne, lookup_delete_ne.
  - done.
  - by rewrite lookup_delete_ne.
Qed.

Lemma session_path w : fresh w → PathJoin (PathJoin (w_base w) "sessions") (w_id w) = session_dir w.
Proof.
  intros F. assert (proper_path "sessions") as Hs by (apply proper_name; unfold proper_elem; by split_and!).
  rewrite (PathJoin_rooted (w_base w)) by (done || apply (fr_base _ F)).
  rewrite PathJoin_rooted; [unfold session_dir; by rewrite !str_app_assoc|apply rooted_app; [apply (fr_base _ F)|done]|].
  apply proper_name, (fr_id _ F).
Qed.

Lemma StartSession_fresh w : fresh w →
  ∃ s t, StartSession w = (set_session (Some s) (Some empty_overlay) (set_disk t w), Ok s) ∧ ws_BasePath s = session_dir w ∧
         well_formed t ∧ ∀ x, x ≠ w_base w +:+ "/current" → t !! x = started_disk w !! x.
Proof.
  intros F. pose proof (fr_io _ F) as Hio.
  assert (currentLink w = w_base w +:+ "/current") as Ecur.
  { unfold currentLink. apply PathJoin_rooted; [apply (fr_base _ F)|]. apply proper_name. unfold proper_elem. by split_and!. }
  assert (PathJoin (session_dir w) "overlay.db" = session_dir w +:+ "/overlay.db") as Edb.
  { apply PathJoin_rooted; [by apply session_dir_rooted|]. apply proper_name. unfold proper_elem. by split_and!. }
  destruct (relink_spec (started_disk w) (w_base w +:+ "/current") (session_dir w) (started_wf w F)) as [Hw Ht].
  { rewrite started_link by done. apply (fr_link _ F). }
  eexists (mkWriteSession (w_id w) (w_now w) (session_dir w)), _. split; [|split; [done|exact (conj Hw Ht)]].
  unfold StartSession. run. rewrite (fr_none _ F), (session_path w F), Ecur.
  erewrite bind_run by (apply on_disk_fine; [done|apply MkdirAll_fine, session_dir_made, F]). cbn [negb].
  erewrite bind_run.
  2:{ unfold OpenOverlayDB. rewrite Edb.
      erewrite bind_run by (apply on_disk_fine; [done|apply MkdirAll_fine, vacant_more, start_dirs, F]). cbn [negb].
      erewrite bind_run; [reflexivity|]. unfold next_io. cbn. by rewrite Hio. }
  cbn [negb].
  erewrite bind_run by (apply on_disk_fine; [done|apply surjective_pairing]).
  erewrite bind_run by (apply on_disk_fine; [done|apply surjective_pairing]). done.
Qed.

Lemma start_shows backend w : fresh w →
  ∃ s w', StartSession w = (w', Ok s) ∧ shows backend (session_dir w) ∅ w' s empty_overlay (mkShown backend ∅).
Proof.
  intros F. destruct (StartSession_fresh w F) as (s & t & E & Hs & Hw & Ht). eexists s, _. split; [exact E|].
  assert (∀ p, mount_path p → t !! local (session_dir w) p = None) as Hnone.
  { intros p Hp. rewrite Ht; [by apply started_mount|]. intros Ex. symmetry in Ex. by apply link_apart in Ex. }
  split.
  - unfold session_ok. split_and!; [apply (fr_io _ F)|done|done|done|]. cbn [w_disk set_session set_disk].
    constructor; cbn; try done.
    + intros p n Hp Hn. by rewrite Hnone in Hn.
    + intros p Hp Hn. by rewrite Hnone in Hn.
    + rewrite Ht; [by apply started_base|]. intros Ex. symmetry in Ex. apply (link_apart w ""). by rewrite str_app_nil_r.
    + intros p n Hp _ Hn. by rewrite Hnone in Hn.
    + by intros p [[? ?]|[? ?]].
    + by intros p q [? ?].
  - intros q Hq. cbn. unfold view. replace (user_root ∅ q) with false.
    2:{ symmetry. apply bool_decide_eq_false. by intros [_ [? ?]]. }
    cbn. unfold in_user_root. destruct (splitPath q) as [|? [|? ?]]; [done..|]. by rewrite bool_decide_eq_false_2 by (by intros [? ?]).
Qed.

(** ** The theorem *)

(** C2: Whatever the cluster holds, a new session followed by any sequence of
    the operations [admissible] covers succeeds at every step, and each lookup
    below the root of the mount then finds what the same operations make of
    the cluster's tree.  Covered, in directories that are there, below the
    root of the mount: creations, directories and links where nothing is;
    removals of files and links and renames of files, except at paths of the
    cluster that were removed and made again; removals of empty directories
    the cluster does not have; writes at an offset, truncations and changes of
    the mode of files.  No call on the disk or the database fails, and the
    cluster answers a read of a file with its content. *)
Theorem mount_refines_tree backend read ws attrs w os parent name :
  fresh w → (∀ q x, backend q = Some (File x) → read q = Some x) →
  all_admissible backend ws attrs (mkShown backend ∅) os →
  mount_path (child parent name) → parent ≠ "" →
  shouldHideWorkspacePath (node_of ws attrs parent) (child parent name) = false →
  isWorkspaceSystemPath parent = false → is_results_file (splitPath (child parent name)) = false →
  ∃ w', (StartSession ≫= λ _, run_ops read ws attrs os) w = (w', replicate (length os) Success) ∧
        node_at backend w' (child parent name) (Lookup w' (node_of ws attrs parent) name) =
        sh_view (foldl (apply_op backend) (mkShown backend ∅) os) (child parent name).
Proof.
  intros F Hread Ha Hp Hne Hh Hs Hr. destruct (start_shows backend w F) as (s & w0 & E0 & H0).
  pose proof (session_dir_rooted w F) as Hb.
  destruct (run_shows _ read ws attrs _ _ Hb Hread w0 s _ _ os H0 Ha) as (d' & w' & E & H').
  exists w'. split; [by run E0|]. by eapply lookup_shows.
Qed.

(** *** An instance *)

#[export] Instance proper_elem_dec e : Decision (proper_elem e).
Proof. unfold proper_elem. apply _. Defined.

Lemma proper_path_iff p : Forall proper_elem (Split p slash) ↔ proper_path p.
Proof.
  split.
  - intros H. exists (Split p slash). split_and!; [apply Split_ne|done|by rewrite Join_Split].
  - intros (es & Hne & Hes & ->). by rewrite Split_proper.
Qed.
#[export] Instance proper_path_dec p : Decision (proper_path p).
Proof. refine (cast_if (decide (Forall proper_elem (Split p slash)))); by rewrite <- proper_path_iff. Defined.
#[export] Instance mount_path_dec p : Decision (mount_path p).
Proof. unfold mount_path. apply _. Defined.

Lemma place_iff V parent name :
  mount_path (child parent name) ∧ proper_path parent ∧ proper_elem name ∧
  Forall (λ q, V q = Some Directory) (parents (child parent name)) ↔ place V parent name.
Proof.
  rewrite Forall_forall. split; [by intros (? & ? & ? & ?)|]. intros []. by split_and!.
Qed.
#[export] Instance place_dec V parent name : Decision (place V parent name).
Proof.
  refine (cast_if (decide (mount_path (child parent name) ∧ proper_path parent ∧ proper_elem name ∧
    Forall (λ q, V q = Some Directory) (parents (child parent name))))); by rewrite <- place_iff.
Defined.
#[export] Instance permitted_dec ws attrs parent name : Decision (permitted ws attrs parent name).
Proof. unfold permitted. apply _. Defined.

(** A check of [admissible], for all but the removal of directories. *)
Definition is_file (x : option node) : bool := match x with Some (File _) => true | _ => false end.
Definition check_op (backend : string → option node) ws attrs (v : shown) (o : op) : bool :=
  let '(mkShown V R) := v in
  match o with
  | OpCreate parent name | OpMkdir parent name | OpSymlink parent name _ =>
      bool_decide (place V parent name ∧ permitted ws attrs parent name ∧ V (child parent name) = None)
  | OpUnlink parent name =>
      bool_decide (place V parent name ∧ permitted ws attrs parent name ∧ child parent name ∉ R) &&
      is_file (V (child parent name))
  | OpRmdir parent name => false
  | OpRename parent name newParent newName =>
      bool_decide (place V parent name ∧ place V newParent newName ∧ permitted ws attrs parent name ∧
        isWorkspaceReadOnlyPath (child newParent newName) = false ∧
        shouldHideWorkspacePath (node_of ws attrs parent) (child newParent newName) = false ∧
        child parent name ≠ child newParent newName ∧ child parent name ∉ R) &&
      is_file (V (child parent name)) && (bool_decide (V (child newParent newName) = None) || is_file (V (child newParent newName)))
  | OpWrite parent name _ _ _ | OpTruncate parent name _ | OpChmod parent name _ =>
      bool_decide (place V parent name ∧ isWorkspaceReadOnlyPath (child parent name) = false) &&
      is_file (V (child parent name))
  end.
Fixpoint check_ops backend ws attrs (v : shown) (os : list op) : bool :=
  match os with
  | [] => true
  | o :: os => check_op backend ws attrs v o && check_ops backend ws attrs (apply_op backend v o) os
  end.

Lemma is_file_spec x : is_file x = true → ∃ c, x = Some (File c).
Proof. destruct x as [[]|]; try done. eauto. Qed.

Lemma check_op_sound backend ws attrs v o : check_op backend ws attrs v o = true → admissible backend ws attrs v o.
Proof.
  destruct v as [V R]. destruct o; cbn [check_op admissible]; rewrite ?andb_true_iff, ?orb_true_iff, ?bool_decide_eq_true.
  1,3,5: done.
  - intros [(? & ? & ?) [c ?]%is_file_spec]. split_and!; eauto.
  - done.
  - intros [[(? & ? & ? & ? & ? & ? & ?) ?%is_file_spec] [?|?%is_file_spec]]; split_and!; auto.
  - intros [[? ?] ?%is_file_spec]. by split_and!.
  - intros [[? ?] ?%is_file_spec]. by split_and!.
  - intros [[? ?] ?%is_file_spec]. by split_and!.
Qed.

Lemma check_ops_sound backend ws attrs v os : check_ops backend ws attrs v os = true → all_admissible backend ws attrs v os.
Proof.
  revert v. induction os as [|o os IH]; intros v; [done|]. cbn [check_ops all_admissible]. rewrite andb_true_iff.
  intros [?%check_op_sound ?%IH]. done.
Qed.

Lemma well_formed_iff (t : tree) :
  map_Forall (λ p _, Forall (λ q, t !! q = Some Directory) (parents p)) t → well_formed t.
Proof. intros H p n q Hp Hq. specialize (H p n Hp). rewrite Forall_forall in H. by apply H. Qed.

(** A cluster with two files in a repository, and a new manager. *)
Definition cluster : tree :=
  {["github.com" := Directory; "github.com/o" := Directory; "github.com/o/r" := Directory;
    "github.com/o/r/a" := File "one"; "github.com/o/r/b" := File "two"]}.
Definition cluster_read (p : string) : option string := match cluster !! p with Some (File c) => Some c | _ => None end.
Definition new_world : World :=
  mkWorld "/o" None None {["/o" := Directory; "/o/sessions" := Directory; "/o/committed" := Directory]} 7 "id" "stamp"
    (λ _, (420, 0, 0)) [].

Lemma new_world_fresh : fresh new_world.
Proof.
  constructor.
  - done.
  - done.
  - exists "o". split; [|done]. by apply (bool_decide_unpack _); vm_compute.
  - by apply (bool_decide_unpack _); vm_compute.
  - apply well_formed_iff. by apply (bool_decide_unpack _); vm_compute.
  - by vm_compute.
  - by vm_compute.
  - intros x Hx. destruct (w_disk new_world !! x) as [n|] eqn:E; [|done].
    assert (map_Forall (λ y _, ¬ (y = "/o/sessions/id" ∨ below "/o/sessions/id" y = true)) (w_disk new_world)) as H
      by (apply (bool_decide_unpack _); by vm_compute).
    by destruct (H x n E).
Qed.

Definition session_ops : list op :=
  let r := "github.com/o/r" in
  [OpCreate r "n"; OpWrite r "n" false 0 "new"; OpWrite r "a" false 3 "!"; OpTruncate r "a" 2; OpChmod r "a" 493; OpUnlink r "b";
   OpMkdir r "d"; OpRename r "n" (r +:+ "/d") "m"; OpSymlink r "l" "d/m"; OpMkdir r "e"; OpCreate r "b"; OpUnlink (r +:+ "/d") "m"].

(** In a repository with two files: one is changed, one replaced, and one
    made, moved and removed. *)
Lemma mount_refines_tree_witness :
  ∃ w', (StartSession ≫= λ _, run_ops cluster_read None (λ _, (420, 0)) session_ops) new_world
          = (w', replicate (length session_ops) Success) ∧
        node_at (cluster !!.) w' (child "github.com/o/r" "a") (Lookup w' (node_of None (λ _, (420, 0)) "github.com/o/r") "a")
          = Some (File "on").
Proof.
  destruct (mount_refines_tree (cluster !!.) cluster_read None (λ _, (420, 0)) new_world session_ops "github.com/o/r" "a")
    as (w' & E & H).
  - apply new_world_fresh.
  - intros q x H. unfold cluster_read. cbn in H. by rewrite H.
  - apply check_ops_sound. by vm_compute.
  - by apply (bool_decide_unpack _); vm_compute.
  - done.
  - by vm_compute.
  - by vm_compute.
  - by vm_compute.
  - exists w'. split; [exact E|]. etransitivity; [exact H|]. by vm_compute.
Defined.
