(* ===== verification/MountReports.v ===== *)
(** * What a session reports

    The changes a session reports (internal/fuse/session.go) and the
    directories it lists (internal/fuse/overlay.go), against what its lookups
    find: nothing that differs from the cluster is left out of the changes,
    and a directory lists the names a lookup finds in it. *)

From stdpp Require Import options.
From S2P Require Import Prelude GoStrings GoSort GoRange GoPath GoTree Overlay Session Mount MountProps MountView.

(** ** Reading the database *)

Lemma entries_of_perm {A} (m : gmap string A) : entries_of m ≡ₚ map_to_list m.
Proof.
  unfold entries_of, sort_Strings. rewrite merge_sort_Permutation.
  assert (∀ l, Forall (λ kv : string * A, m !! kv.1 = Some kv.2) l → omap (λ k, pair k <$> m !! k) l.*1 = l) as H.
  { induction l as [|[k v] l IH]; intros Hl; [done|]. apply Forall_cons in Hl as [Hk Hl]. cbn in *. by rewrite Hk, IH. }
  rewrite H; [done|]. apply Forall_forall. intros [k v] Hk. by apply elem_of_map_to_list in Hk.
Qed.

Lemma elem_of_entries {A} (m : gmap string A) k v : (k, v) ∈ entries_of m ↔ m !! k = Some v.
Proof. by rewrite entries_of_perm, elem_of_map_to_list. Qed.

Lemma NoDup_entries {A} (m : gmap string A) : NoDup (entries_of m).*1.
Proof. rewrite entries_of_perm. apply NoDup_fst_map_to_list. Qed.

Lemma filter_Forall_id {A} (P : A → Prop) `{∀ x, Decision (P x)} l : Forall P l → filter P l = l.
Proof.
  induction l as [|x l IH]; [done|]. intros [Hx Hl]%Forall_cons. rewrite filter_cons_True by done. by rewrite IH.
Qed.

Lemma filter_Forall_none {A} (P : A → Prop) `{∀ x, Decision (P x)} l : Forall (λ x, ¬ P x) l → filter P l = [].
Proof.
  induction l as [|x l IH]; [done|]. intros [Hx Hl]%Forall_cons. rewrite filter_cons_False by done. by apply IH.
Qed.

(** ** Changes *)

Lemma change_type_visible ct : change_type ct ∨ removal_type ct → isVisibleChangeType ct = true.
Proof.
  unfold change_type, removal_type.
  intros [H|H]; repeat (apply elem_of_cons in H as [->|H]; [done|]); by apply not_elem_of_nil in H.
Qed.

Lemma removal_not_change ct : change_type ct → ¬ removal_type ct.
Proof.
  unfold change_type, removal_type. intros H. repeat (apply elem_of_cons in H as [->|H]; [by apply (bool_decide_unpack _)|]).
  by apply not_elem_of_nil in H.
Qed.

Section changes.
Context `{Hsort : GoSort, Hrange : GoRange} (base : string) (d : OverlayDB) (Hrep : ∀ p, reported base d p).

Lemma deleted_reported k v : deleted d !! k = Some v → de_Path (deleted_entry k v) = k ∧ removal_type (de_ChangeType (deleted_entry k v)).
Proof using Hrep.
  intros Hk. destruct (proj2 (Hrep k) v Hk) as (e & -> & Hp & Ht). cbn. split; [by case_bool_decide|].
  rewrite Ht. left.
Qed.

(** The changes are the entries and the removals, each once. *)
Lemma GetChanges_perm w s : active w = Some (s, d) →
  ch_Path <$> GetChanges w ≡ₚ (map_to_list (files d)).*1 ++ (map_to_list (deleted d)).*1.
Proof using Hrep.
  intros Ha. unfold GetChanges. rewrite Ha, fmap_app, <- !list_fmap_compose. apply Permutation_app.
  - rewrite filter_Forall_id.
    + rewrite range_perm. erewrite list_fmap_ext; [done|]. by intros _ [k e] _.
    + apply Forall_forall. intros [k e] Hk%elem_of_range. apply change_type_visible. left. by eapply entry_ok_type, (proj1 (Hrep k)).
  - unfold GetAllDeletedEntries. assert (∀ e, e ∈ ((λ '(k, v), deleted_entry k v) <$> entries_of (deleted d)) →
      removal_type (de_ChangeType e)) as Hrem.
    { intros e ([k v] & -> & Hk%elem_of_entries)%list_elem_of_fmap. by apply deleted_reported. }
    rewrite filter_Forall_id.
    + rewrite sort_slice_perm, <- list_fmap_compose, entries_of_perm. erewrite list_fmap_ext; [done|].
      intros i [k v] Hi. cbn. apply deleted_reported. apply elem_of_map_to_list. by eapply list_elem_of_lookup_2.
    + apply Forall_forall. intros e. rewrite sort_slice_perm. intros He. apply change_type_visible. right. by apply Hrem.
Qed.

Lemma GetChanges_all w s p : active w = Some (s, d) → is_Some (files d !! p) ∨ is_Some (deleted d !! p) → p ∈ ch_Path <$> GetChanges w.
Proof using Hrep.
  intros Ha. rewrite (GetChanges_perm w s Ha), elem_of_app, !list_elem_of_fmap.
  intros [[x Hx]|[x Hx]]; [left|right]; exists (p, x); (split; [done|by apply elem_of_map_to_list]).
Qed.

Lemma GetChanges_NoDup w s : (∀ p, is_Some (files d !! p) → deleted d !! p = None) → active w = Some (s, d) → NoDup (ch_Path <$> GetChanges w).
Proof using Hrep.
  intros Hdis Ha. rewrite (GetChanges_perm w s Ha). apply NoDup_app. split_and!; [apply NoDup_fst_map_to_list| |apply NoDup_fst_map_to_list].
  intros k ([k' e] & -> & Hk%elem_of_map_to_list)%list_elem_of_fmap ([k2 v] & Ek & Hk2%elem_of_map_to_list)%list_elem_of_fmap.
  cbn in *. subst k2. rewrite Hdis in Hk2; [done|by eexists].
Qed.

Lemma GetChanges_elem w s c : active w = Some (s, d) → c ∈ GetChanges w →
  (is_Some (files d !! ch_Path c) ∧ change_type (ch_Type c)) ∨ (is_Some (deleted d !! ch_Path c) ∧ removal_type (ch_Type c)).
Proof using Hrep.
  intros Ha. unfold GetChanges. rewrite Ha. rewrite elem_of_app, !list_elem_of_fmap. intros [([k e] & -> & Hk)|(e & -> & He)].
  - apply list_elem_of_filter in Hk as [_ Hk%elem_of_range]. left. cbn. rewrite Hk. split; [by eexists|]. by eapply entry_ok_type, (proj1 (Hrep k)).
  - apply list_elem_of_filter in He as [_ He]. unfold GetAllDeletedEntries in He. rewrite sort_slice_perm in He.
    apply list_elem_of_fmap in He as ([k v] & -> & Hk%elem_of_entries). right. cbn.
    destruct (deleted_reported k v Hk) as [-> Ht]. rewrite Hk. split; [by eexists|done].
Qed.

End changes.

(** C15: After a new session and any sequence of operations that [admissible]
    covers, the changes the session reports name every path where the mount
    differs from the cluster, no path twice, and a reported change is a
    removal exactly when a lookup no longer finds its path.  Not covered are,
    among others, removals of directories that are not empty, after which the
    changes are wrong ([MountFaults.rmdir_removes_content]). *)
Theorem changes_report_session `{Hsort : GoSort, Hrange : GoRange} backend read ws attrs w os :
  fresh w → (∀ q x, backend q = Some (File x) → read q = Some x) →
  all_admissible backend ws attrs (mkShown backend ∅) os →
  ∃ w', (StartSession ≫= λ _, run_ops read ws attrs os) w = (w', replicate (length os) Success) ∧
        let V := sh_view (foldl (apply_op backend) (mkShown backend ∅) os) in
        (∀ p, mount_path p → V p ≠ backend p → p ∈ ch_Path <$> GetChanges w') ∧
        NoDup (ch_Path <$> GetChanges w') ∧
        (∀ c, c ∈ GetChanges w' → mount_path (ch_Path c) ∧ (removal_type (ch_Type c) ↔ V (ch_Path c) = None)).
Proof.
  intros F Hread Ha. destruct (start_shows backend w F) as (s & w0 & E0 & H0).
  pose proof (session_dir_rooted w F) as Hb.
  destruct (run_shows _ read ws attrs _ _ Hb Hread w0 s _ _ os H0 Ha) as (d' & w' & E & [Hok HV]).
  exists w'. split; [by run E0|]. pose proof (ok_active _ _ _ _ _ _ _ Hok) as Hact. pose proof Hok as (_ & _ & _ & _ & G).
  pose proof (g_reported _ _ _ _ _ _ G) as Hrep.
  assert (∀ p, user_root ∅ p = false) as Hu by (intros p; apply bool_decide_eq_false; by intros [_ [? ?]]).
  assert (∀ p, in_user_root ∅ p = false) as Hi.
  { intros p. unfold in_user_root. destruct (splitPath p) as [|? [|? ?]]; [done..|]. apply bool_decide_eq_false. by intros [? ?]. }
  cbn zeta. split_and!.
  - intros p Hp Hne. apply (GetChanges_all _ d' Hrep w' s p Hact). rewrite <- HV in Hne by done. unfold view in Hne.
    rewrite Hu, Hi in Hne. destruct (deleted d' !! p) as [v|]; [right; by eexists|]. destruct (files d' !! p); [left; by eexists|done].
  - apply (GetChanges_NoDup _ d' Hrep w' s); [apply (g_disjoint _ _ _ _ _ _ G)|done].
  - intros c Hc. destruct (GetChanges_elem _ d' Hrep w' s c Hact Hc) as [[[e He] Ht]|[[v Hd] Ht]].
    + assert (mount_path (ch_Path c)) as Hm by (apply (g_keys _ _ _ _ _ _ G); rewrite He; left; by eexists).
      split; [done|]. split; [intros Hr; by apply removal_not_change in Ht|]. rewrite <- HV by done. intros Hn.
      destruct (g_local _ _ _ _ _ _ G _ e Hm He) as (n & Hn' & _). by rewrite (vacant _ _ _ _ _ _ _ G Hm Hn) in Hn'.
    + assert (mount_path (ch_Path c)) as Hm by (apply (g_keys _ _ _ _ _ _ G); rewrite Hd; right; by eexists).
      split; [done|]. split; [intros _|done]. rewrite <- HV by done. unfold view. by rewrite Hu, Hd.
Qed.

(** *** An instance *)

Lemma changes_report_session_witness :
  ∃ w', (StartSession ≫= λ _, run_ops cluster_read None (λ _, (420, 0)) session_ops) new_world
          = (w', replicate (length session_ops) Success) ∧
        "github.com/o/r/a" ∈ ch_Path <$> GetChanges (H := go_insertion_sort) (H0 := go_map_to_list) w'.
Proof.
  destruct (@changes_report_session go_insertion_sort go_map_to_list (cluster !!.) cluster_read None (λ _, (420, 0)) new_world session_ops)
    as (w' & E & Hd & _).
  - apply new_world_fresh.
  - intros q x H. unfold cluster_read. cbn in H. by rewrite H.
  - apply check_ops_sound. by vm_compute.
  - exists w'. split; [exact E|]. apply Hd; [by apply (bool_decide_unpack _); vm_compute|]. vm_compute. congruence.
Defined.

(** ** Listings *)

Abbreviation S_IFMT := 61440 (only parsing).
Definition type_bits (n : node) : Z := match n with Directory => S_IFDIR | Link _ => S_IFLNK | File _ => S_IFREG end.

(** A listing has [name] with the file type [k]. *)
Definition lists (es : list DirEntry) (name : string) (k : Z) : Prop :=
  ∃ e, e ∈ es ∧ d_Name e = name ∧ Z.land (d_Mode e) S_IFMT = k.
(** A tree has it in [dir]. *)
Definition has_child (V : string → option node) (dir name : string) (k : Z) : Prop :=
  ∃ n, V (child dir name) = Some n ∧ type_bits n = k.

Definition named (m : gmap string DirEntry) : Prop := ∀ k e, m !! k = Some e → d_Name e = k.

Lemma put_entries_named es m : named m → named (put_entries es m).
Proof.
  unfold put_entries. revert m. induction es as [|e es IH]; intros m Hm; [done|]. cbn. apply IH. intros k e'.
  rewrite lookup_insert_Some. intros [[<- <-]|[_ ?]]; [done|by apply Hm].
Qed.

Lemma put_entries_lookup es m name :
  (name ∉ d_Name <$> es ∧ put_entries es m !! name = m !! name) ∨
  (∃ e, e ∈ es ∧ d_Name e = name ∧ put_entries es m !! name = Some e).
Proof.
  unfold put_entries. revert m. induction es as [|e es IH]; intros m; cbn [foldl fmap list_fmap].
  { left. split; [apply not_elem_of_nil|done]. }
  destruct (IH (<[d_Name e := e]> m)) as [[Hn E]|(e' & He & Hd & E)]; [|right; exists e'; by rewrite elem_of_cons; auto].
  destruct (decide (d_Name e = name)) as [<-|Hne].
  - right. exists e. rewrite E, lookup_insert_eq. split_and!; [left|done|done].
  - left. rewrite E, lookup_insert_ne by done. split; [|done]. rewrite elem_of_cons. by intros [?|?].
Qed.

Lemma delete_all_lookup (l : list string) (m : gmap string DirEntry) name :
  foldl (λ m name, delete name m) m l !! name = if bool_decide (name ∈ l) then None else m !! name.
Proof.
  revert m. induction l as [|x l IH]; intros m; cbn [foldl]; [done|]. rewrite IH.
  destruct (decide (x = name)) as [->|Hne].
  - rewrite lookup_delete_eq, (bool_decide_eq_true_2 (name ∈ name :: l)) by left. by destruct (bool_decide _).
  - rewrite lookup_delete_ne by done. rewrite (bool_decide_ext (name ∈ x :: l) (name ∈ l)); [done|].
    rewrite elem_of_cons. naive_solver.
Qed.

(** The direct children of a directory. *)
Lemma elem_of_children {A} dir (m : gmap string A) name v : dir ≠ "" → has_byte slash name = false →
  (name, v) ∈ direct_children dir m ↔ m !! child dir name = Some v.
Proof.
  intros Hd Hn. unfold direct_children, child. rewrite bool_decide_eq_false_2 by done. rewrite list_elem_of_omap. split.
  - intros ([k x] & Hk%elem_of_entries & E). destruct (HasPrefix k (dir +:+ "/")) eqn:Ep; [|done].
    apply HasPrefix_spec in Ep as [r ->]. cbn in E. rewrite TrimPrefix_app in E. destruct (negb _); [|done].
    injection E as -> ->. by rewrite str_app_assoc in Hk.
  - intros Hk. exists (dir +:+ "/" +:+ name, v). split; [by apply elem_of_entries|].
    rewrite <- str_app_assoc, TrimPrefix_app, Hn. rewrite (proj2 (HasPrefix_spec _ _)) by by exists name. done.
Qed.

Lemma elem_of_toSlice `{Hsort : GoSort} m name k : named m →
  lists (toSlice m) name k ↔ ∃ e, m !! name = Some e ∧ Z.land (d_Mode e) S_IFMT = k.
Proof.
  intros Hm. unfold lists, toSlice. setoid_rewrite sort_slice_perm. setoid_rewrite list_elem_of_fmap. split.
  - intros (e & ([x y] & -> & Hx%elem_of_map_to_list) & Hn & Hk). cbn in *. exists y. split; [|done].
    by rewrite <- Hn, (Hm x y Hx).
  - intros (e & He & Hk). exists e. split_and!; [|by apply Hm|done]. exists (name, e). split; [done|by apply elem_of_map_to_list].
Qed.

Lemma overlay_entry_type dir name e : Z.land (d_Mode (overlay_entry dir name e)) S_IFMT =
  match fe_Type e with FileEntryDir => S_IFDIR | FileEntrySymlink => S_IFLNK | FileEntryRegular => S_IFREG end.
Proof.
  cbn. rewrite Z.land_lor_distr_l, <- Z.land_assoc. change (Z.land 511 S_IFMT) with 0. rewrite Z.land_0_r. by destruct (fe_Type e).
Qed.

Lemma overlay_listed dir d m name : dir ≠ "" → has_byte slash name = false →
  put_entries ((λ '(name, e), overlay_entry dir name e) <$> ListFilesUnderDir d dir) m !! name =
  match files d !! child dir name with Some e => Some (overlay_entry dir name e) | None => m !! name end.
Proof.
  intros Hd Hs. destruct (put_entries_lookup ((λ '(name, e), overlay_entry dir name e) <$> ListFilesUnderDir d dir) m name)
    as [[Hno ->]|(e & He & Hn & ->)].
  - destruct (files d !! child dir name) as [fe|] eqn:Ef; [|done]. destruct Hno. apply list_elem_of_fmap.
    exists (overlay_entry dir name fe). split; [done|]. apply list_elem_of_fmap. exists (name, fe). split; [done|].
    by apply elem_of_children.
  - apply list_elem_of_fmap in He as ([x fe] & -> & Hx). cbn in Hn. subst x. apply elem_of_children in Hx; [|done..]. by rewrite Hx.
Qed.

Lemma deletion_listed dir d name : dir ≠ "" → has_byte slash name = false →
  bool_decide (name ∈ ListDeletedUnderDir d dir) = bool_decide (is_Some (deleted d !! child dir name)).
Proof.
  intros Hd Hs. apply bool_decide_ext. unfold ListDeletedUnderDir. rewrite list_elem_of_fmap. split.
  - intros ([x y] & -> & Hx). cbn in *. apply elem_of_children in Hx; [|done..]. by eexists.
  - intros [y Hy]. exists (name, y). split; [done|]. by apply elem_of_children.
Qed.

(** A listing of the cluster put into a map. *)
Lemma backend_listed (V : string → option node) es dir name k : (∀ k, lists es name k ↔ has_child V dir name k) →
  (∃ e, put_entries es ∅ !! name = Some e ∧ Z.land (d_Mode e) S_IFMT = k) ↔ has_child V dir name k.
Proof.
  intros Hes. rewrite <- Hes. destruct (put_entries_lookup es ∅ name) as [[Hno E]|(e & He & Hen & E)]; rewrite E.
  - rewrite lookup_empty. split; [by intros (? & ? & _)|]. intros (e & He & Hen & _). destruct Hno.
    apply list_elem_of_fmap. by exists e.
  - split; [intros (? & [= <-] & Hk); by exists e|]. intros Hl. exists e. split; [done|].
    assert (lists es name (Z.land (d_Mode e) S_IFMT)) as Hl2 by by exists e.
    apply Hes in Hl as (n & Hn & <-). apply Hes in Hl2 as (n2 & Hn2' & <-). congruence.
Qed.

(** One directory of a session. *)
Lemma listing_shows `{Hsort : GoSort} backend base ud w s d v es dir name k :
  shows backend base ud w s d v → proper_path dir → proper_elem name → mount_path (child dir name) →
  in_user_root ud (child dir name) = false →
  (∀ k, lists es name k ↔ has_child backend dir name k) →
  lists (MergeReadDir w (Some es) dir) name k ↔ has_child (sh_view v) dir name k.
Proof.
  intros [Hok HV] Hdir Hname Hm Hi Hes. pose proof Hok as (_ & _ & _ & Hdb & G).
  pose proof (proper_ne _ Hdir) as Hne. pose proof Hname as (_ & _ & _ & Hs).
  pose proof (user_root_child ud dir name Hdir Hname) as Hu. fold (child dir name) in Hu.
  unfold MergeReadDir, has_child. rewrite Hdb, bool_decide_eq_false_2 by done. rewrite <- HV by done. unfold view. rewrite Hu, Hi.
  rewrite elem_of_toSlice.
  2:{ intros x e. rewrite delete_all_lookup. destruct (bool_decide _); [done|].
      apply put_entries_named, put_entries_named. intros ? ?. by rewrite lookup_empty. }
  rewrite delete_all_lookup, deletion_listed, overlay_listed by done.
  destruct (deleted d !! child dir name) as [y|]; cbn [default].
  { rewrite bool_decide_eq_true_2 by by eexists. naive_solver. }
  rewrite bool_decide_eq_false_2 by by intros [? ?].
  destruct (files d !! child dir name) as [fe|] eqn:Ef; [|by apply backend_listed].
  destruct (g_local _ _ _ _ _ _ G _ fe Hm Ef) as (n & Hn & Hk). unfold kind_of in Hk. rewrite Hn.
  assert (∃ n', (if bool_decide (fe_Type fe = FileEntrySymlink) then Some (Link (fe_SymlinkTarget fe)) else Some n) = Some n' ∧
                type_bits n' = Z.land (d_Mode (overlay_entry dir name fe)) S_IFMT) as (n' & -> & Et).
  { rewrite overlay_entry_type. destruct (fe_Type fe); [destruct Hk as [c ->]|subst..]; by eexists. }
  split; intros (x & [= <-] & <-); eauto.
Qed.

(** C18: In every directory of a mount, after a new session and any sequence
    of operations that [admissible] covers, the merged listing has a name with
    a file type exactly when the tree has it there with that type, given that
    the cluster's own listing is right.  Renames of links are not covered: a
    renamed link is listed as a file
    ([MountFaults.renamed_link_listed_as_file]). *)
Theorem listing_agrees_with_tree `{Hsort : GoSort} backend read ws attrs w os es dir name k :
  fresh w → (∀ q x, backend q = Some (File x) → read q = Some x) →
  all_admissible backend ws attrs (mkShown backend ∅) os →
  proper_path dir → proper_elem name → mount_path (child dir name) →
  (∀ k, lists es name k ↔ has_child backend dir name k) →
  ∃ w', (StartSession ≫= λ _, run_ops read ws attrs os) w = (w', replicate (length os) Success) ∧
        (lists (MergeReadDir w' (Some es) dir) name k ↔
         has_child (sh_view (foldl (apply_op backend) (mkShown backend ∅) os)) dir name k).
Proof.
  intros F Hread Ha Hd Hn Hm Hes. destruct (start_shows backend w F) as (s & w0 & E0 & H0).
  pose proof (session_dir_rooted w F) as Hb.
  destruct (run_shows _ read ws attrs _ _ Hb Hread w0 s _ _ os H0 Ha) as (d' & w' & E & H').
  exists w'. split; [by run E0|]. eapply listing_shows; [done..| |done].
  unfold in_user_root. destruct (splitPath _) as [|? [|? ?]]; [done..|]. apply bool_decide_eq_false. by intros [? ?].
Qed.

(** *** An instance *)

Lemma listing_agrees_with_tree_witness :
  ∃ w', (StartSession ≫= λ _, run_ops cluster_read None (λ _, (420, 0)) session_ops) new_world
          = (w', replicate (length session_ops) Success) ∧
        lists (MergeReadDir (H := go_insertion_sort) w' (Some [mkDirEntry "a" (Z.lor 420 S_IFREG) 1; mkDirEntry "b" (Z.lor 420 S_IFREG) 2])
                 "github.com/o/r") "d" S_IFDIR.
Proof.
  destruct (@listing_agrees_with_tree go_insertion_sort (cluster !!.) cluster_read None (λ _, (420, 0)) new_world session_ops
              [mkDirEntry "a" (Z.lor 420 S_IFREG) 1; mkDirEntry "b" (Z.lor 420 S_IFREG) 2] "github.com/o/r" "d" S_IFDIR)
    as (w' & E & Hl).
  - apply new_world_fresh.
  - intros q x H. unfold cluster_read. cbn in H. by rewrite H.
  - apply check_ops_sound. by vm_compute.
  - by apply (bool_decide_unpack _); vm_compute.
  - by apply (bool_decide_unpack _); vm_compute.
  - by apply (bool_decide_unpack _); vm_compute.
  - intros k. split.
    + intros (e & He & Hn & _). apply elem_of_cons in He as [->|He]; [done|]. by apply list_elem_of_singleton in He as ->.
    + intros (n & Hn & _). by vm_compute in Hn.
  - exists w'. split; [exact E|]. apply Hl. exists Directory. split; [by vm_compute|done].
Defined.
