(* ===== verification/MountFaults.v ===== *)
(** * Failing calls

    What the handlers of a mount do when a call on the disk or the database
    fails: an entry that could not be made or removed leaves the mount as it
    was.  The examples at the end run the handlers where the mount does not
    show what was asked for. *)

From stdpp Require Import options.
From S2P Require Import Prelude GoStrings GoSort GoRange GoPath GoTree Overlay Session Mount MountProps MountView.

(** ** Any outcome *)

(** The world after calls that changed the disk only. *)
Definition with_disk (t : tree) (l : list io) (w : World) : World := set_io l (set_disk t w).

Lemma on_disk_any {A} (f : io → tree → tree * A) t l w :
  ∃ o l', on_disk f (with_disk t l w) = (with_disk (f o t).1 l' w, (f o t).2).
Proof.
  unfold on_disk, mbind, M_bind, next_io, act, with_disk. cbn. destruct l as [|o l].
  - exists Fine, []. cbn. by destruct (f Fine t).
  - exists o, l. cbn. by destruct (f o t).
Qed.

Lemma Update_any f t l w : ∃ w' b l', Update f (with_disk t l w) = (w', b) ∧ (b = false → w' = with_disk t l' w).
Proof.
  unfold Update, mbind, M_bind, next_io, act. cbn. destruct l as [|[|r] l]; cbn; destruct (w_db w);
    (eexists _, _, l; by split) || (eexists _, _, []; by split).
Qed.

Lemma start_any t l w s : w_current w = Some s → StartSession (with_disk t l w) = (with_disk t l w, Ok s).
Proof. intros E. by apply StartSession_active. Qed.

Section faults.
Context (backend : string → option node) (base : string) (ud : gmap string Z) (Hbase : rooted_path base).
Context (R : gset string) (w : World) (s : WriteSession) (d : OverlayDB).
Context (Hok : session_ok backend base ud R w s d).

Abbreviation the_view := (view backend base ud).
Abbreviation the_grows := (grows backend base ud).

Lemma the_good : good backend base ud R d (w_disk w).
Proof using Hok. by destruct Hok as (_ & _ & _ & _ & ?). Qed.

(** New directories among those above a path that is shown. *)
Lemma dirs_grow p t l : mount_path p → shown_dirs backend base ud d (w_disk w) p →
  the_grows d (w_disk w) t [local base p] → Forall (λ x, x ∈ parents (local base p) ++ [local base p]) l →
  the_grows d (w_disk w) (t ∪ dirs_at l) [local base p].
Proof using Hbase Hok.
  intros Hp Hs Hg Hl x Hx. rewrite lookup_with_dirs. destruct (Hg x Hx) as [E|(E0 & E & Hv)].
  - rewrite E. destruct (w_disk w !! x) eqn:Ex; [by left|]. case_bool_decide as Hin; [|by left].
    rewrite Forall_forall in Hl. specialize (Hl x Hin). apply elem_of_app in Hl as [Hl|Hl%list_elem_of_singleton]; [|set_solver].
    right. split_and!; [done..|].
    destruct (parents_vacant _ _ _ _ _ _ _ _ the_good Hp Hs Hl) as [?|[_ ?]]; [congruence|done].
  - rewrite E. by right.
Qed.

Lemma MkdirAll_any o x t : ∃ l, (MkdirAll o x t).1 = t ∪ dirs_at l ∧ Forall (λ y, y ∈ parents x ++ [x]) l.
Proof using Type.
  unfold MkdirAll. destruct o as [|r].
  - destruct (forallb _ _); cbn; [|exists []; split; [unfold dirs_at; cbn; by rewrite (right_id_L ∅ (∪))|done]].
    eexists. split; [done|]. by apply Forall_forall.
  - cbn. eexists. split; [done|]. apply Forall_forall. intros y [_ Hy]%list_elem_of_filter. done.
Qed.

(** What is at the path itself is not shown as long as it is not tracked. *)
Lemma untracked_view p t : mount_path p → user_root ud p = false → in_user_root ud p = false → the_view d (w_disk w) p = None →
  the_grows d (w_disk w) t [local base p] → ∀ q, mount_path q → the_view d t q = the_view d (w_disk w) q.
Proof using Hok.
  intros Hp Hur Hin Hv Hg q Hq. destruct (decide (q = p)) as [->|Hne].
  - pose proof (vacant _ _ _ _ _ _ _ the_good Hp Hv) as Hl. rewrite Hv. unfold view in Hv |- *. rewrite Hur, Hin in Hv |- *.
    destruct (deleted d !! p); [done|]. destruct (files d !! p) as [e|] eqn:E; [|done].
    destruct (g_local _ _ _ _ _ _ the_good p e Hp E) as (n & ? & _). congruence.
  - eapply (view_frame _ _ _ _ _ _ _ _ _ the_good); [done..|]. destruct (Hg (local base q)) as [?|(? & _ & ?)]; auto.
    intros Hx%list_elem_of_singleton. by apply local_inj in Hx.
Qed.

(** A handler that fails: the session is what it was, and shows the same. *)
Definition unharmed (out : World * Errno) : Prop :=
  out.2 = Success ∨
  ∃ t l, out.1 = with_disk t l w ∧ ∀ q, mount_path q → the_view d t q = the_view d (w_disk w) q.

Section at_path.
Context (n : MonoNode) (parent name : string).
Let p : string := parent +:+ "/" +:+ name.
Context (Hpl : place (the_view d (w_disk w)) parent name) (Hal : allowed n parent name).
Context (Hin : in_user_root ud p = false).

Lemma grown_unharmed t l e :
  the_view d (w_disk w) p = None → the_grows d (w_disk w) t [local base p] → unharmed (with_disk t l w, e).
Proof using Hok Hpl Hin.
  intros Hv Hg. right. exists t, l. split; [done|]. apply (untracked_view p); [apply Hpl| |done..].
  apply user_root_child; apply Hpl.
Qed.

Lemma the_local : local_path s p = local base p.
Proof using Hbase Hok Hpl. exact (ok_local _ _ _ Hbase _ _ _ _ _ _ _ Hok Hpl). Qed.

(** The directory above the path, made or not. *)
Lemma mkdir_any l : ∃ b l' t', on_disk (λ o, MkdirAll o (Dir (local base p))) (with_disk (w_disk w) l w) = (with_disk t' l' w, b) ∧
  the_grows d (w_disk w) t' [local base p] ∧ t' !! local base p = w_disk w !! local base p.
Proof using Hbase Hok Hpl.
  destruct (on_disk_any (λ o, MkdirAll o (Dir (local base p))) (w_disk w) l w) as (o & l' & ->).
  destruct (MkdirAll_any o (Dir (local base p)) (w_disk w)) as (ds & E & Hds).
  assert (Dir (local base p) = local base parent) as Ed.
  { unfold local, p. replace (base +:+ "/" +:+ parent +:+ "/" +:+ name) with ((base +:+ "/" +:+ parent) +:+ "/" +:+ name)
      by by rewrite !str_app_assoc. apply Dir_rooted; [by apply rooted_app; [|apply Hpl]|apply Hpl]. }
  assert (Forall (λ x, x ∈ parents (local base p)) ds) as Hpar.
  { rewrite Ed in Hds. eapply Forall_impl; [exact Hds|]. intros x Hx.
    by apply (parents_child base Hbase parent name); [apply Hpl|]. }
  eexists _, l', _. split; [reflexivity|]. rewrite E. split.
  - apply dirs_grow; [apply Hpl|exact (pl_dirs _ _ _ Hpl)|by left|]. eapply Forall_impl; [exact Hpar|]. intros x Hx.
    apply elem_of_app. by left.
  - rewrite lookup_with_dirs. destruct (w_disk w !! local base p); [done|]. rewrite bool_decide_eq_false_2; [done|].
    intros Hx. rewrite Forall_forall in Hpar. by apply Hpar, parents_irrefl in Hx.
Qed.

Lemma grows_overwrite t x : the_grows d (w_disk w) t [local base p] → the_grows d (w_disk w) (<[local base p := x]> t) [local base p].
Proof using Type.
  intros Hg y Hy. assert (y ≠ local base p) by (by apply not_elem_of_cons in Hy as [? _]). rewrite lookup_insert_ne by done. by apply Hg.
Qed.

Lemma WriteFile_any o c t : t !! local base p = None → the_grows d (w_disk w) t [local base p] →
  the_grows d (w_disk w) (WriteFile o (local base p) c t).1 [local base p].
Proof using Type.
  intros Hn Hg. unfold WriteFile. rewrite resolve_id by congruence. destruct o as [|r].
  - destruct (can_put _ _); [by apply grows_overwrite|done].
  - destruct (r _) as [[]|]; [destruct (can_put _ _); [by apply grows_overwrite|done]|done..].
Qed.

Ltac enter_any El :=
  rewrite (allowed_writable _ _ _ Hal), (al_path _ _ _ Hal); try rewrite bool_decide_eq_false_2 by (apply proper_ne, Hpl);
  cbn [orb]; erewrite bind_run by (apply start_any; apply Hok); cbv beta iota zeta; fold p;
  rewrite ?(al_child _ _ _ Hal : isWorkspaceReadOnlyPath p = false), ?(al_shown _ _ _ Hal : shouldHideWorkspacePath n p = false), ?El.

Lemma Create_unharmed l : the_view d (w_disk w) p = None → unharmed (Create n name (with_disk (w_disk w) l w)).
Proof using Hbase Hok Hpl Hal Hin.
  intros Hv. pose proof the_local as El. unfold Create. enter_any El.
  destruct (mkdir_any l) as (b & l1 & t1 & E & Hg & Ht1). erewrite bind_run by exact E. destruct b; [|by apply grown_unharmed].
  cbn [negb]. destruct (on_disk_any (λ o, WriteFile o (local base p) "") t1 l1 w) as (o & l2 & E2).
  erewrite bind_run by exact E2. destruct (WriteFile o _ "" t1).2 eqn:Eb; cbn [negb].
  - left. unfold mbind, M_bind. by destruct (TrackChange _ _ _ _).
  - apply grown_unharmed; [done|]. apply WriteFile_any; [|done]. rewrite Ht1.
    by eapply (vacant _ _ _ _ _ _ _ the_good); [apply Hpl|].
Qed.

Lemma Mkdir_unharmed l : the_view d (w_disk w) p = None → unharmed (Mkdir n name (with_disk (w_disk w) l w)).
Proof using Hbase Hok Hpl Hal Hin.
  intros Hv. pose proof the_local as El. unfold Mkdir. enter_any El.
  destruct (on_disk_any (λ o, MkdirAll o (local base p)) (w_disk w) l w) as (o & l' & E).
  destruct (MkdirAll_any o (local base p) (w_disk w)) as (ds & Et & Hds).
  erewrite bind_run by exact E. destruct (MkdirAll o (local base p) (w_disk w)).2; cbn [negb].
  - left. unfold mbind, M_bind. by destruct (TrackChange _ _ _ _).
  - apply grown_unharmed; [done|]. rewrite Et. apply dirs_grow; [apply Hpl|exact (pl_dirs _ _ _ Hpl)|by left|done].
Qed.

Lemma Symlink_unharmed l target :
  the_view d (w_disk w) p = None → unharmed (Mount.Symlink n target name (with_disk (w_disk w) l w)).
Proof using Hbase Hok Hpl Hal Hin.
  intros Hv. pose proof the_local as El. unfold Mount.Symlink. enter_any El.
  assert (∃ w' r, CreateSymlink p target (with_disk (w_disk w) l w) = (w', r) ∧
    (is_ok r = true ∨ ∃ t l', w' = with_disk t l' w ∧ the_grows d (w_disk w) t [local base p])) as (w' & r & E & Hr).
  { pose proof (ok_active _ _ _ _ _ _ _ Hok) as Ha. unfold CreateSymlink, with_session. run.
    change (active (with_disk (w_disk w) l w)) with (active w). rewrite Ha. cbv beta iota. run. rewrite El.
    destruct (mkdir_any l) as (b & l1 & t1 & E & Hg & Ht1). erewrite bind_run by exact E.
    destruct b; cbn [negb]; [|eexists _, _; split; [reflexivity|right; eauto]].
    destruct (on_disk_any (λ o, GoTree.Symlink o target (local base p)) t1 l1 w) as (o & l2 & E2). erewrite bind_run by exact E2.
    set (t2 := (GoTree.Symlink o target (local base p) t1).1).
    assert (the_grows d (w_disk w) t2 [local base p]) as Hg2.
    { unfold t2, GoTree.Symlink. destruct o; [destruct (_ && _); [by apply grows_overwrite|done]|done]. }
    destruct (GoTree.Symlink o target (local base p) t1).2; cbn [negb]; [|eexists _, _; split; [reflexivity|right; eauto]].
    destruct (Update_any (PutFile p (mkFileEntry FileEntrySymlink (local base p) 511 (Z.of_nat (String.length target)) 0 target ""
      ChangeSymlink (w_now (with_disk (w_disk w) l w)))) t2 l2 w) as (w3 & b3 & l3 & E3 & H3).
    erewrite bind_run by exact E3. eexists _, _. split; [reflexivity|]. destruct b3; [by left|right]. rewrite H3 by done. eauto. }
  erewrite bind_run by exact E. destruct Hr as [->|(t & l' & -> & Hg)]; [by left|].
  destruct (is_ok r); [by left|by apply grown_unharmed].
Qed.

Lemma Unlink_unharmed l : unharmed (Unlink n name (with_disk (w_disk w) l w)).
Proof using Hbase Hok Hpl Hal.
  pose proof the_local as El. unfold Unlink. enter_any El. run.
  assert (∀ w1 r t1 l1, w1 = with_disk t1 l1 w → (r = Refused → t1 = w_disk w) →
    unharmed (match r with Refused => ret EIO | _ => _ ← TrackChange ChangeDelete p ""; ret Success end w1)) as Hk.
  { intros w1 r t1 l1 -> Hr. destruct r; [..|right; exists (w_disk w), l1; rewrite Hr by done; by split].
    all: left; unfold mbind, M_bind; by destruct (TrackChange _ _ _ _). }
  destruct (HasLocalOverride _ p).
  - destruct (on_disk_any (λ o, Remove o (local base p)) (w_disk w) l w) as (o & l' & E). erewrite bind_run by exact E.
    eapply Hk; [done|]. unfold Remove. destruct (w_disk w !! _) as [y|], o; cbn; try done. by destruct (_ && _).
  - erewrite bind_run by done. by apply (Hk _ Removed (w_disk w) l).
Qed.

End at_path.
End faults.

(** C17: After a new session and any sequence of operations that [admissible]
    covers, a creation, a directory, a link or the removal of a file or link
    (all of them covered operations, too) that ends with an error leaves
    every lookup with the answer it had, whichever calls on the disk and the
    database failed and whatever they left behind. *)
Theorem failed_operation_changes_nothing backend read ws attrs w os o :
  fresh w → (∀ q x, backend q = Some (File x) → read q = Some x) →
  let v := foldl (apply_op backend) (mkShown backend ∅) os in
  all_admissible backend ws attrs (mkShown backend ∅) os → admissible backend ws attrs v o →
  match o with OpCreate _ _ | OpMkdir _ _ | OpSymlink _ _ _ | OpUnlink _ _ => True | _ => False end →
  ∃ w1, (StartSession ≫= λ _, run_ops read ws attrs os) w = (w1, replicate (length os) Success) ∧
        ∀ l w2 e, run_op read ws attrs o (set_io l w1) = (w2, e) → e ≠ Success →
          ∀ q, mount_path q → node_at backend w2 q (overlay_source w2 q) = sh_view v q.
Proof.
  intros F Hread v Ha Hao Ho. destruct (start_shows backend w F) as (s & w0 & E0 & H0).
  pose proof (session_dir_rooted w F) as Hb.
  destruct (run_shows _ read ws attrs _ _ Hb Hread w0 s _ _ os H0 Ha) as (d' & w1 & E & [Hok HV]).
  exists w1. split; [by run E0|]. intros l w2 e Er He q Hq.
  assert (∀ p, in_user_root ∅ p = false) as Hi.
  { intros p. unfold in_user_root. destruct (splitPath p) as [|? [|? ?]]; [done..|]. apply bool_decide_eq_false. by intros [? ?]. }
  assert (admissible backend ws attrs (mkShown (view backend (session_dir w) ∅ d' (w_disk w1)) (sh_again v)) o) as Hav.
  { assert (same_tree v (mkShown (view backend (session_dir w) ∅ d' (w_disk w1)) (sh_again v))) as <-; [|done].
    split; [done|]. intros x Hx. symmetry. by apply HV. }
  assert (unharmed backend (session_dir w) ∅ w1 d' (w2, e)) as [?|(t & l' & Ew & Hview)]; [|done|].
  { rewrite <- Er. change (set_io l w1) with (with_disk (w_disk w1) l w1).
    destruct o; try done; destruct Hav as (Hp & Hal%allowed_node & Hv); cbn [run_op].
    - by eapply Create_unharmed.
    - by eapply Unlink_unharmed.
    - by eapply Mkdir_unharmed.
    - by eapply Symlink_unharmed. }
  cbn in Ew. subst w2. pose proof Hok as (_ & _ & Hbp & _ & G).
  rewrite (source_view backend _ ∅ Hb _ s d'); [|by apply (ok_active _ _ _ _ _ _ _ Hok)|done|apply G|apply Hq].
  cbn. rewrite Hview by done. by apply HV.
Qed.

(** *** An instance *)

Lemma failed_operation_changes_nothing_witness :
  let r := "github.com/o/r" in
  let w1 := ((StartSession ≫= λ _, run_ops cluster_read None (λ _, (420, 0)) session_ops) new_world).1 in
  let '(w2, e) := run_op cluster_read None (λ _, (420, 0)) (OpCreate r "c") (set_io [Fine; Broken (λ _, Some (File "x"))] w1) in
  e = EIO ∧ node_at (cluster !!.) w2 (child r "c") (overlay_source w2 (child r "c")) = None.
Proof.
  cbn zeta. destruct (failed_operation_changes_nothing (cluster !!.) cluster_read None (λ _, (420, 0)) new_world session_ops
    (OpCreate "github.com/o/r" "c")) as (w1 & E & H).
  - apply new_world_fresh.
  - intros q x H. unfold cluster_read. cbn in H. by rewrite H.
  - apply check_ops_sound. by vm_compute.
  - apply check_op_sound. by vm_compute.
  - done.
  - rewrite E. cbn [fst].
    destruct (run_op _ _ _ _ (set_io _ w1)) as [w2 e] eqn:E2. assert (e = EIO) as ->.
    { apply (f_equal fst) in E. cbn [fst] in E. subst w1. apply (f_equal snd) in E2. cbn [snd] in E2. subst e. by vm_compute. }
    split; [done|]. rewrite (H _ _ _ E2); [by vm_compute|done|]. by apply (bool_decide_unpack _); vm_compute.
Defined.

(** ** Where the mount does not show what was asked for *)

Definition on_new {A} (m : M A) : World * A := (StartSession ≫= λ _, m) new_world.
Definition finds (w : World) (p : string) : option node := node_at (cluster !!.) w p (overlay_source w p).
Abbreviation repo := "github.com/o/r" (only parsing).
Definition do_ops (read : string → option string) (os : list op) : M (list Errno) := run_ops read None (λ _, (420, 0)) os.

(** A file of the cluster that is removed, created again and removed again is
    back with the content of the cluster: removing the created entry drops it
    from the database, and with it the mark of the first removal. *)
Theorem recreated_file_reappears :
  let '(w, es) := on_new (do_ops cluster_read [OpUnlink repo "a"; OpCreate repo "a"; OpUnlink repo "a"]) in
  es = [Success; Success; Success] ∧ finds w "github.com/o/r/a" = Some (File "one").
Proof. by vm_compute. Qed.

(** A directory of the cluster that is renamed becomes an empty file. *)
Theorem renamed_directory_becomes_file :
  let '(w, es) := on_new (do_ops cluster_read [OpRename "github.com" "o" "github.com" "p"]) in
  es = [Success] ∧ finds w "github.com/p" = Some (File "") ∧ finds w "github.com/o" = None.
Proof. by vm_compute. Qed.

(** A link that is renamed is found as a link, and listed as a regular file. *)
Theorem renamed_link_listed_as_file :
  let '(w, es) := on_new (do_ops cluster_read [OpSymlink repo "l" "a"; OpRename repo "l" repo "m"]) in
  es = [Success; Success] ∧ finds w "github.com/o/r/m" = Some (Link "a") ∧
  ((λ e, (d_Name e, d_Mode e)) <$> MergeReadDir (H := go_insertion_sort) w (Some []) repo) = [("m", Z.lor 420 S_IFREG)].
Proof. by vm_compute. Qed.

(** Of a directory of the cluster in which files were changed a local
    directory stays behind when it is removed, and no file can be made in its
    place. *)
Theorem removed_directory_blocks_file :
  let '(w, es) := on_new (do_ops cluster_read [OpWrite repo "a" false 0 "x"; OpUnlink repo "a"; OpUnlink repo "b";
    OpRmdir "github.com/o" "r"; OpCreate "github.com/o" "r"]) in
  es = [Success; Success; Success; Success; EIO] ∧ finds w "github.com/o/r" = None.
Proof. by vm_compute. Qed.

(** When the cluster cannot be read for a moment, a write to one of its files
    starts from an empty file. *)
Theorem failed_read_empties_file :
  let '(w, es) := on_new (do_ops (λ _, None) [OpWrite repo "a" false 3 "!"]) in
  es = [Success] ∧ finds w "github.com/o/r/a" = Some (File (String "000" (String "000" (String "000" "!")))).
Proof. by vm_compute. Qed.

(** A directory is removed with what is in it, and the file in it is still
    reported as created. *)
Theorem rmdir_removes_content :
  let '(w, es) := on_new (do_ops cluster_read [OpMkdir repo "d"; OpCreate (repo +:+ "/d") "f"; OpRmdir repo "d"]) in
  es = [Success; Success; Success] ∧ finds w "github.com/o/r/d/f" = None ∧
  (ch_Type <$> GetChanges (H := go_insertion_sort) (H0 := go_map_to_list) w) = ["create"].
Proof. by vm_compute. Qed.

(** After a commit whose last step failed the database is closed but the
    session is still there: files are created successfully and not found. *)
Theorem failed_commit_loses_writes :
  let '(w, (r, es)) :=
    on_new (_ ← act (λ w, (set_io [Broken (λ _, None)] w, tt)); r ← CommitSession;
            es ← do_ops cluster_read [OpCreate repo "n"]; ret (r, es)) in
  r = Err DiskFailed ∧ es = [Success] ∧ finds w "github.com/o/r/n" = None ∧
  GetChanges (H := go_insertion_sort) (H0 := go_map_to_list) w = [].
Proof. by vm_compute. Qed.

(** A link made in the session and removed leaves the removal of a path the
    cluster does not have among the changes. *)
Theorem removed_link_reported :
  let '(w, es) := on_new (do_ops cluster_read [OpSymlink repo "l" "a"; OpUnlink repo "l"]) in
  es = [Success; Success] ∧
  ((λ c, (ch_Type c, ch_Path c)) <$> GetChanges (H := go_insertion_sort) (H0 := go_map_to_list) w) = [("delete", "github.com/o/r/l")].
Proof. by vm_compute. Qed.

(** A write to a file opened for appending fails. *)
Theorem append_fails :
  let '(w, e) := on_new (write_file cluster_read (node_of None (λ _, (420, 3)) "github.com/o/r/a") false true 3 "more") in
  e = EIO ∧ finds w "github.com/o/r/a" = Some (File "one").
Proof. by vm_compute. Qed.
