(* ===== verification/Recovery.v ===== *)
(** * Recovering a session

    Model of the start of a session manager, internal/fuse/session.go
    ([NewSessionManager], [recoverSession]) and of the parts of
    internal/fuse/overlaydb.go that read the session directory
    ([RebuildFromDisk], [RefreshEntry]).  [stored] is what the embedded
    database finds on disk when it is opened in a session directory. *)

From stdpp Require Import options.
From S2P Require Import Prelude GoStrings GoSort GoRange GoPath GoTree Overlay Session Mount MountProps MountView.

(** ** Reading the session directory *)

(** What [Lstat] says beyond the content: [w_stat]. *)
Definition entry_type (n : node) : FileEntryType :=
  match n with Directory => FileEntryDir | Link _ => FileEntrySymlink | File _ => FileEntryRegular end.
Definition entry_size (dirsize : Z) (n : node) : Z :=
  match n with File c => Z.of_nat (String.length c) | Link target => Z.of_nat (String.length target) | Directory => dirsize end.

(** A name the walk passes over. *)
Definition walk_skips (relPath : string) : bool :=
  bool_decide (relPath = "overlay.db") || HasPrefix relPath "overlay.db/" ||
  existsb (λ part, HasPrefix part ".") (Split relPath slash).

Abbreviation ModeDir := 2147483648 (only parsing).

Definition rebuilt_entry (w : World) (path : string) (n : node) : FileEntry :=
  let '(bits, mtime, dirsize) := w_stat w path in
  mkFileEntry (entry_type n) path (match n with Directory => Z.lor bits ModeDir | _ => bits end) (entry_size dirsize n) mtime
    (match n with Link target => target | _ => "" end) "" ChangeCreate mtime.

(** The walk below the session directory: relative paths with their entries;
    a directory that is passed over is not entered. *)
Definition walk (w : World) (sessionDir : string) : list (string * (FileEntry * node)) :=
  omap (λ '(path, n),
    let relPath := TrimPrefix path (sessionDir +:+ "/") in
    if below sessionDir path && negb (walk_skips relPath) then Some (relPath, (rebuilt_entry w path n, n)) else None)
    (entries_of (w_disk w)).

Definition is_user_dir (relPath : string) (n : node) : bool :=
  bool_decide (n = Directory) && negb (has_byte slash relPath) && negb (has_byte "." relPath).

Definition RebuildFromDisk (w : World) (sessionDir : string) (d : OverlayDB) : OverlayDB :=
  let pending := walk w sessionDir in
  mkOverlay (foldl (λ m '(relPath, (e, _)), <[relPath := e]> m) (files d) pending) (deleted d)
    (foldl (λ m '(relPath, (_, n)), if is_user_dir relPath n then <[relPath := w_now w]> m else m) (userdirs d) pending)
    (staged d) (commits d) (branches d) (conflicts d).

(** [None] for an error of [Lstat] other than a missing file. *)
Definition RefreshEntry (w : World) (monofsPath localPath : string) (o : io) (d : OverlayDB) : option OverlayDB :=
  match o, w_disk w !! localPath with
  | Broken _, _ => None
  | Fine, None => Some (DeleteFile monofsPath d)
  | Fine, Some n =>
      let '(bits, mtime, dirsize) := w_stat w localPath in
      let entry := λ target hash ct, mkFileEntry (entry_type n) localPath bits (entry_size dirsize n) mtime target hash ct (w_now w) in
      Some (PutFile monofsPath
        (match files d !! monofsPath with
         | Some e => entry (fe_SymlinkTarget e) (fe_OrigHash e) (fe_ChangeType e)
         | None => entry "" "" ChangeCreate
         end) d)
  end.

(** ** Recovery *)

(** Conflicts do not count. *)
Definition no_data (d : OverlayDB) : bool :=
  bool_decide (files d = ∅ ∧ deleted d = ∅ ∧ userdirs d = ∅ ∧ staged d = ∅ ∧ commits d = ∅ ∧
               delete currentLogicalBranchKey (branches d) = ∅ ∧ branches d !! currentLogicalBranchKey = None).

Definition Readlink (o : io) (p : string) (t : tree) : tree * option string :=
  (t, match o, t !! p with Fine, Some (Link target) => Some target | _, _ => None end).

Definition recoverSession (stored : OverlayDB) : M (result session_error unit) :=
  w ← look;
  link ← on_disk (λ o, Readlink o (currentLink w));
  match link with
  | None => ret (Ok tt)
  | Some target =>
      let sessionPath := if HasPrefix target "/" then target else PathJoin (w_base w) target in
      there ← on_disk (λ o t, (t, match o with Fine => Stat t sessionPath | Broken _ => false end));
      if negb there then _ ← on_disk (λ o, Remove o (currentLink w)); ret (Ok tt)
      else
        opened ← OpenOverlayDB sessionPath;
        if negb opened then ret (Err DbFailed)
        else
          let session := mkWriteSession (Base sessionPath) (w_now w) sessionPath in
          _ ← act (λ w, (set_session (Some session) (Some stored) w, tt));
          _ ← (if no_data stored
               then w ← look; _ ← Update (RebuildFromDisk w sessionPath); ret tt
               else ret tt);
          ret (Ok tt)
  end.

(** The manager is there even when no session could be recovered or started. *)
Definition NewSessionManager (stored : OverlayDB) : M (result session_error unit) :=
  w ← look;
  sessions ← on_disk (λ o, MkdirAll o (PathJoin (w_base w) "sessions"));
  if negb sessions then ret (Err DiskFailed)
  else
    committed ← on_disk (λ o, MkdirAll o (PathJoin (w_base w) "committed"));
    if negb committed then ret (Err DiskFailed)
    else
      _ ← recoverSession stored;
      w ← look;
      match w_current w with
      | Some _ => ret (Ok tt)
      | None => _ ← StartSession; ret (Ok tt)
      end.

(** ** What is recovered *)

(** The process ends: what is on disk stays. *)
Definition crash (w : World) : World := set_session None None w.

Lemma MkdirAll_there p t : Forall (λ q, t !! q = Some Directory) (parents p ++ [p]) → MkdirAll Fine p t = (t, true).
Proof.
  intros H. rewrite MkdirAll_fine by (eapply Forall_impl; [exact H|]; auto). f_equal. apply map_eq. intros x.
  rewrite lookup_with_dirs. destruct (t !! x) eqn:E; [done|]. case_bool_decide as Hx; [|done].
  rewrite Forall_forall in H. by rewrite (H x Hx) in E.
Qed.

Lemma recovered backend base ud w s d v :
  shows backend base ud w s d v → no_data d = false →
  rooted_path base → w_disk w !! currentLink w = Some (Link base) → w_disk w !! (base +:+ "/overlay.db") = Some Directory →
  ∃ s' w', recoverSession d (crash w) = (w', Ok tt) ∧ shows backend base ud w' s' d v ∧
           ∀ p, mount_path p → node_at backend w' p (overlay_source w' p) = sh_view v p.
Proof.
  intros [Hok HV] Hd Hbase Hlink Hdb. pose proof Hok as (Hio & _ & _ & _ & G).
  assert (HasPrefix base "/" = true) as Habs.
  { destruct Hbase as (q & _ & ->). apply HasPrefix_spec. by exists q. }
  assert (shows backend base ud (set_session (Some (mkWriteSession (Base base) (w_now w) base)) (Some d) w)
            (mkWriteSession (Base base) (w_now w) base) d v) as Hs.
  { split; [|done]. unfold session_ok. by split_and!. }
  eexists _, _. split; [|split; [exact Hs|]].
  - unfold recoverSession. run. change (currentLink (crash w)) with (currentLink w).
    erewrite bind_run; [|apply (on_disk_fine _ (crash w) (w_disk w) (Some base)); [done|unfold Readlink; cbn [w_disk crash set_session]; by rewrite Hlink]].
    cbv beta iota zeta. rewrite Habs. change (set_disk (w_disk w) (crash w)) with (crash w).
    erewrite bind_run; [|apply (on_disk_fine _ (crash w) (w_disk w) true); [done|]].
    2:{ cbn [w_disk crash set_session]. f_equal. rewrite Stat_spec; rewrite (g_base _ _ _ _ _ _ G); [|done].
        by rewrite bool_decide_eq_true_2 by by eexists. }
    cbn [negb]. change (set_disk (w_disk w) (crash w)) with (crash w).
    assert (OpenOverlayDB base (crash w) = (crash w, true)) as Ho.
    { unfold OpenOverlayDB. rewrite (PathJoin_rooted base "overlay.db") by (done || apply proper_name; by unfold proper_elem; split_and!).
      erewrite bind_run.
      2:{ apply on_disk_fine; [done|]. apply MkdirAll_there. apply Forall_app. split; [|by apply Forall_singleton].
          apply Forall_forall. intros q Hq. by apply (g_wf _ _ _ _ _ _ G _ _ _ Hdb). }
      cbn [negb]. unfold mbind, M_bind, next_io. cbn. by rewrite Hio. }
    run Ho. cbn [negb]. run. rewrite Hd. done.
  - intros p Hp. rewrite (source_view backend base ud Hbase _ (mkWriteSession (Base base) (w_now w) base) d);
      [by apply HV|done|done|apply G|apply Hp].
Qed.

(** C16: When the process ends in a session that has recorded a change, and the
    manager is started again, the recovered session shows the same mount. *)
Theorem recovery_restores_mount backend base ud w s d v :
  shows backend base ud w s d v → no_data d = false →
  rooted_path base → w_disk w !! currentLink w = Some (Link base) → w_disk w !! (base +:+ "/overlay.db") = Some Directory →
  ∃ s' w', recoverSession d (crash w) = (w', Ok tt) ∧ shows backend base ud w' s' d v ∧
           ∀ p, mount_path p → node_at backend w' p (overlay_source w' p) = sh_view v p.
Proof. apply recovered. Qed.

(** The manager that is started again has the session, and starts no other. *)
Lemma restarted_manager backend base ud w s d v :
  shows backend base ud w s d v → no_data d = false →
  rooted_path base → w_disk w !! currentLink w = Some (Link base) → w_disk w !! (base +:+ "/overlay.db") = Some Directory →
  Forall (λ dir, Forall (λ q, w_disk w !! q = Some Directory) (parents (PathJoin (w_base w) dir) ++ [PathJoin (w_base w) dir])) ["sessions"; "committed"] →
  ∃ s' w', NewSessionManager d (crash w) = (w', Ok tt) ∧ shows backend base ud w' s' d v.
Proof.
  intros Hsh Hd Hbase Hlink Hdb [Hs [Hc _]%Forall_cons]%Forall_cons.
  destruct (recovered backend base ud w s d v) as (s' & w' & E & Hsh' & _); [done..|]. exists s', w'. split; [|done].
  pose proof Hsh as [(Hio & _) _]. unfold NewSessionManager. run. change (w_base (crash w)) with (w_base w).
  erewrite bind_run by (apply (on_disk_fine _ (crash w) (w_disk w) true); [done|by apply MkdirAll_there]). cbv beta iota zeta. cbn [negb].
  change (set_disk (w_disk w) (crash w)) with (crash w).
  erewrite bind_run by (apply (on_disk_fine _ (crash w) (w_disk w) true); [done|by apply MkdirAll_there]). cbv beta iota zeta. cbn [negb].
  change (set_disk (w_disk w) (crash w)) with (crash w). run E. run. by destruct Hsh' as [(_ & -> & _) _].
Qed.

(** *** An instance *)

Definition session_end : World := ((StartSession ≫= λ _, run_ops cluster_read None (λ _, (420, 0)) session_ops) new_world).1.
Definition session_db : OverlayDB := default empty_overlay (w_db session_end).

Lemma recovery_restores_mount_witness :
  ∃ s' w', recoverSession session_db (crash session_end) = (w', Ok tt) ∧
           node_at (cluster !!.) w' "github.com/o/r/a" (overlay_source w' "github.com/o/r/a") = Some (File "on") ∧
           w_current w' = Some s'.
Proof.
  destruct (start_shows (cluster !!.) new_world new_world_fresh) as (s & w0 & E0 & H0).
  pose proof (session_dir_rooted new_world new_world_fresh) as Hb.
  destruct (run_shows (cluster !!.) cluster_read None (λ _, (420, 0)) _ _ Hb
    ltac:(intros q x H; unfold cluster_read; cbn in H; by rewrite H) w0 s _ _ session_ops H0
    ltac:(apply check_ops_sound; by vm_compute)) as (d' & w1 & E & Hsh).
  assert (session_end = w1) as Ew by (unfold session_end; by run E0; rewrite E).
  assert (session_db = d') as Ed by (unfold session_db; rewrite Ew; by destruct Hsh as [(_ & _ & _ & -> & _) _]).
  destruct (recovery_restores_mount (cluster !!.) (session_dir new_world) ∅ session_end s session_db
    (foldl (apply_op (cluster !!.)) (mkShown (cluster !!.) ∅) session_ops)) as (s' & w' & Er & [Hok' _] & Hv).
  - by rewrite Ew, Ed.
  - by vm_compute.
  - done.
  - by vm_compute.
  - by vm_compute.
  - exists s', w'. split; [done|]. split; [|by destruct Hok' as (_ & ? & _)].
    rewrite Hv by by apply (bool_decide_unpack _); vm_compute. by vm_compute.
Defined.

(** ** A session that is not recovered *)

Definition team_cluster : tree :=
  {["team" := Directory; "team/app" := Directory; "team/app/f" := File "kept"]}.

(** A file is made in a directory of the cluster and removed again: the
    database is empty, the directories are left in the session.  When the
    manager is started again they are taken for directories the user made at
    the root, and the cluster's files below them are gone. *)
Theorem rebuilt_session_hides_cluster :
  let '(w, es) := (StartSession ≫= λ _, run_ops (λ _, None) None (λ _, (420, 0)) [OpCreate "team/app" "x"; OpUnlink "team/app" "x"]) new_world in
  let w' := (recoverSession (default empty_overlay (w_db w)) (crash w)).1 in
  let finds := λ w, node_at (team_cluster !!.) w "team/app/f" (overlay_source w "team/app/f") in
  es = [Success; Success] ∧ finds w = Some (File "kept") ∧ finds w' = None.
Proof. by vm_compute. Qed.
