(* ===== verification/PullMerge.v ===== *)
(** * Pulling with local changes

    Model of internal/fuse/pull_merge.go and of [handlePull] of
    internal/fuse/session_socket.go: the changes of a session are captured
    with their base before the repositories are refreshed, and merged with
    the refreshed content (Merge3.v) afterwards.  What the cluster answers to
    a read is a parameter, before and after the refresh. *)

From stdpp Require Import options.
From S2P Require Import Prelude GoStrings GoSort GoRange GoPath GoTree Overlay Session Merge3.

(** ** Captures *)

Inductive read_answer := Content (c : string) | NotFound | Unreadable.

(** [pc_base] is [None] when there was no base; [pc_ours] is empty for a
    deletion. *)
Record pullCapture := mkCapture {
  pc_type : ChangeType; pc_path : string; pc_local : string; pc_base : option string; pc_ours : string }.

Record pullMergeSummary := mkSummary {
  su_Merged : nat; su_Dropped : nat; su_Kept : nat; su_Conflicted : nat; su_Conflicts : list SessionConflict }.

Inductive pull_error := BaseUnreadable (path : string) | NoLocalPath (path : string) | LocalUnreadable (path : string).

(** [os.ReadFile]. *)
Definition ReadFile (o : io) (p : string) (t : tree) : tree * option string :=
  (t, match o, resolve t p with
      | Fine, Some q => match t !! q with Some (File c) => Some c | _ => None end
      | _, _ => None
      end).

Definition capture_change (read : string → read_answer) (change : Change) : M (result pull_error (option pullCapture)) :=
  if negb (bool_decide (ch_Type change ∈ [ChangeCreate; ChangeModify; ChangeDelete])) then ret (Ok None)
  else
    let base := if bool_decide (ch_Type change = ChangeCreate) then Ok None
                else match read (ch_Path change) with
                     | Content c => Ok (Some c)
                     | NotFound => Ok None
                     | Unreadable => Err (BaseUnreadable (ch_Path change))
                     end in
    match base with
    | Err e => ret (Err e)
    | Ok base =>
        if bool_decide (ch_Type change = ChangeDelete)
        then ret (Ok (Some (mkCapture (ch_Type change) (ch_Path change) (ch_LocalPath change) base "")))
        else
          w ← look;
          let localPath := if bool_decide (ch_LocalPath change = "") then GetLocalPath w (ch_Path change) else Ok (ch_LocalPath change) in
          match localPath with
          | Err _ => ret (Err (NoLocalPath (ch_Path change)))
          | Ok localPath =>
              ours ← on_disk (λ o, ReadFile o localPath);
              ret (match ours with
                   | None => Err (LocalUnreadable (ch_Path change))
                   | Some ours => Ok (Some (mkCapture (ch_Type change) (ch_Path change) localPath base ours))
                   end)
          end
    end.

Fixpoint capture_all (read : string → read_answer) (changes : list Change) (captures : gmap string pullCapture)
    : M (result pull_error (gmap string pullCapture)) :=
  match changes with
  | [] => ret (Ok captures)
  | change :: changes =>
      captured ← capture_change read change;
      match captured with
      | Err e => ret (Err e)
      | Ok None => capture_all read changes captures
      | Ok (Some c) => capture_all read changes (<[ch_Path change := c]> captures)
      end
  end.
Definition capturePullMergeState (read : string → read_answer) (changes : list Change) : M (result pull_error (gmap string pullCapture)) :=
  capture_all read changes ∅.

(** ** Merging *)

(** [dirOf]: what is before the last slash. *)
Definition dirOf (path : string) : string :=
  match LastIndexByte path slash with Some i => str_take i path | None => "." end.

Definition dropLocalChange (monofsPath : string) : M unit :=
  w ← look;
  match w_db w with
  | None => ret tt
  | Some _ =>
      ok ← Update (DeleteFile monofsPath);
      if negb ok then ret tt
      else
        _ ← (match GetLocalPath w monofsPath with
             | Ok localPath => _ ← on_disk (λ o, Remove o localPath); ret tt
             | Err _ => ret tt
             end);
        _ ← sm_DeleteStagedEntry monofsPath; ret tt
  end.

Definition writeMergedContent (monofsPath localPath content : string) : M unit :=
  made ← on_disk (λ o, MkdirAll o (dirOf localPath));
  if negb made then ret tt
  else
    wrote ← on_disk (λ o, WriteFile o localPath content);
    if negb wrote then ret tt
    else _ ← trackChangeInternal ChangeModify monofsPath "" (Z.of_nat (String.length content)); ret tt.

Definition recordConflict (path reason : string) (summary : pullMergeSummary) : M pullMergeSummary :=
  w ← look;
  let conflict := mkSessionConflict path reason "" "" (Some (w_now w)) in
  _ ← sm_PutSessionConflict conflict;
  ret (mkSummary (su_Merged summary) (su_Dropped summary) (su_Kept summary) (S (su_Conflicted summary))
         (su_Conflicts summary ++ [conflict])).

Definition kept (s : pullMergeSummary) : pullMergeSummary :=
  mkSummary (su_Merged s) (su_Dropped s) (S (su_Kept s)) (su_Conflicted s) (su_Conflicts s).
Definition dropped (s : pullMergeSummary) : pullMergeSummary :=
  mkSummary (su_Merged s) (S (su_Dropped s)) (su_Kept s) (su_Conflicted s) (su_Conflicts s).
Definition merged (s : pullMergeSummary) : pullMergeSummary :=
  mkSummary (S (su_Merged s)) (su_Dropped s) (su_Kept s) (su_Conflicted s) (su_Conflicts s).

Section merging.
Context `{Difflib, GoRange} (read : string → read_answer).

(** [Merge3] never panics (Merge3Props.v). *)
Definition merge_contents (base ours theirs : string) : string * nat := default ("", O) (Merge3 base ours theirs).

Definition mergeCreate (capture : pullCapture) (summary : pullMergeSummary) : M pullMergeSummary :=
  match read (pc_path capture) with
  | Content theirs =>
      if bool_decide (pc_ours capture = theirs)
      then _ ← dropLocalChange (pc_path capture); ret (dropped summary)
      else
        let '(content, conflicts) := merge_contents "" (pc_ours capture) theirs in
        _ ← writeMergedContent (pc_path capture) (pc_local capture) content;
        if bool_decide (0 < conflicts)%nat
        then recordConflict (pc_path capture) "both sides created the file" summary
        else ret (merged summary)
  | _ => ret (kept summary)
  end.

Definition mergeModify (capture : pullCapture) (summary : pullMergeSummary) : M pullMergeSummary :=
  match pc_base capture with
  | None => mergeCreate capture summary
  | Some base =>
      match read (pc_path capture) with
      | Content theirs =>
          if bool_decide (base = theirs) then ret (kept summary)
          else if bool_decide (pc_ours capture = base ∨ pc_ours capture = theirs)
          then _ ← dropLocalChange (pc_path capture); ret (dropped summary)
          else
            let '(content, conflicts) := merge_contents base (pc_ours capture) theirs in
            _ ← writeMergedContent (pc_path capture) (pc_local capture) content;
            if bool_decide (0 < conflicts)%nat
            then recordConflict (pc_path capture) "both sides modified" summary
            else ret (merged summary)
      | _ => recordConflict (pc_path capture) "local modify vs upstream delete" summary
      end
  end.

Definition mergeDelete (capture : pullCapture) (summary : pullMergeSummary) : M pullMergeSummary :=
  match read (pc_path capture) with
  | Content theirs =>
      if bool_decide (default "" (pc_base capture) = theirs) then ret (kept summary)
      else
        w ← look;
        let localPath := if bool_decide (pc_local capture = "") then GetLocalPath w (pc_path capture) else Ok (pc_local capture) in
        match localPath with
        | Err _ => recordConflict (pc_path capture) "local delete vs upstream modify" summary
        | Ok localPath =>
            _ ← Update (UnmarkDeleted (pc_path capture));
            _ ← writeMergedContent (pc_path capture) localPath theirs;
            recordConflict (pc_path capture) "local delete vs upstream modify" summary
        end
  | _ => ret (kept summary)
  end.

Definition merge_capture (capture : pullCapture) (summary : pullMergeSummary) : M pullMergeSummary :=
  if bool_decide (pc_type capture = ChangeCreate) then mergeCreate capture summary
  else if bool_decide (pc_type capture = ChangeModify) then mergeModify capture summary
  else if bool_decide (pc_type capture = ChangeDelete) then mergeDelete capture summary
  else ret summary.

Fixpoint merge_all (captures : list (string * pullCapture)) (summary : pullMergeSummary) : M pullMergeSummary :=
  match captures with
  | [] => ret summary
  | (_, capture) :: captures => summary ← merge_capture capture summary; merge_all captures summary
  end.
Definition applyPullMerge (captures : gmap string pullCapture) : M pullMergeSummary :=
  merge_all (range 0 captures) (mkSummary 0 0 0 0 []).

End merging.

(** ** The command *)

Definition isDependencyPath (path : string) : bool := bool_decide (path = "dependency") || HasPrefix path "dependency/".

Inductive pull_response :=
| PullRefused (reason : string)
| PullFailed (e : pull_error)
| RefreshFailed
| PullDone (refreshed : nat) (summary : option pullMergeSummary).

(** Which of its parts a handler was made with: the refresher, the root of a
    virtual monorepo, and the reader of the cluster's content. *)
Record SessionSocketHandler := mkHandler { has_refresher : bool; has_manifest : bool; has_diffReader : bool }.

(** [repositories] is the number of repositories found, [None] when listing
    them failed; [refreshed] how many the refresh brought up to date, and
    [refresh_ok] whether it reported no error. *)
Record refresh_outcome := mkRefresh { repositories : option nat; refreshed : nat; refresh_ok : bool }.

(** Listing the local commits is taken to succeed. *)
Definition handlePull `{Difflib, GoSort, GoRange} (h : SessionSocketHandler) (before after : string → read_answer) (outcome : refresh_outcome)
    : M pull_response :=
  if negb (has_refresher h) then ret (PullRefused "workspace refresh is not available")
  else if negb (has_manifest h) then ret (PullRefused "workspace refresh requires virtual monorepo mode")
  else
  w ← look;
  let localCommits := match active w with Some (_, d) => ListLocalVirtualCommits d | None => [] end in
  if existsb (λ c, negb (lc_Pushed c)) localCommits then ret (PullRefused "local commits pending; push source commits before pull")
  else
    let changes := GetChanges w in
    let workspaceChanges := filter (λ c, isDependencyPath (ch_Path c) = false ∧
      ch_Type c ≠ ChangeUserRootDir ∧ ch_Type c ≠ ChangeRemoveUserRootDir) changes in
    if existsb (λ c, isDependencyPath (ch_Path c)) changes then ret (PullRefused "dependency changes pending; push or discard dependency changes before pull")
    else if bool_decide (workspaceChanges ≠ []) && negb (has_diffReader h)
    then ret (PullRefused "local changes pending and merge support unavailable; commit, discard, or push before pull")
    else
      captures ← capturePullMergeState before workspaceChanges;
      match captures with
      | Err e => ret (PullFailed e)
      | Ok captures =>
          match repositories outcome with
          | None => ret RefreshFailed
          | Some O => ret (PullDone 0 None)
          | Some _ =>
              if negb (refresh_ok outcome) then ret RefreshFailed
              else if bool_decide (captures = ∅) then ret (PullDone (refreshed outcome) None)
              else summary ← applyPullMerge after captures; ret (PullDone (refreshed outcome) (Some summary))
          end
      end.
