(* ===== verification/PullMergeProps.v ===== *)
(** * What a pull does to local changes

    [applyPullMerge] decides each captured change by its three versions,
    whatever the order of the map, and the mount shows the outcome. *)

From stdpp Require Import options.
From S2P Require Import Prelude GoStrings GoSort GoRange GoPath GoTree Overlay Session Merge3 Merge3Props Mount MountProps MountView PullMerge.

(** ** The decision *)

Inductive verdict := VKept | VDropped | VMerged | VConflict (reason : string).

Section decision.
Context `{Difflib}.

Definition merge_verdict (base ours theirs reason : string) : option string * verdict :=
  let '(content, conflicts) := merge_contents base ours theirs in
  (Some content, if bool_decide (0 < conflicts)%nat then VConflict reason else VMerged).

Definition create_decision (ours : string) (theirs : read_answer) : option string * verdict :=
  match theirs with
  | Content t => if bool_decide (ours = t) then (Some t, VDropped) else merge_verdict "" ours t "both sides created the file"
  | _ => (Some ours, VKept)
  end.

(** The content afterwards, [None] for a file that is gone, and the verdict. *)
Definition decision (c : pullCapture) (theirs : read_answer) : option string * verdict :=
  if bool_decide (pc_type c = ChangeCreate) then create_decision (pc_ours c) theirs
  else if bool_decide (pc_type c = ChangeModify) then
    match pc_base c, theirs with
    | None, _ => create_decision (pc_ours c) theirs
    | Some base, Content t =>
        if bool_decide (base = t) then (Some (pc_ours c), VKept)
        else if bool_decide (pc_ours c = base ∨ pc_ours c = t) then (Some t, VDropped)
        else merge_verdict base (pc_ours c) t "both sides modified"
    | Some _, _ => (Some (pc_ours c), VConflict "local modify vs upstream delete")
    end
  else
    match theirs with
    | Content t => if bool_decide (default "" (pc_base c) = t) then (None, VKept)
                   else (Some t, VConflict "local delete vs upstream modify")
    | _ => (None, VKept)
    end.

End decision.

Definition count (now : Z) (path : string) (v : verdict) (s : pullMergeSummary) : pullMergeSummary :=
  match v with
  | VKept => kept s
  | VDropped => dropped s
  | VMerged => merged s
  | VConflict reason =>
      mkSummary (su_Merged s) (su_Dropped s) (su_Kept s) (S (su_Conflicted s))
        (su_Conflicts s ++ [mkSessionConflict path reason "" "" (Some now)])
  end.

(** ** The state of a captured path *)

Section pull.
Context `{Difflib} (read : string → read_answer) (base : string) (Hbase : rooted_path base).

(** What the mount shows of a path outside the directories of the user. *)
Definition cluster_of (p : string) : option node := match read p with Content c => Some (File c) | _ => None end.
Definition content_at (d : OverlayDB) (t : tree) (p : string) : option node :=
  match deleted d !! p, files d !! p with
  | Some _, _ => None
  | None, Some e => if bool_decide (fe_Type e = FileEntrySymlink) then Some (Link (fe_SymlinkTarget e)) else t !! local base p
  | None, None => cluster_of p
  end.

Record captured (d : OverlayDB) (t : tree) (p : string) (c : pullCapture) : Prop := {
  ca_path : pc_path c = p;
  ca_proper : ∃ parent name, p = parent +:+ "/" +:+ name ∧ proper_path parent ∧ proper_elem name;
  ca_type : pc_type c ∈ [ChangeCreate; ChangeModify; ChangeDelete];
  ca_state :
    if bool_decide (pc_type c = ChangeDelete)
    then is_Some (deleted d !! p) ∧ files d !! p = None ∧ t !! local base p = None ∧ (pc_local c = "" ∨ pc_local c = local base p)
    else deleted d !! p = None ∧ (∃ e, files d !! p = Some e ∧ fe_Type e ≠ FileEntrySymlink) ∧ t !! local base p = Some (File (pc_ours c)) ∧ pc_local c = local base p;
  ca_dirs : Forall (λ x, t !! x = None ∨ t !! x = Some Directory) (parents (local base p)) }.

(** A step that changes the session at [p] only. *)
Definition only_at (p : string) (d d' : OverlayDB) (t t' : tree) : Prop :=
  changes_at p d d' ∧ well_formed t' ∧
  ∀ x, x ≠ local base p → t' !! x = t !! x ∨ (t !! x = None ∧ t' !! x = Some Directory ∧ x ∈ parents (local base p)).

Lemma only_at_content p d d' t t' q :
  q ≠ p → is_Some (deleted d !! q) ∨ is_Some (content_at d t q) → only_at p d d' t t' → content_at d' t' q = content_at d t q.
Proof.
  intros Hne Hq ((_ & Hd) & _ & Ht). destruct (Hd q Hne) as [Ef Ed]. unfold content_at in *. rewrite Ef, Ed.
  destruct (deleted d !! q); [done|]. destruct Hq as [[? ?]|Hq]; [done|]. destruct (files d !! q) as [e|]; [|done].
  case_bool_decide; [done|]. destruct (Ht (local base q)) as [->|(E & _)]; [by intros ?%local_inj|done|].
  rewrite E in Hq. by destruct Hq.
Qed.

Lemma only_at_captured p d d' t t' q c :
  q ≠ p → q ∉ parents p → p ∉ parents q → p ≠ "" → only_at p d d' t t' → captured d t q c → captured d' t' q c.
Proof using Hbase.
  intros Hne Hqp Hpq Hp ((_ & Hd) & _ & Ht) [Hpath (parent & name & Eq & Hpar & Hname) Hty Hst Hdirs].
  destruct (Hd q Hne) as [Ef Ed].
  assert (proper_path q) as Hq by (rewrite Eq; apply proper_app; [done|by apply proper_name]).
  assert (t' !! local base q = t !! local base q) as El.
  { destruct (Ht (local base q)) as [?|(_ & _ & Hin)]; [by intros ?%local_inj|done|]. exfalso.
    apply parents_spec in Hin as [_ [r E]]. unfold local in E. rewrite !str_app_assoc in E. apply app_inj, app_inj in E.
    apply Hqp, parents_spec. split; [by apply proper_ne|]. by exists r. }
  split; [done|by eauto|done| |].
  - rewrite Ef, Ed, El. done.
  - rewrite Forall_forall in Hdirs |- *. intros x Hx. destruct (decide (x = local base p)) as [->|Hxp].
    { exfalso. apply parents_spec in Hx as [_ [r E]]. unfold local in E. rewrite !str_app_assoc in E. apply app_inj, app_inj in E.
      apply Hpq, parents_spec. split; [done|]. by exists r. }
    specialize (Hdirs x Hx). destruct (Ht x Hxp) as [->|(_ & -> & _)]; auto.
Qed.

(** ** The single steps *)

Definition at_session (w : World) (s : WriteSession) (d : OverlayDB) : Prop :=
  w_io w = [] ∧ w_current w = Some s ∧ ws_BasePath s = base ∧ w_db w = Some d ∧ well_formed (w_disk w).

Lemma at_session_state w s d d' t' : at_session w s d → well_formed t' → at_session (with_state d' t' w) s d'.
Proof. intros (Hio & Hc & Hb & _ & _) Hw. unfold at_session. by split_and!. Qed.

Lemma dirOf_local parent name : proper_elem name → dirOf (local base (parent +:+ "/" +:+ name)) = local base parent.
Proof.
  intros (_ & _ & _ & Hs). unfold dirOf, local.
  replace (base +:+ "/" +:+ parent +:+ "/" +:+ name) with ((base +:+ "/" +:+ parent) +:+ str1 slash +:+ name) by by rewrite !str_app_assoc.
  rewrite LastIndexByte_app by done. by rewrite str_take_app.
Qed.

Lemma guarded_update_fine f w s d d' :
  w_io w = [] → w_current w = Some s → w_db w = Some d → f d = Ok d' → guarded_update f w = (with_state d' (w_disk w) w, Ok tt).
Proof using Type.
  intros Hio Hcur Hdb Hf. unfold guarded_update, with_session. run. unfold active. rewrite Hcur, Hdb. cbv beta iota. rewrite Hf.
  run Update_fine. done.
Qed.

Lemma write_merged w s d p c t0 content (t := w_disk w) :
  at_session w s d → captured t0 t p c → (t !! local base p = None ∨ ∃ x, t !! local base p = Some (File x)) →
  ∃ e t', writeMergedContent p (local base p) content w = (with_state (PutFile p e d) t' w, tt) ∧
          only_at p d (PutFile p e d) t t' ∧ t' !! local base p = Some (File content) ∧ fe_Type e = FileEntryRegular.
Proof using Hbase.
  intros (Hio & Hcur & Hb & Hdb & Hw) [_ (parent & name & Ep & Hpar & Hname) _ _ Hdirs] Hold.
  assert (Forall (λ q, t !! q = None ∨ t !! q = Some Directory) (parents (local base parent) ++ [local base parent])) as Hvac.
  { rewrite Forall_forall in Hdirs |- *. intros x Hx. apply Hdirs. rewrite Ep. by apply parents_child. }
  set (t1 := t ∪ dirs_at (parents (local base parent) ++ [local base parent])).
  assert (local base p ∉ parents (local base parent) ++ [local base parent]) as Hself.
  { intros Hx. apply (parents_child base Hbase parent name) in Hx; [|done]. rewrite <- Ep in Hx. by apply parents_irrefl in Hx. }
  assert (t1 !! local base p = t !! local base p) as Hl1.
  { unfold t1. rewrite lookup_with_dirs. destruct (t !! local base p); [done|]. by rewrite bool_decide_eq_false_2. }
  assert (can_put t1 (local base p) = true) as Hput.
  { apply can_put_spec. split; [|rewrite Hl1; exact Hold]. apply Forall_forall. intros x Hx. unfold t1. rewrite lookup_with_dirs.
    rewrite Ep in Hx. apply parents_child in Hx; [|done..]. rewrite Forall_forall in Hvac.
    destruct (Hvac x Hx) as [->| ->]; [by rewrite bool_decide_eq_true_2|done]. }
  destruct (track_put ChangeModify p "" (Z.of_nat (String.length content)) (set_disk (<[local base p := File content]> t1) w) s d)
    as (e & Et & _ & _ & Hty); [done..|right; left|].
  exists e, (<[local base p := File content]> t1). unfold only_at, changes_at. split_and!.
  - unfold writeMergedContent. rewrite Ep, (dirOf_local parent name Hname), <- Ep.
    erewrite bind_run by (apply on_disk_fine; [done|by apply MkdirAll_fine]). cbn [negb].
    erewrite bind_run by (apply on_disk_fine; [done|by apply WriteFile_fine]). cbn [negb]. by run Et.
  - done.
  - intros q Hq. cbn. by rewrite lookup_insert_ne, lookup_delete_ne.
  - apply well_formed_put; [|done|done]. by apply well_formed_dirs.
  - clear Hty. intros x Hx. rewrite lookup_insert_ne by done. unfold t1. rewrite lookup_with_dirs. destruct (t !! x); [by left|].
    case_bool_decide as Hin; [|by left]. right. split_and!; [done..|]. rewrite Ep. by apply parents_child.
  - apply lookup_insert_eq.
  - by rewrite bool_decide_eq_true_2 in Hty by lia.
Qed.

Lemma drop_local w s d p c (t := w_disk w) :
  at_session w s d → captured d t p c → pc_type c ≠ ChangeDelete →
  ∃ d' t', dropLocalChange p w = (with_state d' t' w, tt) ∧ only_at p d d' t t' ∧
           content_at d' t' p = cluster_of p.
Proof using Hbase.
  intros (Hio & Hcur & Hb & Hdb & Hw) [_ (parent & name & Ep & Hpar & Hname) _ Hst _] Hty.
  rewrite bool_decide_eq_false_2 in Hst by done. destruct Hst as (Hdel & Hf & Ht & _).
  assert (local_path s p = local base p) as El.
  { apply local_path_eq; [done..|]. rewrite Ep. apply proper_app; [done|by apply proper_name]. }
  exists (DeleteStagedEntry p (DeleteFile p d)), (delete (local base p) t).
  unfold only_at, changes_at. split_and!.
  - unfold dropLocalChange. run. rewrite Hdb. run Update_fine. cbn [negb].
    unfold GetLocalPath. rewrite Hcur, El. erewrite bind_run.
    2:{ erewrite bind_run.
        2:{ apply (on_disk_fine _ _ (delete (local base p) t) Removed); [done|]. unfold Remove. cbn. fold t. by rewrite Ht. }
        reflexivity. }
    unfold sm_DeleteStagedEntry.
    erewrite bind_run by (eapply (guarded_update_fine _ _ s (DeleteFile p d)); [done|done|done|reflexivity]).
    unfold ret, with_state. cbn. by rewrite Hcur.
  - done.
  - intros q Hq. cbn. by rewrite lookup_delete_ne.
  - apply well_formed_delete; [done|]. unfold t in *. congruence.
  - intros x Hx. left. by rewrite lookup_delete_ne.
  - unfold content_at. cbn. rewrite lookup_delete_eq, Hdel. done.
Qed.

Lemma record_conflict w s d p reason su :
  at_session w s d →
  ∃ d', recordConflict p reason su w = (with_state d' (w_disk w) w, count (w_now w) p (VConflict reason) su) ∧
        files d' = files d ∧ deleted d' = deleted d ∧ userdirs d' = userdirs d.
Proof using Type.
  intros (Hio & Hcur & Hb & Hdb & Hw). unfold recordConflict. run.
  set (k := mkSessionConflict p reason "" "" (Some (w_now w))).
  assert (∃ r d', sm_PutSessionConflict k w = (with_state d' (w_disk w) w, r) ∧
    files d' = files d ∧ deleted d' = deleted d ∧ userdirs d' = userdirs d) as (r & d' & E & Hd').
  { unfold sm_PutSessionConflict. run. destruct (PutSessionConflict (w_now w) k d) as [d'|e] eqn:Ep.
    - eexists _, d'. split; [by apply (guarded_update_fine _ _ s d)|]. unfold PutSessionConflict in Ep.
      case_bool_decide; [done|]. injection Ep as <-. done.
    - eexists _, d. split; [|done]. rewrite with_state_id by done. unfold guarded_update, with_session. run.
      unfold active. rewrite Hcur, Hdb. cbv beta iota. by rewrite Ep. }
  exists d'. split; [by run E|done].
Qed.

(** What one capture comes to. *)
Definition settles (w : World) (d : OverlayDB) (p : string) (out : World * pullMergeSummary) (su : pullMergeSummary) (r : option string * verdict) : Prop :=
  ∃ d' t', out = (with_state d' t' w, count (w_now w) p r.2 su) ∧ only_at p d d' (w_disk w) t' ∧ content_at d' t' p = File <$> r.1 ∧
           (r.1 = None → is_Some (deleted d' !! p)).

Lemma only_at_refl p d t : well_formed t → only_at p d d t t.
Proof using Type. intros Hw. split; [done|]. split; [done|]. by left. Qed.

Lemma only_at_trans p d d' d'' t t' : only_at p d d' t t' → files d'' = files d' → deleted d'' = deleted d' → userdirs d'' = userdirs d' → only_at p d d'' t t'.
Proof using Type.
  intros ((Hu & Hd) & Hw & Ht) Ef Ed Eu. split; [|done]. split; [congruence|]. intros q Hq. rewrite Ef, Ed. by apply Hd.
Qed.

Section steps.
Context (w : World) (s : WriteSession) (d : OverlayDB) (p : string) (c : pullCapture).
Context (Hw : at_session w s d) (Hc : captured d (w_disk w) p c).

Lemma settles_kept su : content_at d (w_disk w) p = (if bool_decide (pc_type c = ChangeDelete) then None else Some (File (pc_ours c))) →
  settles w d p (ret (kept su) w) su (if bool_decide (pc_type c = ChangeDelete) then None else Some (pc_ours c), VKept).
Proof using Hw Hc.
  intros E. exists d, (w_disk w). destruct Hw as (_ & _ & _ & Hdb & Hwf). split_and!; [by rewrite with_state_id|by apply only_at_refl|..].
  - rewrite E. by destruct (bool_decide _).
  - pose proof (ca_state _ _ _ _ Hc) as Hst. destruct (bool_decide _); [intros _; apply Hst|done].
Qed.

Lemma content_before : content_at d (w_disk w) p = (if bool_decide (pc_type c = ChangeDelete) then None else Some (File (pc_ours c))).
Proof using Hc.
  destruct Hc as [_ _ _ Hst _]. unfold content_at. destruct (bool_decide (pc_type c = ChangeDelete)).
  - destruct Hst as ([v ->] & _). done.
  - destruct Hst as (-> & (e & -> & He) & -> & _). by rewrite bool_decide_eq_false_2.
Qed.

Lemma settles_drop su x : pc_type c ≠ ChangeDelete → read p = Content x →
  settles w d p ((_ ← dropLocalChange p; ret (dropped su)) w) su (Some x, VDropped).
Proof using Hw Hc Hbase.
  intros Hty Hx. destruct (drop_local w s d p c Hw Hc Hty) as (d' & t' & E & Ho & Hat). unfold cluster_of in Hat. rewrite Hx in Hat.
  exists d', t'. split_and!; [by run E|done|done|done].
Qed.

Lemma settles_conflict_only su reason x : content_at d (w_disk w) p = Some (File x) →
  settles w d p (recordConflict p reason su w) su (Some x, VConflict reason).
Proof using Hw.
  intros Hx. destruct (record_conflict w s d p reason su Hw) as (d' & -> & Ef & Ed & Eu). exists d', (w_disk w).
  split_and!; [done|eapply only_at_trans; [apply only_at_refl|done..]; by destruct Hw as (_ & _ & _ & _ & ?)|..].
  - unfold content_at in *. by rewrite Ef, Ed.
  - done.
Qed.

(** Merged content is written, and a conflict is noted. *)
Lemma settles_write su content (reason : option string) :
  settles w d p ((_ ← writeMergedContent p (local base p) content;
                  match reason with Some r => recordConflict p r su | None => ret (merged su) end) w)
    su (Some content, match reason with Some r => VConflict r | None => VMerged end).
Proof using Hw Hc Hbase.
  assert (w_disk w !! local base p = None ∨ ∃ x, w_disk w !! local base p = Some (File x)) as Hold.
  { destruct Hc as [_ _ _ Hst _]. destruct (bool_decide (pc_type c = ChangeDelete)); [by left; apply Hst|right]. exists (pc_ours c). apply Hst. }
  destruct (write_merged w s d p c d content Hw Hc Hold) as (e & t' & E & Ho & Ht & Hty).
  assert (content_at (PutFile p e d) t' p = Some (File content)) as Hat.
  { unfold content_at. cbn. by rewrite lookup_delete_eq, lookup_insert_eq, Ht, Hty. }
  destruct reason as [r|].
  - destruct (record_conflict (with_state (PutFile p e d) t' w) s (PutFile p e d) p r su) as (d' & Er & Ef & Ed & Eu).
    { apply (at_session_state w s d); [done|]. by destruct Ho as (_ & ? & _). }
    exists d', t'. split_and!; [run E; by rewrite Er|by eapply only_at_trans|unfold content_at in *; by rewrite Ef, Ed|done].
  - exists (PutFile p e d), t'. split_and!; [by run E|done|done|done].
Qed.

Lemma settles_restore su theirs reason : pc_type c = ChangeDelete →
  settles w d p ((_ ← Update (UnmarkDeleted p); _ ← writeMergedContent p (local base p) theirs; recordConflict p reason su) w)
    su (Some theirs, VConflict reason).
Proof using Hw Hc Hbase.
  intros Hty. pose proof Hw as (Hio & Hcur & Hb & Hdb & Hwf). set (d1 := UnmarkDeleted p d).
  assert (w_disk w !! local base p = None) as Hnone.
  { destruct Hc as [_ _ _ Hst _]. rewrite bool_decide_eq_true_2 in Hst by done. apply Hst. }
  assert (at_session (with_state d1 (w_disk w) w) s d1) as Hw1 by by apply (at_session_state w s d).
  destruct (write_merged (with_state d1 (w_disk w) w) s d1 p c d theirs Hw1 Hc (or_introl Hnone)) as (e & t' & E & Ho & Ht & Hte).
  destruct (record_conflict (with_state (PutFile p e d1) t' w) s (PutFile p e d1) p reason su) as (d' & Er & Ef & Ed & Eu).
  { apply (at_session_state w s d); [done|]. by destruct Ho as (_ & ? & _). }
  exists d', t'. split_and!.
  - run Update_fine. change (set_session (w_current w) (Some d1) w) with (with_state d1 (w_disk w) w). run E.
    rewrite with_state_twice. by rewrite Er.
  - destruct Ho as ((Hu & Hd) & Hw' & Hx). split; [|done]. split; [by rewrite Eu|]. intros q Hq. rewrite Ef, Ed.
    destruct (Hd q Hq) as [-> ->]. cbn. by rewrite lookup_delete_ne.
  - unfold content_at. rewrite Ef, Ed. cbn. by rewrite lookup_delete_eq, lookup_insert_eq, Ht, Hte.
  - done.
Qed.

Lemma settles_merge su b theirs reason :
  pc_type c ≠ ChangeDelete → pc_local c = local base p →
  settles w d p ((let '(content, conflicts) := merge_contents b (pc_ours c) theirs in
                  _ ← writeMergedContent p (pc_local c) content;
                  if bool_decide (0 < conflicts)%nat then recordConflict p reason su else ret (merged su)) w)
    su (merge_verdict b (pc_ours c) theirs reason).
Proof using Hw Hc Hbase.
  intros Hty ->. unfold merge_verdict. destruct (merge_contents b (pc_ours c) theirs) as [content conflicts].
  pose proof (settles_write su content (if bool_decide (0 < conflicts)%nat then Some reason else None)) as H'.
  by destruct (bool_decide (0 < conflicts)%nat).
Qed.

Lemma settles_create su : pc_type c ≠ ChangeDelete → settles w d p (mergeCreate read c su w) su (create_decision (pc_ours c) (read p)).
Proof using Hw Hc Hbase.
  intros Hty. pose proof content_before as Hb. pose proof (settles_kept su) as Hk.
  rewrite bool_decide_eq_false_2 in Hb, Hk by done. unfold mergeCreate, create_decision.
  destruct Hc as [-> _ _ Hst _]. rewrite bool_decide_eq_false_2 in Hst by done. destruct Hst as (_ & _ & _ & Hl).
  destruct (read p) as [theirs| |] eqn:Er; [|by auto..]. case_bool_decide as E; [by apply settles_drop|]. by apply settles_merge.
Qed.

Lemma merge_step su : settles w d p (merge_capture read c su w) su (decision c (read p)).
Proof using Hw Hc Hbase.
  pose proof content_before as Hb. pose proof (settles_kept su) as Hk. unfold merge_capture, decision.
  destruct (bool_decide (pc_type c = ChangeCreate)) eqn:Ec.
  { apply bool_decide_eq_true in Ec. apply settles_create. by rewrite Ec. }
  destruct (bool_decide (pc_type c = ChangeModify)) eqn:Em.
  - apply bool_decide_eq_true in Em. clear Ec. assert (pc_type c ≠ ChangeDelete) as Hty by by rewrite Em.
    rewrite bool_decide_eq_false_2 in Hb, Hk by done. unfold mergeModify. destruct (pc_base c) as [b|]; [|by apply settles_create].
    pose proof Hc as [Hpath _ _ Hst _]. rewrite bool_decide_eq_false_2 in Hst by done. destruct Hst as (_ & _ & _ & Hl).
    rewrite Hpath. destruct (read p) as [theirs| |] eqn:Er; [|by apply settles_conflict_only..].
    case_bool_decide as E1; [by auto|]. case_bool_decide as E2; [by apply settles_drop|]. by apply settles_merge.
  - assert (pc_type c = ChangeDelete) as Hty.
    { pose proof (ca_type _ _ _ _ Hc) as Ht. bool_hyps. rewrite !elem_of_cons, elem_of_nil in Ht. clear Hb Hk. naive_solver. }
    clear Ec Em. rewrite bool_decide_eq_true_2 in Hb, Hk by done. rewrite (bool_decide_eq_true_2 _ Hty). unfold mergeDelete.
    pose proof Hc as [Hpath (parent & name & Ep & Hpar & Hname) _ Hst _]. rewrite bool_decide_eq_true_2 in Hst by done.
    destruct Hst as (_ & _ & _ & Hl). rewrite Hpath.
    destruct (read p) as [theirs| |] eqn:Er; [|by auto..]. case_bool_decide as E1; [by auto|]. run.
    pose proof Hw as (_ & Hcur & Hbp & _).
    replace (if bool_decide (pc_local c = "") then GetLocalPath w p else Ok (pc_local c)) with (Ok (E := session_error) (local base p)).
    2:{ destruct Hl as [->| ->].
        - rewrite bool_decide_eq_true_2 by done. unfold GetLocalPath. rewrite Hcur. f_equal. symmetry. apply local_path_eq; [done..|].
          rewrite Ep. apply proper_app; [done|by apply proper_name].
        - rewrite bool_decide_eq_false_2; [done|]. unfold local. destruct Hbase as (q & _ & ->). done. }
    by apply settles_restore.
Qed.

End steps.

Definition apart (l : list string) : Prop := ∀ p q, p ∈ l → q ∈ l → p ∉ parents q.

Definition summary_of (now : Z) (l : list (string * pullCapture)) (su : pullMergeSummary) : pullMergeSummary :=
  foldl (λ su '(p, c), count now p (decision c (read p)).2 su) su l.

(** All captures, one after the other. *)
Lemma merge_all_settles l w s d su :
  at_session w s d → NoDup l.*1 → (∀ p c, (p, c) ∈ l → captured d (w_disk w) p c) → apart l.*1 →
  ∃ d' t', merge_all read l su w = (with_state d' t' w, summary_of (w_now w) l su) ∧ well_formed t' ∧ userdirs d' = userdirs d ∧
    (∀ p c, (p, c) ∈ l → content_at d' t' p = File <$> (decision c (read p)).1) ∧
    (∀ q, q ∉ l.*1 → is_Some (deleted d !! q) ∨ is_Some (content_at d (w_disk w) q) → content_at d' t' q = content_at d (w_disk w) q) ∧
    (∀ q, q ∉ l.*1 → files d' !! q = files d !! q ∧ deleted d' !! q = deleted d !! q).
Proof using Hbase.
  revert w d su. induction l as [|[p c] l IH]; intros w d su Hw Hnd Hcap Hap.
  { exists d, (w_disk w). destruct Hw as (_ & _ & _ & Hdb & Hwf). split_and!; try done; [by rewrite with_state_id|].
    by intros ? ? ?%not_elem_of_nil. }
  apply NoDup_cons in Hnd as [Hp Hnd].
  assert (captured d (w_disk w) p c) as Hc by (apply Hcap; left).
  destruct (merge_step w s d p c Hw Hc su) as (d1 & t1 & E1 & Ho & Hat & Hnone).
  assert (well_formed t1) as Hw1 by by destruct Ho as (_ & ? & _).
  assert (p ≠ "") as Hpne.
  { destruct (ca_proper _ _ _ _ Hc) as (parent & name & -> & Hpar & _). by destruct parent. }
  destruct (IH (with_state d1 t1 w) d1 (count (w_now w) p (decision c (read p)).2 su)) as (d2 & t2 & E2 & Hwf2 & Hu2 & Hl2 & Hc2 & Hq2).
  - by apply (at_session_state w s d).
  - done.
  - intros q cq Hq. assert (q ∈ l.*1) as Hqi by (apply list_elem_of_fmap; by exists (q, cq)).
    apply (only_at_captured p d d1 (w_disk w) t1); [by intros ->|apply Hap; [by right|left]|apply Hap; [left|by right]|done|done|].
    apply Hcap. by right.
  - intros a b Ha Hb. apply Hap; by right.
  - exists d2, t2. split_and!.
    + cbn [merge_all]. run E1. by rewrite E2.
    + done.
    + rewrite Hu2. by destruct Ho as ((? & _) & _).
    + intros q cq [[= -> ->]|Hq]%elem_of_cons; [|by apply Hl2]. rewrite <- Hat. apply Hc2; [done|]. cbn [w_disk with_state set_disk].
      rewrite Hat. destruct (decision c (read p)).1; [right; by eexists|left; by apply Hnone].
    + intros q [Hqp Hql]%not_elem_of_cons Hq. destruct (Hq2 q Hql) as [Ef Ed]. pose proof Ho as ((_ & Hd) & _).
      rewrite <- (only_at_content p d d1 (w_disk w) t1 q Hqp Hq Ho). apply Hc2; [done|]. cbn [w_disk with_state set_disk].
      destruct (Hd q Hqp) as [_ ->]. by rewrite (only_at_content p d d1 (w_disk w) t1 q Hqp Hq Ho).
    + intros q [Hqp Hql]%not_elem_of_cons. destruct (Hq2 q Hql) as [-> ->]. destruct Ho as ((_ & Hd) & _). by apply Hd.
Qed.

End pull.

(** ** The summary *)

Definition total (s : pullMergeSummary) : nat := (su_Merged s + su_Dropped s + su_Kept s + su_Conflicted s)%nat.

Lemma summary_total `{Difflib} read now l su : total (summary_of read now l su) = (total su + length l)%nat.
Proof.
  revert su. induction l as [|[p c] l IH]; intros su; [cbn; lia|]. unfold summary_of in *. cbn. rewrite IH.
  unfold total. destruct (decision c (read p)).2; cbn; lia.
Qed.

Definition is_conflict (v : verdict) : bool := match v with VConflict _ => true | _ => false end.

Lemma summary_conflicts `{Difflib} read now l su p :
  p ∈ sc_Path <$> su_Conflicts (summary_of read now l su) ↔
  p ∈ sc_Path <$> su_Conflicts su ∨ ∃ c, (p, c) ∈ l ∧ is_conflict (decision c (read p)).2 = true.
Proof.
  revert su. induction l as [|[q c] l IH]; intros su.
  { cbn. split; [by left|]. intros [?|(c & ?%not_elem_of_nil & _)]; done. }
  unfold summary_of in *. cbn [foldl]. rewrite IH. destruct (decision c (read q)).2 as [| | |r] eqn:Ev; cbn [count kept dropped merged su_Conflicts].
  1,2,3: split; (intros [?|(c' & Hc & Hv)]; [by left|right]); [exists c'; split; [by right|done]|];
    apply elem_of_cons in Hc as [[= -> ->]|Hc]; [by rewrite Ev in Hv|by exists c'].
  rewrite fmap_app, elem_of_app. cbn. rewrite list_elem_of_singleton. split.
  - intros [[?| ->]|(c' & Hc & Hv)]; [by left|right; exists c; rewrite Ev; split; [left|done]|right; exists c'; split; [by right|done]].
  - intros [?|(c' & Hc & Hv)]; [by left; left|]. apply elem_of_cons in Hc as [[= -> ->]|Hc]; [by left; right|right; by exists c'].
Qed.

(** ** The theorem *)

(** C11: After a refresh, merging the captured changes leaves the mount with
    the content the three versions decide for each path, in whatever order
    the captures are visited; every capture is counted once, and the
    conflicts are exactly those of the decisions. *)
Theorem pull_merges_changes `{Difflib, Hrange : GoRange} after base w s d captures :
  rooted_path base → at_session base w s d →
  (∀ p c, captures !! p = Some c → captured base d (w_disk w) p c ∧ in_user_root (userdirs d) p = false) →
  (∀ p q, is_Some (captures !! p) → is_Some (captures !! q) → p ∉ parents q) →
  ∃ w' summary, applyPullMerge after captures w = (w', summary) ∧
    (∀ p c, captures !! p = Some c →
       node_at (cluster_of after) w' p (overlay_source w' p) = File <$> (decision c (after p)).1) ∧
    total summary = size captures ∧
    (∀ p, p ∈ sc_Path <$> su_Conflicts summary ↔ ∃ c, captures !! p = Some c ∧ is_conflict (decision c (after p)).2 = true).
Proof.
  intros Hbase Hw Hcap Hap.
  assert (∀ p c, (p, c) ∈ range 0 captures ↔ captures !! p = Some c) as Hin by apply elem_of_range.
  destruct (merge_all_settles after base Hbase (range 0 captures) w s d (mkSummary 0 0 0 0 [])) as (d' & t' & E & Hwf & Hu & Hl & _).
  - done.
  - apply NoDup_range_keys.
  - intros p c Hp%Hin. by apply Hcap.
  - intros p q Hp%elem_of_range_keys Hq%elem_of_range_keys. by apply Hap.
  - pose proof Hw as (_ & Hcur & Hb & _). eexists _, _. split; [exact E|]. split_and!.
    + intros p c Hp. destruct (Hcap p c Hp) as [Hc Hi]. destruct (ca_proper _ _ _ _ _ Hc) as (parent & name & Ep & Hpar & Hname).
      assert (proper_path p) as Hpp by (rewrite Ep; apply proper_app; [done|by apply proper_name]).
      rewrite (source_view (cluster_of after) base (userdirs d) Hbase _ s d'); [|unfold active; cbn; by rewrite Hcur|done..].
      rewrite <- (Hl p c) by by apply Hin. unfold view, content_at.
      assert (user_root (userdirs d) p = false) as -> by (rewrite Ep; by apply user_root_child). rewrite Hi. done.
    + rewrite summary_total. cbn. by rewrite range_perm, length_map_to_list.
    + intros p. rewrite summary_conflicts. cbn. split.
      * intros [?%not_elem_of_nil|(c & Hp%Hin & Hv)]; [done|by exists c].
      * intros (c & Hp & Hv). right. exists c. split; [by apply Hin|done].
Qed.

(** *** An instance *)

Definition pull_world : World :=
  ((StartSession ≫= λ _, run_ops cluster_read None (λ _, (420, 0))
      [OpWrite "github.com/o/r" "a" true 0 "ours"; OpUnlink "github.com/o/r" "b"]) new_world).1.
Definition pull_session : WriteSession := mkWriteSession "id" 7 "/o/sessions/id".
Definition pull_db : OverlayDB := default empty_overlay (w_db pull_world).
Definition pull_captures : gmap string pullCapture :=
  {["github.com/o/r/a" := mkCapture ChangeModify "github.com/o/r/a" "/o/sessions/id/github.com/o/r/a" (Some "one") "ours";
    "github.com/o/r/b" := mkCapture ChangeDelete "github.com/o/r/b" "" (Some "two") ""]}.
Definition refreshed_read (p : string) : read_answer :=
  if bool_decide (p = "github.com/o/r/a") then Content "theirs"
  else if bool_decide (p = "github.com/o/r/b") then Content "changed" else NotFound.

Lemma pull_captured p c : pull_captures !! p = Some c →
  captured "/o/sessions/id" pull_db (w_disk pull_world) p c ∧ in_user_root (userdirs pull_db) p = false.
Proof.
  unfold pull_captures. rewrite lookup_insert_Some, lookup_singleton_Some.
  intros [[<- <-]|[_ [<- <-]]]; (split; [|by vm_compute]); constructor.
  1,6: done.
  1,5: exists "github.com/o/r"; eexists; split; [reflexivity|]; split; by apply (bool_decide_unpack _); vm_compute.
  1,4: by apply (bool_decide_unpack _); vm_compute.
  - vm_compute. split_and!; try done. eexists. split; [done|]. done.
  - by apply (bool_decide_unpack _); vm_compute.
  - vm_compute. split_and!; try done; [by eexists|by left].
  - by apply (bool_decide_unpack _); vm_compute.
Qed.

Lemma pull_merges_changes_witness :
  ∃ w' summary, @applyPullMerge prefix_difflib go_map_to_list refreshed_read pull_captures pull_world = (w', summary) ∧
    node_at (cluster_of refreshed_read) w' "github.com/o/r/b" (overlay_source w' "github.com/o/r/b") = Some (File "changed") ∧
    total summary = 2%nat.
Proof.
  destruct (@pull_merges_changes prefix_difflib go_map_to_list refreshed_read "/o/sessions/id" pull_world pull_session pull_db pull_captures)
    as (w' & summary & E & Hshow & Ht & _).
  - exists "o/sessions/id". split; [|done]. by apply (bool_decide_unpack _); vm_compute.
  - split_and!; [by vm_compute..|]. apply well_formed_iff. by apply (bool_decide_unpack _); vm_compute.
  - apply pull_captured.
  - intros p q [cp Hp] [cq Hq]. unfold pull_captures in Hp, Hq. rewrite lookup_insert_Some, lookup_singleton_Some in Hp, Hq.
    destruct Hp as [[<- _]|[_ [<- _]]], Hq as [[<- _]|[_ [<- _]]]; by apply (bool_decide_unpack _); vm_compute.
  - exists w', summary. split; [done|]. split; [|by rewrite Ht].
    by rewrite (Hshow "github.com/o/r/b" (mkCapture ChangeDelete "github.com/o/r/b" "" (Some "two") "")).
Defined.

(** ** Refreshes that fail half-way, reads that fail *)

Definition old_read (p : string) : read_answer := match cluster !! p with Some (File c) => Content c | _ => NotFound end.
Definition pull (before after : string → read_answer) (o : refresh_outcome) : M pull_response :=
  @handlePull prefix_difflib go_insertion_sort go_map_to_list (mkHandler true true true) before after o.
Definition pull_counts (r : pull_response) : option (nat * nat) :=
  match r with PullDone _ (Some s) => Some (su_Kept s, su_Conflicted s) | _ => None end.

(** When one of several repositories cannot be refreshed, the pull fails
    without merging, although the others are refreshed: the next pull takes
    the new content for the base, keeps the local changes without a conflict,
    and the changes of others to the same files are undone.  Had the first
    pull succeeded, both changes would have been reported as conflicts. *)
Theorem failed_refresh_undoes_upstream :
  let '(w, (r1, r2)) :=
    (r1 ← pull old_read refreshed_read (mkRefresh (Some 2%nat) 1 false);
     r2 ← pull refreshed_read refreshed_read (mkRefresh (Some 2%nat) 2 true); ret (r1, r2)) pull_world in
  r1 = RefreshFailed ∧ pull_counts r2 = Some (2%nat, 0%nat) ∧
  node_at (cluster_of refreshed_read) w "github.com/o/r/a" (overlay_source w "github.com/o/r/a") = Some (File "ours") ∧
  pull_counts (pull old_read refreshed_read (mkRefresh (Some 2%nat) 2 true) pull_world).2 = Some (0%nat, 2%nat).
Proof. by vm_compute. Qed.

(** A read of the refreshed content that fails is taken for a file that is
    gone upstream: a local removal stands although the file was changed. *)
Theorem failed_read_hides_conflict :
  pull_counts (pull old_read (λ p, if bool_decide (p = "github.com/o/r/b") then Unreadable else refreshed_read p)
                 (mkRefresh (Some 1%nat) 1 true) pull_world).2 = Some (1%nat, 1%nat).
Proof. by vm_compute. Qed.

(** After a directory made in the session was renamed, pulls fail: the new
    directory is recorded like a created file, and cannot be read as one. *)
Theorem renamed_directory_blocks_pull :
  let '(w, es) := (StartSession ≫= λ _, run_ops cluster_read None (λ _, (420, 0))
      [OpMkdir "github.com/o/r" "d"; OpRename "github.com/o/r" "d" "github.com/o/r" "e"]) new_world in
  es = [Success; Success] ∧
  (pull old_read old_read (mkRefresh (Some 1%nat) 1 true) w).2 = PullFailed (LocalUnreadable "github.com/o/r/e").
Proof. by vm_compute. Qed.
