(* ===== verification/Bundle.v ===== *)
(** * Bundles of commits, and applying them to a worktree

    Model of internal/workspacebundle and of the part of
    internal/fetcher/workspace_publish.go that applies the operations of a
    repository to a cloned worktree.  A bundle is what is sent between the
    mount, the router and the fetcher; its JSON text is not modelled. *)

From stdpp Require Import options.
From S2P Require Import Prelude GoStrings GoUnicode GoPath GoTree.

(** ** Bundles *)

Abbreviation OperationUpsert := "upsert" (only parsing).
Abbreviation OperationDelete := "delete" (only parsing).
Abbreviation OperationMkdir := "mkdir" (only parsing).
Abbreviation OperationRmdir := "rmdir" (only parsing).
Abbreviation OperationSymlink := "symlink" (only parsing).
Abbreviation OperationRename := "rename" (only parsing).
Abbreviation OperationChmod := "chmod" (only parsing).

Record Operation := mkOperation {
  bo_Kind : string; bo_Path : string; bo_Mode : Z; bo_Content : string; bo_Target : string }.

(** The repository of a publish bundle, and of one commit of a commit
    bundle. *)
Record RepositoryBundle := mkRepositoryBundle {
  rb_StorageID : string; rb_DisplayPath : string; rb_RepoURL : string; rb_Branch : string; rb_BaseCommit : string;
  rb_Operations : list Operation }.
Record PublishBundle := mkPublishBundle { pb_WorkspaceID : string; pb_Repositories : list RepositoryBundle }.

Record SourceCommit := mkSourceCommit {
  so_ID : string; so_ParentID : string; so_Message : string; so_AuthorName : string; so_AuthorEmail : string;
  so_PrincipalID : string; so_CreatedAtUnix : Z; so_Repositories : list RepositoryBundle }.
Record SourceCommitBundle := mkCommitBundle {
  cb_WorkspaceID : string; cb_PrincipalID : string; cb_LogicalBranch : string; cb_Commits : list SourceCommit }.

Record WorkspaceRepositoryRef := mkRef {
  rr_StorageId : string; rr_DisplayPath : string; rr_RepoUrl : string; rr_Branch : string; rr_BaseCommit : string }.
Definition ref_of (r : RepositoryBundle) : WorkspaceRepositoryRef :=
  mkRef (rb_StorageID r) (rb_DisplayPath r) (rb_RepoURL r) (rb_Branch r) (rb_BaseCommit r).

(** ** Validation *)

Inductive bundle_error :=
| WorkspaceIDRequired | NoRepositories | NoCommits
| CommitIDMissing (i : nat) | DuplicateCommit (id : string) | CommitWithoutRepositories (id : string)
| StorageIDRequired (i : nat) | DuplicateRepository (storageID : string)
| DisplayPathRequired (storageID : string) | RepoURLRequired (storageID : string)
| RepoBranchRequired (storageID : string) | BaseCommitRequired (storageID : string)
| UnsupportedKind (storageID : string) (i : nat) (kind : string) | OpPathRequired (storageID : string) (i : nat)
| OpPathInvalid (storageID : string) (i : nat) | OpTargetRequired (storageID : string) (i : nat)
| RenameTargetRequired (storageID : string) (i : nat) | RenameTargetInvalid (storageID : string) (i : nat).

Definition blank (s : string) : bool := bool_decide (TrimSpace s = "").

Definition isSafeRelativePath `{UnicodeFold} (path : string) : bool :=
  if bool_decide (path = "." ∨ path = "") then false
  else if HasPrefix path "/" then false
  else
    let clean := Clean path in
    if bool_decide (clean = "." ∨ clean = "..") || HasPrefix clean "../" then false
    else negb (existsb (λ part, EqualFold part ".git") (Split clean slash)).

Definition validateOperation `{UnicodeFold} (storageID : string) (idx : nat) (op : Operation) : result bundle_error unit :=
  if negb (bool_decide (bo_Kind op ∈ [OperationUpsert; OperationDelete; OperationMkdir; OperationRmdir; OperationSymlink;
                                      OperationRename; OperationChmod])) then Err (UnsupportedKind storageID idx (bo_Kind op))
  else if blank (bo_Path op) then Err (OpPathRequired storageID idx)
  else if negb (isSafeRelativePath (bo_Path op)) then Err (OpPathInvalid storageID idx)
  else if bool_decide (bo_Kind op = OperationSymlink) && blank (bo_Target op) then Err (OpTargetRequired storageID idx)
  else if bool_decide (bo_Kind op = OperationRename) then
    if blank (bo_Target op) then Err (RenameTargetRequired storageID idx)
    else if negb (isSafeRelativePath (bo_Target op)) then Err (RenameTargetInvalid storageID idx)
    else Ok tt
  else Ok tt.
Fixpoint validate_operations `{UnicodeFold} (storageID : string) (idx : nat) (ops : list Operation) : result bundle_error unit :=
  match ops with
  | [] => Ok tt
  | op :: ops => let! _ := validateOperation storageID idx op in validate_operations storageID (S idx) ops
  end.

(** The repositories of a bundle, or of a commit, from the [j]th on; those of a
    commit have a branch and a base commit, too ([strict]). *)
Fixpoint validate_repositories `{UnicodeFold} (strict : bool) (j : nat) (seen : gset string) (repos : list RepositoryBundle)
    : result bundle_error unit :=
  match repos with
  | [] => Ok tt
  | repo :: repos =>
      let id := rb_StorageID repo in
      if blank id then Err (StorageIDRequired j)
      else if bool_decide (id ∈ seen) then Err (DuplicateRepository id)
      else if blank (rb_DisplayPath repo) then Err (DisplayPathRequired id)
      else if blank (rb_RepoURL repo) then Err (RepoURLRequired id)
      else if strict && blank (rb_Branch repo) then Err (RepoBranchRequired id)
      else if strict && blank (rb_BaseCommit repo) then Err (BaseCommitRequired id)
      else
        let! _ := validate_operations id 0 (rb_Operations repo) in
        validate_repositories strict (S j) ({[id]} ∪ seen) repos
  end.

Fixpoint validate_commits `{UnicodeFold} (i : nat) (seen : gset string) (commits : list SourceCommit) : result bundle_error unit :=
  match commits with
  | [] => Ok tt
  | commit :: commits =>
      if blank (so_ID commit) then Err (CommitIDMissing i)
      else if bool_decide (so_ID commit ∈ seen) then Err (DuplicateCommit (so_ID commit))
      else if bool_decide (so_Repositories commit = []) then Err (CommitWithoutRepositories (so_ID commit))
      else
        let! _ := validate_repositories true 0 ∅ (so_Repositories commit) in
        validate_commits (S i) ({[so_ID commit]} ∪ seen) commits
  end.

Definition Validate `{UnicodeFold} (b : SourceCommitBundle) : result bundle_error unit :=
  if blank (cb_WorkspaceID b) then Err WorkspaceIDRequired
  else if bool_decide (cb_Commits b = []) then Err NoCommits
  else validate_commits 0 ∅ (cb_Commits b).

Definition ValidatePublish `{UnicodeFold} (b : PublishBundle) : result bundle_error unit :=
  if blank (pb_WorkspaceID b) then Err WorkspaceIDRequired
  else if bool_decide (pb_Repositories b = []) then Err NoRepositories
  else validate_repositories false 0 ∅ (pb_Repositories b).

(** The first repository of each identifier. *)
Fixpoint first_refs (seen : gset string) (repos : list RepositoryBundle) : list WorkspaceRepositoryRef :=
  match repos with
  | [] => []
  | repo :: repos =>
      if bool_decide (rb_StorageID repo ∈ seen) then first_refs seen repos
      else ref_of repo :: first_refs ({[rb_StorageID repo]} ∪ seen) repos
  end.
Definition RepositoryRefs (b : SourceCommitBundle) : list WorkspaceRepositoryRef :=
  first_refs ∅ (cb_Commits b ≫= so_Repositories).

Definition LocalCommitIDs (b : SourceCommitBundle) : list string :=
  filter (λ id, blank id = false) (so_ID <$> cb_Commits b).

(** ** Applying operations *)

(** Calls on the disk of the fetcher; the outcomes to come are [Fine] when
    exhausted. *)
Definition disk (A : Type) : Type := list io * tree → list io * tree * A.
Definition dret {A} (a : A) : disk A := λ st, (st, a).
#[export] Instance disk_bind : MBind disk := λ A B f m st, let '(st', a) := m st in f a st'.
Definition call {A} (f : io → tree → tree * A) : disk A :=
  λ '(os, t), let '(o, os) := match os with [] => (Fine, []) | o :: os => (o, os) end in
              let '(t, a) := f o t in (os, t, a).

(** [os.Chmod]: permission bits are not part of the tree. *)
Definition Chmod (o : io) (p : string) (t : tree) : tree * bool :=
  (t, match o with Fine => Stat t p | Broken _ => false end).

(** Whether the call succeeded; a failed one ends the loop. *)
Definition andthen (m k : disk bool) : disk bool := ok ← m; if negb ok then dret false else k.

(** [filepath.Rel(root, target)] does not start with [".."]. *)
Definition inside (root target : string) : bool := bool_decide (target = root) || below root target.

Definition apply_operation (root : string) (op : Operation) : disk bool :=
  let path := PathJoin root (Clean (bo_Path op)) in
  if bool_decide (bo_Kind op = OperationUpsert) then
    andthen (call (λ o, MkdirAll o (Dir path))) (call (λ o, WriteFile o path (bo_Content op)))
  else if bool_decide (bo_Kind op = OperationDelete) then call (λ o, RemoveAll o path)
  else if bool_decide (bo_Kind op = OperationMkdir) then call (λ o, MkdirAll o path)
  else if bool_decide (bo_Kind op = OperationRmdir) then
    removed ← call (λ o, Remove o path); dret (match removed with Refused => false | _ => true end)
  else if bool_decide (bo_Kind op = OperationSymlink) then
    andthen (call (λ o, MkdirAll o (Dir path)))
      (andthen (call (λ o, RemoveAll o path)) (call (λ o, Symlink o (bo_Target op) path)))
  else if bool_decide (bo_Kind op = OperationRename) then
    let target := PathJoin root (Clean (bo_Target op)) in
    if negb (inside root target) then dret false
    else andthen (call (λ o, MkdirAll o (Dir target))) (call (λ o, Rename o path target))
  else if bool_decide (bo_Kind op = OperationChmod) then call (λ o, Chmod o path)
  else dret true.

Fixpoint applyRepositoryOperations (root : string) (ops : list Operation) : disk bool :=
  match ops with
  | [] => dret true
  | op :: ops => andthen (apply_operation root op) (applyRepositoryOperations root ops)
  end.
