(* ===== verification/SourcePush.v ===== *)
(** * Pushing commit bundles to repositories

    Model of internal/fetcher/workspace_source_push.go with the helpers of
    workspace_publish.go, and of the router's and the client's part of a push
    (internal/router/workspace_source_push.go and workspace_sync.go,
    internal/client/workspace_source_push.go).  The git library is
    third-party: what it answers during a push is an argument.  What is
    committed is its index, which the code fills path by path, and with a push
    git accepts the index reaches the target branch.  The messages for the
    user are left out. *)

From stdpp Require Import options.
From S2P Require Import Prelude GoStrings GoUnicode GoSort GoRange GoPath GoTree Bundle.

(** ** Statuses *)

Inductive RepoSyncStatus :=
| SYNC_UNCHANGED | SYNC_PUBLISHED | SYNC_CONFLICT | SYNC_DIVERGED | SYNC_MISSING_BRANCH | SYNC_AUTH_FAILED
| SYNC_TRANSIENT_ERROR | SYNC_FAILED | SYNC_ROLLED_BACK.
#[export] Instance RepoSyncStatus_eq_dec : EqDecision RepoSyncStatus.
Proof. solve_decision. Defined.

Record RepoSyncProgress := mkProgress {
  pr_Repository : WorkspaceRepositoryRef; pr_TargetBranch : string; pr_Status : RepoSyncStatus; pr_ConflictReason : string;
  pr_RemoteCommit : string; pr_PushedCommit : string; pr_LocalCommitId : string; pr_LocalCommitIndex : nat }.

(** The status an error of the git library stands for. *)
Definition mapPublishError `{UnicodeLower} (err : string) : RepoSyncStatus * string :=
  let msg := ToLower err in
  if Contains msg "authentication" || Contains msg "authorization" || Contains msg "access denied"
  then (SYNC_AUTH_FAILED, "auth_failed")
  else if Contains msg "non-fast-forward" || Contains msg "already exists" || Contains msg "rejected" || Contains msg "base commit"
  then (SYNC_CONFLICT, "non_fast_forward")
  else if Contains msg "timeout" || Contains msg "connection" || Contains msg "transport"
  then (SYNC_TRANSIENT_ERROR, "transport_error")
  else (SYNC_FAILED, "").

(** ** Branches *)

Definition in_set (set : list ascii) (a : ascii) : bool := bool_decide (a ∈ set).
Fixpoint trim_left_set (set : list ascii) (bs : bytes) : bytes :=
  match bs with a :: r => if in_set set a then trim_left_set set r else bs | [] => [] end.
(** [strings.Trim] with a cutset of ASCII characters. *)
Definition TrimSet (set : list ascii) (s : string) : string :=
  string_of_bytes (rev (trim_left_set set (rev (trim_left_set set (bytes_of_string s))))).

Fixpoint replace_unsafe (bs : bytes) : bytes :=
  match bs with
  | [] => []
  | a :: r =>
      match bool_decide (a = "."%char), r with
      | true, b :: r' => if bool_decide (b = "."%char) then "-"%char :: replace_unsafe r' else a :: replace_unsafe r
      | _, _ =>
          (if in_set [" "; "~"; "^"; ":"; "?"; "*"; "["; "\"]%char a then "-"%char else a) :: replace_unsafe r
      end
  end.
Definition sanitizeBranchName (name : string) : string :=
  let clean := TrimSet ["/"; "."; "-"]%char (string_of_bytes (replace_unsafe (bytes_of_string name))) in
  if bool_decide (clean = "") then "monofs/publish" else clean.

Definition chooseSourcePushTargetBranch (logicalBranch : string) (repo : RepositoryBundle) : string :=
  if negb (blank logicalBranch) then sanitizeBranchName (TrimSpace logicalBranch) else rb_Branch repo.

(** ** Plans *)

Record sourcePushRepositoryPlan := mkPlan {
  pl_repo : RepositoryBundle; pl_operations : list Operation; pl_commitIDs : list string;
  pl_latestCommitMessage : string; pl_latestAuthorName : string; pl_latestAuthorEmail : string }.

Definition plan_key (repo : RepositoryBundle) : string := if blank (rb_StorageID repo) then rb_DisplayPath repo else rb_StorageID repo.
Definition extend_plan (commit : SourceCommit) (plans : gmap string sourcePushRepositoryPlan) (repo : RepositoryBundle)
    : gmap string sourcePushRepositoryPlan :=
  let plan := default (mkPlan repo [] [] "" "" "") (plans !! plan_key repo) in
  let latest new old := if blank new then old else TrimSpace new in
  <[plan_key repo :=
      mkPlan (pl_repo plan) (pl_operations plan ++ rb_Operations repo) (pl_commitIDs plan ++ [so_ID commit])
        (TrimSpace (so_Message commit)) (latest (so_AuthorName commit) (pl_latestAuthorName plan))
        (latest (so_AuthorEmail commit) (pl_latestAuthorEmail plan))]> plans.
Definition collect_plans (commits : list SourceCommit) : gmap string sourcePushRepositoryPlan :=
  foldl (λ plans commit, foldl (extend_plan commit) plans (so_Repositories commit)) ∅ commits.
Definition sourcePushRepositoryPlans `{GoSort, GoRange} (b : SourceCommitBundle) : list sourcePushRepositoryPlan :=
  sort_slice (λ x y, str_lt (rb_DisplayPath (pl_repo x)) (rb_DisplayPath (pl_repo y))) (range 0 (collect_plans (cb_Commits b))).*2.

(** ** One repository *)

Inductive status_code := Unmodified | DeletedCode | OtherCode.
#[export] Instance status_code_eq_dec : EqDecision status_code.
Proof. solve_decision. Defined.
Record file_status := mkFileStatus { fs_path : string; fs_worktree : status_code; fs_staging : status_code }.

(** The index of git: files and links by their paths in the repository. *)
Abbreviation index := (gmap string node).

(** What git and the disk of the fetcher answer while a repository is pushed.
    A clone gives the disk with the worktree below [ga_root], and the index
    [ga_index]; errors are their texts.  [ga_status] is [wt.Status], [ga_add]
    [wt.Add], with the new index, and [ga_remove] [wt.Remove].  A checkout makes
    the target branch from the head, and changes no file. *)
Record git_answers := mkGit {
  ga_root : string; ga_clone : result string tree; ga_index : index; ga_open : bool; ga_head : option string; ga_worktree : bool;
  ga_checkout : bool; ga_create : option string; ga_io : list io;
  ga_status : tree → index → option (list file_status); ga_add : tree → index → string → option index;
  ga_remove : index → string → result string index; ga_commit : index → option string; ga_push : index → option string }.

Definition checkoutPublishBranch (g : git_answers) (targetBranch : string) : option string :=
  if bool_decide (targetBranch = "") then None else if ga_checkout g then None else ga_create g.

(** The index that is left, and whether there are changes; [None] on an
    error. *)
Fixpoint stage_files (g : git_answers) (t : tree) (l : list file_status) (ix : index) (hasChanges : bool) : index * option bool :=
  match l with
  | [] => (ix, Some hasChanges)
  | f :: l =>
      if bool_decide (fs_worktree f = Unmodified ∧ fs_staging f = Unmodified) then stage_files g t l ix hasChanges
      else if bool_decide (fs_worktree f = DeletedCode) then
        match ga_remove g ix (fs_path f) with
        | Err err => if Contains err "entry not found" then stage_files g t l ix true else (ix, None)
        | Ok ix' => stage_files g t l ix' true
        end
      else match ga_add g t ix (fs_path f) with Some ix' => stage_files g t l ix' true | None => (ix, None) end
  end.
Definition stageWorktreeChanges (g : git_answers) (t : tree) (ix : index) : index * option bool :=
  match ga_status g t ix with Some l => stage_files g t l ix false | None => (ix, None) end.

Section push.
Context `{UnicodeLower} (logicalBranch : string).

(** A report on a repository. *)
Definition report (repo : RepositoryBundle) (status : RepoSyncStatus) (reason remote pushed : string) : RepoSyncProgress :=
  mkProgress (ref_of repo) (chooseSourcePushTargetBranch logicalBranch repo) status reason remote pushed "" 0.

(** The changes of a worktree are staged, committed and pushed: the index that
    is left, the report, and the content a successful push leaves on the
    target branch. *)
Definition commit_and_push (g : git_answers) (repo : RepositoryBundle) (remote : string) (t : tree) (ix : index)
    : index * (RepoSyncProgress * option index) :=
  match stageWorktreeChanges g t ix with
  | (ix, None) => (ix, (report repo SYNC_FAILED "" remote "", None))
  | (ix, Some false) => (ix, (report repo SYNC_UNCHANGED "" remote "", None))
  | (ix, Some true) =>
      match ga_commit g ix with
      | None => (ix, (report repo SYNC_FAILED "" remote "", None))
      | Some hash =>
          match ga_push g ix with
          | Some err => let '(status, reason) := mapPublishError err in (ix, (report repo status reason remote hash, None))
          | None => (ix, (report repo SYNC_PUBLISHED "" remote hash, Some ix))
          end
      end
  end.

Definition pushSourceCommitRepository (g : git_answers) (plan : sourcePushRepositoryPlan) : RepoSyncProgress * option index :=
  let repo := pl_repo plan in
  if bool_decide (pl_operations plan = []) then (report repo SYNC_UNCHANGED "" "" "", None)
  else
    match ga_clone g with
    | Err err => let '(status, reason) := mapPublishError err in (report repo status reason "" "", None)
    | Ok cloned =>
        if negb (ga_open g) then (report repo SYNC_FAILED "" "" "", None)
        else
          match ga_head g with
          | None => (report repo SYNC_FAILED "" "" "", None)
          | Some head =>
              if negb (bool_decide (head = rb_BaseCommit repo)) then (report repo SYNC_CONFLICT "base_commit_mismatch" head "", None)
              else if negb (ga_worktree g) then (report repo SYNC_FAILED "" head "", None)
              else
                match checkoutPublishBranch g (chooseSourcePushTargetBranch logicalBranch repo) with
                | Some err => let '(status, reason) := mapPublishError err in (report repo status reason head "", None)
                | None =>
                    let '(_, t, applied) := applyRepositoryOperations (ga_root g) (pl_operations plan) (ga_io g, cloned) in
                    if negb applied then (report repo SYNC_FAILED "" head "", None) else (commit_and_push g repo head t (ga_index g)).2
                end
          end
    end.

(** ** Undoing a push *)

(** What git answers while a repository is rolled back: [ra_base] is the base
    commit as the repository resolves it and [ra_files] the files of its
    tree. *)
Record rollback_answers := mkRollback {
  ra_git : git_answers; ra_base : option string; ra_files : string → option (list (string * option string)) }.

(** The files of the base, then the files that are not among them, except
    below [.git]. *)
Fixpoint restore_files (root : string) (files : list (string * option string)) : disk bool :=
  match files with
  | [] => dret true
  | (name, content) :: files =>
      let target := PathJoin root (Clean name) in
      andthen (call (λ o, MkdirAll o (Dir target)))
        (match content with
         | None => dret false
         | Some c => andthen (call (λ o, WriteFile o target c)) (restore_files root files)
         end)
  end.
Fixpoint remove_others (root : string) (names : list string) (paths : list string) : disk bool :=
  match paths with
  | [] => dret true
  | p :: paths =>
      let rel := str_drop (String.length root + 1) p in
      if bool_decide (rel = ".git") || HasPrefix rel ".git/" || bool_decide (rel ∈ names) then remove_others root names paths
      else removed ← call (λ o, Remove o p); match removed with Removed => remove_others root names paths | _ => dret false end
  end.
(** The paths [filepath.WalkDir] passes that are no directories. *)
Definition walked (root : string) (t : tree) : list string :=
  sort_Strings (map_to_list (filter (λ '(q, n), below root q = true ∧ n ≠ Directory) t)).*1.
Definition restoreBaseTree (root : string) (files : list (string * option string)) : disk bool :=
  andthen (restore_files root files)
    (λ '(os, t), remove_others root files.*1 (walked root t) (os, t)).

(** [kept] is the worktree kept from the push with its index, [None] for a
    fresh clone. *)
Definition rollbackSourcePushRepository (a : rollback_answers) (repo : RepositoryBundle) (kept : option (tree * index))
    : RepoSyncProgress * option index :=
  let g := ra_git a in
  let cloned := match kept with
                | Some ti => Ok ti
                | None => match ga_clone g with
                          | Err err => Err (mapPublishError err)
                          | Ok t => if ga_open g && ga_worktree g then Ok (t, ga_index g) else Err (SYNC_FAILED, "")
                          end
                end in
  match cloned with
  | Err (status, reason) => (report repo status reason "" "", None)
  | Ok (t, ix) =>
      match ra_base a with
      | None => (report repo SYNC_FAILED "" "" "", None)
      | Some base =>
          match ra_files a base with
          | None => (report repo SYNC_FAILED "" "" "", None)
          | Some files =>
              let '(_, t', restored) := restoreBaseTree (ga_root g) files (ga_io g, t) in
              if negb restored then (report repo SYNC_FAILED "" "" "", None)
              else match stageWorktreeChanges g t' ix with
                   | (ix, Some true) =>
                       match ga_commit g ix with
                       | None => (report repo SYNC_FAILED "" "" "", None)
                       | Some hash =>
                           match ga_push g ix with
                           | Some err => let '(status, reason) := mapPublishError err in (report repo status reason "" "", None)
                           | None => (report repo SYNC_ROLLED_BACK "" "" hash, Some ix)
                           end
                       end
                   | _ => (report repo SYNC_FAILED "" "" "", None)
                   end
          end
      end
  end.

(** ** Squashing *)

Definition hard (s : RepoSyncStatus) : bool :=
  bool_decide (s ∈ [SYNC_FAILED; SYNC_TRANSIENT_ERROR; SYNC_AUTH_FAILED; SYNC_CONFLICT; SYNC_DIVERGED; SYNC_MISSING_BRANCH]).

(** What was reported, what reached the repositories, and the repositories
    published so far. *)
Record pushed := mkPushed {
  pd_progress : list RepoSyncProgress; pd_remote : list (string * index); pd_published : list RepositoryBundle; pd_failed : bool }.

Definition landed (repo : RepositoryBundle) (ix : option index) : list (string * index) :=
  match ix with Some ix => [(rb_StorageID repo, ix)] | None => [] end.

(** [gits] are the answers by repository; [cancelled] tells before which
    repositories the request was cancelled. *)
Fixpoint squash_loop (gits : string → git_answers) (cancelled : nat → bool) (i : nat) (plans : list sourcePushRepositoryPlan) (acc : pushed) : pushed :=
  match plans with
  | [] => acc
  | plan :: plans =>
      let repo := pl_repo plan in
      let failed := pd_failed acc || cancelled i in
      squash_loop gits cancelled (S i) plans
        (if failed
         then mkPushed (pd_progress acc ++ [mkProgress (ref_of repo) "" SYNC_UNCHANGED "" "" "" "" 0]) (pd_remote acc) (pd_published acc) true
         else
           let '(progress, ix) := pushSourceCommitRepository (gits (rb_StorageID repo)) plan in
           mkPushed (pd_progress acc ++ [progress]) (pd_remote acc ++ landed repo ix)
             (if bool_decide (pr_Status progress = SYNC_PUBLISHED) then pd_published acc ++ [repo] else pd_published acc)
             (hard (pr_Status progress)))
  end.

Fixpoint rollback_all (rolls : string → rollback_answers) (worktrees : gmap string (tree * index)) (repos : list RepositoryBundle) (acc : pushed) : pushed :=
  match repos with
  | [] => acc
  | repo :: repos =>
      let '(progress, ix) := rollbackSourcePushRepository (rolls (rb_StorageID repo)) repo (worktrees !! rb_StorageID repo) in
      rollback_all rolls worktrees repos
        (mkPushed (pd_progress acc ++ [progress]) (pd_remote acc ++ landed repo ix) (pd_published acc) (pd_failed acc))
  end.

Definition push_squash `{GoSort, GoRange} (gits : string → git_answers) (rolls : string → rollback_answers) (cancelled : nat → bool)
    (b : SourceCommitBundle) : pushed :=
  let acc := squash_loop gits cancelled 0 (sourcePushRepositoryPlans b) (mkPushed [] [] [] false) in
  if pd_failed acc then rollback_all rolls ∅ (pd_published acc) acc else acc.

(** ** Preserving the commits *)

(** The worktree of a repository: the disk, the index, whether it was opened
    ([repoHandle]) and whether its branch was checked out ([wt]). *)
Record repoWorktree := mkWorktree { rw_disk : tree; rw_index : index; rw_io : list io; rw_opened : bool; rw_checked : bool }.

(** [None] where the worktree that is nil is used: a repository that was
    opened and could not be checked out is not opened again. *)
Definition pushSinglePreserveCommit (g : git_answers) (rw : repoWorktree) (repo : RepositoryBundle)
    : option (repoWorktree * (RepoSyncProgress * option index)) :=
  if bool_decide (rb_Operations repo = []) then Some (rw, (report repo SYNC_UNCHANGED "" "" "", None))
  else
    let opened := mkWorktree (rw_disk rw) (rw_index rw) (rw_io rw) true false in
    let start : (repoWorktree * (RepoSyncProgress * option index)) + (repoWorktree * string) :=
      if rw_opened rw then inr (rw, "")
      else if negb (ga_open g) then inl (rw, (report repo SYNC_FAILED "" "" "", None))
      else match ga_head g with
           | None => inl (opened, (report repo SYNC_FAILED "" "" "", None))
           | Some head =>
               if negb (bool_decide (head = rb_BaseCommit repo)) then inl (opened, (report repo SYNC_CONFLICT "base_commit_mismatch" head "", None))
               else if negb (ga_worktree g) then inl (opened, (report repo SYNC_FAILED "" head "", None))
               else match checkoutPublishBranch g (chooseSourcePushTargetBranch logicalBranch repo) with
                    | Some err => let '(status, reason) := mapPublishError err in inl (opened, (report repo status reason head "", None))
                    | None => inr (mkWorktree (rw_disk rw) (rw_index rw) (rw_io rw) true true, head)
                    end
           end in
    match start with
    | inl out => Some out
    | inr (rw, remote) =>
        let '(io, t, applied) := applyRepositoryOperations (ga_root g) (rb_Operations repo) (rw_io rw, rw_disk rw) in
        let rw := mkWorktree t (rw_index rw) io true (rw_checked rw) in
        if negb applied then Some (rw, (report repo SYNC_FAILED "" remote "", None))
        else if negb (rw_checked rw) then None
        else let '(ix, out) := commit_and_push g repo remote t (rw_index rw) in Some (mkWorktree t ix io true true, out)
    end.

Definition with_commit (commit : SourceCommit) (i : nat) (p : RepoSyncProgress) : RepoSyncProgress :=
  mkProgress (pr_Repository p) (pr_TargetBranch p) (pr_Status p) (pr_ConflictReason p) (pr_RemoteCommit p) (pr_PushedCommit p) (so_ID commit) i.

(** How the loop goes on. *)
Inductive flow := Running | Stopping | Panicked.
#[export] Instance flow_eq_dec : EqDecision flow.
Proof. solve_decision. Defined.

(** The state of the loop: what was pushed, the worktrees, and the published
    repositories by identifier. *)
Record preserving := mkPreserving {
  ps_acc : pushed; ps_worktrees : gmap string repoWorktree; ps_published : gmap string RepositoryBundle; ps_flow : flow }.

(** One repository of a commit; a failure to clone, a conflict or a failure
    stops the push.  [gits] are the answers by repository and commit. *)
Definition preserve_repository (gits : string → nat → git_answers) (i : nat) (commit : SourceCommit) (st : preserving) (repo : RepositoryBundle) : preserving :=
  if negb (bool_decide (ps_flow st = Running)) then st
  else
    let acc := ps_acc st in
    let id := rb_StorageID repo in
    let g := gits id i in
    match match ps_worktrees st !! id with
          | Some rw => Ok rw
          | None => match ga_clone g with Ok t => Ok (mkWorktree t (ga_index g) (ga_io g) false false) | Err err => Err err end
          end with
    | Err err =>
        let '(status, reason) := mapPublishError err in
        mkPreserving (mkPushed (pd_progress acc ++ [mkProgress (ref_of repo) "" status reason "" "" (so_ID commit) i]) (pd_remote acc) (pd_published acc) true)
          (ps_worktrees st) (ps_published st) Stopping
    | Ok rw =>
        match pushSinglePreserveCommit g rw repo with
        | None => mkPreserving acc (ps_worktrees st) (ps_published st) Panicked
        | Some (rw, (progress, ix)) =>
            let published := if bool_decide (pr_Status progress = SYNC_PUBLISHED)
                             then <[id := default repo (ps_published st !! id)]> (ps_published st) else ps_published st in
            let stop := bool_decide (pr_Status progress ∈ [SYNC_CONFLICT; SYNC_DIVERGED; SYNC_FAILED]) in
            mkPreserving (mkPushed (pd_progress acc ++ [with_commit commit i progress]) (pd_remote acc ++ landed repo ix) (pd_published acc) (pd_failed acc || stop))
              (<[id := rw]> (ps_worktrees st)) published (if stop then Stopping else Running)
        end
    end.

Fixpoint preserve_loop (gits : string → nat → git_answers) (cancelled : nat → bool) (i : nat) (commits : list SourceCommit) (st : preserving) : preserving :=
  match commits with
  | [] => st
  | commit :: commits =>
      let st := if cancelled i && bool_decide (ps_flow st = Running)
                then mkPreserving (ps_acc st) (ps_worktrees st) (ps_published st) Stopping else st in
      preserve_loop gits cancelled (S i) commits (foldl (preserve_repository gits i commit) st (so_Repositories commit))
  end.

Definition commit_older (x y : SourceCommit) : bool :=
  if bool_decide (so_CreatedAtUnix x = so_CreatedAtUnix y) then str_lt (so_ID x) (so_ID y)
  else bool_decide (so_CreatedAtUnix x < so_CreatedAtUnix y).

Definition pushSourceCommitsPreserve `{GoSort, GoRange} (gits : string → nat → git_answers) (rolls : string → rollback_answers)
    (cancelled : nat → bool) (b : SourceCommitBundle) : pushed * bool :=
  let st := preserve_loop gits cancelled 0 (sort_slice commit_older (cb_Commits b)) (mkPreserving (mkPushed [] [] [] false) ∅ ∅ Running) in
  match ps_flow st with
  | Running => (ps_acc st, true)
  | Stopping => (rollback_all rolls ((λ rw, (rw_disk rw, rw_index rw)) <$> ps_worktrees st) (range 1 (ps_published st)).*2 (ps_acc st), true)
  | Panicked => (ps_acc st, false)
  end.

(** What was pushed, and whether the call returned. *)

Definition StartWorkspaceCommitPush `{GoSort, GoRange} (mode : string) (gits : string → nat → git_answers)
    (rolls : string → rollback_answers) (cancelled : nat → bool) (b : SourceCommitBundle) : pushed * bool :=
  if bool_decide (ToLower (TrimSpace mode) = "preserve") then pushSourceCommitsPreserve gits rolls cancelled b
  else (push_squash (λ id, gits id O) rolls cancelled b, true).

End push.

(** ** The router's account of a push *)

Inductive repository_status := REPO_UNCHANGED | REPO_PUBLISHED | REPO_ROLLED_BACK | REPO_CONFLICT | REPO_FAILED.
#[export] Instance repository_status_eq_dec : EqDecision repository_status.
Proof. solve_decision. Defined.

Record WorkspaceSyncRepositoryResult := mkRepositoryResult {
  re_StorageId : string; re_DisplayPath : string; re_RepoUrl : string; re_Branch : string; re_BaseCommit : string;
  re_RemoteCommit : string; re_TargetBranch : string; re_PushedCommit : string; re_ConflictReason : string;
  re_Status : repository_status }.

Definition workspaceRepositoryResultFromPublish (p : RepoSyncProgress) : WorkspaceSyncRepositoryResult :=
  let repo := pr_Repository p in
  let or_default s d := if bool_decide (s = "") then d else s in
  let '(status, reason) :=
    match pr_Status p with
    | SYNC_UNCHANGED => (REPO_UNCHANGED, pr_ConflictReason p)
    | SYNC_PUBLISHED => (REPO_PUBLISHED, pr_ConflictReason p)
    | SYNC_ROLLED_BACK => (REPO_ROLLED_BACK, pr_ConflictReason p)
    | SYNC_CONFLICT => (REPO_CONFLICT, or_default (pr_ConflictReason p) "conflict")
    | SYNC_DIVERGED => (REPO_CONFLICT, or_default (pr_ConflictReason p) "diverged")
    | SYNC_MISSING_BRANCH => (REPO_CONFLICT, or_default (pr_ConflictReason p) "missing_branch")
    | SYNC_AUTH_FAILED | SYNC_TRANSIENT_ERROR | SYNC_FAILED => (REPO_FAILED, pr_ConflictReason p)
    end in
  mkRepositoryResult (rr_StorageId repo) (rr_DisplayPath repo) (rr_RepoUrl repo) (rr_Branch repo) (rr_BaseCommit repo)
    (pr_RemoteCommit p) (or_default (pr_TargetBranch p) (rr_Branch repo)) (pr_PushedCommit p) reason status.

(** The result of a repository replaces an earlier one. *)
Fixpoint updateWorkspaceSyncRepository (results : list WorkspaceSyncRepositoryResult) (r : WorkspaceSyncRepositoryResult)
    : list WorkspaceSyncRepositoryResult :=
  match results with
  | [] => [r]
  | x :: results => if bool_decide (re_StorageId x = re_StorageId r) then r :: results else x :: updateWorkspaceSyncRepository results r
  end.

Inductive job_state := JOB_SUCCEEDED | JOB_FAILED.
#[export] Instance job_state_eq_dec : EqDecision job_state.
Proof. solve_decision. Defined.

Definition finalizeWorkspaceSyncJob (results : list WorkspaceSyncRepositoryResult) : job_state :=
  if existsb (λ r, bool_decide (re_Status r ∈ [REPO_FAILED; REPO_CONFLICT; REPO_ROLLED_BACK])) results then JOB_FAILED else JOB_SUCCEEDED.

(** The job at the end, from the reports of the fetcher.  The job is not
    cancelled at the router, its records can be stored, and the pull requests
    and the search index that follow a report are left out. *)
Definition runWorkspaceCommitPushJob (progress : list RepoSyncProgress) : list WorkspaceSyncRepositoryResult * job_state :=
  let results := foldl (λ l p, updateWorkspaceSyncRepository l (workspaceRepositoryResultFromPublish p)) [] progress in
  (results, finalizeWorkspaceSyncJob results).

Inductive SourcePushMode := MODE_UNSPECIFIED | MODE_SQUASH | MODE_PRESERVE.
#[export] Instance SourcePushMode_eq_dec : EqDecision SourcePushMode.
Proof. solve_decision. Defined.

Definition resolveSourcePushMode `{UnicodeLower} (requested : SourcePushMode) (configDefault : string) : string :=
  match requested with
  | MODE_PRESERVE => "preserve"
  | MODE_SQUASH => "squash"
  | MODE_UNSPECIFIED => if bool_decide (TrimSpace (ToLower configDefault) = "preserve") then "preserve" else "squash"
  end.

(** [None] when the request and the bundle name different branches. *)
Definition resolveSourcePushLogicalBranch (requested : string) (b : SourceCommitBundle) : option string :=
  let bundleBranch := TrimSpace (cb_LogicalBranch b) in
  let requested := TrimSpace requested in
  if bool_decide (requested ≠ "" ∧ bundleBranch ≠ "" ∧ requested ≠ bundleBranch) then None
  else Some (if bool_decide (requested = "") then bundleBranch else requested).

(** ** The client *)

Definition normalizeSourceCommitBundleForPush `{UnicodeFold} (clientID fallbackID : string) (b : SourceCommitBundle)
    : result bundle_error SourceCommitBundle :=
  let workspace := TrimSpace (cb_WorkspaceID b) in
  let workspace := if bool_decide (workspace = "") then TrimSpace clientID else workspace in
  let workspace := if bool_decide (workspace = "") then fallbackID else workspace in
  let normalized := mkCommitBundle workspace (TrimSpace (cb_PrincipalID b)) (TrimSpace (cb_LogicalBranch b)) (cb_Commits b) in
  let! _ := Validate normalized in Ok normalized.

(** Everything a push meets on its way: the identity of the client, the gates
    of the router (policy and ownership), its configuration, and the answers
    of git at the fetcher. *)
Record push_world := mkPushWorld {
  pw_clientID : string; pw_fallbackID : string; pw_allowed : SourceCommitBundle → bool; pw_config : string; pw_jobID : string;
  pw_gits : string → nat → git_answers; pw_rolls : string → rollback_answers; pw_cancelled : nat → bool }.

(** The answer of a push to the mount, [None] for an error, and what reached
    the repositories.  The streams between client, router and fetcher do not
    break. *)
Definition PushWorkspaceCommitBundle `{UnicodeFold, UnicodeLower, GoSort, GoRange} (pw : push_world) (b : SourceCommitBundle) (mode : SourcePushMode)
    : option (string * list WorkspaceSyncRepositoryResult) * list (string * index) :=
  match normalizeSourceCommitBundleForPush (pw_clientID pw) (pw_fallbackID pw) b with
  | Err _ => (None, [])
  | Ok b =>
      match resolveSourcePushLogicalBranch (cb_LogicalBranch b) b with
      | None => (None, [])
      | Some logicalBranch =>
          if negb (pw_allowed pw b) then (None, [])
          else
            let '(done, returned) :=
              StartWorkspaceCommitPush logicalBranch (resolveSourcePushMode mode (pw_config pw)) (pw_gits pw) (pw_rolls pw) (pw_cancelled pw) b in
            let '(results, state) := runWorkspaceCommitPushJob (pd_progress done) in
            (if returned && bool_decide (state = JOB_SUCCEEDED) then Some (pw_jobID pw, results) else None, pd_remote done)
      end
  end.
