(* ===== verification/GitIndex.v ===== *)
(** * The index of git

    What the git library documents of the calls a push makes, and what staging
    the changes of a worktree makes of the index: the files and links of the
    worktree, except at paths that are ignored.  [plain_git] is a git on which
    the examples run. *)

From stdpp Require Import options.
From S2P Require Import Prelude GoStrings GoUnicode GoSort GoPath GoTree Bundle SourcePush.

(** ** What git promises *)

(** What is versioned of a node: directories are not. *)
Definition versioned (n : option node) : option node := match n with Some Directory => None | _ => n end.
(** The file or link at a path of the worktree. *)
Definition content (root : string) (t : tree) (rel : string) : option node := versioned (t !! (root +:+ "/" +:+ rel)).

Definition modified (f : file_status) : Prop := ¬ (fs_worktree f = Unmodified ∧ fs_staging f = Unmodified).

(** A clone has the files of its commit in the worktree and in the index, what
    is ignored apart (the git directory among it).  The status lists where the
    worktree differs from the index, and calls a file deleted only when it is
    not there.  Adding a path takes over what the worktree has there, removing
    one takes it from the index. *)
Record git_documented (ignored : string → bool) (g : git_answers) : Prop := {
  gd_clone cloned rel : ga_clone g = Ok cloned → ignored rel = false → ga_index g !! rel = content (ga_root g) cloned rel;
  gd_status t ix l rel : ga_status g t ix = Some l → ignored rel = false → content (ga_root g) t rel ≠ ix !! rel →
    ∃ f, f ∈ l ∧ fs_path f = rel ∧ modified f;
  gd_listed t ix l f : ga_status g t ix = Some l → f ∈ l → modified f →
    ignored (fs_path f) = false ∧ (fs_worktree f = DeletedCode → content (ga_root g) t (fs_path f) = None);
  gd_add t ix rel ix' : ga_add g t ix rel = Some ix' → ix' = partial_alter (λ _, content (ga_root g) t rel) rel ix;
  gd_remove ix rel ix' : ga_remove g ix rel = Ok ix' → ix' = delete rel ix;
  gd_missing ix rel err : ga_remove g ix rel = Err err → Contains err "entry not found" = true → ix !! rel = None }.

(** ** Staging *)

Section staging.
Context (ignored : string → bool) (g : git_answers) (Hgit : git_documented ignored g).
Abbreviation at_path t rel := (content (ga_root g) t rel).

(** Every listed path has what the worktree has there, every other what the
    index had. *)
Lemma stage_files_spec t l ix changes ix' ok :
  (∀ f, f ∈ l → modified f → fs_worktree f = DeletedCode → at_path t (fs_path f) = None) →
  stage_files g t l ix changes = (ix', Some ok) →
  (∀ f, f ∈ l → modified f → ix' !! fs_path f = at_path t (fs_path f)) ∧
  (∀ rel, ix' !! rel ≠ ix !! rel → ix' !! rel = at_path t rel ∧ ∃ f, f ∈ l ∧ modified f ∧ fs_path f = rel) ∧
  (ok = false → changes = false ∧ ix' = ix ∧ ∀ f, f ∈ l → ¬ modified f).
Proof using Hgit.
  revert ix changes. induction l as [|f l IH]; intros ix changes Hdel; cbn [stage_files].
  { intros [= <- <-]. split_and!; [by intros f ?%not_elem_of_nil|done|]. intros ->. split_and!; [done..|]. by intros f ?%not_elem_of_nil. }
  assert (∀ f', f' ∈ l → modified f' → fs_worktree f' = DeletedCode → at_path t (fs_path f') = None) as Hdel' by (intros; apply Hdel; [by right|done..]).
  (* a change at [fs_path f], then the rest *)
  assert (∀ ix1, modified f → ix1 !! fs_path f = at_path t (fs_path f) → (∀ rel, rel ≠ fs_path f → ix1 !! rel = ix !! rel) →
    stage_files g t l ix1 true = (ix', Some ok) →
    (∀ f', f' ∈ f :: l → modified f' → ix' !! fs_path f' = at_path t (fs_path f')) ∧
    (∀ rel, ix' !! rel ≠ ix !! rel → ix' !! rel = at_path t rel ∧ ∃ f', f' ∈ f :: l ∧ modified f' ∧ fs_path f' = rel) ∧
    (ok = false → changes = false ∧ ix' = ix ∧ ∀ f', f' ∈ f :: l → ¬ modified f')) as Hstep.
  { intros ix1 Hm H1 Hoff E. destruct (IH ix1 true Hdel' E) as (Ha & Hb & Hc).
    assert (ix' !! fs_path f = at_path t (fs_path f)) as Hf.
    { destruct (decide (ix' !! fs_path f = ix1 !! fs_path f)) as [->|Hne]; [done|by apply Hb]. }
    split_and!.
    - intros f' [->|Hf']%elem_of_cons Hm'; [done|by apply Ha].
    - intros rel Hne. destruct (decide (rel = fs_path f)) as [->|Hr]; [split; [done|]; exists f; split_and!; [left|done..]|].
      rewrite <- Hoff in Hne by done. destruct (Hb rel Hne) as (? & f' & ? & ? & ?). split; [done|]. exists f'. split_and!; [by right|done..].
    - intros Hok. by destruct (Hc Hok). }
  case_bool_decide as Hu.
  { intros E. destruct (IH ix changes Hdel' E) as (Ha & Hb & Hc). assert (¬ modified f) as Hn by (intros Hm; by apply Hm). split_and!.
    - intros f' [->|Hf']%elem_of_cons Hm; [done|by apply Ha].
    - intros rel Hne. destruct (Hb rel Hne) as (? & f' & ? & ? & ?). split; [done|]. exists f'. split_and!; [by right|done..].
    - intros Hok. destruct (Hc Hok) as (? & ? & Hno). split_and!; [done..|]. intros f' [->|Hf']%elem_of_cons; [done|by apply Hno]. }
  case_bool_decide as Hd.
  - pose proof (Hdel f ltac:(left) Hu Hd) as Hn. destruct (ga_remove g ix (fs_path f)) as [ix1|err] eqn:Er.
    + apply (gd_remove _ _ Hgit) in Er as ->. apply Hstep; [done|by rewrite lookup_delete_eq|]. intros rel Hr. by rewrite lookup_delete_ne.
    + destruct (Contains err _) eqn:Ec; [|done]. apply Hstep; [done| |done]. by rewrite Hn, (gd_missing _ _ Hgit _ _ _ Er Ec).
  - destruct (ga_add g t ix (fs_path f)) as [ix1|] eqn:Ea; [|done]. apply (gd_add _ _ Hgit) in Ea as ->.
    apply Hstep; [done|by rewrite lookup_partial_alter_eq|]. intros rel Hr. by rewrite lookup_partial_alter_ne.
Qed.

(** After staging the index has what the worktree has, and at ignored paths
    what it had; when no change was seen it was so before. *)
Lemma staged_index t ix ix' ok : stageWorktreeChanges g t ix = (ix', Some ok) →
  (∀ rel, ignored rel = false → ix' !! rel = at_path t rel) ∧ (∀ rel, ignored rel = true → ix' !! rel = ix !! rel) ∧ (ok = false → ix' = ix).
Proof using Hgit.
  unfold stageWorktreeChanges. destruct (ga_status g t ix) as [l|] eqn:El; [|done]. intros E.
  destruct (stage_files_spec t l ix false ix' ok) as (Ha & Hb & Hc); [|done|].
  { intros f Hf Hm. by apply (gd_listed _ _ Hgit t ix l f El Hf Hm). }
  split_and!.
  - intros rel Hi. destruct (decide (ix' !! rel = ix !! rel)) as [Eq|Hne]; [|by apply Hb]. rewrite Eq.
    destruct (decide (at_path t rel = ix !! rel)) as [?|Hd]; [done|].
    destruct (gd_status _ _ Hgit t ix l rel El Hi Hd) as (f & Hf & <- & Hm). by rewrite <- (Ha f Hf Hm), Eq.
  - intros rel Hi. destruct (decide (ix' !! rel = ix !! rel)) as [?|Hne]; [done|]. destruct (Hb rel Hne) as (_ & f & Hf & Hm & <-).
    destruct (gd_listed _ _ Hgit t ix l f El Hf Hm) as [Hg _]. congruence.
  - intros Hok. by apply Hc.
Qed.

Lemma staged_as t ix ix' ok rel : stageWorktreeChanges g t ix = (ix', Some ok) →
  ix' !! rel = if ignored rel then ix !! rel else at_path t rel.
Proof using Hgit. intros E. destruct (staged_index t ix ix' ok E) as (Ha & Hb & _). destruct (ignored rel) eqn:Ei; auto. Qed.

End staging.

(** ** A git *)

Definition in_git_dir (rel : string) : bool := bool_decide (rel = ".git") || HasPrefix rel ".git/".

(** The paths below the root of a worktree. *)
Definition relative_paths (root : string) (t : tree) : list string :=
  omap (λ p, if HasPrefix p (root +:+ "/") then Some (TrimPrefix p (root +:+ "/")) else None) (elements (dom t)).

(** The index with the files of a worktree. *)
Definition take_content (root : string) (t : tree) (rels : list string) : index :=
  foldr (λ rel ix, partial_alter (λ _, content root t rel) rel ix) ∅ rels.

(** A clone at [head] of a repository with the given files; [push] is the
    outcome of a push. *)
Definition plain_git (root : string) (cloned : tree) (head : string) (push : index → option string) : git_answers :=
  let tracked rel := negb (in_git_dir rel) in
  mkGit root (Ok cloned) (take_content root cloned (filter (λ rel, tracked rel = true) (relative_paths root cloned)))
    true (Some head) true true None []
    (λ t ix, Some ((λ rel, mkFileStatus rel (if bool_decide (content root t rel = None) then DeletedCode else OtherCode) Unmodified) <$>
       filter (λ rel, tracked rel = true ∧ content root t rel ≠ ix !! rel) (elements (list_to_set (relative_paths root t) ∪ dom ix))))
    (λ t ix rel, Some (partial_alter (λ _, content root t rel) rel ix)) (λ ix rel, Ok (delete rel ix)) (λ _, Some "c1") push.

Lemma relative_paths_elem root t rel : is_Some (t !! (root +:+ "/" +:+ rel)) → rel ∈ relative_paths root t.
Proof.
  intros H. apply list_elem_of_omap. exists (root +:+ "/" +:+ rel). split; [by apply elem_of_elements, elem_of_dom|].
  rewrite <- str_app_assoc. by rewrite HasPrefix_app, TrimPrefix_app.
Qed.

Lemma content_elem root t rel : content root t rel ≠ None → rel ∈ relative_paths root t.
Proof. intros H. apply relative_paths_elem. unfold content in H. by destruct (t !! _) eqn:E; [eexists|]. Qed.

Lemma take_content_lookup root t rels rel : take_content root t rels !! rel = if bool_decide (rel ∈ rels) then content root t rel else None.
Proof.
  induction rels as [|r rels IH]; [done|]. cbn [take_content foldr]. destruct (decide (r = rel)) as [->|Hne].
  - rewrite lookup_partial_alter_eq, bool_decide_eq_true_2 by left. done.
  - rewrite lookup_partial_alter_ne by done. etransitivity; [exact IH|]. erewrite bool_decide_ext; [done|]. rewrite elem_of_cons. naive_solver.
Qed.

Lemma plain_git_documented root cloned head push : git_documented in_git_dir (plain_git root cloned head push).
Proof.
  split; cbn [plain_git ga_clone ga_index ga_root ga_status ga_add ga_remove].
  - intros t rel [= <-] Hi. rewrite take_content_lookup. case_bool_decide as Hr; [done|].
    destruct (content root cloned rel) eqn:E; [|done]. destruct Hr. apply list_elem_of_filter. rewrite Hi. split; [done|]. apply content_elem. by rewrite E.
  - intros t ix l rel [= <-] Hi Hd. eexists. split; [apply list_elem_of_fmap_2 with (x := rel)|].
    + apply list_elem_of_filter. rewrite Hi. split; [done|]. apply elem_of_elements, elem_of_union. rewrite elem_of_list_to_set, elem_of_dom.
      destruct (ix !! rel) eqn:E; [right; by eexists|]. left. by apply content_elem.
    + split; [done|]. unfold modified. cbn. case_bool_decide; naive_solver.
  - intros t ix l f [= <-] (rel & -> & [[Hi _] _]%list_elem_of_filter)%list_elem_of_fmap _. cbn. split; [by apply negb_true_iff|].
    case_bool_decide; done.
  - by intros t ix rel ix' [= <-].
  - by intros ix rel ix' [= <-].
  - done.
Qed.
