(* ===== verification/Staging.v ===== *)
(** * Version control in a mount

    Model of the version-control commands of a mount: the handlers for add,
    rm, status, branch, commit and push of internal/fuse/session_socket.go and
    internal/fuse/commit.go, over the session (Session.v) and the bundles that
    are pushed (Bundle.v, SourcePush.v).  A response is its outcome: the error
    as a case of a type, or what the command found; times are not formatted.
    Reads of the database succeed. *)

From stdpp Require Import options.
From S2P Require Import Prelude GoStrings GoUnicode GoSort GoRange GoPath GoTree Sharding Overlay Session Mount Merge3 PullMerge Bundle SourcePush.

Inductive vcs_error :=
| NoSession | SessionFailed (e : session_error) | PathsRequired | NothingToStage
| OnlyDependencies (path : string) | OutsideView (path : string) | NoChangesFor (path : string)
| MarkersLeft (path : string) | CannotRead (localPath : string) | CannotStat (path : string) | LinkCommit (localPath : string)
| CannotReadLink (path : string) | TargetMissing (path : string) | StagingUnsupported (changeType : string)
| DependencyPath (path : string) | ResolveFailed (path : string) | RepositoryRoot (path : string) | DoesNotExist (path : string)
| BackendFailed (path : string) | RemoveFailed (path : string)
| BranchNameRequired | BranchNotAllowed (name : string) | BranchExists (name : string) | BranchMissing (name : string)
| NoCommitManager | UnresolvedConflicts | BadPushMode (mode : string) | NothingStaged | CannotInferRepository (path : string)
| ListFailed | EmptyDisplayPath (path : string) | NamesRepository (path : string) | NotInRepository (path : string)
| UnsupportedChange (changeType : string) | NothingPending | BundleInvalid (e : bundle_error) | PushFailed.

(** Errors through the commands. *)
Definition tryM {E A B} (m : M (result E A)) (k : A → M (result E B)) : M (result E B) :=
  r ← m; match r with Ok a => k a | Err e => ret (Err e) end.
Notation "'let?' x ':=' m 'in' k" := (tryM m (fun x => k))
  (at level 200, x pattern, m at level 100, k at level 200, right associativity) : go_scope.
Definition raise {A} (e : vcs_error) : M (result vcs_error A) := ret (Err e).
Definition lift {A} (m : M (result session_error A)) : M (result vcs_error A) :=
  r ← m; ret (match r with Ok a => Ok a | Err e => Err (SessionFailed e) end).
(** A transaction outside the session guard. *)
Definition update (f : OverlayDB → OverlayDB) : M (result vcs_error unit) :=
  lift (ok ← Update f; ret (db_result ok)).

(** ** The workspace *)

Record WorkspaceRepository := mkWorkspaceRepository {
  wr_StorageID : string; wr_DisplayPath : string; wr_Source : string; wr_Ref : string; wr_CommitHash : string }.
#[export] Instance WorkspaceRepository_eq_dec : EqDecision WorkspaceRepository.
Proof. solve_decision. Defined.
Record WorkspaceManifestEntry := mkManifestEntry { me_Repository : WorkspaceRepository; me_Included : bool }.

(** [WorkspaceManifest.List] on the repositories the cluster reports; [allows]
    is the repository filter. *)
Definition list_manifest `{GoSort} (allows : string → bool) (repos : list WorkspaceRepository) : list WorkspaceManifestEntry :=
  sort_slice (λ x y,
      let a := me_Repository x in let b := me_Repository y in
      if bool_decide (wr_DisplayPath a = wr_DisplayPath b) then str_lt (wr_StorageID a) (wr_StorageID b)
      else str_lt (wr_DisplayPath a) (wr_DisplayPath b))
    ((λ r, mkManifestEntry r
       (negb (bool_decide (is_Some (workspacePathExclusion (wr_DisplayPath r) excludedWorkspaceRoots))) && allows (wr_DisplayPath r))) <$> repos).

Record WorkspacePathResolution := mkResolution { rs_Repository : option WorkspaceRepository; rs_Included : bool }.

Definition longest_match (trimmed : string) (best : option WorkspaceManifestEntry) (e : WorkspaceManifestEntry) : option WorkspaceManifestEntry :=
  let displayPath := wr_DisplayPath (me_Repository e) in
  if negb (bool_decide (trimmed = displayPath)) && negb (HasPrefix trimmed (displayPath +:+ "/")) then best
  else match best with
       | None => Some e
       | Some b => if bool_decide (String.length (wr_DisplayPath (me_Repository b)) < String.length displayPath)%nat then Some e else best
       end.

(** [listing] is what [List] returns, [None] for an error. *)
Definition ResolvePath (listing : option (list WorkspaceManifestEntry)) (path : string) : option WorkspacePathResolution :=
  let trimmed := Trim path slash in
  let included := negb (bool_decide (is_Some (workspacePathExclusion trimmed excludedWorkspaceRoots))) in
  if bool_decide (trimmed = "") then Some (mkResolution None included)
  else
    match listing with
    | None => None
    | Some entries =>
        match foldl (longest_match trimmed) None entries with
        | None => Some (mkResolution None included)
        | Some m => Some (mkResolution (Some (me_Repository m)) (included && me_Included m))
        end
    end.

(** What the handlers were made with: the manifest of a virtual monorepo and
    what listing it returns, the identity of the client, whether there is a
    commit manager, and what the cluster answers to [GetAttr]: nothing for an
    error, otherwise whether the path is there and a directory. *)
Record vcs_handler := mkVcsHandler {
  vh_workspace : option (WorkspaceManifest * option (list WorkspaceManifestEntry)); vh_principal : string;
  vh_commitMgr : bool; vh_backend : string → option (option bool) }.

(** ** Changes of a session *)

Inductive sessionChangeScope := ScopeWorkspace | ScopeBlob | ScopeExcluded.
#[export] Instance sessionChangeScope_eq_dec : EqDecision sessionChangeScope.
Proof. solve_decision. Defined.
Definition scope_order (s : sessionChangeScope) : Z := match s with ScopeWorkspace => 0 | ScopeBlob => 1 | ScopeExcluded => 2 end.

Record classifiedSessionChange := mkClassified {
  cc_Change : Change; cc_Scope : sessionChangeScope; cc_Repository : string; cc_StorageID : string }.

Definition classifySessionChange (h : vcs_handler) (change : Change) : classifiedSessionChange :=
  let blob := isDependencyPath (ch_Path change) in
  match vh_workspace h with
  | None => mkClassified change (if blob then ScopeBlob else ScopeWorkspace) "" ""
  | Some (manifest, listing) =>
      match ResolvePath listing (ch_Path change) with
      | None =>
          mkClassified change
            (if blob then ScopeBlob else if ShouldHidePath manifest (ch_Path change) then ScopeExcluded else ScopeWorkspace) "" ""
      | Some r =>
          let repository := match rs_Repository r with Some x => wr_DisplayPath x | None => "" end in
          let storageID := match rs_Repository r with Some x => wr_StorageID x | None => "" end in
          mkClassified change
            (if negb (rs_Included r) then if blob then ScopeBlob else ScopeExcluded else ScopeWorkspace) repository storageID
      end
  end.

Definition classified_before (x y : classifiedSessionChange) : bool :=
  if bool_decide (cc_Scope x ≠ cc_Scope y) then bool_decide (scope_order (cc_Scope x) < scope_order (cc_Scope y))
  else if bool_decide (cc_Repository x ≠ cc_Repository y) then str_lt (cc_Repository x) (cc_Repository y)
  else if bool_decide (ch_Path (cc_Change x) ≠ ch_Path (cc_Change y)) then str_lt (ch_Path (cc_Change x)) (ch_Path (cc_Change y))
  else str_lt (ch_Type (cc_Change x)) (ch_Type (cc_Change y)).

Definition clean_request (path : string) : string := Trim (TrimSpace path) slash.
Definition requestedPathMatchesChange (requested changePath : string) : bool :=
  let requested := clean_request requested in
  let changePath := clean_request changePath in
  if bool_decide (requested = "") then true
  else bool_decide (changePath = requested) || HasPrefix changePath (requested +:+ "/").

(** The requested paths, each once and shortest first, without those a
    shorter one covers. *)
Fixpoint first_of_each (seen : gset string) (paths : list string) : list string :=
  match paths with
  | [] => []
  | raw :: paths =>
      let trimmed := clean_request raw in
      if bool_decide (trimmed = "" ∨ trimmed = ".") || bool_decide (trimmed ∈ seen) then first_of_each seen paths
      else trimmed :: first_of_each ({[trimmed]} ∪ seen) paths
  end.
Definition shorter (x y : string) : bool :=
  if bool_decide (String.length x ≠ String.length y) then bool_decide (String.length x < String.length y)%nat else str_lt x y.
Definition add_uncovered (normalized : list string) (path : string) : list string :=
  if existsb (λ existing, requestedPathMatchesChange existing path) normalized then normalized else normalized ++ [path].
Definition normalizeRequestedSessionPaths `{GoSort} (paths : list string) : result vcs_error (list string) :=
  match first_of_each ∅ paths with
  | [] => Err PathsRequired
  | cleaned => Ok (foldl add_uncovered [] (sort_slice shorter cleaned))
  end.

(** The changes below a path that are not selected yet. *)
Definition add_selected (selected : list classifiedSessionChange) (c : classifiedSessionChange) : list classifiedSessionChange :=
  if bool_decide (ch_Path (cc_Change c) ∈ (λ s, ch_Path (cc_Change s)) <$> selected) then selected else selected ++ [c].

Fixpoint select_paths (paths : list string) (classified selected : list classifiedSessionChange) : result vcs_error (list classifiedSessionChange) :=
  match paths with
  | [] => Ok selected
  | rawPath :: paths =>
      let requested := clean_request rawPath in
      let stageAll := bool_decide (requested = "" ∨ requested = ".") in
      let matches := filter (λ c, stageAll || requestedPathMatchesChange requested (ch_Path (cc_Change c)) = true) classified in
      let workspace := filter (λ c, cc_Scope c = ScopeWorkspace) matches in
      if bool_decide (workspace ≠ []) then select_paths paths classified (foldl add_selected selected workspace)
      else if existsb (λ c, bool_decide (cc_Scope c = ScopeBlob)) matches then Err (OnlyDependencies rawPath)
      else if existsb (λ c, bool_decide (cc_Scope c = ScopeExcluded)) matches then Err (OutsideView rawPath)
      else Err (NoChangesFor rawPath)
  end.
Definition selectWorkspaceChangesForStaging `{GoSort} (paths : list string) (classified : list classifiedSessionChange)
    : result vcs_error (list classifiedSessionChange) :=
  let! selected := select_paths paths classified [] in Ok (sort_slice classified_before selected).

Definition collectWorkspaceChangesForPaths `{GoSort} (paths : list string) (classified : list classifiedSessionChange) : list classifiedSessionChange :=
  sort_slice classified_before
    (foldl (λ selected requested,
       foldl add_selected selected
         (filter (λ c, cc_Scope c = ScopeWorkspace ∧ requestedPathMatchesChange requested (ch_Path (cc_Change c)) = true) classified)) [] paths).

(** ** The local files *)

(** [os.Lstat]: below a file the error is not that the path does not exist. *)
Inductive stat_answer := Found (n : node) | NotThere | StatFailed.
Definition Lstat (o : io) (p : string) (t : tree) : tree * stat_answer :=
  (t, match o with
      | Fine =>
          if existsb (λ q, match t !! q with Some (File _) => true | _ => false end) (parents p) then StatFailed
          else match t !! p with Some n => Found n | None => NotThere end
      | Broken _ => StatFailed
      end).
Definition Readlink (o : io) (p : string) (t : tree) : tree * option string :=
  (t, match o, t !! p with Fine, Some (Link target) => Some target | _, _ => None end).

(** The permission bits at a path. *)
Definition perm (w : World) (localPath : string) : Z := (w_stat w localPath).1.1.

Definition loadCommitLocalFile (localPath : string) : M (result vcs_error (string * Z)) :=
  content ← on_disk (λ o, ReadFile o localPath);
  match content with
  | None => raise (CannotRead localPath)
  | Some content =>
      info ← on_disk (λ o, Lstat o localPath);
      w ← look;
      match info with
      | Found (Link _) => raise (LinkCommit localPath)
      | Found _ => ret (Ok (content, perm w localPath))
      | _ => raise (CannotStat localPath)
      end
  end.

Definition commitLocalMode (localPath : string) (fallback : Z) : M Z :=
  if bool_decide (localPath = "") then ret fallback
  else
    info ← on_disk (λ o, Lstat o localPath);
    w ← look; ret (match info with Found _ => perm w localPath | _ => fallback end).

(** ** Staging *)

Definition link_target (change : Change) : M (result vcs_error string) :=
  let target := TrimSpace (ch_SymlinkTarget change) in
  if bool_decide (target ≠ "") then ret (Ok target)
  else
    w ← look;
    match GetSymlinkTarget w (ch_Path change) with
    | Some t => ret (Ok t)
    | None =>
        if blank (ch_LocalPath change) then ret (Ok "")
        else
          t ← on_disk (λ o, Readlink o (ch_LocalPath change));
          match t with Some t => ret (Ok t) | None => raise (CannotReadLink (ch_Path change)) end
    end.

Definition snapshotStagedEntry (c : classifiedSessionChange) : M (result vcs_error StagedIndexEntry) :=
  w ← look;
  let change := cc_Change c in
  let entry content mode target :=
    mkStaged (ch_Path change) (cc_StorageID c) (cc_Repository c) (ch_Type change) (Some (w_now w)) content mode target (ch_LocalPath change) in
  if bool_decide (ch_Type change ∈ [ChangeCreate; ChangeModify]) then
    let? (content, mode) := loadCommitLocalFile (ch_LocalPath change) in ret (Ok (entry content mode ""))
  else if bool_decide (ch_Type change ∈ [ChangeDelete; ChangeRmdir; ChangeRemoveUserRootDir]) then ret (Ok (entry "" 0 ""))
  else if bool_decide (ch_Type change ∈ [ChangeMkdir; ChangeUserRootDir]) then
    mode ← commitLocalMode (ch_LocalPath change) 493; ret (Ok (entry "" mode ""))
  else if bool_decide (ch_Type change = ChangeSymlink) then
    mode ← commitLocalMode (ch_LocalPath change) 511;
    let? target := link_target change in
    if bool_decide (target = "") then raise (TargetMissing (ch_Path change)) else ret (Ok (entry "" mode target))
  else raise (StagingUnsupported (ch_Type change)).

Definition sm_PutStagedEntry (entry : StagedIndexEntry) : M (result session_error unit) :=
  w ← look;
  let path := TrimSpace (st_Path entry) in
  let entry := mkStaged path (st_RepositoryStorageID entry) (st_RepositoryPath entry) (st_ChangeType entry)
    (Some (default (w_now w) (st_StagedAt entry))) (st_Content entry) (st_Mode entry) (st_SymlinkTarget entry) (st_LocalPath entry) in
  guarded_update (PutStagedEntry path entry).
Definition sm_ListStagedEntries `{GoSort} (w : World) : list StagedIndexEntry :=
  match active w with Some (_, d) => ListStagedEntries d | None => [] end.
Definition sm_ListLocalVirtualCommits `{GoSort} (w : World) : list LocalVirtualCommit :=
  match active w with Some (_, d) => ListLocalVirtualCommits d | None => [] end.
Definition HasSessionConflicts (w : World) : bool :=
  match active w with Some (_, d) => bool_decide (conflicts d ≠ ∅) | None => false end.
Definition sm_GetCurrentLogicalBranch (w : World) : string :=
  match active w with Some (_, d) => default "" (GetCurrentLogicalBranch d) | None => "" end.

(** A staged path is no longer in conflict; that this fails is only logged. *)
Definition resolve_conflict (path : string) : M unit :=
  w ← look;
  match active w with
  | Some (_, d) => if bool_decide (is_Some (conflicts d !! path)) then _ ← sm_ClearSessionConflict path; ret tt else ret tt
  | None => ret tt
  end.

(** Puts the changes into the index; [guarded] for add, which refuses conflict
    markers and resolves conflicts. *)
Fixpoint stage_changes (guarded : bool) (changes : list classifiedSessionChange) : M (result vcs_error (list StagedIndexEntry)) :=
  match changes with
  | [] => ret (Ok [])
  | c :: changes =>
      let? entry := snapshotStagedEntry c in
      if guarded && hasConflictMarkers (st_Content entry) then raise (MarkersLeft (ch_Path (cc_Change c)))
      else
        let? _ := lift (sm_PutStagedEntry entry) in
        _ ← (if guarded then resolve_conflict (ch_Path (cc_Change c)) else ret tt);
        let? entries := stage_changes guarded changes in
        ret (Ok (entry :: entries))
  end.

Record ChangeInfo := mkChangeInfo {
  ci_Type : string; ci_Path : string; ci_Repository : string; ci_StorageID : string; ci_Timestamp : option Z }.
Definition changeInfoFromStagedEntry (e : StagedIndexEntry) : ChangeInfo :=
  mkChangeInfo (st_ChangeType e) (st_Path e) (st_RepositoryPath e) (st_RepositoryStorageID e) (st_StagedAt e).
Definition info_before (x y : ChangeInfo) : bool :=
  if bool_decide (ci_Repository x ≠ ci_Repository y) then str_lt (ci_Repository x) (ci_Repository y)
  else if bool_decide (ci_Path x ≠ ci_Path y) then str_lt (ci_Path x) (ci_Path y)
  else str_lt (ci_Type x) (ci_Type y).
Definition sortChangeInfos `{GoSort} (l : list ChangeInfo) : list ChangeInfo := sort_slice info_before l.

Section commands.
Context `{GoSort, GoRange} (h : vcs_handler).

Definition handleAdd (paths : list string) : M (result vcs_error (list ChangeInfo)) :=
  w ← look;
  if negb (bool_decide (is_Some (w_current w))) then raise NoSession
  else
    match normalizeRequestedSessionPaths paths with
    | Err e => raise e
    | Ok normalizedPaths =>
        match selectWorkspaceChangesForStaging normalizedPaths (classifySessionChange h <$> GetChanges w) with
        | Err e => raise e
        | Ok [] => raise NothingToStage
        | Ok selected =>
            let? entries := stage_changes true selected in
            ret (Ok (sortChangeInfos (changeInfoFromStagedEntry <$> entries)))
        end
    end.

(** ** Removing *)

Record removeTarget := mkRemoveTarget { rt_Path : string; rt_LocalPath : string; rt_IsDir : bool; rt_ShouldTrackDelete : bool }.

Definition resolveRemoveTarget (path : string) : M (result vcs_error removeTarget) :=
  let trimmedPath := clean_request path in
  if bool_decide (trimmedPath = "") then raise PathsRequired
  else if isDependencyPath trimmedPath then raise (DependencyPath path)
  else
    let guard :=
      match vh_workspace h with
      | None => Ok tt
      | Some (_, listing) =>
          match ResolvePath listing trimmedPath with
          | None => Err (ResolveFailed trimmedPath)
          | Some r =>
              if negb (rs_Included r) then Err (OutsideView path)
              else match rs_Repository r with
                   | Some repo => if bool_decide (Trim (wr_DisplayPath repo) slash = trimmedPath) then Err (RepositoryRoot path) else Ok tt
                   | None => Ok tt
                   end
          end
      end in
    match guard with
    | Err e => raise e
    | Ok _ =>
        let? (s, d) := lift (with_session (λ s d, ret (Ok (s, d)))) in
        let localPath := local_path s trimmedPath in
        match files d !! trimmedPath with
        | Some entry =>
            ret (Ok (mkRemoveTarget trimmedPath (if blank (fe_LocalPath entry) then localPath else fe_LocalPath entry)
                       (bool_decide (fe_Type entry = FileEntryDir)) true))
        | None =>
            info ← on_disk (λ o, Lstat o localPath);
            match info with
            | Found (File _) | Found (Link _) => ret (Ok (mkRemoveTarget trimmedPath localPath false true))
            | _ =>
                match staged d !! trimmedPath with
                | Some e =>
                    ret (Ok (mkRemoveTarget trimmedPath (if blank (st_LocalPath e) then localPath else st_LocalPath e)
                               (bool_decide (st_ChangeType e ∈ [ChangeRmdir; ChangeMkdir])) true))
                | None =>
                    match vh_backend h trimmedPath with
                    | None => raise (BackendFailed trimmedPath)
                    | Some (Some isDir) => ret (Ok (mkRemoveTarget trimmedPath localPath isDir true))
                    | Some None =>
                        match info with
                        | Found Directory =>
                            ret (Ok (mkRemoveTarget trimmedPath localPath true (bool_decide (is_Some (deleted d !! trimmedPath)))))
                        | _ => raise (DoesNotExist path)
                        end
                    end
                end
            end
        end
    end.

(** The directory is made writable before the second try. *)
Definition forceRemoveFile (path : string) : M removal :=
  removed ← on_disk (λ o, Remove o path);
  match removed with Removed => ret Removed | _ => on_disk (λ o, Remove o path) end.

Definition track_removal (changeType : ChangeType) (target : removeTarget) : M (result vcs_error unit) :=
  if rt_ShouldTrackDelete target then lift (TrackChange changeType (rt_Path target) "") else ret (Ok tt).

Definition removeFileTarget (target : removeTarget) : M (result vcs_error unit) :=
  removed ← (if blank (rt_LocalPath target) then ret Removed else forceRemoveFile (rt_LocalPath target));
  match removed with
  | Refused => raise (RemoveFailed (rt_Path target))
  | _ => track_removal ChangeDelete target
  end.

Definition removeDirectoryTarget (target : removeTarget) : M (result vcs_error unit) :=
  removed ← (if blank (rt_LocalPath target) then ret true else on_disk (λ o, RemoveAll o (rt_LocalPath target)));
  if negb removed then raise (RemoveFailed (rt_Path target))
  else
    let? _ := track_removal ChangeRmdir target in
    let? _ := update (λ d, mkOverlay (deleteKeysWithPrefix (rt_Path target) (files d)).1 (deleted d) (userdirs d) (staged d)
                             (commits d) (branches d) (conflicts d)) in
    update (λ d, mkOverlay (files d) (deleteKeysWithPrefix (rt_Path target) (deleted d)).1 (userdirs d) (staged d)
                   (commits d) (branches d) (conflicts d)).

Fixpoint delete_staged (paths : list string) : M (result vcs_error unit) :=
  match paths with
  | [] => ret (Ok tt)
  | p :: paths => let? _ := lift (sm_DeleteStagedEntry p) in delete_staged paths
  end.
Definition clearStagedEntriesForPath (path : string) : M (result vcs_error unit) :=
  w ← look;
  delete_staged (filter (λ p, requestedPathMatchesChange path p = true) (st_Path <$> sm_ListStagedEntries w)).

Fixpoint remove_paths (paths : list string) : M (result vcs_error unit) :=
  match paths with
  | [] => ret (Ok tt)
  | path :: paths =>
      let? target := resolveRemoveTarget path in
      let? _ := (if rt_IsDir target then removeDirectoryTarget target else removeFileTarget target) in
      let? _ := clearStagedEntriesForPath path in
      remove_paths paths
  end.

Definition handleRemove (paths : list string) : M (result vcs_error (list ChangeInfo)) :=
  match normalizeRequestedSessionPaths paths with
  | Err e => raise e
  | Ok normalizedPaths =>
      let? _ := lift StartSession in
      let? _ := remove_paths normalizedPaths in
      w ← look;
      let? entries := stage_changes false (collectWorkspaceChangesForPaths normalizedPaths (classifySessionChange h <$> GetChanges w)) in
      ret (Ok (sortChangeInfos (changeInfoFromStagedEntry <$> entries)))
  end.

(** ** Status *)

Definition stagedEntriesEqual (a b : StagedIndexEntry) : bool :=
  bool_decide (st_Path a = st_Path b ∧ st_RepositoryStorageID a = st_RepositoryStorageID b ∧ st_RepositoryPath a = st_RepositoryPath b ∧
               st_ChangeType a = st_ChangeType b ∧ st_Mode a = st_Mode b ∧ st_SymlinkTarget a = st_SymlinkTarget b ∧ st_Content a = st_Content b).

Record status_response := mkStatus {
  sr_Changes : nat; sr_ChangeList : list ChangeInfo; sr_StagedChangeList : list ChangeInfo; sr_Pending : list LocalVirtualCommit;
  sr_BlobChanges : nat; sr_ExcludedChanges : nat }.

Definition change_info (c : classifiedSessionChange) : ChangeInfo :=
  mkChangeInfo (ch_Type (cc_Change c)) (ch_Path (cc_Change c)) (cc_Repository c) (cc_StorageID c) (Some (ch_Timestamp (cc_Change c))).

(** The seconds of a time; the zero time is the year 1. *)
Definition unix_of (t : option Z) : Z := match t with Some ns => unix ns | None => -62135596800 end.
Definition commit_info_before (x y : LocalVirtualCommit) : bool :=
  if bool_decide (unix_of (lc_CreatedAt x) ≠ unix_of (lc_CreatedAt y)) then bool_decide (unix_of (lc_CreatedAt x) < unix_of (lc_CreatedAt y))
  else str_lt (lc_ID x) (lc_ID y).

(** A change is listed as unstaged unless its snapshot is in the index. *)
Fixpoint unstaged (index : list StagedIndexEntry) (changes : list classifiedSessionChange) : M (list ChangeInfo) :=
  match changes with
  | [] => ret []
  | c :: changes =>
      is_staged ← (match list_find (λ e, st_Path e = ch_Path (cc_Change c)) (rev index) with
                   | Some (_, e) => snapshot ← snapshotStagedEntry c; ret (match snapshot with Ok current => stagedEntriesEqual e current | Err _ => false end)
                   | None => ret false
                   end);
      rest ← unstaged index changes;
      ret (if negb is_staged then change_info c :: rest else rest)
  end.

Definition handleStatus : M (result vcs_error status_response) :=
  w ← look;
  if negb (bool_decide (is_Some (w_current w))) then raise NoSession
  else
    let classified := sort_slice classified_before (classifySessionChange h <$> GetChanges w) in
    let of_scope s := filter (λ c, cc_Scope c = s) classified in
    let index := sm_ListStagedEntries w in
    changeList ← unstaged index (of_scope ScopeWorkspace);
    ret (Ok (mkStatus (length (of_scope ScopeWorkspace)) changeList (sortChangeInfos (changeInfoFromStagedEntry <$> index))
               (sort_slice commit_info_before (filter (λ c, lc_Pushed c = false) (sm_ListLocalVirtualCommits w)))
               (length (of_scope ScopeBlob)) (length (of_scope ScopeExcluded)))).

(** ** Branches *)

(** [strings.ContainsAny(s, chars)] for ASCII characters. *)
Definition ContainsAny (s : string) (chars : list ascii) : bool := existsb (λ c, has_byte c s) chars.

Definition normalizeLogicalBranchName (rawBranchName : string) : result vcs_error string :=
  let name := TrimSpace rawBranchName in
  if bool_decide (name = "") then Err BranchNameRequired
  else if bool_decide (name ∈ ["."; ".."; "HEAD"]) ||
          HasPrefix name "/" || HasSuffix name "/" || Contains name "//" ||
          HasSuffix name "." || HasSuffix name ".lock" || Contains name ".." || Contains name "@{" ||
          ContainsAny name [" "; "~"; "^"; ":"; "?"; "*"; "["; "\"]%char then Err (BranchNotAllowed name)
  else Ok name.

Record BranchInfo := mkBranchInfo { bi_Name : string; bi_Current : bool; bi_PendingCommits : nat; bi_HasMappings : bool }.

Definition add_branch (f : BranchInfo → BranchInfo) (name : string) (m : gmap string BranchInfo) : gmap string BranchInfo :=
  <[name := f (default (mkBranchInfo name false 0 false) (m !! name))]> m.

(** The branches the session knows, and the mappings of the current one. *)
Definition collectLogicalBranchState (currentBranch : string) : M (result vcs_error (list BranchInfo * list SessionBranchMapping)) :=
  w ← look;
  let mappings := match active w with Some (_, d) => ListBranchMappings d | None => Ok [] end in
  match mappings with
  | Err e => raise (SessionFailed (Refusal e))
  | Ok mappings =>
      let trimmedCurrent := TrimSpace currentBranch in
      let m := if bool_decide (trimmedCurrent = "") then ∅
               else add_branch (λ b, mkBranchInfo (bi_Name b) true (bi_PendingCommits b) (bi_HasMappings b)) trimmedCurrent ∅ in
      let m := foldl (λ m c,
                 let name := TrimSpace (lc_LogicalBranch c) in
                 if bool_decide (name = "") then m
                 else add_branch (λ b, mkBranchInfo (bi_Name b) (bi_Current b)
                        (if lc_Pushed c then bi_PendingCommits b else S (bi_PendingCommits b)) (bi_HasMappings b)) name m) m (sm_ListLocalVirtualCommits w) in
      let mine := filter (λ x, (vh_principal h = "" ∨ bm_PrincipalID x = vh_principal h) ∧ TrimSpace (bm_LogicalBranch x) ≠ "") mappings in
      let m := foldl (λ m x, add_branch (λ b, mkBranchInfo (bi_Name b) (bi_Current b) (bi_PendingCommits b) true) (TrimSpace (bm_LogicalBranch x)) m) m mine in
      ret (Ok (sort_slice (λ x y, if bool_decide (bi_Current x ≠ bi_Current y) then bi_Current x else str_lt (bi_Name x) (bi_Name y)) (range 2 m).*2,
               sort_slice (λ x y, str_lt (bm_DisplayPath x) (bm_DisplayPath y))
                 (filter (λ x, TrimSpace (bm_LogicalBranch x) = trimmedCurrent ∧ TrimSpace (bm_ActualBranch x) ≠ "") mine)))
  end.

Definition sm_PutBranchMapping (m : SessionBranchMapping) : M (result session_error unit) :=
  w ← look; guarded_update (PutBranchMapping (w_now w) m).
Definition sm_SetCurrentLogicalBranch (branch : string) : M (result session_error unit) :=
  guarded_update (λ d, Ok (SetCurrentLogicalBranch branch d)).

Fixpoint put_mappings (ms : list SessionBranchMapping) : M (result vcs_error unit) :=
  match ms with
  | [] => ret (Ok tt)
  | m :: ms => let? _ := lift (sm_PutBranchMapping m) in put_mappings ms
  end.
Definition seedLogicalBranchMappings (branchName : string) : M (result vcs_error unit) :=
  if blank (vh_principal h) then ret (Ok tt)
  else
    match vh_workspace h with
    | None => ret (Ok tt)
    | Some (_, None) => raise ListFailed
    | Some (_, Some entries) =>
        put_mappings ((λ e, let r := me_Repository e in
                        mkBranchMapping (vh_principal h) branchName (wr_StorageID r) (wr_DisplayPath r) (wr_Ref r) "" "" None)
                      <$> filter (λ e, me_Included e = true) entries)
    end.

Definition handleBranchCreate (rawBranchName : string) : M (result vcs_error string) :=
  match normalizeLogicalBranchName rawBranchName with
  | Err e => raise e
  | Ok branchName =>
      w ← look;
      let? (known, _) := collectLogicalBranchState (sm_GetCurrentLogicalBranch w) in
      if existsb (λ b, bool_decide (bi_Name b = branchName)) known then raise (BranchExists branchName)
      else
        let? _ := seedLogicalBranchMappings branchName in
        let? _ := lift (sm_SetCurrentLogicalBranch branchName) in
        ret (Ok branchName)
  end.

Definition handleBranchSwitch (rawBranchName : string) : M (result vcs_error string) :=
  match normalizeLogicalBranchName rawBranchName with
  | Err e => raise e
  | Ok branchName =>
      w ← look;
      let currentBranch := sm_GetCurrentLogicalBranch w in
      let? (known, _) := collectLogicalBranchState currentBranch in
      if negb (existsb (λ b, bool_decide (bi_Name b = branchName)) known) then raise (BranchMissing branchName)
      else if bool_decide (currentBranch = branchName) then ret (Ok branchName)
      else let? _ := lift (sm_SetCurrentLogicalBranch branchName) in ret (Ok branchName)
  end.

Definition handleBranchDelete (rawBranchName : string) : M (result vcs_error (nat * nat)) :=
  match normalizeLogicalBranchName rawBranchName with
  | Err e => raise e
  | Ok branchName =>
      '(deletedCommits, deletedMappings, outcome) ← DeleteLogicalBranch branchName;
      ret (match outcome with Ok _ => Ok (deletedCommits, deletedMappings) | Err e => Err (SessionFailed e) end)
  end.

(** ** Committing *)

(** The repositories of the workspace by display path. *)
Definition workspaceRepositoryMetadata : result vcs_error (gmap string WorkspaceRepository) :=
  match vh_workspace h with
  | None => Ok ∅
  | Some (_, None) => Err ListFailed
  | Some (_, Some entries) =>
      Ok (foldl (λ m e, <[wr_DisplayPath (me_Repository e) := me_Repository e]> m) ∅ (filter (λ e, me_Included e = true) entries))
  end.

Definition resolveStagedRepository (entry : StagedIndexEntry) (metadata : gmap string WorkspaceRepository) : result vcs_error WorkspaceRepository :=
  let displayPath := clean_request (st_RepositoryPath entry) in
  let! displayPath :=
    (if bool_decide (displayPath = "") then
       let parts := Split (clean_request (st_Path entry)) slash in
       if bool_decide (length parts < 4)%nat then Err (CannotInferRepository (st_Path entry)) else Ok (Join (take 3 parts) "/")
     else Ok displayPath) in
  match metadata !! displayPath with
  | Some repo =>
      Ok (if blank (wr_StorageID repo) && negb (blank (st_RepositoryStorageID entry))
          then mkWorkspaceRepository (st_RepositoryStorageID entry) (wr_DisplayPath repo) (wr_Source repo) (wr_Ref repo) (wr_CommitHash repo)
          else repo)
  | None =>
      let storageID := TrimSpace (st_RepositoryStorageID entry) in
      Ok (mkWorkspaceRepository (if bool_decide (storageID = "") then GenerateStorageID displayPath else storageID) displayPath "" "" "")
  end.

Record stagedRepositoryGroup := mkGroup { gr_Repository : WorkspaceRepository; gr_Entries : list StagedIndexEntry }.

Definition add_to_group (metadata : gmap string WorkspaceRepository) (groups : gmap string stagedRepositoryGroup) (entry : StagedIndexEntry)
    : result vcs_error (gmap string stagedRepositoryGroup) :=
  let! repo := resolveStagedRepository entry metadata in
  let key := if blank (wr_StorageID repo) then wr_DisplayPath repo else wr_StorageID repo in
  let group := default (mkGroup repo []) (groups !! key) in
  Ok (<[key := mkGroup (gr_Repository group) (gr_Entries group ++ [entry])]> groups).
Fixpoint add_groups (metadata : gmap string WorkspaceRepository) (groups : gmap string stagedRepositoryGroup) (entries : list StagedIndexEntry)
    : result vcs_error (gmap string stagedRepositoryGroup) :=
  match entries with
  | [] => Ok groups
  | e :: entries => let! groups := add_to_group metadata groups e in add_groups metadata groups entries
  end.
Definition groupStagedEntriesByRepository (entries : list StagedIndexEntry) : result vcs_error (list stagedRepositoryGroup) :=
  let! metadata := workspaceRepositoryMetadata in
  let! groups := add_groups metadata ∅ entries in
  Ok (sort_slice (λ x y, str_lt (wr_DisplayPath (gr_Repository x)) (wr_DisplayPath (gr_Repository y))) (range 3 groups).*2).

Definition commitRepositoryRelativePath (displayPath fullPath : string) : result vcs_error string :=
  let display := Trim displayPath slash in
  let full := Trim fullPath slash in
  if bool_decide (display = "") then Err (EmptyDisplayPath fullPath)
  else if bool_decide (full = display) then Err (NamesRepository fullPath)
  else if negb (HasPrefix full (display +:+ "/")) then Err (NotInRepository fullPath)
  else Ok (TrimPrefix full (display +:+ "/")).

Definition localCommitOperationFromStagedEntry (displayPath : string) (e : StagedIndexEntry) : result vcs_error LocalCommitOperation :=
  let! path := commitRepositoryRelativePath displayPath (st_Path e) in
  if bool_decide (st_ChangeType e ∈ [ChangeCreate; ChangeModify]) then Ok (mkCommitOperation OperationUpsert path (st_Mode e) (st_Content e) "")
  else if bool_decide (st_ChangeType e = ChangeDelete) then Ok (mkCommitOperation OperationDelete path 0 "" "")
  else if bool_decide (st_ChangeType e = ChangeMkdir) then
    Ok (mkCommitOperation OperationMkdir path (if bool_decide (st_Mode e = 0) then 493 else st_Mode e) "" "")
  else if bool_decide (st_ChangeType e = ChangeRmdir) then Ok (mkCommitOperation OperationRmdir path 0 "" "")
  else if bool_decide (st_ChangeType e = ChangeSymlink) then
    if blank (st_SymlinkTarget e) then Err (TargetMissing (st_Path e)) else Ok (mkCommitOperation OperationSymlink path 0 "" (st_SymlinkTarget e))
  else Err (UnsupportedChange (st_ChangeType e)).

Definition operation_before (x y : LocalCommitOperation) : bool :=
  if bool_decide (op_Path x ≠ op_Path y) then str_lt (op_Path x) (op_Path y) else str_lt (op_Kind x) (op_Kind y).

Definition repository_commit (group : stagedRepositoryGroup) : result vcs_error LocalCommitRepository :=
  let repo := gr_Repository group in
  let! ops := rmap (localCommitOperationFromStagedEntry (wr_DisplayPath repo)) (gr_Entries group) in
  Ok (mkCommitRepository (wr_StorageID repo) (wr_DisplayPath repo) (wr_Source repo) (wr_Ref repo) (wr_CommitHash repo)
        (sort_slice operation_before ops)).

Definition latestLocalCommitID (commits : list LocalVirtualCommit) (logicalBranch : string) : string :=
  match list_find (λ c, TrimSpace (lc_LogicalBranch c) = TrimSpace logicalBranch) (rev (sort_slice commit_before commits)) with
  | Some (_, c) => lc_ID c
  | None => ""
  end.

Record CommitOptions := mkCommitOptions { co_Message : string; co_AuthorName : string; co_AuthorEmail : string }.
Definition defaultLocalCommitMessage (message : string) : string := if blank message then "local commit" else TrimSpace message.

(** [random] is the session id [generateSessionID] returns. *)
Definition newLocalCommitID (random : string) : string := "local-" +:+ str_take 12 random.

Definition buildLocalVirtualCommit (w : World) (entries : list StagedIndexEntry) (opts : CommitOptions) (random : string)
    : result vcs_error (LocalVirtualCommit * nat) :=
  let! groups := groupStagedEntriesByRepository entries in
  let logicalBranch := sm_GetCurrentLogicalBranch w in
  let! repos := rmap repository_commit groups in
  Ok (mkLocalCommit (newLocalCommitID random) (latestLocalCommitID (sm_ListLocalVirtualCommits w) logicalBranch) logicalBranch
        (defaultLocalCommitMessage (co_Message opts)) (TrimSpace (co_AuthorName opts)) (TrimSpace (co_AuthorEmail opts))
        (TrimSpace (vh_principal h)) (Some (w_now w))
        (sort_slice (λ x y, str_lt (cr_DisplayPath x) (cr_DisplayPath y)) repos) false "" None,
      length (repos ≫= cr_Operations)).

(** *** The overlay after a commit *)

Definition fileEntryTypeFromInfo (n : node) : FileEntryType :=
  match n with File _ => FileEntryRegular | Directory => FileEntryDir | Link _ => FileEntrySymlink end.

Definition local_of (w : World) (monofsPath : string) : result vcs_error string :=
  match GetLocalPath w monofsPath with Ok p => Ok p | Err e => Err (SessionFailed e) end.

Definition node_size (n : node) (dirsize : Z) : Z :=
  match n with File c => Z.of_nat (String.length c) | Link t => Z.of_nat (String.length t) | Directory => dirsize end.

Definition putOverlayFileFromDisk (monofsPath : string) (changeType : ChangeType) : M (result vcs_error unit) :=
  w ← look;
  match local_of w monofsPath with
  | Err e => raise e
  | Ok localPath =>
      info ← on_disk (λ o, Lstat o localPath);
      match info with
      | Found n =>
          let? target :=
            (match n with
             | Link _ =>
                 t ← on_disk (λ o, Readlink o localPath);
                 match t with Some t => ret (Ok t) | None => raise (CannotReadLink monofsPath) end
             | _ => ret (Ok "")
             end) in
          w ← look;
          let '(bits, mtime, dirsize) := w_stat w localPath in
          let origHash := match w_db w with Some d => match files d !! monofsPath with Some e => fe_OrigHash e | None => "" end | None => "" end in
          update (PutFile monofsPath (mkFileEntry (fileEntryTypeFromInfo n) localPath bits (node_size n dirsize) mtime target origHash changeType (w_now w)))
      | _ => raise (CannotStat monofsPath)
      end
  end.

Definition mark_deleted (monofsPath : string) (changeType : ChangeType) : M (result vcs_error unit) :=
  w ← look; update (MarkDeletedWithType (w_now w) monofsPath changeType).

Definition reclassifyPathFromDisk (monofsPath : string) (baselineWasDelete : bool) : M (result vcs_error unit) :=
  w ← look;
  match local_of w monofsPath with
  | Err e => raise e
  | Ok localPath =>
      info ← on_disk (λ o, Lstat o localPath);
      match info with
      | NotThere => mark_deleted monofsPath ChangeBaseline
      | StatFailed => raise (CannotStat monofsPath)
      | Found Directory => putOverlayFileFromDisk monofsPath ChangeMkdir
      | Found (Link _) => putOverlayFileFromDisk monofsPath ChangeSymlink
      | Found (File _) => putOverlayFileFromDisk monofsPath (if baselineWasDelete then ChangeCreate else ChangeModify)
      end
  end.

(** Whether the entry still is what is on the disk, and what is there. *)
Definition stagedEntryMatchesCurrent (e : StagedIndexEntry) (localPath : string) : M (result vcs_error (bool * option FileEntryType)) :=
  info ← on_disk (λ o, Lstat o localPath);
  match info with
  | NotThere => ret (Ok (false, None))
  | StatFailed => raise (CannotStat (st_Path e))
  | Found n =>
      let current := fileEntryTypeFromInfo n in
      let no := ret (Ok (false, Some current)) in
      if bool_decide (st_ChangeType e ∈ [ChangeCreate; ChangeModify]) then
        if negb (bool_decide (current = FileEntryRegular)) then no
        else
          let? (content, mode) := loadCommitLocalFile localPath in
          ret (Ok (bool_decide (content = st_Content e) && bool_decide (st_Mode e = 0 ∨ mode = st_Mode e), Some current))
      else if bool_decide (st_ChangeType e = ChangeMkdir) then ret (Ok (bool_decide (current = FileEntryDir), Some current))
      else if bool_decide (st_ChangeType e = ChangeSymlink) then
        if negb (bool_decide (current = FileEntrySymlink)) then no
        else
          target ← on_disk (λ o, Readlink o localPath);
          match target with
          | Some target => ret (Ok (bool_decide (target = st_SymlinkTarget e), Some current))
          | None => raise (CannotReadLink (st_Path e))
          end
      else no
  end.

Definition is_deleted (w : World) (p : string) : bool := IsDeleted (GetPathState w p).

Definition reconcileCommittedEntry (e : StagedIndexEntry) : M (result vcs_error unit) :=
  w ← look;
  match local_of w (st_Path e) with
  | Err x => raise x
  | Ok localPath =>
      if bool_decide (st_ChangeType e ∈ [ChangeDelete; ChangeRmdir]) then
        info ← on_disk (λ o, Lstat o localPath);
        match info, is_deleted w (st_Path e) with
        | NotThere, _ | _, true => mark_deleted (st_Path e) ChangeBaseline
        | StatFailed, false => raise (CannotStat (st_Path e))
        | Found _, false => reclassifyPathFromDisk (st_Path e) true
        end
      else if is_deleted w (st_Path e) then
        mark_deleted (st_Path e) (if bool_decide (st_ChangeType e = ChangeMkdir) then ChangeRmdir else ChangeDelete)
      else
        let? (matches, current) := stagedEntryMatchesCurrent e localPath in
        if bool_decide (matches = true) then putOverlayFileFromDisk (st_Path e) ChangeBaseline
        else match current with
             | Some FileEntrySymlink => putOverlayFileFromDisk (st_Path e) ChangeSymlink
             | Some FileEntryDir =>
                 putOverlayFileFromDisk (st_Path e) (if bool_decide (st_ChangeType e = ChangeMkdir) then ChangeBaseline else ChangeMkdir)
             | _ => putOverlayFileFromDisk (st_Path e) ChangeModify
             end
  end.

Fixpoint advanceOverlayBaseline (entries : list StagedIndexEntry) : M (result vcs_error unit) :=
  match entries with
  | [] => ret (Ok tt)
  | e :: entries => let? _ := reconcileCommittedEntry e in advanceOverlayBaseline entries
  end.

Definition sm_PutLocalVirtualCommit (c : LocalVirtualCommit) : M (result session_error unit) :=
  w ← look;
  let c := mkLocalCommit (TrimSpace (lc_ID c)) (lc_ParentID c) (lc_LogicalBranch c) (lc_Message c) (lc_AuthorName c) (lc_AuthorEmail c)
    (lc_PrincipalID c) (Some (default (w_now w) (lc_CreatedAt c))) (lc_Repositories c) (lc_Pushed c) (lc_PushJobID c) (lc_PushedAt c) in
  guarded_update (PutLocalVirtualCommit c).
Definition sm_DeleteLocalVirtualCommit (id : string) : M (result session_error unit) :=
  guarded_update (λ d, Ok (DeleteLocalVirtualCommit id d)).
Definition sm_ClearStagedEntries : M (result session_error unit) := guarded_update (λ d, Ok (ClearStagedEntries d)).

(** The number of repositories and operations, and the id of the commit. *)
Record CommitResult := mkCommitResult { cm_Repositories : nat; cm_FilesProcessed : nat; cm_LocalCommitID : string }.

Definition CommitChanges (opts : CommitOptions) (random : string) : M (result vcs_error CommitResult) :=
  w ← look;
  if negb (bool_decide (is_Some (w_current w))) then raise NoSession
  else
    match sm_ListStagedEntries w with
    | [] => raise NothingStaged
    | entries =>
        match buildLocalVirtualCommit w entries opts random with
        | Err e => raise e
        | Ok (commit, processed) =>
            let? _ := lift (sm_PutLocalVirtualCommit commit) in
            advanced ← advanceOverlayBaseline entries;
            match advanced with
            | Err e => _ ← sm_DeleteLocalVirtualCommit (lc_ID commit); raise e
            | Ok _ =>
                let? _ := lift sm_ClearStagedEntries in
                ret (Ok (mkCommitResult (length (lc_Repositories commit)) processed (lc_ID commit)))
            end
        end
    end.

Definition parseSourcePushMode `{UnicodeLower} (mode : string) : result vcs_error SourcePushMode :=
  let m := ToLower (TrimSpace mode) in
  if bool_decide (m = "") then Ok MODE_UNSPECIFIED
  else if bool_decide (m = "squash") then Ok MODE_SQUASH
  else if bool_decide (m = "preserve") then Ok MODE_PRESERVE
  else Err (BadPushMode mode).

(** [preferred] is the push mode a later push uses; a commit may change it,
    also when it then fails. *)
Definition handleCommit `{UnicodeLower} (preferred : SourcePushMode) (pushMode : string) (opts : CommitOptions) (random : string)
    : M (SourcePushMode * result vcs_error CommitResult) :=
  if negb (vh_commitMgr h) then ret (preferred, Err NoCommitManager)
  else
    w ← look;
    if HasSessionConflicts w then ret (preferred, Err UnresolvedConflicts)
    else
      match (if bool_decide (pushMode = "") then Ok preferred else parseSourcePushMode pushMode) with
      | Err e => ret (preferred, Err e)
      | Ok mode => committed ← CommitChanges opts random; ret (mode, committed)
      end.

(** ** Pushing *)

Definition pendingLocalCommitsForBranch (w : World) (logicalBranch : string) : list LocalVirtualCommit :=
  filter (λ c, lc_Pushed c = false ∧ TrimSpace (lc_LogicalBranch c) = TrimSpace logicalBranch)
    (sort_slice commit_before (sm_ListLocalVirtualCommits w)).

Definition operation_of (o : LocalCommitOperation) : Operation :=
  mkOperation (op_Kind o) (op_Path o) (op_Mode o) (op_Content o) (op_Target o).

Definition sourceCommitRepositoryFromLocal (byDisplayPath byStorage : gmap string WorkspaceRepository) (repo : LocalCommitRepository) : RepositoryBundle :=
  let none := mkWorkspaceRepository "" "" "" "" "" in
  let resolved := default none (byStorage !! TrimSpace (cr_StorageID repo)) in
  let resolved := if bool_decide (wr_DisplayPath resolved = "") then default resolved (byDisplayPath !! TrimSpace (cr_DisplayPath repo)) else resolved in
  let pick a b := if blank a then TrimSpace b else TrimSpace a in
  let displayPath := pick (cr_DisplayPath repo) (wr_DisplayPath resolved) in
  let storageID := pick (cr_StorageID repo) (wr_StorageID resolved) in
  mkRepositoryBundle (if bool_decide (storageID = "" ∧ displayPath ≠ "") then GenerateStorageID displayPath else storageID) displayPath
    (pick (cr_RepoURL repo) (wr_Source resolved)) (pick (cr_Branch repo) (wr_Ref resolved)) (pick (cr_BaseCommit repo) (wr_CommitHash resolved))
    (operation_of <$> cr_Operations repo).

Definition source_commit (byDisplayPath byStorage : gmap string WorkspaceRepository) (c : LocalVirtualCommit) : SourceCommit :=
  mkSourceCommit (lc_ID c) (lc_ParentID c) (lc_Message c) (lc_AuthorName c) (lc_AuthorEmail c) (lc_PrincipalID c) (unix_of (lc_CreatedAt c))
    (sourceCommitRepositoryFromLocal byDisplayPath byStorage <$> lc_Repositories c).

Definition buildSourceCommitBundle `{UnicodeFold} (workspaceID logicalBranch : string) (commits : list LocalVirtualCommit)
    : result vcs_error SourceCommitBundle :=
  let! byDisplayPath := workspaceRepositoryMetadata in
  let byStorage := foldl (λ m '(_, r), if blank (wr_StorageID r) then m else <[wr_StorageID r := r]> m) ∅ (range 4 byDisplayPath) in
  let bundle := mkCommitBundle workspaceID (TrimSpace (vh_principal h)) logicalBranch (source_commit byDisplayPath byStorage <$> commits) in
  match Validate bundle with Ok _ => Ok bundle | Err e => Err (BundleInvalid e) end.

Definition mark_pushed (jobID : string) (now : Z) (c : LocalVirtualCommit) : LocalVirtualCommit :=
  mkLocalCommit (lc_ID c) (lc_ParentID c) (lc_LogicalBranch c) (lc_Message c) (lc_AuthorName c) (lc_AuthorEmail c) (lc_PrincipalID c)
    (lc_CreatedAt c) (lc_Repositories c) true jobID (Some now).
Fixpoint put_commits (commits : list LocalVirtualCommit) : M (result vcs_error unit) :=
  match commits with
  | [] => ret (Ok tt)
  | c :: commits => let? _ := lift (sm_PutLocalVirtualCommit c) in put_commits commits
  end.

Definition pushed_mapping (now : Z) (principalID logicalBranch : string) (repo : WorkspaceSyncRepositoryResult) (old : option SessionBranchMapping)
    : SessionBranchMapping :=
  let m := default (mkBranchMapping principalID logicalBranch (re_StorageId repo) (re_DisplayPath repo) (re_Branch repo) "" "" (Some now)) old in
  let pick a b := if blank a then b else a in
  mkBranchMapping (bm_PrincipalID m) (bm_LogicalBranch m) (bm_StorageID m) (pick (bm_DisplayPath m) (re_DisplayPath repo))
    (pick (bm_OriginalBranch m) (re_Branch repo))
    (if blank (re_TargetBranch repo) then pick (bm_ActualBranch m) (re_Branch repo) else TrimSpace (re_TargetBranch repo))
    (if blank (re_PushedCommit repo) then bm_LastPushedCommit m else TrimSpace (re_PushedCommit repo))
    (Some (default now (bm_CreatedAt m))).

Fixpoint record_mappings (principalID logicalBranch : string) (repos : list WorkspaceSyncRepositoryResult) : M (result vcs_error unit) :=
  match repos with
  | [] => ret (Ok tt)
  | repo :: repos =>
      if blank (re_StorageId repo) then record_mappings principalID logicalBranch repos
      else
        w ← look;
        let old := match active w with
                   | Some (_, d) => match branches d !! branchMappingKey principalID logicalBranch (re_StorageId repo) with
                                    | Some (BranchDoc m) => Some m | _ => None end
                   | None => None
                   end in
        let? _ := lift (sm_PutBranchMapping (pushed_mapping (w_now w) principalID logicalBranch repo old)) in
        record_mappings principalID logicalBranch repos
  end.
Definition recordSourcePushBranchMappings (logicalBranch : string) (repos : list WorkspaceSyncRepositoryResult) : M (result vcs_error unit) :=
  let logicalBranch := TrimSpace logicalBranch in
  let principalID := TrimSpace (vh_principal h) in
  if bool_decide (logicalBranch = "" ∨ principalID = "") then ret (Ok tt) else record_mappings principalID logicalBranch repos.

(** The client: a job and its results, or an error. *)
Abbreviation push_client := (SourceCommitBundle → SourcePushMode → option (string * list WorkspaceSyncRepositoryResult)).

(** The number of commits and repositories. *)
Definition PushPendingLocalCommits `{UnicodeFold} (push : push_client) (mode : SourcePushMode) : M (result vcs_error (nat * nat)) :=
  w ← look;
  match w_current w with
  | None => raise NoSession
  | Some session =>
      let logicalBranch := sm_GetCurrentLogicalBranch w in
      match pendingLocalCommitsForBranch w logicalBranch with
      | [] => raise NothingPending
      | pending =>
          let workspaceID := if blank (vh_principal h) then ws_ID session else TrimSpace (vh_principal h) in
          match buildSourceCommitBundle workspaceID logicalBranch pending with
          | Err e => raise e
          | Ok bundle =>
              match push bundle mode with
              | None => raise PushFailed
              | Some (jobID, results) =>
                  let? _ := put_commits (mark_pushed jobID (w_now w) <$> pending) in
                  let? _ := recordSourcePushBranchMappings logicalBranch results in
                  ret (Ok (length pending, length (RepositoryRefs bundle)))
              end
          end
      end
  end.

Definition handlePushSource `{UnicodeFold, UnicodeLower} (push : push_client) (preferred : SourcePushMode) (pushMode : string) : M (result vcs_error (nat * nat)) :=
  if negb (vh_commitMgr h) then raise NoCommitManager
  else
    match parseSourcePushMode pushMode with
    | Err e => raise e
    | Ok mode => PushPendingLocalCommits push (if bool_decide (mode = MODE_UNSPECIFIED) then preferred else mode)
    end.

End commands.
