(* ===== verification/BundleProps.v ===== *)
(** * What applying operations does

    Applying the operations of a commit to a worktree makes it the tree the
    operations describe, in any order, as long as no directory goes away, none
    takes the place of a file, and no file that of a symbolic link. *)

From stdpp Require Import options.
From S2P Require Import Prelude GoStrings GoUnicode GoSort GoPath GoTree Bundle.

(** ** Paths *)

Lemma parents_step y e x : has_byte slash e = false → y ≠ "" → x ∈ parents (y +:+ "/" +:+ e) ↔ x ∈ parents y ++ [y].
Proof.
  intros Hs Hy. rewrite elem_of_app, list_elem_of_singleton, !parents_spec. split.
  - intros [Hx [r E]]. destruct (cut_at_slash _ _ _ _ E) as [(u & -> & ->)|[[-> _]|[u ->]]].
    + rewrite !has_byte_app in Hs. by rewrite orb_true_r in Hs.
    + by right.
    + left. split; [done|]. by exists u.
  - intros [[Hx [r ->]]| ->]; (split; [done|]); [|by exists e]. exists (r +:+ "/" +:+ e). by rewrite !str_app_assoc.
Qed.

(** The directory and the name of a path. *)
Lemma rooted_split p r : rooted_path p → proper_path r →
  ∃ y e, rooted_path y ∧ proper_elem e ∧ p +:+ "/" +:+ r = y +:+ "/" +:+ e.
Proof.
  intros Hp (es & Hne & Hes & ->). destruct es as [|e es _] using rev_ind; [done|].
  apply Forall_app in Hes as [Hes [He _]%Forall_cons]. destruct (decide (es = [])) as [->|Hn]; [by exists p, e|].
  exists (p +:+ "/" +:+ Join es (str1 slash)), e. split_and!; [apply rooted_app; [done|by exists es]|done|].
  rewrite Join_app by done. by rewrite !str_app_assoc.
Qed.

Lemma proper_parent r q : proper_path r → q ∈ parents r → proper_path q.
Proof.
  intros (es & Hne & Hes & E) [Hq [u ->]]%parents_spec. assert (Split q slash ++ Split u slash = es) as Es.
  { rewrite <- Split_app_gen. change (str1 slash) with "/". rewrite E. by apply Split_proper. }
  exists (Split q slash). split_and!; [apply Split_ne|subst es; by apply Forall_app in Hes as [? _]|by rewrite Join_Split].
Qed.

Lemma proper_relative r : proper_path r → HasPrefix r "/" = false.
Proof.
  intros (es & Hne & Hes & ->). destruct es as [|e es]; [done|]. apply Forall_cons_1 in Hes as [(He & _ & _ & Hs) _].
  destruct (HasPrefix _ _) eqn:E; [|done]. apply HasPrefix_spec in E as [u E]. destruct e as [|a e]; [done|].
  cbn [has_byte] in Hs. apply orb_false_iff in Hs as [Hs _].
  destruct es; [|rewrite Join_cons in E by done]; cbn in E; injection E as -> _; by bool_hyps.
Qed.

Lemma Clean_of_proper r : proper_path r → Clean r = r.
Proof.
  intros Hr. pose proof (proper_relative r Hr) as Hp. destruct Hr as (es & Hne & Hes & ->). unfold Clean.
  change (str1 slash) with "/" at 2. rewrite Hp, Split_proper, (foldl_clean_proper _ [] es), app_nil_r, rev_involutive by done.
  by rewrite bool_decide_eq_false_2.
Qed.

(** Paths outside the git directory of a worktree, and those of nested ones. *)
Definition no_git (r : string) : Prop := Forall (λ part, part ≠ ".git") (Split r slash).

Lemma no_git_prefix r u : no_git (r +:+ "/" +:+ u) → no_git r.
Proof. unfold no_git. change "/" with (str1 slash). rewrite Split_app_gen. by intros [? _]%Forall_app. Qed.

Lemma no_git_parent r q : no_git r → q ∈ parents r → no_git q.
Proof. intros Hr [_ [u ->]]%parents_spec. by eapply no_git_prefix. Qed.

Section worktree.
Context (root : string) (Hroot : rooted_path root).

(** The path in the worktree. *)
Definition at_root (r : string) : string := root +:+ "/" +:+ r.

Lemma at_root_inj q r : at_root q = at_root r → q = r.
Proof.
  unfold at_root. rewrite <- !str_app_assoc. intros E. apply (f_equal (str_drop (String.length (root +:+ "/")))) in E.
  by rewrite !str_drop_app in E.
Qed.

(** The directories above a path of the worktree: the root with the
    directories above it, and those in the worktree. *)
Lemma parents_at_root r x : proper_path r → x ∈ parents (at_root r) →
  x = root ∨ x ∈ parents root ∨ ∃ q, x = at_root q ∧ q ∈ parents r.
Proof.
  intros Hr [Hx [u E]]%parents_spec. unfold at_root in *.
  destruct (cut_at_slash _ _ _ _ E) as [(v & -> & ->)|[[-> ->]|[v Ev]]]; [|by left|].
  - right; right. exists v. split; [done|]. apply parents_spec. split; [|by exists u]. intros ->.
    apply proper_relative in Hr. by rewrite (proj2 (HasPrefix_spec _ _)) in Hr by (by exists u).
  - right; left. apply parents_spec. split; [done|]. by exists v.
Qed.

(** The parents of a path are made. *)
Lemma make_parents t r : well_formed t → proper_path r →
  Forall (λ q, t !! q = None ∨ t !! q = Some Directory) (parents (at_root r)) →
  ∃ t', MkdirAll Fine (Dir (at_root r)) t = (t', true) ∧ well_formed t' ∧
    ∀ x, t' !! x = match t !! x with Some n => Some n | None => if bool_decide (x ∈ parents (at_root r)) then Some Directory else None end.
Proof using Hroot.
  intros Hw Hr Hv. unfold at_root in *. destruct (rooted_split root r Hroot Hr) as (y & e & Hy & He & E). rewrite E in *.
  pose proof (λ x, parents_step y e x (proj2 (proj2 (proj2 He))) (rooted_ne _ Hy)) as Hp.
  assert (Forall (λ q, t !! q = None ∨ t !! q = Some Directory) (parents y ++ [y])) as Hv'.
  { rewrite Forall_forall in Hv |- *. intros q Hq. by apply Hv, Hp. }
  eexists. rewrite Dir_rooted by done. split_and!; [by apply MkdirAll_fine|by apply well_formed_dirs|].
  intros x. rewrite lookup_with_dirs. destruct (t !! x); [done|]. erewrite bool_decide_ext; [done|]. symmetry. apply Hp.
Qed.

Lemma op_path r : proper_path r → PathJoin root (Clean r) = at_root r.
Proof using Hroot. intros Hr. rewrite Clean_of_proper by done. by apply PathJoin_rooted. Qed.

(** A call that succeeds. *)
Lemma call_fine {A} (f : io → tree → tree * A) t t' a : f Fine t = (t', a) → call f ([], t) = ([], t', a).
Proof. intros E. unfold call. by rewrite E. Qed.

Lemma andthen_fine m k t t1 : m ([], t) = ([], t1, true) → andthen m k ([], t) = k ([], t1).
Proof. intros E. unfold andthen, mbind, disk_bind. by rewrite E. Qed.

(** ** The tree the operations describe *)

(** [T] is the tree to reach from [B]: it is a tree, no directory of [B] goes
    away, a new directory takes no other node's place, and no file takes the
    place of a link. *)
Record reachable (B T : string → option node) : Prop := {
  re_tree r n q : proper_path r → T r = Some n → q ∈ parents r → T q = Some Directory;
  re_dir r : proper_path r → B r = Some Directory → T r = Some Directory;
  re_new r : proper_path r → T r = Some Directory → B r = None ∨ B r = Some Directory;
  re_link r c l : proper_path r → T r = Some (File c) → B r ≠ Some (Link l) }.

Definition no_file (n : option node) : Prop := n = None ∨ n = Some Directory.

(** What an operation describes; nothing is to be removed from below a
    file. *)
Definition describes (B T : string → option node) (op : Operation) : Prop :=
  proper_path (bo_Path op) ∧ no_git (bo_Path op) ∧
  ((bo_Kind op = OperationUpsert ∧ T (bo_Path op) = Some (File (bo_Content op))) ∨
   (bo_Kind op = OperationDelete ∧ T (bo_Path op) = None ∧ ∀ q, q ∈ parents (bo_Path op) → no_file (B q) ∧ no_file (T q)) ∨
   (bo_Kind op = OperationMkdir ∧ T (bo_Path op) = Some Directory) ∨
   (bo_Kind op = OperationSymlink ∧ T (bo_Path op) = Some (Link (bo_Target op)))).

(** The worktree on the way from [B] to [T], the paths in [todo] not yet
    there; what git keeps in it is left out. *)
Record underway (B T : string → option node) (todo : list string) (t : tree) : Prop := {
  uw_wf : well_formed t;
  uw_root : t !! root = Some Directory;
  uw_at r : proper_path r → no_git r → t !! at_root r = T r ∨ (t !! at_root r = B r ∧ r ∈ todo) }.

(** The step at [r] leaves everything else, apart from directories above it. *)
Lemma underway_step B T r todo t t' :
  reachable B T → proper_path r → underway B T (r :: todo) t → well_formed t' → t' !! at_root r = T r →
  (∀ x, x ≠ at_root r → t' !! x = t !! x ∨ (t !! x = None ∧ t' !! x = Some Directory ∧ x ∈ parents (at_root r) ∧ is_Some (T r))) →
  underway B T todo t'.
Proof using Hroot.
  intros Hre Hr [Hw Hrt Hat] Hw' Hr' Hoff. split; [done| |].
  - destruct (Hoff root) as [->|(E & _)]; [|done|congruence]. intros E. apply (f_equal String.length) in E.
    unfold at_root in E. rewrite !str_length_app in E. cbn in E. lia.
  - intros q Hq Hqg. destruct (decide (q = r)) as [->|Hne]; [by left|].
    destruct (Hoff (at_root q)) as [->|(_ & -> & Hp & [n Hn])]; [by intros ?%at_root_inj| |].
    + destruct (Hat q Hq Hqg) as [?|[? [?|?]%elem_of_cons]]; [by left|done|by right].
    + left. symmetry. destruct (parents_at_root r _ Hr Hp) as [E|[E|(u & E & Hu)]].
      * apply (f_equal String.length) in E. unfold at_root in E. rewrite !str_length_app in E. cbn in E. lia.
      * apply parents_spec in E as [_ [v E]]. apply (f_equal String.length) in E. unfold at_root in E. rewrite !str_length_app in E. cbn in E. lia.
      * apply at_root_inj in E as ->. exact (re_tree _ _ Hre r n u Hr Hn Hu).
Qed.

(** The directories above a path are there or free, where neither tree has
    anything else in their place. *)
Lemma above_clear B T r todo t :
  proper_path r → no_git r → underway B T todo t → (∀ q, q ∈ parents r → no_file (B q) ∧ no_file (T q)) →
  Forall (λ q, t !! q = None ∨ t !! q = Some Directory) (parents (at_root r)).
Proof using Hroot.
  intros Hr Hg [Hw Hrt Hat] Hq. apply Forall_forall. intros x Hx. destruct (parents_at_root r x Hr Hx) as [->|[Hin|(q & -> & Hin)]].
  - by right.
  - right. by eapply Hw.
  - destruct (Hq q Hin) as [HB HT]. destruct (Hat q (proper_parent _ _ Hr Hin) (no_git_parent _ _ Hg Hin)) as [->|[-> _]]; done.
Qed.

(** So are those above a path that is to exist. *)
Lemma above_vacant B T r todo t n :
  reachable B T → proper_path r → no_git r → underway B T todo t → T r = Some n →
  Forall (λ q, t !! q = None ∨ t !! q = Some Directory) (parents (at_root r)).
Proof using Hroot.
  intros Hre Hr Hg U Hn. eapply above_clear; [done..|]. intros q Hq. pose proof (re_tree _ _ Hre r n q Hr Hn Hq) as HT.
  split; [|by right]. apply (re_new _ _ Hre); [by eapply proper_parent|done].
Qed.

(** Removing a node that is no directory removes nothing else. *)
Lemma RemoveAll_node t p : well_formed t → p ≠ "" → t !! p ≠ Some Directory → unobstructed t p = true →
  ∃ t', RemoveAll Fine p t = (t', true) ∧ well_formed t' ∧ t' !! p = None ∧ ∀ x, x ≠ p → t' !! x = t !! x.
Proof.
  intros Hw Hp Hn Hu. unfold RemoveAll. rewrite Hu. eexists. split; [done|]. split_and!; [by apply well_formed_removed| |].
  - rewrite lookup_removed. by rewrite bool_decide_eq_true_2.
  - intros x Hx. rewrite lookup_removed, bool_decide_eq_false_2 by done. cbn [orb]. destruct (below p x) eqn:E; [|done].
    apply below_spec in E as [u E]. destruct (t !! x) as [m|] eqn:Ex; [|done].
    rewrite (Hw x m p Ex) in Hn; [done|]. apply parents_spec. eauto.
Qed.

(** The directories above a path that is to exist are made, and nothing is
    put in its place. *)
Lemma parents_made B T r todo t n :
  reachable B T → proper_path r → no_git r → underway B T todo t → T r = Some n →
  ∃ t1, MkdirAll Fine (Dir (at_root r)) t = (t1, true) ∧ well_formed t1 ∧ t1 !! at_root r = t !! at_root r ∧
    Forall (λ q, t1 !! q = Some Directory) (parents (at_root r)) ∧
    ∀ x, t1 !! x = t !! x ∨ (t !! x = None ∧ t1 !! x = Some Directory ∧ x ∈ parents (at_root r) ∧ is_Some (T r)).
Proof using Hroot.
  intros Hre Hr Hg U HT. pose proof (above_vacant _ _ _ _ _ _ Hre Hr Hg U HT) as Hv. pose proof U as [Hw _ _].
  destruct (make_parents t r Hw Hr Hv) as (t1 & E1 & Hw1 & Hl1). rewrite Forall_forall in Hv. exists t1. split_and!; [done..| | |].
  - rewrite Hl1, (bool_decide_eq_false_2 (at_root r ∈ _)) by apply parents_irrefl. by destruct (t !! _).
  - apply Forall_forall. intros x Hx. rewrite Hl1, bool_decide_eq_true_2 by done. by destruct (Hv x Hx) as [->| ->].
  - intros x. rewrite Hl1. destruct (t !! x); [by left|]. case_bool_decide; [right; eauto|by left].
Qed.

Lemma not_a_directory B T r todo t :
  reachable B T → proper_path r → no_git r → underway B T todo t → T r ≠ Some Directory → t !! at_root r ≠ Some Directory.
Proof using Hroot.
  intros Hre Hr Hg U HT. destruct (uw_at _ _ _ _ U r Hr Hg) as [->|[-> _]]; [done|]. intros EB. by pose proof (re_dir _ _ Hre r Hr EB).
Qed.

Lemma at_root_ne r : proper_path r → at_root r ≠ "".
Proof using Hroot. intros Hr. by apply rooted_ne, rooted_app. Qed.

(** ** One operation *)

Ltac pick_kind :=
  repeat (rewrite (bool_decide_eq_false_2 (_ = _)) by done); rewrite (bool_decide_eq_true_2 (_ = _)) by done.

Section operation.
Context (B T : string → option node) (op : Operation) (todo : list string) (t : tree).
Context (Hre : reachable B T) (Hr : proper_path (bo_Path op)) (Hg : no_git (bo_Path op)) (U : underway B T (bo_Path op :: todo) t).

Lemma apply_upsert : bo_Kind op = OperationUpsert → T (bo_Path op) = Some (File (bo_Content op)) →
  ∃ t', apply_operation root op ([], t) = ([], t', true) ∧ underway B T todo t'.
Proof using Hroot Hre Hr Hg U.
  intros Hk HT. unfold apply_operation. rewrite (op_path _ Hr), Hk. pick_kind. set (r := bo_Path op) in *.
  destruct (parents_made _ _ _ _ _ _ Hre Hr Hg U HT) as (t1 & E1 & Hw1 & Hr1 & Hd1 & Hl1).
  assert (can_put t1 (at_root r) = true) as Hput.
  { apply can_put_spec. split; [done|]. rewrite Hr1.
    destruct (uw_at _ _ _ _ U r Hr Hg) as [->|[-> _]]; [rewrite HT; eauto|]. destruct (B r) as [[c| |l]|] eqn:EB; eauto.
    - pose proof (re_dir _ _ Hre r Hr EB). congruence.
    - by destruct (re_link _ _ Hre r _ l Hr HT). }
  exists (<[at_root r := File (bo_Content op)]> t1). split.
  - erewrite andthen_fine by (by apply call_fine). apply call_fine. by apply WriteFile_fine.
  - eapply underway_step; [done..|by apply well_formed_put|by rewrite lookup_insert_eq|].
    intros x Hx. rewrite lookup_insert_ne by done. apply Hl1.
Qed.

Lemma apply_delete : bo_Kind op = OperationDelete → T (bo_Path op) = None →
  (∀ q, q ∈ parents (bo_Path op) → no_file (B q) ∧ no_file (T q)) →
  ∃ t', apply_operation root op ([], t) = ([], t', true) ∧ underway B T todo t'.
Proof using Hroot Hre Hr Hg U.
  intros Hk HT Hq. unfold apply_operation. rewrite (op_path _ Hr), Hk. pick_kind. set (r := bo_Path op) in *.
  destruct (RemoveAll_node t (at_root r)) as (t' & E & Hw' & Hn' & Hoff).
  - apply (uw_wf _ _ _ _ U).
  - by apply at_root_ne.
  - eapply not_a_directory; [done..|]. by rewrite HT.
  - by eapply unobstructed_spec, above_clear.
  - exists t'. split; [by apply call_fine|]. eapply underway_step; [done..|by rewrite Hn'|]. intros x Hx. left. by apply Hoff.
Qed.

Lemma apply_mkdir : bo_Kind op = OperationMkdir → T (bo_Path op) = Some Directory →
  ∃ t', apply_operation root op ([], t) = ([], t', true) ∧ underway B T todo t'.
Proof using Hroot Hre Hr Hg U.
  intros Hk HT. unfold apply_operation. rewrite (op_path _ Hr), Hk. pick_kind. set (r := bo_Path op) in *.
  assert (Forall (λ q, t !! q = None ∨ t !! q = Some Directory) (parents (at_root r) ++ [at_root r])) as Hv.
  { apply Forall_app. split; [by eapply above_vacant|]. apply Forall_singleton.
    destruct (uw_at _ _ _ _ U r Hr Hg) as [->|[-> _]]; [by right|]. by apply (re_new _ _ Hre). }
  eexists. split; [apply call_fine; by apply MkdirAll_fine|].
  eapply underway_step; [done..|apply well_formed_dirs; [apply (uw_wf _ _ _ _ U)|done]| |].
  - rewrite lookup_with_dirs, HT. destruct (t !! at_root r) as [n|] eqn:En.
    + apply Forall_app in Hv as [_ [Hv|Hv]%Forall_singleton]; rewrite En in Hv; congruence.
    + rewrite bool_decide_eq_true_2; [done|]. apply elem_of_app. right. by apply list_elem_of_singleton.
  - intros x Hx. rewrite lookup_with_dirs. destruct (t !! x); [by left|]. case_bool_decide as Hin; [|by left].
    right. split_and!; eauto. apply elem_of_app in Hin as [?|?%list_elem_of_singleton]; done.
Qed.

Lemma apply_symlink : bo_Kind op = OperationSymlink → T (bo_Path op) = Some (Link (bo_Target op)) →
  ∃ t', apply_operation root op ([], t) = ([], t', true) ∧ underway B T todo t'.
Proof using Hroot Hre Hr Hg U.
  intros Hk HT. unfold apply_operation. rewrite (op_path _ Hr), Hk. pick_kind. set (r := bo_Path op) in *.
  destruct (parents_made _ _ _ _ _ _ Hre Hr Hg U HT) as (t1 & E1 & Hw1 & Hr1 & Hd1 & Hl1).
  destruct (RemoveAll_node t1 (at_root r)) as (t2 & E2 & Hw2 & Hn2 & Hoff).
  - done.
  - by apply at_root_ne.
  - rewrite Hr1. eapply not_a_directory; [done..|]. by rewrite HT.
  - apply unobstructed_spec. eapply Forall_impl; [exact Hd1|]. by right.
  - assert (can_put t2 (at_root r) = true) as Hput.
    { apply can_put_spec. split; [|by left]. rewrite Forall_forall in Hd1 |- *. intros x Hx.
      rewrite Hoff; [by apply Hd1|]. intros ->. by apply parents_irrefl in Hx. }
    exists (<[at_root r := Link (bo_Target op)]> t2). split.
    + erewrite andthen_fine by (by apply call_fine). erewrite andthen_fine by (by apply call_fine).
      apply call_fine. unfold Symlink. rewrite (bool_decide_eq_true_2 _ Hn2). unfold can_put in Hput.
      apply andb_true_iff in Hput as [-> _]. done.
    + eapply underway_step; [done..|by apply well_formed_put|by rewrite lookup_insert_eq|].
      intros x Hx. rewrite lookup_insert_ne, Hoff by done. apply Hl1.
Qed.

End operation.

Lemma apply_one B T op todo t :
  reachable B T → describes B T op → underway B T (bo_Path op :: todo) t →
  ∃ t', apply_operation root op ([], t) = ([], t', true) ∧ underway B T todo t'.
Proof using Hroot.
  intros Hre (Hr & Hg & [[]|[(? & ? & ?)|[[]|[]]]]) U.
  - by apply apply_upsert.
  - by apply apply_delete.
  - by apply apply_mkdir.
  - by apply apply_symlink.
Qed.

Lemma apply_all B T ops t :
  reachable B T → Forall (describes B T) ops → underway B T (bo_Path <$> ops) t →
  ∃ t', applyRepositoryOperations root ops ([], t) = ([], t', true) ∧ underway B T [] t'.
Proof using Hroot.
  intros Hre. revert t. induction ops as [|op ops IH]; intros t Hops U; [by exists t|].
  apply Forall_cons in Hops as [Hop Hops]. destruct (apply_one B T op _ t Hre Hop U) as (t1 & E1 & U1).
  destruct (IH t1 Hops U1) as (t2 & E2 & U2). exists t2. split; [|done]. cbn. by erewrite andthen_fine.
Qed.

(** The worktree holds [B] below its root, apart from what git keeps there. *)
Record clone_of (B : string → option node) (t : tree) : Prop := {
  cl_wf : well_formed t;
  cl_root : t !! root = Some Directory;
  cl_at r : proper_path r → no_git r → t !! at_root r = B r }.

(** Operations that describe the way from [B] to [T] make a clone of [B] one
    of [T]. *)
Lemma clone_reached B T ops t :
  reachable B T → Forall (describes B T) ops → (∀ r, proper_path r → no_git r → T r ≠ B r → r ∈ bo_Path <$> ops) → clone_of B t →
  ∃ t', applyRepositoryOperations root ops ([], t) = ([], t', true) ∧ clone_of T t'.
Proof using Hroot.
  intros Hre Hops Hall [Hw Hrt Hat]. destruct (apply_all B T ops t) as (t' & E & [Hw' Hrt' Hat']); [done..| |].
  - split; [done..|]. intros r Hr Hg. destruct (decide (T r = B r)) as [->|Hne]; [left; by apply Hat|].
    right. split; [by apply Hat|by apply Hall].
  - exists t'. split; [done|]. split; [done..|]. intros r Hr Hg. by destruct (Hat' r Hr Hg) as [|[_ []%not_elem_of_nil]].
Qed.

End worktree.
