(* ===== verification/SourcePushProps.v ===== *)
(** * What a successful push means

    When a push that squashes the commits is reported as successful, every
    repository of the bundle has the files its operations make of the commit
    the bundle is based on.  The theorems after that show how a push that
    preserves the commits can be reported as successful without that. *)

From stdpp Require Import options.
From S2P Require Import Prelude GoStrings GoUnicode GoSort GoRange GoPath GoTree Bundle SourcePush GitIndex.

(** ** Outcomes of calls *)

(** Operations that were applied are applied the same way when no call could
    fail. *)
Lemma call_ok {A} (f : io → tree → tree * A) (ok : A → bool) :
  (∀ r t, ok (f (Broken r) t).2 = false) →
  ∀ os t os' t' a, call f (os, t) = (os', t', a) → ok a = true → f Fine t = (t', a).
Proof.
  intros Hb os t os' t' a. unfold call. destruct os as [|[|r] os].
  - destruct (f Fine t). by intros [= _ -> ->].
  - destruct (f Fine t). by intros [= _ -> ->].
  - specialize (Hb r t). destruct (f (Broken r) t) as [t1 a1]. cbn in Hb. intros [= _ _ ->]. congruence.
Qed.

Definition steady (m : disk bool) : Prop := ∀ os t os' t', m (os, t) = (os', t', true) → m ([], t) = ([], t', true).

Lemma steady_call f : (∀ r t, (f (Broken r) t).2 = false) → steady (call f).
Proof.
  intros Hb os t os' t' E. assert (f Fine t = (t', true)) as Ef by (by eapply (call_ok f id)). unfold call. by rewrite Ef.
Qed.

Lemma steady_andthen m k : steady m → steady k → steady (andthen m k).
Proof.
  intros Hm Hk os t os' t'. unfold andthen, mbind, disk_bind. destruct (m (os, t)) as [[os1 t1] ok] eqn:E. destruct ok; [|done].
  cbn. intros E'. rewrite (Hm _ _ _ _ E). cbn. by eapply Hk.
Qed.

Lemma steady_dret b : steady (dret b).
Proof. intros os t os' t'. by intros [= _ -> ->]. Qed.

Lemma steady_remove p : steady (removed ← call (λ o, Remove o p); dret (match removed with Refused => false | _ => true end)).
Proof.
  intros os t os' t'. unfold mbind, disk_bind. destruct (call (λ o, Remove o p) (os, t)) as [[os1 t1] a] eqn:E. cbn.
  intros [= -> -> Ha]. assert (Remove Fine p t = (t', a)) as Er.
  { eapply (call_ok (λ o, Remove o p) (λ a, match a with Refused => false | _ => true end)); [|exact E|by destruct a].
    intros r t0. unfold Remove. by destruct (t0 !! p). }
  unfold call. rewrite Er. cbn. by destruct a.
Qed.

Lemma steady_apply root ops : steady (applyRepositoryOperations root ops).
Proof.
  induction ops as [|op ops IH]; cbn [applyRepositoryOperations]; [apply steady_dret|]. apply steady_andthen; [|done].
  assert (∀ p, steady (call (λ o, MkdirAll o p))) as Hmk by (intros p; by apply steady_call).
  assert (∀ p, steady (call (λ o, RemoveAll o p))) as Hrm by (intros p; by apply steady_call).
  unfold apply_operation. repeat case_bool_decide; try apply steady_dret; try done.
  - apply steady_andthen; [done|]. apply steady_call. intros r t. unfold WriteFile. destruct (resolve t _) as [q|]; [|done].
    destruct (r q) as [[]|]; try done. by destruct (can_put t q).
  - apply steady_remove.
  - apply steady_andthen; [done|]. apply steady_andthen; [done|]. by apply steady_call.
  - destruct (negb _); [apply steady_dret|]. apply steady_andthen; [done|]. by apply steady_call.
  - by apply steady_call.
Qed.

(** ** The account of the router *)

Lemma elem_of_update r results : r ∈ updateWorkspaceSyncRepository results r.
Proof. induction results as [|x l IH]; cbn; [left|]. case_bool_decide; [left|right; apply IH]. Qed.

Lemma update_keeps x r results :
  x ∈ results → re_StorageId x ≠ re_StorageId r → x ∈ updateWorkspaceSyncRepository results r.
Proof.
  intros Hx Hne. induction results as [|y l IH]; cbn; [by apply not_elem_of_nil in Hx|]. apply elem_of_cons in Hx as [<-|Hx].
  - rewrite bool_decide_eq_false_2 by congruence. left.
  - case_bool_decide; [by right|right; by apply IH].
Qed.

Abbreviation result_of := workspaceRepositoryResultFromPublish.
Abbreviation storage_of := (λ p, rr_StorageId (pr_Repository p)).

Lemma result_storage p : re_StorageId (result_of p) = storage_of p.
Proof. unfold workspaceRepositoryResultFromPublish. by destruct (pr_Status p). Qed.

Lemma results_keep progress x results :
  x ∈ results → re_StorageId x ∉ storage_of <$> progress →
  x ∈ foldl (λ l p, updateWorkspaceSyncRepository l (result_of p)) results progress.
Proof.
  revert results. induction progress as [|p l IH]; intros results Hx Hn; [done|]. cbn. apply not_elem_of_cons in Hn as [Hne Hn].
  apply IH; [|done]. apply update_keeps; [done|]. by rewrite result_storage.
Qed.

(** The last report on a repository is its result. *)
Lemma last_report l1 p l2 : storage_of p ∉ storage_of <$> l2 → result_of p ∈ (runWorkspaceCommitPushJob (l1 ++ p :: l2)).1.
Proof.
  intros Hn. unfold runWorkspaceCommitPushJob. cbn [fst]. rewrite foldl_app. cbn [foldl]. apply results_keep; [apply elem_of_update|].
  by rewrite result_storage.
Qed.

Lemma hard_result p : hard (pr_Status p) = true → re_Status (result_of p) ∈ [REPO_FAILED; REPO_CONFLICT; REPO_ROLLED_BACK].
Proof.
  unfold hard, workspaceRepositoryResultFromPublish. intros H.
  destruct (pr_Status p); cbn; first [by apply (bool_decide_unpack _)|by vm_compute in H].
Qed.

Lemma failing_job results x : x ∈ results → re_Status x ∈ [REPO_FAILED; REPO_CONFLICT; REPO_ROLLED_BACK] →
  finalizeWorkspaceSyncJob results = JOB_FAILED.
Proof.
  intros Hx Hs. unfold finalizeWorkspaceSyncJob. replace (existsb _ _) with true; [done|]. symmetry. apply existsb_exists.
  exists x. split; [by apply list_elem_of_In|]. by apply bool_decide_eq_true.
Qed.

(** ** One repository *)

Section squash.
Context `{Hlower : UnicodeLower} (logicalBranch : string).

(** A repository that is left in order: the operations were applied to a clone
    of the commit the bundle is based on and the result was staged, and the
    index is on the target branch unless there was nothing to commit. *)
Definition in_order (g : git_answers) (plan : sourcePushRepositoryPlan) (landed : index → Prop) : Prop :=
  pl_operations plan = [] ∨
  ∃ cloned t ix ok, ga_clone g = Ok cloned ∧ ga_head g = Some (rb_BaseCommit (pl_repo plan)) ∧
    applyRepositoryOperations (ga_root g) (pl_operations plan) ([], cloned) = ([], t, true) ∧
    stageWorktreeChanges g t (ga_index g) = (ix, Some ok) ∧ (ok = true → landed ix).

Lemma mapped_hard err : hard (mapPublishError err).1 = true.
Proof using. unfold mapPublishError. repeat case_match; done. Qed.

Lemma push_storage g plan : storage_of (pushSourceCommitRepository logicalBranch g plan).1 = rb_StorageID (pl_repo plan).
Proof using. unfold pushSourceCommitRepository, commit_and_push. repeat (case_match; try done). Qed.

(** The status of an error is not one of success. *)
Ltac mapped err :=
  let Hm := fresh in pose proof (mapped_hard err) as Hm; destruct (mapPublishError err); cbn in Hm; intros [= <- _]; cbn; congruence.

Lemma commit_in_order g repo remote t ix progress landed :
  (commit_and_push logicalBranch g repo remote t ix).2 = (progress, landed) → hard (pr_Status progress) = false →
  ∃ ix' ok, stageWorktreeChanges g t ix = (ix', Some ok) ∧ (ok = true → landed = Some ix').
Proof using.
  unfold commit_and_push. destruct (stageWorktreeChanges g t ix) as [ix' [[]|]]; [|intros _ _; by exists ix', false|by intros [= <- _]].
  destruct (ga_commit g ix'); [|by intros [= <- _]]. destruct (ga_push g ix') as [err|].
  - mapped err.
  - intros [= _ <-] _. by exists ix', true.
Qed.

Lemma push_in_order g plan progress landed :
  pushSourceCommitRepository logicalBranch g plan = (progress, landed) → hard (pr_Status progress) = false →
  in_order g plan (λ ix, landed = Some ix).
Proof using.
  unfold pushSourceCommitRepository. case_bool_decide as Hops; [intros _ _; by left|].
  destruct (ga_clone g) as [cloned|err] eqn:Ec; [|mapped err].
  destruct (ga_open g); [|by intros [= <- _]]. destruct (ga_head g) as [head|] eqn:Eh; [|by intros [= <- _]]. cbn [negb].
  case_bool_decide as Hb; [|by intros [= <- _]]. destruct (ga_worktree g); [|by intros [= <- _]]. cbn [negb].
  destruct (checkoutPublishBranch g _) as [err|]; [mapped err|].
  destruct (applyRepositoryOperations _ _ _) as [[os t1] applied] eqn:Ea. destruct applied; [|by intros [= <- _]]. cbn [negb].
  intros E H. right. destruct (commit_in_order _ _ _ _ _ _ _ E H) as (ix & ok & Es & Hl).
  exists cloned, t1, ix, ok. split_and!; [done|by rewrite Eh, Hb|by eapply steady_apply|done..].
Qed.

(** ** All repositories *)

Abbreviation id_of := (λ p, rb_StorageID (pl_repo p)).

Lemma squash_failed gits i plans acc : pd_failed acc = true →
  let out := squash_loop logicalBranch gits (λ _, false) i plans acc in
  pd_failed out = true ∧ pd_published out = pd_published acc ∧
  ∃ rest, pd_progress out = pd_progress acc ++ rest ∧ storage_of <$> rest = id_of <$> plans.
Proof using.
  revert i acc. induction plans as [|plan plans IH]; intros i acc Hf; cbn [squash_loop].
  { split_and!; [done..|]. exists []. by rewrite app_nil_r. }
  rewrite Hf. cbn [orb]. destruct (IH (S i) (mkPushed (pd_progress acc ++ [mkProgress (ref_of (pl_repo plan)) "" SYNC_UNCHANGED "" "" "" "" 0])
    (pd_remote acc) (pd_published acc) true) eq_refl) as (? & ? & rest & E & Hr).
  split_and!; [done..|]. eexists (_ :: rest). cbn [pd_progress] in E. rewrite E, <- app_assoc. split; [done|]. cbn. by rewrite Hr.
Qed.

(** The loop either leaves every repository in order, or reports a failure on
    one that it neither reports on again nor publishes. *)
Lemma squash_loop_spec gits i plans acc :
  pd_failed acc = false → NoDup (id_of <$> plans) →
  let out := squash_loop logicalBranch gits (λ _, false) i plans acc in
  (pd_failed out = false ∧ pd_remote acc ⊆ pd_remote out ∧
   ∀ plan, plan ∈ plans → in_order (gits (id_of plan)) plan (λ ix, (id_of plan, ix) ∈ pd_remote out)) ∨
  (pd_failed out = true ∧ ∃ l1 p l2, pd_progress out = l1 ++ p :: l2 ∧ hard (pr_Status p) = true ∧ storage_of p ∉ storage_of <$> l2 ∧
   storage_of p ∈ id_of <$> plans ∧ ∀ repo, repo ∈ pd_published out → repo ∈ pd_published acc ∨ rb_StorageID repo ≠ storage_of p).
Proof using.
  revert i acc. induction plans as [|plan plans IH]; intros i acc Hf Hnd; cbn [squash_loop].
  { left. split_and!; [done..|]. by intros plan ?%not_elem_of_nil. }
  apply NoDup_cons in Hnd as [Hx Hnd]. rewrite Hf. cbn [orb].
  destruct (pushSourceCommitRepository logicalBranch (gits (rb_StorageID (pl_repo plan))) plan) as [progress sent] eqn:E.
  pose proof (push_storage (gits (rb_StorageID (pl_repo plan))) plan) as Es. rewrite E in Es. cbn [fst] in Es.
  set (acc1 := mkPushed _ _ _ _). destruct (hard (pr_Status progress)) eqn:Eh.
  - right. destruct (squash_failed gits (S i) plans acc1 eq_refl) as (Hf1 & Hp1 & rest & Ep & Hr). split; [done|].
    exists (pd_progress acc), progress, rest. split_and!; [by rewrite Ep; cbn; rewrite <- app_assoc|done|by rewrite Hr, Es|rewrite Es; left|].
    intros repo. rewrite Hp1. cbn. rewrite bool_decide_eq_false_2; [by left|]. intros E'. by rewrite E' in Eh.
  - destruct (IH (S i) acc1 eq_refl Hnd) as [(Hf1 & Hsub & Hall)|(Hf1 & l1 & p & l2 & Ep & Hh & Hn & Hin & Hpub)]; [left|right].
    + split_and!; [done|cbn in Hsub; set_solver|]. intros q [->|Hq]%elem_of_cons; [|by apply Hall].
      destruct (push_in_order _ _ _ _ E Eh) as [Hnil|(cloned & t & ix & ok & Hc & Hhd & Ha & Hst & Hl)]; [by left|right].
      exists cloned, t, ix, ok. split_and!; [done..|]. intros Hok. apply Hsub. cbn. rewrite (Hl Hok). cbn. set_solver.
    + split; [done|]. exists l1, p, l2. split_and!; [done..|by right|]. intros repo Hrepo. destruct (Hpub repo Hrepo) as [Hacc|?]; [|by right].
      cbn in Hacc. case_bool_decide; [|by left]. apply elem_of_app in Hacc as [?|Eq%list_elem_of_singleton]; [by left|].
      right. subst repo. intros Eq. apply Hx. change (id_of plan ∈ id_of <$> plans). cbv beta. by rewrite Eq.
Qed.

Lemma rollback_reports rolls worktrees repos acc :
  ∃ rest, pd_progress (rollback_all logicalBranch rolls worktrees repos acc) = pd_progress acc ++ rest ∧
    storage_of <$> rest = rb_StorageID <$> repos.
Proof using.
  revert acc. induction repos as [|repo repos IH]; intros acc; cbn [rollback_all]; [exists []; by rewrite app_nil_r|].
  destruct (rollbackSourcePushRepository _ _ _ _) as [progress t] eqn:E.
  destruct (IH (mkPushed (pd_progress acc ++ [progress]) (pd_remote acc ++ landed repo t) (pd_published acc) (pd_failed acc))) as (rest & Er & Hs).
  exists (progress :: rest). rewrite Er. cbn [pd_progress]. rewrite <- app_assoc. split; [done|]. cbn. rewrite Hs. f_equal.
  revert E. unfold rollbackSourcePushRepository. repeat case_match; by intros [= <- _].
Qed.

(** A push of the squashed commits that is reported as successful leaves
    every repository in order. *)
Lemma squash_sound `{GoSort, GoRange} gits rolls b :
  NoDup (id_of <$> sourcePushRepositoryPlans b) →
  (runWorkspaceCommitPushJob (pd_progress (push_squash logicalBranch gits rolls (λ _, false) b))).2 = JOB_SUCCEEDED →
  ∀ plan, plan ∈ sourcePushRepositoryPlans b →
    in_order (gits (id_of plan)) plan (λ ix, (id_of plan, ix) ∈ pd_remote (push_squash logicalBranch gits rolls (λ _, false) b)).
Proof using.
  intros Hnd Hjob plan Hplan. unfold push_squash in *.
  destruct (squash_loop_spec gits 0 (sourcePushRepositoryPlans b) (mkPushed [] [] [] false) eq_refl Hnd)
    as [(-> & _ & Hall)|(Hf & l1 & p & l2 & Ep & Hh & Hn & _ & Hpub)]; [by apply Hall|]. exfalso. rewrite Hf in Hjob.
  set (out := squash_loop _ _ _ _ _ _) in *. destruct (rollback_reports rolls ∅ (pd_published out) out) as (rest & Er & Hs).
  rewrite Er, Ep, <- app_assoc in Hjob. cbn [app] in Hjob. unfold runWorkspaceCommitPushJob in Hjob. cbn [snd] in Hjob.
  erewrite failing_job in Hjob; [done|apply (last_report l1 p (l2 ++ rest))|by apply hard_result].
  rewrite fmap_app, Hs. intros [?|Hin]%elem_of_app; [done|]. apply list_elem_of_fmap in Hin as (repo & Eq & Hrepo).
  destruct (Hpub repo Hrepo) as [?%not_elem_of_nil|?]; [done|congruence].
Qed.

(** ** What reaches the repositories *)

Lemma push_sends_applied g plan ix : (pushSourceCommitRepository logicalBranch g plan).2 = Some ix →
  ∃ cloned os t, ga_clone g = Ok cloned ∧ applyRepositoryOperations (ga_root g) (pl_operations plan) (ga_io g, cloned) = (os, t, true) ∧
    stageWorktreeChanges g t (ga_index g) = (ix, Some true).
Proof using.
  unfold pushSourceCommitRepository. case_bool_decide; [done|].
  destruct (ga_clone g) as [cloned|err] eqn:Ec; [|by destruct (mapPublishError err)].
  destruct (negb (ga_open g)); [done|]. destruct (ga_head g) as [head|]; [|done]. destruct (negb _); [done|].
  destruct (negb (ga_worktree g)); [done|]. destruct (checkoutPublishBranch g _) as [err|]; [by destruct (mapPublishError err)|].
  destruct (applyRepositoryOperations _ _ _) as [[os t] [|]] eqn:Ea; [|done]. cbn [negb]. intros E. exists cloned, os, t. split_and!; [done..|].
  revert E. unfold commit_and_push. destruct (stageWorktreeChanges g t (ga_index g)) as [ix' [[]|]]; [|done..].
  destruct (ga_commit g ix'); [|done]. destruct (ga_push g ix') as [err|]; [by destruct (mapPublishError err)|]. by intros [= ->].
Qed.

Lemma landed_elem repo t x : x ∈ landed repo t ↔ x.1 = rb_StorageID repo ∧ t = Some x.2.
Proof using.
  destruct x as [i u]. unfold landed. destruct t as [t|]; cbn [fst snd].
  - rewrite list_elem_of_singleton. naive_solver.
  - rewrite elem_of_nil. naive_solver.
Qed.

Lemma squash_remote gits cancelled i plans acc x : x ∈ pd_remote (squash_loop logicalBranch gits cancelled i plans acc) →
  x ∈ pd_remote acc ∨ ∃ plan, plan ∈ plans ∧ x.1 = id_of plan ∧ (pushSourceCommitRepository logicalBranch (gits (id_of plan)) plan).2 = Some x.2.
Proof using.
  revert i acc. induction plans as [|plan plans IH]; intros i acc; cbn [squash_loop]; [by left|].
  intros [H|(q & Hq & ? & ?)]%IH; [|right; exists q; split_and!; [by right|done..]]. destruct (pd_failed acc || cancelled i); [by left|].
  destruct (pushSourceCommitRepository _ _ plan) as [progress t] eqn:E. cbn [pd_remote] in H.
  apply elem_of_app in H as [?|[? ->]%landed_elem]; [by left|]. right. exists plan. split_and!; [left|done|by rewrite E].
Qed.

Lemma rollback_remote rolls worktrees repos acc x : x ∈ pd_remote (rollback_all logicalBranch rolls worktrees repos acc) →
  x ∈ pd_remote acc ∨ ∃ repo, repo ∈ repos ∧ x.1 = rb_StorageID repo ∧
    (rollbackSourcePushRepository logicalBranch (rolls (rb_StorageID repo)) repo (worktrees !! rb_StorageID repo)).2 = Some x.2.
Proof using.
  revert acc. induction repos as [|repo repos IH]; intros acc; cbn [rollback_all]; [by left|].
  destruct (rollbackSourcePushRepository _ _ repo _) as [progress t] eqn:E.
  intros [H|(q & Hq & ? & ?)]%IH; [|right; exists q; split_and!; [by right|done..]]. cbn [pd_remote] in H.
  apply elem_of_app in H as [?|[? ->]%landed_elem]; [by left|]. right. exists repo. split_and!; [left|done|by rewrite E].
Qed.

End squash.

(** ** The whole push *)

Section push.
Context `{Hfold : UnicodeFold, Hlower : UnicodeLower, Hsort : GoSort, Hrange : GoRange}.

Lemma lower_squash : ToLower "squash" = "squash".
Proof using.
  unfold ToLower. change (runes "squash") with [115; 113; 117; 97; 115; 104]. cbn [mbind list_bind]. rewrite !lower_ascii by lia. reflexivity.
Qed.

(** A push of the squashed commits is refused, or it is that of a bundle with
    the same commits that passed validation and the gates of the router. *)
Lemma push_runs pw b mode :
  resolveSourcePushMode mode (pw_config pw) = "squash" →
  PushWorkspaceCommitBundle pw b mode = (None, []) ∨
  ∃ branch b', normalizeSourceCommitBundleForPush (pw_clientID pw) (pw_fallbackID pw) b = Ok b' ∧ cb_Commits b' = cb_Commits b ∧
    TrimSpace (cb_LogicalBranch b') = TrimSpace (cb_LogicalBranch b) ∧ Validate b' = Ok tt ∧ resolveSourcePushLogicalBranch (cb_LogicalBranch b') b' = Some branch ∧ pw_allowed pw b' = true ∧
    let out := push_squash branch (λ id, pw_gits pw id O) (pw_rolls pw) (pw_cancelled pw) b' in
    let job := runWorkspaceCommitPushJob (pd_progress out) in
    PushWorkspaceCommitBundle pw b mode = (if bool_decide (job.2 = JOB_SUCCEEDED) then Some (pw_jobID pw, job.1) else None, pd_remote out).
Proof using.
  intros Hmode. unfold PushWorkspaceCommitBundle.
  destruct (normalizeSourceCommitBundleForPush _ _ b) as [b'|] eqn:En; [|by left].
  assert (cb_Commits b' = cb_Commits b ∧ TrimSpace (cb_LogicalBranch b') = TrimSpace (cb_LogicalBranch b) ∧ Validate b' = Ok tt) as (Ec & El & Hv).
  { unfold normalizeSourceCommitBundleForPush in En. destruct (Validate _) as [[]|] eqn:Ev; [|done]. cbn in En. injection En as <-.
    cbn [cb_Commits cb_LogicalBranch]. by rewrite TrimSpace_idem. }
  destruct (resolveSourcePushLogicalBranch _ b') as [branch|] eqn:Eb; [|by left]. destruct (pw_allowed pw b') eqn:Hal; [|by left]. cbn [negb].
  unfold StartWorkspaceCommitPush. rewrite Hmode. replace (ToLower (TrimSpace "squash")) with "squash" by (symmetry; exact lower_squash).
  rewrite bool_decide_eq_false_2 by done. set (out := push_squash _ _ _ _ _).
  destruct (runWorkspaceCommitPushJob (pd_progress out)) as [results state] eqn:Ej. cbn [andb].
  right. exists branch, b'. cbn zeta. fold out. rewrite Ej. by split_and!.
Qed.

(** What a push of the squashed commits did when it returned a job. *)
Lemma push_returned pw b mode answer remote :
  resolveSourcePushMode mode (pw_config pw) = "squash" → pw_cancelled pw = (λ _, false) →
  PushWorkspaceCommitBundle pw b mode = (Some answer, remote) →
  ∃ branch b', cb_Commits b' = cb_Commits b ∧ Validate b' = Ok tt ∧
    let out := push_squash branch (λ id, pw_gits pw id O) (pw_rolls pw) (λ _, false) b' in
    (runWorkspaceCommitPushJob (pd_progress out)).2 = JOB_SUCCEEDED ∧ remote = pd_remote out.
Proof using.
  intros Hmode Hcan. destruct (push_runs pw b mode Hmode) as [->|(branch & b' & _ & Ec & _ & Hv & _ & _ & ->)]; [done|].
  rewrite Hcan. case_bool_decide; [|done]. intros [= _ <-]. by exists branch, b'.
Qed.

(** The repositories of a bundle that passed validation have identifiers. *)
Lemma validated_ids strict j seen repos : validate_repositories strict j seen repos = Ok tt → Forall (λ r, blank (rb_StorageID r) = false) repos.
Proof using.
  revert j seen. induction repos as [|r repos IH]; intros j seen; cbn [validate_repositories]; [constructor|].
  destruct (blank (rb_StorageID r)) eqn:E; [done|]. intros H. repeat (case_match; [done|]).
  destruct (validate_operations _ _ _) as [[]|]; [|done]. cbn in H. constructor; [done|by eapply IH].
Qed.
Lemma validated_commits i seen commits : validate_commits i seen commits = Ok tt →
  Forall (λ r, blank (rb_StorageID r) = false) (commits ≫= so_Repositories).
Proof using.
  revert i seen. induction commits as [|c commits IH]; intros i seen; cbn [validate_commits mbind list_bind]; [constructor|].
  intros H. repeat (case_match; [done|]). destruct (validate_repositories _ _ _ _) as [[]|] eqn:E; [|done]. cbn in H.
  apply Forall_app. split; [by eapply validated_ids|by eapply IH].
Qed.

Lemma extend_plan_key commit repos plans : (∀ k plan, plans !! k = Some plan → plan_key (pl_repo plan) = k ∧ blank (rb_StorageID (pl_repo plan)) = false) →
  Forall (λ r, blank (rb_StorageID r) = false) repos →
  ∀ k plan, foldl (extend_plan commit) plans repos !! k = Some plan → plan_key (pl_repo plan) = k ∧ blank (rb_StorageID (pl_repo plan)) = false.
Proof using.
  intros Hp Hr. revert plans Hp. induction Hr as [|r repos Hb _ IH]; intros plans Hp; [done|]. cbn [foldl]. apply IH.
  intros k plan. unfold extend_plan. rewrite lookup_insert_Some. intros [[<- <-]|[_ ?]]; [|by apply Hp]. cbn.
  destruct (plans !! plan_key r) as [old|] eqn:E; [by apply Hp|done].
Qed.

(** There is one plan for a repository. *)
Lemma plan_ids commits : Forall (λ r, blank (rb_StorageID r) = false) (commits ≫= so_Repositories) →
  ∀ k plan, collect_plans commits !! k = Some plan → rb_StorageID (pl_repo plan) = k.
Proof using.
  intros Hb. unfold collect_plans.
  assert (∀ plans, (∀ k plan, plans !! k = Some plan → plan_key (pl_repo plan) = k ∧ blank (rb_StorageID (pl_repo plan)) = false) →
    ∀ k plan, foldl (λ plans commit, foldl (extend_plan commit) plans (so_Repositories commit)) plans commits !! k = Some plan →
      plan_key (pl_repo plan) = k ∧ blank (rb_StorageID (pl_repo plan)) = false) as H.
  { induction commits as [|c commits IH]; intros plans Hp; [done|]. cbn [mbind list_bind] in Hb. apply Forall_app in Hb as [Hc Hb]. cbn [foldl].
    apply IH; [done|]. by apply extend_plan_key. }
  intros k plan Hk. destruct (H ∅ ltac:(by intros ? ? ?%lookup_empty_Some) k plan Hk) as [<- E]. unfold plan_key. by rewrite E.
Qed.

Lemma validated_operations id i ops op : validate_operations id i ops = Ok tt → op ∈ ops → ∃ i, validateOperation id i op = Ok tt.
Proof using.
  revert i. induction ops as [|o ops IH]; intros i; cbn [validate_operations]; [by intros _ ?%not_elem_of_nil|].
  destruct (validateOperation id i o) as [[]|] eqn:E; [|done]. cbn. intros H [->|Hop]%elem_of_cons; [by exists i|by eapply IH].
Qed.
Lemma validated_repositories strict j seen repos repo op : validate_repositories strict j seen repos = Ok tt →
  repo ∈ repos → op ∈ rb_Operations repo → ∃ i, validateOperation (rb_StorageID repo) i op = Ok tt.
Proof using.
  revert j seen. induction repos as [|r repos IH]; intros j seen; cbn [validate_repositories]; [by intros _ ?%not_elem_of_nil|].
  intros H. repeat (case_match; [done|]). destruct (validate_operations _ _ _) as [[]|] eqn:E; [|done]. cbn in H.
  intros [->|Hr]%elem_of_cons; [by eapply validated_operations|by eapply IH].
Qed.
Lemma validated_commits_operations i seen commits repo op : validate_commits i seen commits = Ok tt →
  repo ∈ commits ≫= so_Repositories → op ∈ rb_Operations repo → ∃ i, validateOperation (rb_StorageID repo) i op = Ok tt.
Proof using.
  revert i seen. induction commits as [|c commits IH]; intros i seen; cbn [validate_commits mbind list_bind]; [by intros _ ?%not_elem_of_nil|].
  intros H. repeat (case_match; [done|]). destruct (validate_repositories _ _ _ _) as [[]|] eqn:E; [|done]. cbn in H.
  intros [Hr|Hr]%elem_of_app; [by eapply validated_repositories|by eapply IH].
Qed.
Lemma validated_operation b repo op : Validate b = Ok tt → repo ∈ cb_Commits b ≫= so_Repositories → op ∈ rb_Operations repo →
  ∃ i, validateOperation (rb_StorageID repo) i op = Ok tt.
Proof using. unfold Validate. intros Hv. repeat (case_match; [done|]). by eapply validated_commits_operations. Qed.

(** The operations of a plan are those of the bundle for its repository. *)
Definition planned (repos : list RepositoryBundle) (plans : gmap string sourcePushRepositoryPlan) : Prop :=
  ∀ k plan op, plans !! k = Some plan → op ∈ pl_operations plan → ∃ repo, repo ∈ repos ∧ plan_key repo = k ∧ op ∈ rb_Operations repo.

Lemma planned_extend commit L repos plans : repos ⊆ L → planned L plans → planned L (foldl (extend_plan commit) plans repos).
Proof using.
  revert plans. induction repos as [|r repos IH]; intros plans Hs Hp; [done|]. cbn [foldl]. apply IH; [intros y Hy; apply Hs; by right|].
  intros k plan op. unfold extend_plan. rewrite lookup_insert_Some. intros [[<- <-]|[_ Hk]]; [|by eapply Hp].
  cbn [pl_operations]. intros [Hop|Hop]%elem_of_app; [|exists r; split_and!; [apply Hs; left|done..]].
  destruct (plans !! plan_key r) as [old|] eqn:E; [by eapply Hp|by apply not_elem_of_nil in Hop].
Qed.

Lemma plan_operations b plan op : Validate b = Ok tt → plan ∈ sourcePushRepositoryPlans b → op ∈ pl_operations plan →
  ∃ repo, repo ∈ cb_Commits b ≫= so_Repositories ∧ rb_StorageID repo = rb_StorageID (pl_repo plan) ∧ op ∈ rb_Operations repo.
Proof using.
  intros Hv Hplan Hop. unfold Validate in Hv. repeat (case_match; [done|]). pose proof (validated_commits _ _ _ Hv) as Hb.
  unfold sourcePushRepositoryPlans in Hplan. rewrite elem_of_sort_slice, list_elem_of_fmap in Hplan.
  destruct Hplan as ([k p] & -> & Hk%elem_of_range). cbn [snd] in *.
  assert (planned (cb_Commits b ≫= so_Repositories) (collect_plans (cb_Commits b))) as Hpl.
  { unfold collect_plans. set (L := cb_Commits b ≫= so_Repositories).
    assert (∀ c, c ∈ cb_Commits b → so_Repositories c ⊆ L) as HL by (intros c Hc r Hr; apply list_elem_of_bind; by exists c).
    assert (planned L ∅) as Hp by (by intros ? ? ? ?%lookup_empty_Some). revert Hp HL. generalize (∅ : gmap string sourcePushRepositoryPlan) L.
    clear. induction (cb_Commits b) as [|c commits IH]; intros m L Hp HL; [done|]. cbn [foldl]. apply IH.
    - apply planned_extend; [apply HL; left|done].
    - intros c' Hc'. apply HL. by right. }
  destruct (Hpl k p op Hk Hop) as (repo & Hr & Ek & Ho). exists repo. split_and!; [done| |done].
  rewrite (plan_ids _ Hb _ _ Hk), <- Ek. unfold plan_key. rewrite Forall_forall in Hb. by rewrite (Hb repo Hr).
Qed.

Lemma plans_NoDup b : Validate b = Ok tt → NoDup ((λ p, rb_StorageID (pl_repo p)) <$> sourcePushRepositoryPlans b).
Proof using.
  unfold Validate. intros Hv. repeat (case_match; [done|]). unfold sourcePushRepositoryPlans.
  rewrite sort_slice_perm, <- list_fmap_compose. erewrite list_fmap_ext; [apply (NoDup_range_keys 0 (collect_plans (cb_Commits b)))|].
  intros i [k plan] Hi%list_elem_of_lookup_2%elem_of_range. cbn. by eapply plan_ids; [eapply validated_commits|].
Qed.

(** C4: When the push of a bundle whose commits are squashed returns a job to
    the mount, every repository of the bundle that has operations is complete:
    its clone had the commit the bundle is based on, all operations were
    applied to it, and the target branch has at every path git does not ignore
    the file or link that is there after them, and at ignored paths what the
    clone had.  Either this was pushed, or git saw nothing to commit and the
    commit the bundle is based on has these files already.  Failures of calls,
    of git and of other repositories, and the attempts to undo pushes, cannot
    hide a repository that is not complete.  The request is not cancelled, and
    git does what it documents. *)
Theorem successful_push_is_complete pw b mode answer remote plan ignored :
  let git := pw_gits pw (rb_StorageID (pl_repo plan)) O in
  resolveSourcePushMode mode (pw_config pw) = "squash" → pw_cancelled pw = (λ _, false) → git_documented ignored git →
  PushWorkspaceCommitBundle pw b mode = (Some answer, remote) → plan ∈ sourcePushRepositoryPlans b → pl_operations plan ≠ [] →
  ∃ cloned t ix, ga_clone git = Ok cloned ∧ ga_head git = Some (rb_BaseCommit (pl_repo plan)) ∧
    applyRepositoryOperations (ga_root git) (pl_operations plan) ([], cloned) = ([], t, true) ∧
    (∀ rel, ix !! rel = if ignored rel then ga_index git !! rel else content (ga_root git) t rel) ∧
    ((rb_StorageID (pl_repo plan), ix) ∈ remote ∨ ix = ga_index git).
Proof using.
  intros git Hmode Hcan Hgit Hpush Hplan Hops. destruct (push_returned _ _ _ _ _ Hmode Hcan Hpush) as (branch & b' & Ec & Hv & Hjob & ->).
  assert (plan ∈ sourcePushRepositoryPlans b') as Hplan' by (unfold sourcePushRepositoryPlans in *; by rewrite Ec).
  destruct (squash_sound branch (λ id, pw_gits pw id O) (pw_rolls pw) b' (plans_NoDup b' Hv) Hjob plan Hplan')
    as [Hnil|(cloned & t & ix & ok & Hcl & Hh & Ha & Hs & Hl)]; [done|]. exists cloned, t, ix. split_and!; [done..| |].
  - intros rel. exact (staged_as _ _ Hgit _ _ _ _ rel Hs).
  - destruct ok; [left; by apply Hl|right]. by apply (staged_index _ _ Hgit _ _ _ _ Hs).
Qed.

End push.

(** *** An instance *)

(** The worktree of a clone, and a git that accepts every push. *)
Definition worktree : tree :=
  {["/t" := Directory; "/t/.git" := Directory; "/t/.git/HEAD" := File "ref"; "/t/a" := File "one"; "/t/b" := File "two"]}.
Definition accepting : git_answers := plain_git "/t" worktree "c0" (λ _, None).
Definition the_push : push_world :=
  mkPushWorld "" "fallback" (λ _, true) "" "job" (λ _ _, accepting) (λ _, mkRollback accepting None (λ _, None)) (λ _, false).


Definition one_file (id : string) (created : Z) (ops : list Operation) : SourceCommit :=
  mkSourceCommit id "" "m" "n" "e" "me" created [mkRepositoryBundle "s" "github.com/o/r" "url" "main" "c0" ops].
Definition write (content : string) : Operation := mkOperation OperationUpsert "a" 420 content "".

Lemma successful_push_is_complete_witness :
  let b := mkCommitBundle "w" "me" "" [one_file "local-1" 5 [write "first"]; one_file "local-2" 6 [write "second"]] in
  ∃ ix, ("s", ix) ∈ (@PushWorkspaceCommitBundle basic_unicode_fold basic_unicode_lower go_insertion_sort go_map_to_list the_push b MODE_SQUASH).2 ∧
       ix !! "a" = Some (File "second").
Proof.
  intros b. destruct (@PushWorkspaceCommitBundle basic_unicode_fold basic_unicode_lower go_insertion_sort go_map_to_list the_push b MODE_SQUASH)
    as [[answer|] remote] eqn:E; [|by apply (f_equal (λ x, bool_decide (is_Some x.1))) in E; vm_compute in E].
  destruct (@sourcePushRepositoryPlans go_insertion_sort go_map_to_list b) as [|plan plans] eqn:Ep; [by vm_compute in Ep|].
  assert (rb_StorageID (pl_repo plan) = "s" ∧ pl_operations plan = [write "first"; write "second"]) as [Eid Eops]
    by (clear E; vm_compute in Ep; injection Ep as <- _; split; reflexivity).
  destruct (@successful_push_is_complete basic_unicode_fold basic_unicode_lower go_insertion_sort go_map_to_list the_push b MODE_SQUASH answer remote plan
    in_git_dir) as (cloned & t & ix & Hc & _ & Ha & Hix & Hl); [reflexivity..|apply plain_git_documented|exact E|rewrite Ep; left|rewrite Eops; discriminate|].
  assert (ix !! "a" = Some (File "second")) as Hx.
  { rewrite Hix. clear Hix Hl E. rewrite Eops in Ha. change (Ok worktree = (Ok cloned : result string tree)) in Hc. injection Hc as <-.
    apply (f_equal (λ x, x.1.2 !! "/t/a")) in Ha. change (versioned (t !! "/t/a") = Some (File "second")).
    cbn [fst snd] in Ha. rewrite <- Ha. vm_compute. reflexivity. }
  exists ix. rewrite Eid in Hl. split; [|exact Hx]. destruct Hl as [Hl| ->]; [exact Hl|]. vm_compute in Hx. discriminate Hx.
Defined.

(** ** Preserving the commits *)

(** Two commits made in the same second are replayed in the order of their
    random identifiers: the older content ends on the branch. *)
Theorem same_second_reorders :
  let b := mkCommitBundle "w" "me" "" [one_file "local-b" 5 [write "older"]; one_file "local-a" 5 [write "newer"]] in
  let out := @PushWorkspaceCommitBundle basic_unicode_fold basic_unicode_lower go_insertion_sort go_map_to_list the_push b MODE_PRESERVE in
  is_Some out.1 ∧ (λ st, st.2 !! "a") <$> last out.2 = Some (Some (File "older")).
Proof. split; vm_compute; [by eexists|reflexivity]. Qed.

(** A push that fails for a lost connection is reported as successful when a
    later commit changes nothing git sees: nothing was pushed. *)
Theorem later_commit_hides_failure :
  let failing := plain_git "/t" worktree "c0" (λ _, Some "connection reset") in
  let pw := mkPushWorld "" "fallback" (λ _, true) "" "job" (λ _ i, match i with O => failing | _ => accepting end)
    (λ _, mkRollback accepting None (λ _, None)) (λ _, false) in
  let b := mkCommitBundle "w" "me" "" [one_file "local-1" 5 [write "first"]; one_file "local-2" 6 [mkOperation OperationMkdir "d" 493 "" ""]] in
  let out := @PushWorkspaceCommitBundle basic_unicode_fold basic_unicode_lower go_insertion_sort go_map_to_list pw b MODE_PRESERVE in
  is_Some out.1 ∧ out.2 = [].
Proof. split; vm_compute; [by eexists|reflexivity]. Qed.

(** After a checkout that failed for a reason taken for one of authentication
    the next commit uses a worktree that is not there. *)
Theorem failed_checkout_panics :
  let g := mkGit "/t" (Ok worktree) (ga_index accepting) true (Some "c0") true false (Some "authentication required") [] (ga_status accepting)
    (ga_add accepting) (ga_remove accepting) (λ _, Some "c1") (λ _, None) in
  let b := mkCommitBundle "w" "me" "" [one_file "local-1" 5 [write "first"]; one_file "local-2" 6 [write "second"]] in
  (@StartWorkspaceCommitPush basic_unicode_lower "" go_insertion_sort go_map_to_list "preserve" (λ _ _, g)
     (λ _, mkRollback g None (λ _, None)) (λ _, false) b).2 = false.
Proof. vm_compute. reflexivity. Qed.
