(* ===== verification/BundleSafety.v ===== *)
(** * Where validated operations reach

    The operations of a bundle that passed validation change nothing outside
    the worktree and nothing in its git directory, whatever the calls on the
    disk return, as long as there are no symbolic links.  With a link they
    do: a bundle can write any file of the fetcher. *)

From stdpp Require Import options.
From S2P Require Import Prelude GoStrings GoUnicode GoPath GoTree Bundle BundleProps MountView.

(** ** Safe paths *)

Section safe.
Context `{Hfold : UnicodeFold}.

Lemma EqualFold_refl s : EqualFold s s = true.
Proof using. by apply bool_decide_eq_true. Qed.

Lemma Clean_safe p : isSafeRelativePath p = true → proper_path (Clean p) ∧ no_git (Clean p).
Proof using.
  unfold isSafeRelativePath. case_bool_decide; [done|]. destruct (HasPrefix p "/") eqn:Hp; [done|].
  case_bool_decide as Hd; [done|]. destruct (HasPrefix (Clean p) "../") eqn:Hdd; [done|]. cbn [orb]. intros Hg%negb_true_iff. split.
  - destruct (clean_shape false (Split p slash) (Split_no_sep _ _)) as (k & ms & E & Hms & _).
    assert (Clean p = if bool_decide (replicate k ".." ++ rev ms = []) then "." else Join (replicate k ".." ++ rev ms) (str1 slash)) as Ec.
    { unfold Clean. change (HasPrefix p (str1 slash)) with (HasPrefix p "/"). by rewrite Hp, E, rev_app_distr, rev_replicate. }
    clear Hg. rewrite Ec in *. clear Ec E. destruct k as [|k]; cbn [replicate app] in *.
    + destruct (decide (rev ms = [])) as [En|Hn]; [rewrite En in Hd; destruct Hd; by left|]. rewrite bool_decide_eq_false_2 by done.
      exists (rev ms). split_and!; [done|by apply Forall_rev|done].
    + exfalso. rewrite bool_decide_eq_false_2 in Hd, Hdd by done. destruct (replicate k ".." ++ rev ms) as [|y l]; [destruct Hd; by right|].
      rewrite Join_cons in Hdd by done. by rewrite (proj2 (HasPrefix_spec _ _)) in Hdd by (eexists; by rewrite <- str_app_assoc).
  - apply Forall_forall. intros part Hin ->. assert (existsb (λ part, EqualFold part ".git") (Split (Clean p) slash) = true) as Ht; [|congruence].
    apply existsb_exists. exists ".git". split; [by apply list_elem_of_In|apply EqualFold_refl].
Qed.

End safe.

(** ** What a call can change *)

Lemma MkdirAll_shape o p t : (MkdirAll o p t).1 = t ∨ ∃ l, l ⊆ parents p ++ [p] ∧ (MkdirAll o p t).1 = t ∪ dirs_at l.
Proof.
  unfold MkdirAll. destruct o; [destruct (forallb _ _); [right; by exists (parents p ++ [p])|by left]|]. right. eexists. split; [|reflexivity].
  by intros x [_ ?]%list_elem_of_filter.
Qed.

Lemma WriteFile_shape o p c t : (∀ l, t !! p ≠ Some (Link l)) → (WriteFile o p c t).1 = t ∨ ∃ x, (WriteFile o p c t).1 = <[p := File x]> t.
Proof.
  intros Hl. unfold WriteFile. rewrite resolve_id by done. destruct o as [|remains].
  - destruct (can_put t p); [right; by exists c|by left].
  - destruct (remains p) as [[y| |]|]; try by left. destruct (can_put t p); [right; by exists y|by left].
Qed.

Lemma RemoveAll_shape o p t x : (RemoveAll o p t).1 !! x = t !! x ∨ ((x = p ∨ below p x = true) ∧ (RemoveAll o p t).1 !! x = None).
Proof.
  unfold RemoveAll. destruct o as [|remains].
  - destruct (unobstructed _ _); [|by left]. cbn [fst]. rewrite lookup_removed. destruct (bool_decide (x = p)) eqn:E; cbn [orb].
    + right. bool_hyps. by split; [left|].
    + destruct (below p x) eqn:Eb; [|by left]. by right; split; [right|].
  - cbn [fst]. destruct (t !! x) as [n|] eqn:E; [|left; apply map_lookup_filter_None; by left].
    destruct (decide ((x ≠ p ∧ below p x = false) ∨ is_Some (remains x))) as [Hk|Hk].
    + left. by apply map_lookup_filter_Some.
    + right. split; [|apply map_lookup_filter_None; right; by intros ? _].
      destruct (decide (x = p)) as [->|Hne]; [by left|]. destruct (below p x) eqn:Eb; [by right|]. destruct Hk. by left.
Qed.

Lemma Remove_shape o p t x : (Remove o p t).1 !! x = t !! x ∨ (x = p ∧ (Remove o p t).1 !! x = None).
Proof.
  unfold Remove. destruct (t !! p) as [n|] eqn:E; [|destruct o; by left].
  destruct o; [|by left]. destruct (_ && _); [by left|]. cbn [fst]. destruct (decide (x = p)) as [->|Hne].
  - right. split; [done|]. apply lookup_delete_eq.
  - left. by rewrite lookup_delete_ne.
Qed.

(** ** The worktree *)

Section inside.
Context (root : string) (Hroot : rooted_path root).

(** The files of the worktree, the git directory apart. *)
Definition in_worktree (x : string) : Prop := below root x = true ∧ x ≠ at_root root ".git" ∧ below (at_root root ".git") x = false.

(** A worktree without links; everything above it are directories. *)
Record plain (t : tree) : Prop := {
  pl_root : t !! root = Some Directory;
  pl_above q : q ∈ parents root → t !! q = Some Directory;
  pl_links x l : below root x = true → t !! x ≠ Some (Link l) }.

Definition spares (t t' : tree) : Prop := ∀ x, ¬ in_worktree x → t' !! x = t !! x.

(** A call leaves everything outside the worktree, and puts no links into it. *)
Definition contained {A} (m : disk A) : Prop := ∀ os t os' t' a, plain t → m (os, t) = (os', t', a) → plain t' ∧ spares t t'.

Lemma root_outside : ¬ in_worktree root.
Proof using.
  intros ([r E]%below_spec & _). apply (f_equal String.length) in E. rewrite !str_length_app in E. cbn in E. lia.
Qed.
Lemma above_outside q : q ∈ parents root → ¬ in_worktree q.
Proof using.
  intros [_ [u Eu]]%parents_spec ([r E]%below_spec & _). apply (f_equal String.length) in E, Eu. rewrite !str_length_app in *. cbn in *. lia.
Qed.

(** Enough for a call: what it leaves, and that what it makes is no link. *)
Lemma plain_spares t t' : plain t → spares t t' → (∀ x l, below root x = true → t' !! x ≠ Some (Link l)) → plain t'.
Proof using.
  intros [Hr Ha _] Hs Hl. split; [rewrite Hs by apply root_outside; done| |done].
  intros q Hq. rewrite Hs by (by apply above_outside). by apply Ha.
Qed.

(** A path with no part [.git], and what is below it. *)
Lemma in_worktree_path r : proper_path r → no_git r → in_worktree (at_root root r).
Proof using.
  intros Hr Hg. unfold in_worktree, at_root. split_and!; [apply below_spec; by exists r| |].
  - intros ->%at_root_inj. unfold no_git in Hg. by apply Forall_cons in Hg as [? _].
  - apply not_true_is_false. rewrite below_spec. intros [u E]. unfold at_root in E. rewrite !str_app_assoc in E.
    apply at_root_inj in E. subst r. apply no_git_prefix, Forall_cons in Hg as [? _]. done.
Qed.

Lemma in_worktree_below r x : proper_path r → no_git r → below (at_root root r) x = true → in_worktree x.
Proof using.
  intros Hr Hg [u ->]%below_spec. unfold in_worktree, at_root. rewrite !str_app_assoc. split_and!.
  - apply below_spec. eexists. done.
  - intros E%at_root_inj. apply (f_equal (has_byte slash)) in E. rewrite !has_byte_app in E. by rewrite orb_true_r in E.
  - apply not_true_is_false. rewrite below_spec. intros [v E]. rewrite !str_app_assoc in E. apply at_root_inj in E.
    destruct (cut_at_slash _ _ _ _ E) as [(y & Ey & _)|[[<- _]|[y ->]]].
    + apply (f_equal (has_byte slash)) in Ey. rewrite !has_byte_app in Ey. by rewrite orb_true_r in Ey.
    + by apply Forall_cons in Hg as [? _].
    + apply no_git_prefix, Forall_cons in Hg as [? _]. done.
Qed.

(** ** Calls *)

Lemma contained_ret {A} (a : A) : contained (dret a).
Proof using. intros os t os' t' b Hp [= <- <- <-]. by split. Qed.

Lemma contained_bind {A B} (m : disk A) (f : A → disk B) : contained m → (∀ a, contained (f a)) → contained (m ≫= f).
Proof using.
  intros Hm Hf os t os' t' b Hp. unfold mbind, disk_bind. destruct (m (os, t)) as [[os1 t1] a] eqn:E. intros E'.
  destruct (Hm _ _ _ _ _ Hp E) as [Hp1 Hs1]. destruct (Hf a _ _ _ _ _ Hp1 E') as [Hp2 Hs2]. split; [done|].
  intros x Hx. by rewrite Hs2, Hs1.
Qed.

Lemma contained_andthen m k : contained m → contained k → contained (andthen m k).
Proof using. intros Hm Hk. apply contained_bind; [done|]. intros []; [done|apply contained_ret]. Qed.

Lemma contained_call {A} (f : io → tree → tree * A) :
  (∀ o t, plain t → spares t (f o t).1 ∧ ∀ x l, below root x = true → (f o t).1 !! x = Some (Link l) → ∃ y, below root y = true ∧ t !! y = Some (Link l)) →
  contained (call f).
Proof using.
  intros Hf os t os' t' a Hp. unfold call. destruct (match os with [] => _ | _ => _ end) as [o os1].
  destruct (Hf o t Hp) as [Hs Hl]. destruct (f o t) as [t1 a1]. intros [= <- <- <-]. cbn [fst] in *. split; [|done].
  eapply plain_spares; [done..|]. intros x l Hx E. destruct (Hl x l Hx E) as (y & Hy & Ey). by apply (pl_links _ Hp y l).
Qed.

(** The places of a directory and of those above it. *)
Definition reaches (p : string) : Prop := ∀ x, x ∈ parents p ++ [p] → x = root ∨ x ∈ parents root ∨ in_worktree x.

Lemma contained_mkdir p : reaches p → contained (call (λ o, MkdirAll o p)).
Proof using.
  intros Hr. apply contained_call. intros o t Hp. destruct (MkdirAll_shape o p t) as [->|(l & Hl & ->)].
  { split; [done|]. eauto. }
  split.
  - intros x Hx. rewrite lookup_with_dirs. destruct (t !! x) eqn:E; [done|]. case_bool_decide as Hin; [|done]. exfalso.
    destruct (Hr x (Hl _ Hin)) as [->|[Ha|?]]; [by rewrite (pl_root _ Hp) in E|by rewrite (pl_above _ Hp) in E|done].
  - intros x tgt Hx. rewrite lookup_with_dirs. destruct (t !! x) eqn:E; [intros [= ->]; by exists x|]. by case_bool_decide.
Qed.

Lemma contained_write p c : in_worktree p → contained (call (λ o, WriteFile o p c)).
Proof using.
  intros Hin. apply contained_call. intros o t Hp.
  destruct (WriteFile_shape o p c t) as [->|[x ->]]; [intros l; apply (pl_links _ Hp), Hin| |].
  { split; [done|]. eauto. }
  split.
  - intros y Hy. rewrite lookup_insert_ne; [done|]. intros ->. done.
  - intros y l Hy. rewrite lookup_insert_Some. intros [[_ ?]|[_ ?]]; [done|eauto].
Qed.

(** A tree without some of its nodes. *)
Lemma contained_less {A} (f : io → tree → tree * A) :
  (∀ o t x, (f o t).1 !! x = t !! x ∨ (in_worktree x ∧ (f o t).1 !! x = None)) → contained (call f).
Proof using.
  intros Hf. apply contained_call. intros o t Hp. split.
  - intros x Hx. by destruct (Hf o t x) as [|[? _]].
  - intros x l Hx. destruct (Hf o t x) as [->|[_ ->]]; [eauto|done].
Qed.

Lemma contained_remove_all r : proper_path r → no_git r → contained (call (λ o, RemoveAll o (at_root root r))).
Proof using.
  intros Hr Hg. apply contained_less. intros o t x. destruct (RemoveAll_shape o (at_root root r) t x) as [?|[[->|Hb] ?]]; [by left|right..].
  - split; [by apply in_worktree_path|done].
  - split; [by eapply in_worktree_below|done].
Qed.

Lemma contained_remove r : proper_path r → no_git r → contained (call (λ o, Remove o (at_root root r))).
Proof using.
  intros Hr Hg. apply contained_less. intros o t x. destruct (Remove_shape o (at_root root r) t x) as [?|[-> ?]]; [by left|right].
  split; [by apply in_worktree_path|done].
Qed.

Lemma lookup_kmap_back (f : string → string) (m : tree) x n : (kmap f m : tree) !! x = Some n → ∃ y, f y = x ∧ m !! y = Some n.
Proof using.
  unfold kmap. intros H%elem_of_list_to_map_2. apply list_elem_of_fmap in H as ([y n'] & [= -> ->] & Hy%elem_of_map_to_list). by exists y.
Qed.

Lemma contained_rename r1 r2 : proper_path r1 → no_git r1 → proper_path r2 → no_git r2 →
  contained (call (λ o, Rename o (at_root root r1) (at_root root r2))).
Proof using.
  intros Hr1 Hg1 Hr2 Hg2. apply contained_call. intros o t Hp. unfold Rename.
  destruct o; [|split; [done|eauto]]. destruct (t !! at_root root r1) as [n|]; [|split; [done|eauto]].
  destruct (_ && _ && _); [|split; [done|eauto]]. cbn [fst]. set (src := at_root root r1). set (dst := at_root root r2).
  set (m := filter (λ '(q, _), q = src ∨ below src q = true) t).
  assert (∀ y n, m !! y = Some n → t !! y = Some n ∧ (y = src ∨ below src y = true)) as Hm.
  { intros y n0 [? ?]%map_lookup_filter_Some. done. }
  assert (∀ x n, (kmap (moved src dst) m : tree) !! x = Some n → in_worktree x ∧ ∃ y, below root y = true ∧ t !! y = Some n) as Hk.
  { intros x n0 (y & <- & [Hy Hs]%Hm)%lookup_kmap_back. split.
    - unfold moved. case_bool_decide; [by apply in_worktree_path|]. destruct Hs as [?|Hs]; [done|]. rewrite Hs.
      apply (in_worktree_below r2); [done..|]. apply below_spec in Hs as [u ->]. rewrite str_drop_app. apply below_spec. by exists u.
    - exists y. split; [|done]. destruct Hs as [->|Hs]; [apply in_worktree_path; done|by eapply (in_worktree_below r1)]. }
  split.
  - intros x Hx. rewrite lookup_union. destruct (kmap _ m !! x) as [n0|] eqn:E; [by destruct (Hk _ _ E)|]. rewrite (left_id_L None _).
    destruct (t !! x) as [n0|] eqn:Ex; [apply map_lookup_filter_Some|apply map_lookup_filter_None; by left]. split; [done|]. split.
    + intros ->. by apply Hx, in_worktree_path.
    + destruct (below src x) eqn:Eb; [|done]. by destruct Hx; eapply (in_worktree_below r1).
  - intros x l Hx. rewrite lookup_union. destruct (kmap _ m !! x) as [n0|] eqn:E.
    + intros El. assert (n0 = Link l) as -> by (by destruct (filter _ t !! x); injection El). by apply Hk in E as [_ ?].
    + rewrite (left_id_L None _). intros [? _]%map_lookup_filter_Some. eauto.
Qed.

(** ** Operations *)

Lemma reaches_path r : proper_path r → no_git r → reaches (at_root root r).
Proof using.
  intros Hr Hg x [Hx|Hx]%elem_of_app.
  - destruct (parents_at_root root r x Hr Hx) as [?|[?|(q & -> & Hq)]]; [by left|by right; left|right; right].
    apply in_worktree_path; [by eapply proper_parent|]. apply parents_spec in Hq as [_ [u ->]]. by eapply no_git_prefix.
  - apply list_elem_of_singleton in Hx as ->. right; right. by apply in_worktree_path.
Qed.

Lemma reaches_parent r : proper_path r → no_git r → reaches (Dir (at_root root r)).
Proof using Hroot.
  intros Hr Hg x Hx. apply (reaches_path r Hr Hg), elem_of_app. left. unfold at_root in *.
  destruct (rooted_split root r Hroot Hr) as (y & e & Hy & He & E). rewrite E in *. rewrite Dir_rooted in Hx by done.
  apply parents_step; [apply He|by apply rooted_ne|done].
Qed.

End inside.

Section operations.
Context `{Hfold : UnicodeFold} (root : string) (Hroot : rooted_path root).

Lemma operation_contained id i op :
  validateOperation id i op = Ok tt → bo_Kind op ≠ OperationSymlink → contained root (apply_operation root op).
Proof using Hroot.
  unfold validateOperation. destruct (negb (bool_decide (bo_Kind op ∈ _))); [done|]. destruct (blank (bo_Path op)); [done|].
  destruct (isSafeRelativePath (bo_Path op)) eqn:Hs; [|done]. cbn [negb]. destruct (_ && _); [done|].
  destruct (Clean_safe _ Hs) as [Hr Hg]. intros Hv Hsym.
  assert (bo_Kind op = OperationRename → isSafeRelativePath (bo_Target op) = true) as Hren.
  { intros Hk. rewrite (bool_decide_eq_true_2 _ Hk) in Hv. destruct (blank (bo_Target op)); [done|].
    by destruct (isSafeRelativePath (bo_Target op)). }
  clear Hv. unfold apply_operation.
  assert (PathJoin root (Clean (bo_Path op)) = at_root root (Clean (bo_Path op))) as -> by by apply PathJoin_rooted.
  case_bool_decide; [apply contained_andthen; [by apply contained_mkdir, reaches_parent|by apply contained_write, in_worktree_path]|].
  case_bool_decide; [by apply contained_remove_all|]. case_bool_decide; [by apply contained_mkdir, reaches_path|].
  case_bool_decide; [apply contained_bind; [by apply contained_remove|intros a; apply contained_ret]|].
  rewrite (bool_decide_eq_false_2 _ Hsym). case_bool_decide as Hk.
  - destruct (Clean_safe _ (Hren Hk)) as [Hr2 Hg2].
    assert (PathJoin root (Clean (bo_Target op)) = at_root root (Clean (bo_Target op))) as -> by by apply PathJoin_rooted.
    destruct (negb _); [apply contained_ret|]. apply contained_andthen; [by apply contained_mkdir, reaches_parent|by apply contained_rename].
  - case_bool_decide; [|apply contained_ret]. apply contained_less. intros o t x. by left.
Qed.

(** C5: Whatever the calls on the disk of the fetcher return, applying the
    operations of a bundle that passed validation changes nothing outside the
    worktree, and nothing in its git directory, when neither the worktree nor
    the operations have symbolic links. *)
Theorem operations_stay_inside id i ops os t os' t' ok :
  validate_operations id i ops = Ok tt → Forall (λ op, bo_Kind op ≠ OperationSymlink) ops → plain root t →
  applyRepositoryOperations root ops (os, t) = (os', t', ok) →
  ∀ x, ¬ in_worktree root x → t' !! x = t !! x.
Proof using Hroot.
  intros Hv Hs Hp E. assert (contained root (applyRepositoryOperations root ops)) as Hc; [|by eapply Hc].
  clear -Hv Hs Hroot. revert i Hv. induction Hs as [|op ops Hop Hops IH]; intros i; cbn [validate_operations applyRepositoryOperations];
    [intros _; apply contained_ret|].
  destruct (validateOperation id i op) as [[]|] eqn:Ev; [|done]. cbn. intros Hv. apply contained_andthen; [by eapply operation_contained|by eapply IH].
Qed.

End operations.

(** *** An instance *)

Definition fetcher_disk : tree := {["/t" := Directory; "/t/a" := File "one"; "/etc" := Directory; "/etc/x" := File "kept"]}.

(** A worktree at the top of a disk without links. *)
Lemma plain_top root t : parents root = [] → t !! root = Some Directory →
  forallb (λ '(_, n), match n with Link _ => false | _ => true end) (map_to_list t) = true → plain root t.
Proof.
  intros Hp Hr Hl. split; [done|intros q Hq; rewrite Hp in Hq; by apply not_elem_of_nil in Hq|]. intros x l _ E%elem_of_map_to_list.
  rewrite forallb_forall in Hl. apply list_elem_of_In in E. by specialize (Hl _ E).
Qed.

Lemma fetcher_disk_plain : plain "/t" fetcher_disk.
Proof. apply plain_top; vm_compute; reflexivity. Qed.

(** A file written and moved, with a call that fails. *)
Lemma operations_stay_inside_witness :
  let ops := [mkOperation OperationUpsert "a" 0 "two" ""; mkOperation OperationRename "./a" 0 "" "d/../b"; mkOperation OperationDelete "c" 0 "" ""] in
  (applyRepositoryOperations "/t" ops ([Fine; Fine; Fine; Fine; Broken (λ _, None)], fetcher_disk)).1.2 !! "/etc/x" = Some (File "kept").
Proof.
  intros ops. destruct (applyRepositoryOperations "/t" ops _) as [[os' t'] ok] eqn:E. cbn [fst snd].
  rewrite (@operations_stay_inside basic_unicode_fold "/t" ltac:(exists "t"; split; [by apply (bool_decide_unpack _); vm_compute|done])
    "s" 0 ops [Fine; Fine; Fine; Fine; Broken (λ _, None)] fetcher_disk os' t' ok).
  - by vm_compute.
  - by vm_compute.
  - by repeat constructor.
  - apply fetcher_disk_plain.
  - exact E.
  - intros [H _]. by vm_compute in H.
Defined.

(** ** With a link *)

(** A bundle that passes validation writes a file outside the worktree: its
    first commit makes a link, its second a file of the same name. *)
Theorem upsert_follows_link :
  let repo ops := mkRepositoryBundle "s" "d" "url" "main" "c0" ops in
  let link := mkOperation OperationSymlink "a" 0 "" "/etc/x" in
  let write := mkOperation OperationUpsert "a" 0 "changed" "" in
  let commit id ops := mkSourceCommit id "" "" "" "" "" 0 [repo ops] in
  @Validate basic_unicode_fold (mkCommitBundle "w" "" "" [commit "1" [link]; commit "2" [write]]) = Ok tt ∧
  (applyRepositoryOperations "/t" [link; write] ([], fetcher_disk)).1.2 !! "/etc/x" = Some (File "changed").
Proof. split; vm_compute; reflexivity. Qed.
