(* ===== verification/MountIndex.v ===== *)
(** * What the operations of a mount leave alone

    The operations of a mount change the files and deletions of the overlay
    database only: the index, the local commits, the branches and the
    conflicts stay, also when calls fail.  On the tree they keep every
    directory of the cluster, and keep the tree a tree. *)

From stdpp Require Import options.
From S2P Require Import Prelude GoStrings GoSort GoRange GoPath GoTree Overlay Session Mount MountProps MountView.

(** ** The version-control part of the database *)

Definition vcs_part (d : OverlayDB) := (staged d, commits d, branches d, conflicts d).

Create HintDb leaves_db.

(** [m] leaves the session and the version-control part of its database. *)
Definition leaves {A} (m : M A) : Prop :=
  ∀ w s d, active w = Some (s, d) → ∃ d', active (m w).1 = Some (s, d') ∧ vcs_part d' = vcs_part d.

Lemma leaves_ret {A} (a : A) : leaves (ret a).
Proof. intros w s d H. by exists d. Qed.

Lemma leaves_bind {A B} (m : M A) (f : A → M B) : leaves m → (∀ a, leaves (f a)) → leaves (m ≫= f).
Proof.
  intros Hm Hf w s d H. destruct (Hm w s d H) as (d1 & H1 & E1). unfold mbind, M_bind. destruct (m w) as [w1 a]. cbn in H1.
  destruct (Hf a w1 s d1 H1) as (d2 & H2 & E2). exists d2. split; [done|by rewrite E2].
Qed.

Lemma leaves_look : leaves look.
Proof. intros w s d H. by exists d. Qed.

Lemma leaves_next_io : leaves next_io.
Proof. intros w s d H. exists d. unfold next_io. by destruct (w_io w). Qed.

Lemma leaves_on_disk {A} (f : io → tree → tree * A) : leaves (on_disk f).
Proof.
  unfold on_disk. apply leaves_bind; [apply leaves_next_io|]. intros o w s d H. exists d. unfold act.
  by destruct (f o (w_disk w)) as [t a].
Qed.

Lemma leaves_Update f : (∀ d, vcs_part (f d) = vcs_part d) → leaves (Update f).
Proof.
  intros Hf. unfold Update. apply leaves_bind; [apply leaves_next_io|]. intros o w s d H. unfold act.
  assert (w_current w = Some s ∧ w_db w = Some d) as [Hc Hd].
  { unfold active in H. destruct (w_current w), (w_db w); try done. by injection H as -> ->. }
  rewrite Hd. destruct o; [|by exists d]. exists (f d). split; [|done]. unfold active. cbn. by rewrite Hc.
Qed.

Lemma leaves_with_session {A} (k : WriteSession → OverlayDB → M (result session_error A)) :
  (∀ s d, leaves (k s d)) → leaves (with_session k).
Proof. intros Hk. unfold with_session. apply leaves_bind; [apply leaves_look|]. intros w. destruct (active w) as [[s d]|]; [apply Hk|apply leaves_ret]. Qed.

Lemma leaves_StartSession : leaves StartSession.
Proof.
  intros w s d H. exists d. rewrite (StartSession_active w s); [done|]. unfold active in H. destruct (w_current w), (w_db w); try done.
  by injection H as ->.
Qed.

Lemma leaves_RenamePrefix o n d : vcs_part (RenamePrefix o n d) = vcs_part d.
Proof. unfold RenamePrefix. by destruct (filter _ _). Qed.

#[export] Hint Resolve leaves_ret leaves_bind leaves_look leaves_next_io leaves_on_disk leaves_Update leaves_with_session leaves_StartSession
  leaves_RenamePrefix : leaves_db.

(** The steps of a handler. *)
Ltac leaves_steps :=
  repeat first
    [ progress intros
    | match goal with
      | |- leaves (ret _) => apply leaves_ret
      | |- leaves (fails _) => apply leaves_ret
      | |- leaves (_ ≫= _) => apply leaves_bind
      | |- leaves look => apply leaves_look
      | |- leaves next_io => apply leaves_next_io
      | |- leaves (on_disk _) => apply leaves_on_disk
      | |- leaves (Update (if ?b then _ else _)) => destruct b
      | |- leaves (Update _) => apply leaves_Update
      | |- leaves (with_session _) => apply leaves_with_session
      | |- leaves StartSession => apply leaves_StartSession
      end
    | solve [eauto with leaves_db]
    | case_match
    | reflexivity ].

Lemma leaves_track ct p h k : leaves (trackChangeInternal ct p h k).
Proof. unfold trackChangeInternal. leaves_steps. Qed.
#[export] Hint Resolve leaves_track : leaves_db.
Lemma leaves_TrackChange ct p h : leaves (TrackChange ct p h).
Proof. apply leaves_track. Qed.
Lemma leaves_copy read p : leaves (ensureLocalCopyFor read p).
Proof. unfold ensureLocalCopyFor. leaves_steps. Qed.
Lemma leaves_CreateSymlink p t : leaves (CreateSymlink p t).
Proof. unfold CreateSymlink. leaves_steps. Qed.
Lemma leaves_CreateUserRootDir p : leaves (CreateUserRootDir p).
Proof. unfold CreateUserRootDir. leaves_steps. Qed.
Lemma leaves_RemoveUserRootDir p : leaves (RemoveUserRootDir p).
Proof. unfold RemoveUserRootDir. leaves_steps. Qed.
Lemma leaves_RenameChildren o n : leaves (RenameChildren o n).
Proof. unfold RenameChildren. leaves_steps. Qed.
#[export] Hint Resolve leaves_TrackChange leaves_copy leaves_CreateSymlink leaves_CreateUserRootDir leaves_RemoveUserRootDir
  leaves_RenameChildren : leaves_db.

Lemma leaves_run_op read ws attrs o : leaves (run_op read ws attrs o).
Proof.
  destruct o; cbn [run_op]; unfold Create, Unlink, Mkdir, Rmdir, Mount.Symlink, Mount.Rename, write_file, OpenWrite, HandleWrite, Flush, Setattr;
    leaves_steps.
Qed.

(** No operation touches the index, the commits, the branches or the
    conflicts. *)
Lemma leaves_run_ops read ws attrs os : leaves (run_ops read ws attrs os).
Proof.
  induction os as [|o os IH]; cbn [run_ops]; [apply leaves_ret|]. apply leaves_bind; [apply leaves_run_op|]. intros e.
  apply leaves_bind; [done|]. intros es. apply leaves_ret.
Qed.

(** ** The tree *)

(** Everything lies in directories, on the paths of the mount. *)
Definition tree_like (V : string → option node) : Prop :=
  ∀ p n q, mount_path p → V p = Some n → q ∈ parents p → V q = Some Directory.

Lemma upd_eq V p x : upd V p x p = x.
Proof. unfold upd. by rewrite bool_decide_eq_true_2. Qed.
Lemma upd_ne V p x q : q ≠ p → upd V p x q = V q.
Proof. unfold upd. intros H. by rewrite bool_decide_eq_false_2. Qed.

(** What is put into a directory, in the place of no directory. *)
Lemma tree_like_upd V p x :
  tree_like V → mount_path p → (∀ q, q ∈ parents p → V q = Some Directory) →
  (V p ≠ Some Directory ∨ ∀ q, mount_path q → p ∈ parents q → V q = None) → tree_like (upd V p x).
Proof.
  intros HV Hp Hd Hn q n r Hq Hqn Hr. assert (V r = Some Directory) as Hrd.
  { destruct (decide (q = p)) as [->|Hne]; [by apply Hd|]. rewrite upd_ne in Hqn by done. by eapply HV. }
  rewrite upd_ne; [done|]. intros ->. destruct (decide (q = p)) as [->|Hne]; [by apply parents_irrefl in Hr|].
  rewrite upd_ne in Hqn by done. destruct Hn as [Hn|Hn]; [done|]. rewrite Hn in Hqn by done. done.
Qed.

Section kept.
Context (backend : string → option node).

(** A tree that has the directories of the cluster. *)
Definition extends (V : string → option node) : Prop :=
  tree_like V ∧ ∀ p, mount_path p → backend p = Some Directory → V p = Some Directory.

Lemma extends_upd V p x :
  extends V → mount_path p → (∀ q, q ∈ parents p → V q = Some Directory) →
  (V p ≠ Some Directory ∨ (backend p = None ∧ ∀ q, mount_path q → p ∈ parents q → V q = None)) → extends (upd V p x).
Proof.
  intros [HV HB] Hp Hd Hn. split; [apply tree_like_upd; naive_solver|]. intros q Hq Hqb.
  assert (q ≠ p); [|rewrite upd_ne by done; by apply HB]. intros ->. destruct Hn as [Hn|[Hn _]]; [by apply Hn, HB|congruence].
Qed.

Lemma extends_op ws attrs v o : extends (sh_view v) → admissible backend ws attrs v o → extends (sh_view (apply_op backend v o)).
Proof.
  destruct v as [V R]. intros HV. destruct o; cbn [admissible apply_op sh_view].
  1,3,5: intros (Hpl & _ & Hn); apply extends_upd; [done|apply (pl_path _ _ _ Hpl)|apply (pl_dirs _ _ _ Hpl)|left; by rewrite Hn].
  - intros (Hpl & _ & _ & x & Hx & Hnd). apply extends_upd; [done|apply (pl_path _ _ _ Hpl)|apply (pl_dirs _ _ _ Hpl)|left; congruence].
  - intros (Hpl & _ & _ & Hb & _ & He). apply extends_upd; [done|apply (pl_path _ _ _ Hpl)|apply (pl_dirs _ _ _ Hpl)|by right].
  - intros (Hpl & Hpl' & _ & _ & _ & Hne & _ & (c & Hc) & Hdst). apply extends_upd.
    + apply extends_upd; [done|apply (pl_path _ _ _ Hpl)|apply (pl_dirs _ _ _ Hpl)|left; congruence].
    + apply (pl_path _ _ _ Hpl').
    + intros q Hq. pose proof (pl_dirs _ _ _ Hpl' q Hq) as Hqd. rewrite upd_ne; [done|]. intros ->. congruence.
    + left. rewrite upd_ne by done. destruct Hdst as [->|[c' ->]]; done.
  - intros (Hpl & _ & c & Hc). apply extends_upd; [done|apply (pl_path _ _ _ Hpl)|apply (pl_dirs _ _ _ Hpl)|left; congruence].
  - intros (Hpl & _ & c & Hc). apply extends_upd; [done|apply (pl_path _ _ _ Hpl)|apply (pl_dirs _ _ _ Hpl)|left; congruence].
  - done.
Qed.

Lemma extends_ops ws attrs v os : extends (sh_view v) → all_admissible backend ws attrs v os → extends (sh_view (foldl (apply_op backend) v os)).
Proof.
  revert v. induction os as [|o os IH]; intros v HV; [done|]. intros [Ho Hos]. apply IH; [by eapply extends_op|done].
Qed.

End kept.
