(* ===== verification/StagingProps.v ===== *)
(** * Staging and committing the changes of a session

    After changes were added and committed, the index is empty, nothing is
    left to stage, the mount shows what it showed, and the commit has an
    operation for every change that describes what the mount shows there. *)

From stdpp Require Import options.
From S2P Require Import Prelude GoStrings GoUnicode GoSort GoRange GoPath GoTree Sharding Overlay Session Mount Merge3 MountProps MountView MountReports.
From S2P Require Import PullMerge Bundle SourcePush Staging.

(** ** Running *)

Lemma tryM_run {E A B} (m : M (result E A)) (k : A → M (result E B)) w w' a : m w = (w', Ok a) → tryM m k w = k a w'.
Proof. intros H. unfold tryM, mbind, M_bind. by rewrite H. Qed.

Lemma lift_run {A} (m : M (result session_error A)) w w' a : m w = (w', Ok a) → lift m w = (w', Ok a).
Proof. intros H. unfold lift, mbind, M_bind. by rewrite H. Qed.

(** A world whose calls succeed, with an open session. *)
Definition running (w : World) (s : WriteSession) (d : OverlayDB) : Prop :=
  w_io w = [] ∧ w_current w = Some s ∧ w_db w = Some d.

Lemma running_active w s d : running w s d → active w = Some (s, d).
Proof. intros (_ & Hc & Hd). unfold active. by rewrite Hc, Hd. Qed.

Lemma running_state w s d d' : running w s d → running (with_state d' (w_disk w) w) s d'.
Proof. by intros (? & ? & ?). Qed.

Lemma guarded_run f w s d d' : running w s d → f d = Ok d' → guarded_update f w = (with_state d' (w_disk w) w, Ok tt).
Proof.
  intros Hr Hf. unfold guarded_update, with_session. run. rewrite (running_active _ _ _ Hr), Hf. destruct Hr as (Hio & _ & Hd).
  erewrite bind_run by (by apply Update_fine). done.
Qed.

Lemma update_run f w s d : running w s d → update f w = (with_state (f d) (w_disk w) w, Ok tt).
Proof.
  intros (Hio & _ & Hd). unfold update. apply lift_run. erewrite bind_run by (by apply Update_fine). done.
Qed.

Lemma observe_run {A} (f : io → tree → tree * A) w s d a :
  running w s d → f Fine (w_disk w) = (w_disk w, a) → on_disk f w = (w, a).
Proof. intros (Hio & _) E. rewrite (on_disk_fine _ _ _ _ Hio E). by destruct w. Qed.

Lemma Lstat_there t p n : well_formed t → t !! p = Some n → Lstat Fine p t = (t, Found n).
Proof.
  intros Hw Hp. unfold Lstat. rewrite Hp. replace (existsb _ _) with false; [done|]. symmetry. apply not_true_iff_false.
  rewrite existsb_exists. intros (q & Hq%list_elem_of_In & Hf). by rewrite (Hw p n q Hp Hq) in Hf.
Qed.

Lemma ReadFile_there t p c : t !! p = Some (File c) → ReadFile Fine p t = (t, Some c).
Proof. intros Hp. unfold ReadFile. rewrite resolve_id by congruence. by rewrite Hp. Qed.

(** One look at the disk. *)
Tactic Notation "see" uconstr(H) := erewrite bind_run by (eapply observe_run; [done|by apply H]); cbv beta iota zeta.

(** Decides which type of change, or kind of operation, a constant is. *)
Ltac decide_kind :=
  repeat match goal with
  | |- context [bool_decide (?x ∈ ?l)] =>
      let b := eval vm_compute in (bool_decide (x ∈ l)) in
      lazymatch b with true => idtac | false => idtac end; change (bool_decide (x ∈ l)) with b; cbv beta iota
  | |- context [bool_decide (String ?a ?x = ?y)] =>
      let b := eval vm_compute in (bool_decide (String a x = y)) in
      lazymatch b with true => idtac | false => idtac end; change (bool_decide (String a x = y)) with b; cbv beta iota
  end.

(** ** Snapshots *)

Section snapshots.
Context (base : string) (V : string → option node).

(** A change and what the mount shows at its path. *)
Inductive shows_change (t : tree) (c : Change) : Prop :=
| ShowsFile x : ch_Type c ∈ [ChangeCreate; ChangeModify] → ch_LocalPath c = local base (ch_Path c) →
    t !! local base (ch_Path c) = Some (File x) → V (ch_Path c) = Some (File x) → shows_change t c
| ShowsDir : ch_Type c = ChangeMkdir → ch_LocalPath c = local base (ch_Path c) →
    t !! local base (ch_Path c) = Some Directory → V (ch_Path c) = Some Directory → shows_change t c
| ShowsLink : ch_Type c = ChangeSymlink → ch_LocalPath c = local base (ch_Path c) →
    t !! local base (ch_Path c) = Some (Link (ch_SymlinkTarget c)) → V (ch_Path c) = Some (Link (ch_SymlinkTarget c)) → shows_change t c
| ShowsGone : ch_Type c = ChangeDelete → V (ch_Path c) = None → shows_change t c.

(** What an entry of the index, or an operation made of it, says about a
    path, and that it is what the mount shows. *)
Inductive records (p type content target : string) : Prop :=
| RecordsFile : type ∈ [ChangeCreate; ChangeModify] → V p = Some (File content) → records p type content target
| RecordsDir : type = ChangeMkdir → V p = Some Directory → records p type content target
| RecordsLink : type = ChangeSymlink → V p = Some (Link target) → records p type content target
| RecordsGone : type = ChangeDelete → V p = None → records p type content target.

(** The entry of a change in the index. *)
Record captures (w : World) (c : classifiedSessionChange) (e : StagedIndexEntry) : Prop := {
  ca_path : st_Path e = ch_Path (cc_Change c);
  ca_storage : st_RepositoryStorageID e = cc_StorageID c;
  ca_repository : st_RepositoryPath e = cc_Repository c;
  ca_type : st_ChangeType e = ch_Type (cc_Change c);
  ca_time : st_StagedAt e = Some (w_now w);
  ca_records : records (st_Path e) (st_ChangeType e) (st_Content e) (st_SymlinkTarget e);
  ca_mode : st_ChangeType e ∈ [ChangeCreate; ChangeModify] → st_Mode e = perm w (local base (st_Path e)) }.

(** A change that can be staged: its path and the target of its link have no
    space around them, and no conflict marker is left in it. *)
Record stageable (t : tree) (c : Change) : Prop := {
  sg_shows : shows_change t c;
  sg_path : TrimSpace (ch_Path c) = ch_Path c;
  sg_ne : ch_Path c ≠ "";
  sg_target x : V (ch_Path c) = Some (Link x) → TrimSpace x = x ∧ x ≠ "";
  sg_markers x : V (ch_Path c) = Some (File x) → hasConflictMarkers x = false }.

Lemma file_not_dir ct : ct ∈ [ChangeCreate; ChangeModify] → ct ≠ ChangeDelete ∧ ct ≠ ChangeMkdir ∧ ct ≠ ChangeSymlink.
Proof. intros H. repeat (apply elem_of_cons in H as [->|H]; [done|]). by apply not_elem_of_nil in H. Qed.

Context (Hbase : rooted_path base).

Lemma local_ne p : local base p ≠ "".
Proof using Hbase. unfold local. intros E. apply (f_equal String.length) in E. rewrite !str_length_app in E. cbn in E. lia. Qed.

Lemma load_run w s d p x : running w s d → well_formed (w_disk w) → w_disk w !! p = Some (File x) →
  loadCommitLocalFile p w = (w, Ok (x, perm w p)).
Proof using.
  intros Hr Hw Hp. unfold loadCommitLocalFile. see ReadFile_there. see Lstat_there. by run.
Qed.

Lemma mode_run w s d p n fallback : running w s d → well_formed (w_disk w) → w_disk w !! p = Some n → p ≠ "" →
  commitLocalMode p fallback w = (w, perm w p).
Proof using.
  intros Hr Hw Hp Hne. unfold commitLocalMode. rewrite bool_decide_eq_false_2 by done. see Lstat_there. by run.
Qed.

Lemma snapshot_run w s d c : running w s d → well_formed (w_disk w) → stageable (w_disk w) (cc_Change c) →
  ∃ e, snapshotStagedEntry c w = (w, Ok e) ∧ captures w c e ∧ hasConflictMarkers (st_Content e) = false.
Proof using Hbase.
  intros Hr Hw [Hs _ _ Ht Hm]. unfold snapshotStagedEntry. run.
  destruct Hs as [x Hty El Hx HV|Hty El Hx HV|Hty El Hx HV|Hty HV]; try rewrite El.
  - rewrite bool_decide_eq_true_2 by done. erewrite tryM_run by (by eapply load_run). eexists. split; [done|]. split; [|by eapply Hm].
    split; cbn; [done..| |done]. by apply RecordsFile.
  - rewrite Hty. decide_kind. erewrite bind_run by (eapply mode_run; [done..|apply local_ne]). eexists. split; [done|]. split; [|done].
    split; cbn; try done. by apply RecordsDir.
  - rewrite Hty. decide_kind. erewrite bind_run by (eapply mode_run; [done..|apply local_ne]). destruct (Ht _ HV) as [Etr Hne].
    erewrite tryM_run.
    2:{ unfold link_target. rewrite Etr, bool_decide_eq_true_2 by done. done. }
    rewrite bool_decide_eq_false_2 by done. eexists. split; [done|]. split; [|done]. split; cbn; try done. by apply RecordsLink.
  - rewrite Hty. decide_kind. eexists. split; [done|]. split; [|done]. split; cbn; try done; [by apply RecordsGone|rewrite ?Hty; by intros (? & ? & ?)%file_not_dir].
Qed.

(** ** The index *)

Definition index_of (es : list StagedIndexEntry) (m : gmap string StagedIndexEntry) : gmap string StagedIndexEntry :=
  foldl (λ m e, <[st_Path e := e]> m) m es.
Definition with_index (m : gmap string StagedIndexEntry) (d : OverlayDB) : OverlayDB :=
  mkOverlay (files d) (deleted d) (userdirs d) m (commits d) (branches d) (conflicts d).

Lemma put_run w s d e : running w s d → TrimSpace (st_Path e) = st_Path e → st_Path e ≠ "" → st_StagedAt e = Some (w_now w) →
  sm_PutStagedEntry e w = (with_state (with_index (<[st_Path e := e]> (staged d)) d) (w_disk w) w, Ok tt).
Proof using.
  intros Hr Ht Hne Ha. unfold sm_PutStagedEntry. run. eapply guarded_run; [done|]. unfold PutStagedEntry.
  rewrite !Ht, bool_decide_eq_false_2 by done. destruct e; cbn in *. subst. by rewrite bool_decide_eq_false_2 by done.
Qed.

(** Staging puts an entry for every change into the index. *)
Lemma stage_run w s d cs : running w s d → well_formed (w_disk w) → conflicts d = ∅ → Forall (λ c, stageable (w_disk w) (cc_Change c)) cs →
  ∃ es, stage_changes true cs w = (with_state (with_index (index_of es (staged d)) d) (w_disk w) w, Ok es) ∧ Forall2 (captures w) cs es.
Proof using Hbase.
  revert w d. induction cs as [|c cs IH]; intros w d Hr Hw Hcf Hcs.
  - exists []. cbn. split; [|constructor]. unfold ret. f_equal. destruct Hr as (_ & _ & Hd). destruct w, d; cbn in *. by subst.
  - apply Forall_cons in Hcs as [Hc Hcs]. destruct (snapshot_run w s d c Hr Hw Hc) as (e & Ee & He & Hm). cbn [stage_changes].
    erewrite tryM_run by exact Ee. rewrite Hm. cbn [andb].
    set (d1 := with_index (<[st_Path e := e]> (staged d)) d). set (w1 := with_state d1 (w_disk w) w).
    assert (sm_PutStagedEntry e w = (w1, Ok tt)) as Ep.
    { apply (put_run w s d); [done|rewrite (ca_path _ _ _ He); apply (sg_path _ _ Hc)|rewrite (ca_path _ _ _ He); apply (sg_ne _ _ Hc)|apply (ca_time _ _ _ He)]. }
    erewrite tryM_run by (by apply lift_run). assert (running w1 s d1) as Hr1 by by eapply running_state.
    erewrite bind_run.
    2:{ unfold resolve_conflict. run. rewrite (running_active _ _ _ Hr1). cbn [conflicts d1 with_index]. rewrite Hcf, lookup_empty.
        by rewrite bool_decide_eq_false_2 by by intros [? ?]. }
    destruct (IH w1 d1 Hr1 Hw Hcf Hcs) as (es & Ees & Hes). erewrite tryM_run by exact Ees. exists (e :: es). split; [done|].
    constructor; [done|]. eapply Forall2_impl; [exact Hes|]. intros ? ? []. by split.
Qed.

End snapshots.

(** ** Selecting the changes *)

Abbreviation path_of := (λ c, ch_Path (cc_Change c)).

Definition requested (p : string) (c : classifiedSessionChange) : bool :=
  bool_decide (clean_request p = "" ∨ clean_request p = ".") || requestedPathMatchesChange (clean_request p) (path_of c).

Section selection.
Context (cl : list classifiedSessionChange).
Context (Hinj : ∀ x y, x ∈ cl → y ∈ cl → path_of x = path_of y → x = y) (Hws : ∀ c, c ∈ cl → cc_Scope c = ScopeWorkspace).

Lemma add_selected_fold l acc : l ⊆ cl → acc ⊆ cl → NoDup (path_of <$> acc) →
  (∀ c, c ∈ foldl add_selected acc l ↔ c ∈ acc ∨ c ∈ l) ∧ NoDup (path_of <$> foldl add_selected acc l).
Proof using Hinj.
  revert acc. induction l as [|x l IH]; intros acc Hl Hacc Hnd; cbn [foldl].
  - split; [|done]. intros c. split; [by left|]. intros [?|?%not_elem_of_nil]; done.
  - assert (x ∈ cl) as Hx by (apply Hl; left). assert (l ⊆ cl) as Hl' by (intros y Hy; apply Hl; by right).
    unfold add_selected at 2 4. case_bool_decide as Hin.
    + apply list_elem_of_fmap in Hin as (y & Ey & Hy). assert (x = y) as <- by (apply Hinj; auto).
      destruct (IH acc Hl' Hacc Hnd) as [He Hn]. split; [|done]. intros c. rewrite He, elem_of_cons. naive_solver.
    + destruct (IH (acc ++ [x]) Hl') as [He Hn].
      * intros y [?|?%list_elem_of_singleton]%elem_of_app; [by apply Hacc|by subst].
      * rewrite fmap_app. apply NoDup_app. split_and!; [done| |apply NoDup_singleton].
        intros y Hy ->%list_elem_of_singleton. done.
      * split; [|done]. intros c. rewrite He, elem_of_app, !elem_of_cons, elem_of_nil. naive_solver.
Qed.

Lemma select_paths_run ps acc : (∀ p, p ∈ ps → ∃ c, c ∈ cl ∧ requested p c = true) → acc ⊆ cl → NoDup (path_of <$> acc) →
  ∃ sel, select_paths ps cl acc = Ok sel ∧ NoDup (path_of <$> sel) ∧ sel ⊆ cl ∧
    ∀ c, c ∈ sel ↔ c ∈ acc ∨ (c ∈ cl ∧ ∃ p, p ∈ ps ∧ requested p c = true).
Proof using Hinj Hws.
  revert acc. induction ps as [|p ps IH]; intros acc Hps Hacc Hnd; cbn [select_paths].
  - exists acc. split_and!; [done..|]. intros c. split; [by left|]. intros [?|(_ & p & []%not_elem_of_nil & _)]. done.
  - set (l := filter (λ c, cc_Scope c = ScopeWorkspace) _). assert (∀ c, c ∈ l ↔ c ∈ cl ∧ requested p c = true) as Hl.
    { intros c. unfold l. rewrite !list_elem_of_filter. unfold requested. naive_solver. }
    destruct (Hps p ltac:(left)) as (c0 & Hc0 & Hm0).
    rewrite bool_decide_eq_true_2 by (intros El; assert (c0 ∈ l) as H0 by (by apply Hl); rewrite El in H0; by apply not_elem_of_nil in H0).
    assert (l ⊆ cl) as Hlc by (intros c [? _]%Hl; done).
    destruct (add_selected_fold l acc Hlc Hacc Hnd) as [He Hn].
    destruct (IH (foldl add_selected acc l)) as (sel & E & Hnd' & Hsub & Hsel).
    + intros q Hq. apply Hps. by right.
    + intros c [?|?]%He; [by apply Hacc|by apply Hlc].
    + done.
    + exists sel. split_and!; [done..|]. intros c. rewrite Hsel, He, Hl. setoid_rewrite elem_of_cons. naive_solver.
Qed.

(** A request that names every change and no path without one selects all the
    changes. *)
Lemma select_all `{Hsort : GoSort} ps : NoDup (path_of <$> cl) →
  (∀ p, p ∈ ps → ∃ c, c ∈ cl ∧ requested p c = true) → (∀ c, c ∈ cl → ∃ p, p ∈ ps ∧ requested p c = true) →
  ∃ sel, selectWorkspaceChangesForStaging ps cl = Ok sel ∧ sel ≡ₚ cl.
Proof using Hinj Hws.
  intros Hnd Hps Hcl. destruct (select_paths_run ps []) as (sel & E & Hn & Hsub & Hsel); [done|apply list_subseteq_nil|constructor|].
  unfold selectWorkspaceChangesForStaging. rewrite E. eexists. split; [done|]. rewrite sort_slice_perm.
  apply NoDup_Permutation; [by eapply NoDup_fmap_1|by eapply NoDup_fmap_1|]. intros c. rewrite Hsel. split; [naive_solver set_solver|].
  intros Hc. right. auto.
Qed.

End selection.

(** ** The repositories of a workspace *)

Section workspace.
Context `{Hsort : GoSort, Hrange : GoRange} (h : vcs_handler) (manifest : WorkspaceManifest) (entries : list WorkspaceManifestEntry).
Context (Hh : vh_workspace h = Some (manifest, Some entries)).

(** The repository a path is published to. *)
Definition repository_of (p : string) : option WorkspaceRepository :=
  match ResolvePath (Some entries) p with Some r => if rs_Included r then rs_Repository r else None | None => None end.

Definition included : list WorkspaceRepository := me_Repository <$> filter (λ e, me_Included e = true) entries.

Lemma longest_match_spec p l best m :
  foldl (longest_match p) best l = Some m → best = Some m ∨ m ∈ l ∧ (p = wr_DisplayPath (me_Repository m) ∨ below (wr_DisplayPath (me_Repository m)) p = true).
Proof using.
  revert best. induction l as [|e l IH]; intros best; cbn [foldl]; [by left|]. intros H. destruct (IH _ H) as [Hb|[Hm ?]].
  2:{ right. split; [by right|done]. }
  unfold longest_match in Hb. destruct (negb _ && negb _) eqn:E; [by left|].
  assert (p = wr_DisplayPath (me_Repository e) ∨ below (wr_DisplayPath (me_Repository e)) p = true) as Hp.
  { apply andb_false_iff in E as [E%negb_false_iff|E%negb_false_iff]; [left; by apply bool_decide_eq_true in E|by right]. }
  destruct best as [b|]; [|injection Hb as ->; right; split; [left|done]].
  case_bool_decide; [injection Hb as ->; right; split; [left|done]|by left].
Qed.

Lemma repository_of_spec p repo : repository_of p = Some repo →
  repo ∈ included ∧ (Trim p slash = wr_DisplayPath repo ∨ below (wr_DisplayPath repo) (Trim p slash) = true).
Proof using.
  unfold repository_of, ResolvePath. case_bool_decide as E0; [by destruct (negb _)|].
  destruct (foldl _ None entries) as [m|] eqn:E; cbn; [|by destruct (negb _)].
  destruct (negb _ && me_Included m) eqn:Ei; [|done]. intros [= <-]. apply andb_true_iff in Ei as [_ Ei].
  apply longest_match_spec in E as [?|[Hm Hp]]; [done|]. split; [|done].
  apply list_elem_of_fmap. exists m. split; [done|]. by apply list_elem_of_filter.
Qed.

Lemma classify_in c repo : repository_of (ch_Path c) = Some repo →
  classifySessionChange h c = mkClassified c ScopeWorkspace (wr_DisplayPath repo) (wr_StorageID repo).
Proof using Hh.
  unfold repository_of, classifySessionChange. rewrite Hh. destruct (ResolvePath _ _) as [r|]; [|done].
  destruct (rs_Included r); [|done]. intros ->. done.
Qed.

(** ** Adding all the changes *)

Lemma add_run base V w s d paths ps :
  rooted_path base → running w s d → well_formed (w_disk w) → conflicts d = ∅ → NoDup (ch_Path <$> GetChanges w) → GetChanges w ≠ [] →
  (∀ c, c ∈ GetChanges w → stageable base V (w_disk w) c ∧ is_Some (repository_of (ch_Path c))) →
  normalizeRequestedSessionPaths paths = Ok ps →
  (∀ p, p ∈ ps → ∃ c, c ∈ GetChanges w ∧ requested p (classifySessionChange h c) = true) →
  (∀ c, c ∈ GetChanges w → ∃ p, p ∈ ps ∧ requested p (classifySessionChange h c) = true) →
  ∃ cs es, handleAdd h paths w = (with_state (with_index (index_of es (staged d)) d) (w_disk w) w,
                                 Ok (sortChangeInfos (changeInfoFromStagedEntry <$> es))) ∧
    cs ≡ₚ GetChanges w ∧ Forall2 (captures base V w) (classifySessionChange h <$> cs) es.
Proof using Hh.
  intros Hb Hr Hw Hcf Hnd Hne Hst Hps Hreq Hcov.
  assert (∀ c, c ∈ GetChanges w → cc_Change (classifySessionChange h c) = c ∧ cc_Scope (classifySessionChange h c) = ScopeWorkspace) as Hcl.
  { intros c Hc. destruct (Hst c Hc) as [_ [repo Hrepo]]. by rewrite (classify_in c repo Hrepo). }
  assert (path_of <$> (classifySessionChange h <$> GetChanges w) = ch_Path <$> GetChanges w) as Ep.
  { rewrite <- list_fmap_compose. apply list_fmap_ext. intros i c Hc%list_elem_of_lookup_2. cbn. by destruct (Hcl c Hc) as [-> _]. }
  edestruct (λ H1 H2, select_all (classifySessionChange h <$> GetChanges w) H1 H2 ps) as (sel & Esel & Hsel).
  - intros x y (cx & -> & Hx)%list_elem_of_fmap (cy & -> & Hy)%list_elem_of_fmap. destruct (Hcl cx Hx) as [-> _], (Hcl cy Hy) as [-> _].
    intros E. f_equal. apply list_elem_of_lookup in Hx as [i Hi], Hy as [j Hj].
    assert (i = j) as <-; [|congruence]. eapply NoDup_lookup; [exact Hnd|by rewrite list_lookup_fmap, Hi|]. rewrite list_lookup_fmap, Hj. cbn. by rewrite E.
  - intros c (x & -> & Hx)%list_elem_of_fmap. by apply Hcl.
  - by rewrite Ep.
  - intros p Hp. destruct (Hreq p Hp) as (c & Hc & ?). exists (classifySessionChange h c). split; [by apply list_elem_of_fmap_2|done].
  - intros c (x & -> & Hx)%list_elem_of_fmap. by apply Hcov.
  - destruct (Permutation_map_inv _ _ Hsel) as (cs & Ecs & Hcs). change (sel = classifySessionChange h <$> cs) in Ecs. subst sel.
    destruct (stage_run base V Hb w s d (classifySessionChange h <$> cs) Hr Hw Hcf) as (es & Ees & Hes).
    { apply Forall_forall. intros c (x & -> & Hx)%list_elem_of_fmap. rewrite <- Hcs in Hx. destruct (Hcl x Hx) as [-> _]. by apply Hst. }
    exists cs, es. split_and!; [|by symmetry|done]. unfold handleAdd. run.
    rewrite bool_decide_eq_true_2 by (destruct Hr as (_ & -> & _); by eexists). cbn [negb]. rewrite Hps, Esel.
    destruct (classifySessionChange h <$> cs) eqn:E; [|by erewrite tryM_run by exact Ees].
    apply fmap_nil_inv in E as ->. symmetry in Hcs. by apply Permutation_nil_l in Hcs.
Qed.

End workspace.
