(* ===== verification/CommitProps.v ===== *)
(** * The overlay after a commit

    Committing turns the changes of the index into baseline entries: they are
    no changes any more, and the mount shows what it showed. *)

From stdpp Require Import options.
From S2P Require Import Prelude GoStrings GoUnicode GoSort GoRange GoPath GoTree Sharding Overlay Session Mount Merge3 MountProps MountView MountReports.
From S2P Require Import PullMerge Bundle SourcePush Staging StagingProps.

(** ** The index as a list *)

Lemma keyed_perm {A} (key : A → string) (l : list A) :
  NoDup (key <$> l) → map_to_list (foldl (λ m a, <[key a := a]> m) (∅ : gmap string A) l) ≡ₚ (λ a, (key a, a)) <$> l.
Proof.
  induction l as [|a l IH] using rev_ind; intros Hnd; [cbn; by rewrite map_to_list_empty|].
  rewrite fmap_app in Hnd. apply NoDup_app in Hnd as (Hnd & Hx & _). specialize (IH Hnd). rewrite foldl_app. cbn. rewrite map_to_list_insert.
  - rewrite IH, fmap_app. cbn. by rewrite Permutation_cons_append.
  - destruct (foldl _ ∅ l !! key a) as [b|] eqn:E; [|done]. apply elem_of_map_to_list in E. rewrite IH in E.
    apply list_elem_of_fmap in E as (x & [= Ep ->] & Hin). destruct (Hx (key a)); [|by apply list_elem_of_singleton].
    rewrite Ep. by apply list_elem_of_fmap_2.
Qed.

Lemma lookup_keyed {A} (key : A → string) (l : list A) k a :
  NoDup (key <$> l) → foldl (λ m a, <[key a := a]> m) (∅ : gmap string A) l !! k = Some a ↔ a ∈ l ∧ key a = k.
Proof.
  intros Hnd. rewrite <- elem_of_map_to_list, keyed_perm, list_elem_of_fmap by done. split.
  - by intros (x & [= -> ->] & ?).
  - intros [? <-]. by exists a.
Qed.

Lemma list_index `{Hsort : GoSort} d es :
  staged d = index_of es ∅ → NoDup (st_Path <$> es) → Forall (λ e, st_Path e ≠ "") es → ListStagedEntries d ≡ₚ es.
Proof.
  intros Hst Hnd Hne. unfold ListStagedEntries. rewrite sort_slice_perm, entries_of_perm, Hst. unfold index_of. rewrite keyed_perm, <- list_fmap_compose by done.
  rewrite Forall_forall in Hne. rewrite <- (list_fmap_id es) at 2. erewrite list_fmap_ext; [done|]. intros i e He%list_elem_of_lookup_2.
  cbn. rewrite bool_decide_eq_false_2 by by apply Hne. by destruct e.
Qed.

(** ** Advancing the baseline *)

Section baseline.
Context (base : string) (Hbase : rooted_path base).

(** The entry is what the session has at its path. *)
Inductive stands (w : World) (d : OverlayDB) (e : StagedIndexEntry) : Prop :=
| StandsGone : st_ChangeType e = ChangeDelete → is_Some (deleted d !! st_Path e) → stands w d e
| StandsFile : st_ChangeType e ∈ [ChangeCreate; ChangeModify] → deleted d !! st_Path e = None →
    w_disk w !! local base (st_Path e) = Some (File (st_Content e)) → st_Mode e = perm w (local base (st_Path e)) → stands w d e
| StandsDir : st_ChangeType e = ChangeMkdir → deleted d !! st_Path e = None →
    w_disk w !! local base (st_Path e) = Some Directory → stands w d e
| StandsLink : st_ChangeType e = ChangeSymlink → deleted d !! st_Path e = None →
    w_disk w !! local base (st_Path e) = Some (Link (st_SymlinkTarget e)) → stands w d e.

Definition baseline_entry (w : World) (d : OverlayDB) (p : string) (n : node) : FileEntry :=
  mkFileEntry (fileEntryTypeFromInfo n) (local base p) (w_stat w (local base p)).1.1 (node_size n (w_stat w (local base p)).2)
    (w_stat w (local base p)).1.2 (match n with Link x => x | _ => "" end)
    (match files d !! p with Some e => fe_OrigHash e | None => "" end) ChangeBaseline (w_now w).

Definition advance (w : World) (d : OverlayDB) (e : StagedIndexEntry) : OverlayDB :=
  if bool_decide (st_ChangeType e = ChangeDelete) then MarkDeletedWithType (w_now w) (st_Path e) ChangeBaseline d
  else match w_disk w !! local base (st_Path e) with
       | Some n => PutFile (st_Path e) (baseline_entry w d (st_Path e) n) d
       | None => d
       end.

Lemma local_of_run w s d p : running w s d → ws_BasePath s = base → proper_path p → local_of w p = Ok (local base p).
Proof using Hbase.
  intros (_ & Hc & _) Hb Hp. unfold local_of, GetLocalPath. rewrite Hc. by rewrite (local_path_eq base Hbase s p Hb Hp).
Qed.

Lemma is_deleted_run w s d p : running w s d → is_deleted w p = bool_decide (is_Some (deleted d !! p)).
Proof using. intros Hr. unfold is_deleted, GetPathState. by rewrite (running_active _ _ _ Hr). Qed.

Lemma Readlink_there t p x : t !! p = Some (Link x) → Readlink Fine p t = (t, Some x).
Proof using. intros Hp. unfold Readlink. by rewrite Hp. Qed.

Lemma put_baseline w s d p n : running w s d → ws_BasePath s = base → proper_path p → well_formed (w_disk w) →
  w_disk w !! local base p = Some n →
  putOverlayFileFromDisk p ChangeBaseline w = (with_state (PutFile p (baseline_entry w d p n) d) (w_disk w) w, Ok tt).
Proof using Hbase.
  intros Hr Hb Hp Hw Hn. unfold putOverlayFileFromDisk. run. rewrite (local_of_run w s d p Hr Hb Hp). see Lstat_there.
  assert (∀ A (k : string → M (result vcs_error A)),
    tryM (match n with
          | Link _ => t ← on_disk (λ o, Readlink o (local base p)); match t with Some t => ret (Ok t) | None => raise (CannotReadLink p) end
          | _ => ret (Ok "")
          end) k w = k (match n with Link x => x | _ => "" end) w) as Ht.
  { intros A k. destruct n; [done..|]. apply tryM_run. by see Readlink_there. }
  rewrite Ht. run. unfold baseline_entry. destruct (w_stat w (local base p)) as [[bits mtime] dirsize] eqn:Est. cbn [fst snd].
  pose proof Hr as (_ & _ & ->). by eapply update_run.
Qed.

Lemma matches_run w s d e n : running w s d → well_formed (w_disk w) → stands w d e → st_ChangeType e ≠ ChangeDelete →
  w_disk w !! local base (st_Path e) = Some n →
  ∃ current, stagedEntryMatchesCurrent e (local base (st_Path e)) w = (w, Ok (true, current)).
Proof using.
  intros Hr Hw Hs Hnd Hn. unfold stagedEntryMatchesCurrent. see Lstat_there. destruct Hs as [?|Hty _ Hx Hm|Hty _ Hx|Hty _ Hx]; [done|..];
    rewrite Hx in Hn; injection Hn as <-; cbn [fileEntryTypeFromInfo].
  - rewrite bool_decide_eq_true_2 by done. cbn [negb bool_decide decide_rel]. rewrite (bool_decide_eq_true_2 (FileEntryRegular = _)) by done. cbn [negb].
    erewrite tryM_run by (by eapply load_run). eexists. unfold ret. rewrite bool_decide_eq_true_2 by done.
    rewrite bool_decide_eq_true_2 by by right. done.
  - rewrite Hty. decide_kind. eexists. unfold ret. by rewrite (bool_decide_eq_true_2 (FileEntryDir = _)).
  - rewrite Hty. decide_kind. rewrite (bool_decide_eq_true_2 (FileEntrySymlink = _)) by done. cbn [negb]. see Readlink_there.
    eexists. unfold ret. by rewrite bool_decide_eq_true_2.
Qed.

Lemma stands_there w d e : stands w d e → st_ChangeType e ≠ ChangeDelete →
  deleted d !! st_Path e = None ∧ is_Some (w_disk w !! local base (st_Path e)) ∧ st_ChangeType e ∉ [ChangeDelete; ChangeRmdir].
Proof using.
  intros [Hty|Hty Hd Hx _|Hty Hd Hx|Hty Hd Hx] Hne; [done|..]; (split_and!; [done|by eexists|]).
  - repeat (apply elem_of_cons in Hty as [->|Hty]; [by apply (bool_decide_unpack _)|]). by apply not_elem_of_nil in Hty.
  - rewrite Hty. by apply (bool_decide_unpack _).
  - rewrite Hty. by apply (bool_decide_unpack _).
Qed.

Lemma reconcile_run w s d e : running w s d → ws_BasePath s = base → proper_path (st_Path e) → well_formed (w_disk w) → stands w d e →
  reconcileCommittedEntry e w = (with_state (advance w d e) (w_disk w) w, Ok tt).
Proof using Hbase.
  intros Hr Hb Hp Hw Hs. unfold reconcileCommittedEntry, advance. run. rewrite (local_of_run w s d _ Hr Hb Hp), !(is_deleted_run w s d) by done.
  destruct (decide (st_ChangeType e = ChangeDelete)) as [Hty|Hty].
  - assert (is_Some (deleted d !! st_Path e)) as Hd.
    { destruct Hs as [|Ht|Ht|Ht]; [done|rewrite Hty in Ht; by apply file_not_dir in Ht as [? _]|congruence..]. }
    rewrite Hty. decide_kind. rewrite (bool_decide_eq_true_2 _ Hd).
    destruct (Lstat Fine (local base (st_Path e)) (w_disk w)) as [t a] eqn:El.
    assert (t = w_disk w) as -> by (unfold Lstat in El; by injection El).
    erewrite bind_run by (by eapply observe_run). destruct a; cbv beta iota; unfold mark_deleted; run; by eapply update_run.
  - destruct (stands_there w d e Hs Hty) as (Hd & [n Hn] & Hni). rewrite Hn, (bool_decide_eq_false_2 (st_ChangeType e = ChangeDelete)) by done.
    rewrite (bool_decide_eq_false_2 (st_ChangeType e ∈ _)) by done. rewrite Hd, (bool_decide_eq_false_2 (is_Some None)) by by intros [? ?].
    destruct (matches_run w s d e n) as (current & Em); [done..|]. erewrite tryM_run by exact Em.
    cbv beta iota. rewrite (bool_decide_eq_true_2 (true = true)) by done. by eapply put_baseline.
Qed.

(** A step changes nothing at other paths. *)
Lemma advance_other w d e p : p ≠ st_Path e → files (advance w d e) !! p = files d !! p ∧ deleted (advance w d e) !! p = deleted d !! p.
Proof using.
  intros Hne. unfold advance. case_bool_decide; cbn.
  - by rewrite lookup_delete_ne, lookup_insert_ne.
  - destruct (w_disk w !! _); cbn; [|done]. by rewrite lookup_insert_ne, lookup_delete_ne.
Qed.

Lemma stands_other w d e x : st_Path x ≠ st_Path e → stands w d x → stands w (advance w d e) x.
Proof using.
  intros Hne. destruct (advance_other w d e _ Hne) as [_ E]. intros [?|?|?|?]; [eapply StandsGone|eapply StandsFile|eapply StandsDir|eapply StandsLink];
    rewrite ?E; done.
Qed.

Lemma advance_run w s d es : running w s d → ws_BasePath s = base → well_formed (w_disk w) → NoDup (st_Path <$> es) →
  Forall (λ e, proper_path (st_Path e) ∧ stands w d e) es →
  advanceOverlayBaseline es w = (with_state (foldl (advance w) d es) (w_disk w) w, Ok tt).
Proof using Hbase.
  revert w d. induction es as [|e es IH]; intros w d Hr Hb Hw Hnd Hes; cbn [advanceOverlayBaseline foldl].
  { unfold ret. f_equal. destruct Hr as (_ & _ & Hd). by rewrite with_state_id. }
  apply Forall_cons in Hes as [[Hp Hs] Hes]. apply NoDup_cons in Hnd as [Hx Hnd].
  erewrite tryM_run by (by eapply reconcile_run). set (w1 := with_state _ _ _).
  rewrite (IH w1 (advance w d e)); [done|by eapply running_state|done..|]. rewrite Forall_forall in Hes |- *. intros x Hin.
  destruct (Hes x Hin) as [Hpx Hsx]. split; [done|]. assert (stands w (advance w d e) x) as [?|?|?|?]; [|by econstructor..].
  apply stands_other; [|done]. intros E. apply Hx. change (st_Path e ∈ st_Path <$> es). rewrite <- E. by apply list_elem_of_fmap_2.
Qed.

End baseline.

(** ** The changes of a session *)

Section session.
Context `{Hsort : GoSort, Hrange : GoRange} (backend : string → option node) (base : string) (ud : gmap string Z).
Context (R : gset string) (w : World) (s : WriteSession) (d : OverlayDB) (Hok : session_ok backend base ud R w s d).

Abbreviation V := (view backend base ud d (w_disk w)).

Lemma ok_running : running w s d.
Proof using Hok. by destruct Hok as (? & ? & _ & ? & _). Qed.

(** What a change says is on the disk and in the mount. *)
Lemma change_shown c : c ∈ GetChanges w → has_byte slash (ch_Path c) = true → user_root ud (ch_Path c) = false →
  shows_change base V (w_disk w) c ∧
  ((ch_Type c = ChangeDelete ∧ is_Some (deleted d !! ch_Path c)) ∨ (ch_Type c ≠ ChangeDelete ∧ deleted d !! ch_Path c = None)).
Proof using Hok.
  pose proof Hok as (_ & _ & _ & _ & G). unfold GetChanges. rewrite (running_active _ _ _ ok_running), elem_of_app, !list_elem_of_fmap.
  intros [([p e] & -> & Hp)|(e & -> & He)] Hsl Hur; cbn in *.
  - apply list_elem_of_filter in Hp as [_ Hp%elem_of_range]. destruct (proj1 (g_reported _ _ _ _ _ _ G p) e Hp) as [El Hk].
    assert (mount_path p) as Hm by (apply (g_keys _ _ _ _ _ _ G); left; by eexists).
    destruct (g_local _ _ _ _ _ _ G p e Hm Hp) as (n & Hn & Hkn). assert (deleted d !! p = None) as Hd by (apply (g_disjoint _ _ _ _ _ _ G); by eexists).
    assert (V p = Some n) as HV.
    { unfold view. rewrite Hur, Hd, Hp. case_bool_decide as Et; [|done]. unfold kind_of in Hkn. rewrite Et in Hkn. by subst. }
    unfold kind_of in Hkn. destruct Hk as [[Ht Ety]|[[Ht Ety]|[[Ht Ety]|(_ & _ & Hs)]]]; [..|congruence]; rewrite Ety in Hkn.
    + destruct Hkn as [x ->]. split; [by eapply ShowsFile|]. right. by apply file_not_dir in Ht as [? _].
    + subst n. split; [by apply ShowsDir|]. right. by rewrite Ht.
    + subst n. split; [by apply ShowsLink|]. right. by rewrite Ht.
  - apply list_elem_of_filter in He as [_ He]. unfold GetAllDeletedEntries in He. rewrite sort_slice_perm in He.
    apply list_elem_of_fmap in He as ([k v] & -> & Hk%elem_of_entries).
    destruct (proj2 (g_reported _ _ _ _ _ _ G k) v Hk) as ([p ct at_] & -> & Hx & Ht). cbn in Hx, Ht, Hsl, Hur |- *. subst p ct.
    assert ((if bool_decide (k = "") then k else k) = k) as Ek by by destruct (bool_decide _). rewrite !Ek in *.
    split; [|left; split; [done|by rewrite Hk]]. apply ShowsGone; [done|]. cbn. unfold view. by rewrite Hur, Hk.
Qed.

(** An entry that captures a change still stands. *)
Lemma captured_stands c e : cc_Change c ∈ GetChanges w → has_byte slash (path_of c) = true → user_root ud (path_of c) = false →
  captures base V w c e → stands base w d e.
Proof using Hok.
  intros Hc Hs Hu [Ep _ _ Et _ Hr Hm]. destruct (change_shown _ Hc Hs Hu) as [Hsh Hd]. rewrite <- Ep, <- Et in Hd.
  destruct Hd as [[Hty Hd]|[Hty Hd]]; [by apply StandsGone|].
  destruct Hsh as [x Ht _ Hx HV|Ht _ Hx HV|Ht _ Hx HV|Ht HV]; rewrite <- Et in Ht; rewrite <- ?Ep in *; [..|done];
    destruct Hr as [Ht' HV'|Ht' HV'|Ht' HV'|Ht' HV']; rewrite HV' in HV; try done; try injection HV as HV.
  - apply StandsFile; [done..| |by apply Hm]. by rewrite Hx, HV.
  - by apply StandsDir.
  - apply StandsLink; [done..|]. by rewrite Hx, HV.
Qed.

End session.

(** ** What is left to change *)

Section advanced.
Context (base : string) (w : World).

Lemma fold_other d es p : p ∉ st_Path <$> es →
  files (foldl (advance base w) d es) !! p = files d !! p ∧ deleted (foldl (advance base w) d es) !! p = deleted d !! p.
Proof.
  revert d. induction es as [|e es IH]; intros d Hp; [done|]. cbn [foldl]. apply not_elem_of_cons in Hp as [Hne Hp].
  destruct (IH (advance base w d e) Hp) as [-> ->]. by apply advance_other.
Qed.

Lemma fold_same d d0 es : files d = files d0 → deleted d = deleted d0 →
  files (foldl (advance base w) d es) = files (foldl (advance base w) d0 es) ∧
  deleted (foldl (advance base w) d es) = deleted (foldl (advance base w) d0 es).
Proof.
  revert d d0. induction es as [|e es IH]; intros d d0 Ef Ed; [done|]. cbn [foldl].
  apply IH; unfold advance, baseline_entry; (case_bool_decide; [cbn; by rewrite ?Ef, ?Ed|]); destruct (w_disk w !! _); cbn; by rewrite ?Ef, ?Ed.
Qed.

Lemma fold_vcs d es :
  userdirs (foldl (advance base w) d es) = userdirs d ∧ staged (foldl (advance base w) d es) = staged d ∧
  commits (foldl (advance base w) d es) = commits d ∧ branches (foldl (advance base w) d es) = branches d ∧
  conflicts (foldl (advance base w) d es) = conflicts d.
Proof.
  revert d. induction es as [|e es IH]; intros d; [done|]. cbn [foldl]. destruct (IH (advance base w d e)) as (-> & -> & -> & -> & ->).
  unfold advance. case_bool_decide; [done|]. by destruct (w_disk w !! _).
Qed.

(** What the session has at the path of an entry afterwards. *)
Inductive settled (d : OverlayDB) (p : string) (n : option node) : Prop :=
| SettledGone at_ : n = None → files d !! p = None → deleted d !! p = Some (DeletedDoc (mkDeleted p ChangeBaseline at_)) → settled d p n
| SettledThere x e : n = Some x → deleted d !! p = None → files d !! p = Some e → fe_ChangeType e = ChangeBaseline → kind_of e x →
    w_disk w !! local base p = Some x → settled d p n.

Lemma kind_of_baseline d p n : kind_of (baseline_entry base w d p n) n.
Proof. destruct n; cbn; [by eexists|done|done]. Qed.

Lemma advance_settled d e : stands base w d e →
  settled (advance base w d e) (st_Path e) (if bool_decide (st_ChangeType e = ChangeDelete) then None else w_disk w !! local base (st_Path e)).
Proof.
  intros Hs. unfold advance. case_bool_decide as Hty.
  - eapply SettledGone; [done|apply lookup_delete_eq|apply lookup_insert_eq].
  - destruct (stands_there base w d e Hs Hty) as (_ & [m Hm] & _). rewrite Hm.
    eapply SettledThere; [done|apply lookup_delete_eq|apply lookup_insert_eq|done|apply kind_of_baseline|done].
Qed.

Lemma fold_settled d es e : NoDup (st_Path <$> es) → Forall (stands base w d) es → e ∈ es →
  settled (foldl (advance base w) d es) (st_Path e)
    (if bool_decide (st_ChangeType e = ChangeDelete) then None else w_disk w !! local base (st_Path e)).
Proof.
  revert d. induction es as [|x es IH]; intros d Hnd Hst He; [by apply not_elem_of_nil in He|]. cbn [foldl].
  apply NoDup_cons in Hnd as [Hx Hnd]. apply Forall_cons in Hst as [Hsx Hst]. apply elem_of_cons in He as [->|He].
  - destruct (fold_other (advance base w d x) es (st_Path x) Hx) as [Ef Ed].
    destruct (advance_settled d x Hsx) as [|y ?]; [eapply SettledGone|eapply (SettledThere _ _ _ y)]; rewrite ?Ef, ?Ed; done.
  - apply (IH (advance base w d x)); [done| |done..]. rewrite Forall_forall in Hst |- *. intros y Hy. apply stands_other; [|by apply Hst].
    intros E. apply Hx. change (st_Path x ∈ st_Path <$> es). rewrite <- E. by apply list_elem_of_fmap_2.
Qed.

End advanced.

(** ** The session after a commit *)

Section committed.
Context `{Hsort : GoSort, Hrange : GoRange} (backend : string → option node) (base : string) (ud : gmap string Z).
Context (w : World) (d : OverlayDB) (es : list StagedIndexEntry).
Context (Hnd : NoDup (st_Path <$> es)) (Hst : Forall (stands base w d) es).

Abbreviation d' := (foldl (advance base w) d es).

(** The mount shows what it showed. *)
Lemma view_advanced V p :
  (∀ q, view backend base ud d (w_disk w) q = V q) →
  Forall (λ e, user_root ud (st_Path e) = false ∧ records V (st_Path e) (st_ChangeType e) (st_Content e) (st_SymlinkTarget e)) es →
  view backend base ud d' (w_disk w) p = V p.
Proof using Hnd Hst.
  intros HV Hrec. rewrite Forall_forall in Hrec. destruct (decide (p ∈ st_Path <$> es)) as [Hin|Hout].
  2:{ rewrite <- HV. unfold view. by destruct (fold_other base w d es p Hout) as [-> ->]. }
  apply list_elem_of_fmap in Hin as (e & -> & He). destruct (Hrec e He) as [Hu Hr]. rewrite Forall_forall in Hst.
  destruct (fold_settled base w d es e Hnd ltac:(by apply Forall_forall) He) as [a Hn Hf Hd|x fe Hn Hd Hf _ Hk Hx].
  - unfold view. rewrite Hu, Hd. symmetry. case_bool_decide as Hty; [|by destruct (stands_there base w d e (Hst e He) Hty) as (_ & [? ?] & _); congruence].
    destruct Hr as [Ht|Ht|Ht|]; [rewrite Hty in Ht; by apply file_not_dir in Ht as [? _]|congruence..|done].
  - unfold view. rewrite Hu, Hd, Hf, Hx. case_bool_decide as Hty; [done|]. assert (Some x = V (st_Path e)) as <-.
    { destruct (Hst e He) as [|Ht _ Hl|Ht _ Hl|Ht _ Hl]; [done|..]; rewrite Hl in Hx; injection Hx as <-;
        destruct Hr as [Ht' HV'|Ht' HV'|Ht' HV'|Ht' HV']; try (by rewrite HV'); exfalso;
        repeat match goal with
        | H1 : st_ChangeType e ∈ _, H2 : st_ChangeType e = _ |- _ => rewrite H2 in H1; by apply file_not_dir in H1 as (? & ? & ?)
        | H1 : st_ChangeType e = _, H2 : st_ChangeType e = _ |- _ => congruence
        end. }
    unfold kind_of in Hk. case_bool_decide as Et; [|done]. rewrite Et in Hk. by subst.
Qed.

(** Nothing is left to stage. *)
Lemma no_changes_left w' s d2 :
  (∀ p, is_Some (files d !! p) ∨ is_Some (deleted d !! p) → p ∈ st_Path <$> es) →
  active w' = Some (s, d2) → files d2 = files d' → deleted d2 = deleted d' → GetChanges w' = [].
Proof using Hnd Hst.
  intros Hall Ha Ef Ed. unfold GetChanges, GetAllDeletedEntries. rewrite Ha, Ef, Ed.
  assert (∀ p, is_Some (files d' !! p) ∨ is_Some (deleted d' !! p) → ∃ n, settled base w d' p n) as Hs.
  { intros p Hp. destruct (decide (p ∈ st_Path <$> es)) as [Hin|Hout].
    - apply list_elem_of_fmap in Hin as (e & -> & He). eexists. by apply fold_settled.
    - destruct (fold_other base w d es p Hout) as [Ef' Ed']. rewrite Ef', Ed' in Hp. by destruct Hout; apply Hall. }
  replace (filter _ (range 0 (files d'))) with (@nil (string * FileEntry)).
  2:{ symmetry. apply filter_Forall_none, Forall_forall. intros [p e] Hp%elem_of_range.
      destruct (Hs p) as [n [a _ Hf _|x fe _ _ Hf Hb _ _]]; [left; by eexists|congruence|].
      rewrite Hp in Hf. injection Hf as ->. by rewrite Hb. }
  replace (filter _ (sort_slice _ _)) with (@nil DeletedEntry); [done|].
  symmetry. apply filter_Forall_none, Forall_forall. intros x. rewrite sort_slice_perm.
  intros ([k v] & -> & Hk%elem_of_entries)%list_elem_of_fmap.
  destruct (Hs k) as [n [a _ _ Hd|? ? _ Hd _ _ _ _]]; [right; by eexists| |congruence]. rewrite Hk in Hd. injection Hd as ->. done.
Qed.

End committed.
