(* ===== verification/CommitBundle.v ===== *)
(** * From the index to the plans of the fetcher

    The entries of the index are grouped by repository into a commit, the
    commit becomes a bundle, and the bundle a plan for each repository.  In a
    workspace whose repositories are told apart, the plan of a repository has
    exactly the operations of the entries below its path. *)

From stdpp Require Import options.
From S2P Require Import Prelude GoStrings GoUnicode GoSort GoRange GoPath GoTree Sharding Overlay Session Mount Merge3 MountProps MountView MountReports.
From S2P Require Import PullMerge Bundle SourcePush Staging BundleProps StagingProps CommitProps.

(** ** Paths and results *)

Lemma Trim_proper p : proper_path p → Trim p slash = p.
Proof.
  intros Hp. pose proof (proper_relative p Hp) as Hr. apply Trim_id; [done|]. destruct (HasSuffix p (str1 slash)) eqn:E; [|done].
  apply HasSuffix_spec in E as [r ->]. destruct Hp as (es & Hne & Hes & E). exfalso.
  assert (Split r slash ++ Split "" slash = es) as <-.
  { rewrite <- Split_app_gen, str_app_nil_r, E. by apply Split_proper. }
  apply Forall_app in Hes as [_ [(He & _) _]%Forall_cons]. done.
Qed.

Lemma rmap_run {E A B} (f : A → result E B) (Q : A → B → Prop) l :
  (∀ x, x ∈ l → ∃ y, f x = Ok y ∧ Q x y) → ∃ ys, rmap f l = Ok ys ∧ Forall2 Q l ys.
Proof.
  induction l as [|x l IH]; intros H; [by exists []|]. destruct (H x ltac:(left)) as (y & Ey & Hy).
  destruct IH as (ys & Eys & Hys); [intros z Hz; apply H; by right|]. exists (y :: ys). cbn. rewrite Ey, Eys. cbn. split; [done|by constructor].
Qed.

(** ** A workspace *)

(** A repository that can be pushed to: nothing of it is missing. *)
Record repository_ok (r : WorkspaceRepository) : Prop := {
  ro_path : mount_path (wr_DisplayPath r);
  ro_display : TrimSpace (wr_DisplayPath r) = wr_DisplayPath r;
  ro_storage : TrimSpace (wr_StorageID r) = wr_StorageID r;
  ro_id : blank (wr_StorageID r) = false;
  ro_source : blank (wr_Source r) = false;
  ro_ref : blank (wr_Ref r) = false;
  ro_commit : blank (wr_CommitHash r) = false }.

Lemma blank_ne x : blank x = false → TrimSpace x ≠ "".
Proof. by intros ?%bool_decide_eq_false. Qed.
Lemma blank_trimmed x : TrimSpace x = x → x ≠ "" → blank x = false.
Proof. intros E H. apply bool_decide_eq_false. by rewrite E. Qed.
Lemma blank_trim x : blank (TrimSpace x) = blank x.
Proof. unfold blank. by rewrite TrimSpace_idem. Qed.

Section workspace.
Context `{Hsort : GoSort, Hrange : GoRange, Hfold : UnicodeFold} (h : vcs_handler) (manifest : WorkspaceManifest) (entries : list WorkspaceManifestEntry).
Context (Hh : vh_workspace h = Some (manifest, Some entries)).

(** The repositories are told apart by path and by identifier, and none lies in
    another. *)
Record workspace_ok : Prop := {
  wk_repos r : r ∈ included entries → repository_ok r;
  wk_display : NoDup (wr_DisplayPath <$> included entries);
  wk_storage : NoDup (wr_StorageID <$> included entries);
  wk_apart r1 r2 : r1 ∈ included entries → r2 ∈ included entries → below (wr_DisplayPath r1) (wr_DisplayPath r2) = false }.

Context (Hwk : workspace_ok).

Definition metadata : gmap string WorkspaceRepository := foldl (λ m r, <[wr_DisplayPath r := r]> m) ∅ (included entries).

Lemma metadata_run : workspaceRepositoryMetadata h = Ok metadata.
Proof using Hh. unfold workspaceRepositoryMetadata, metadata, included. rewrite Hh. by rewrite foldl_fmap. Qed.

Lemma lookup_metadata k r : metadata !! k = Some r ↔ r ∈ included entries ∧ wr_DisplayPath r = k.
Proof using Hwk. apply lookup_keyed, (wk_display Hwk). Qed.

Lemma same_storage r1 r2 : r1 ∈ included entries → r2 ∈ included entries → wr_StorageID r1 = wr_StorageID r2 → r1 = r2.
Proof using Hwk.
  intros [i Hi]%list_elem_of_lookup [j Hj]%list_elem_of_lookup E. assert (i = j) as <-; [|congruence].
  eapply NoDup_lookup; [apply (wk_storage Hwk)|by rewrite list_lookup_fmap, Hi|]. rewrite list_lookup_fmap, Hj. cbn. by rewrite E.
Qed.

Lemma same_display r1 r2 : r1 ∈ included entries → r2 ∈ included entries → wr_DisplayPath r1 = wr_DisplayPath r2 → r1 = r2.
Proof using Hwk.
  intros H1 H2 E. assert (metadata !! wr_DisplayPath r1 = Some r1) as E1 by by apply lookup_metadata.
  rewrite E, (proj2 (lookup_metadata (wr_DisplayPath r2) r2)) in E1 by done. by injection E1.
Qed.

(** A path lies in one repository. *)
Lemma same_repository r1 r2 p q : r1 ∈ included entries → r2 ∈ included entries →
  wr_DisplayPath r1 +:+ "/" +:+ p = wr_DisplayPath r2 +:+ "/" +:+ q → r1 = r2 ∧ p = q.
Proof using Hwk.
  intros H1 H2 E. destruct (cut_at_slash _ _ _ _ E) as [(u & Eu & _)|[[Ed ->]|[u Eu]]].
  - pose proof (wk_apart Hwk r1 r2 H1 H2) as Ha. by rewrite (proj2 (below_spec _ _)) in Ha by by exists u.
  - split; [by apply same_display|done].
  - pose proof (wk_apart Hwk r2 r1 H2 H1) as Ha. by rewrite (proj2 (below_spec _ _)) in Ha by by exists u.
Qed.

(** ** Grouping *)

(** The repository of an entry. *)
Definition home (e : StagedIndexEntry) : WorkspaceRepository :=
  default (mkWorkspaceRepository "" "" "" "" "") (metadata !! st_RepositoryPath e).

Lemma home_in e r : r ∈ included entries → st_RepositoryPath e = wr_DisplayPath r → home e = r.
Proof using Hwk. intros Hr E. unfold home. rewrite E. by rewrite (proj2 (lookup_metadata (wr_DisplayPath r) r)). Qed.

Lemma resolve_run e : home e ∈ included entries → st_RepositoryPath e = wr_DisplayPath (home e) →
  resolveStagedRepository e metadata = Ok (home e).
Proof using Hwk.
  intros Hr E. pose proof (wk_repos Hwk _ Hr) as [Hp Hd _ Hi _ _ _]. unfold resolveStagedRepository, clean_request.
  rewrite E, Hd, Trim_proper by apply Hp. rewrite bool_decide_eq_false_2 by (by apply mount_ne). cbn.
  rewrite (proj2 (lookup_metadata _ (home e))) by done. by rewrite Hi.
Qed.

Abbreviation id_of := (λ e, wr_StorageID (home e)).

Lemma add_groups_app m gs l1 l2 : add_groups m gs (l1 ++ l2) = (let! gs := add_groups m gs l1 in add_groups m gs l2).
Proof using. revert gs. induction l1 as [|e l1 IH]; intros gs; [done|]. cbn. destruct (add_to_group m gs e); cbn; [apply IH|done]. Qed.

Lemma add_groups_run es : Forall (λ e, home e ∈ included entries ∧ st_RepositoryPath e = wr_DisplayPath (home e)) es →
  ∃ gs, add_groups metadata ∅ es = Ok gs ∧
    ∀ k, gs !! k = match filter (λ e, id_of e = k) es with [] => None | (e :: _) as l => Some (mkGroup (home e) l) end.
Proof using Hwk.
  induction es as [|e es IH] using rev_ind; intros Hes; [by exists ∅|].
  apply Forall_app in Hes as [Hes [[He Hd] _]%Forall_cons]. destruct (IH Hes) as (gs & Egs & Hgs).
  rewrite add_groups_app, Egs. cbn. unfold add_to_group. rewrite (resolve_run e He Hd). cbn.
  rewrite (ro_id _ (wk_repos Hwk _ He)). eexists. split; [done|]. intros k. rewrite filter_app. destruct (decide (id_of e = k)) as [<-|Hne].
  - rewrite lookup_insert_eq, Hgs. rewrite (filter_cons_True _ e) by done. cbn. by destruct (filter _ es).
  - rewrite lookup_insert_ne, Hgs by done. rewrite (filter_cons_False _ e) by done. cbn. by rewrite app_nil_r.
Qed.

Lemma groups_run es : Forall (λ e, home e ∈ included entries ∧ st_RepositoryPath e = wr_DisplayPath (home e)) es →
  ∃ groups, groupStagedEntriesByRepository h es = Ok groups ∧ NoDup (wr_StorageID <$> (gr_Repository <$> groups)) ∧
    (∀ g, g ∈ groups → gr_Repository g ∈ included entries ∧ gr_Entries g = filter (λ e, id_of e = wr_StorageID (gr_Repository g)) es) ∧
    (∀ e, e ∈ es → home e ∈ gr_Repository <$> groups).
Proof using Hh Hwk.
  intros Hes. destruct (add_groups_run es Hes) as (gs & Egs & Hgs). rewrite Forall_forall in Hes.
  assert (∀ k g, gs !! k = Some g → wr_StorageID (gr_Repository g) = k ∧ gr_Repository g ∈ included entries ∧
    gr_Entries g = filter (λ e, id_of e = wr_StorageID (gr_Repository g)) es) as Hg.
  { intros k g. rewrite Hgs. destruct (filter _ es) as [|e l] eqn:E; [done|]. intros [= <-]. cbn.
    assert (e ∈ filter (λ e, id_of e = k) es) as He by (rewrite E; left). apply list_elem_of_filter in He as [Hk He].
    destruct (Hes e He) as [Hin _]. split_and!; [done..|]. by rewrite Hk, E. }
  assert (∀ g, g ∈ (range 3 gs).*2 ↔ ∃ k, gs !! k = Some g) as Hel.
  { intros g. rewrite list_elem_of_fmap. split; [intros ([k x] & -> & Hk%elem_of_range); by exists k|].
    intros [k Hk]. exists (k, g). split; [done|by apply elem_of_range]. }
  eexists. unfold groupStagedEntriesByRepository. rewrite metadata_run. cbn. rewrite Egs. cbn. split; [done|]. split_and!.
  - rewrite sort_slice_perm, <- !list_fmap_compose. erewrite list_fmap_ext; [apply (NoDup_range_keys 3 gs)|].
    intros i [k g] Hi%list_elem_of_lookup_2%elem_of_range. cbn. by apply Hg.
  - intros g. rewrite elem_of_sort_slice, Hel. intros [k Hk]. by apply (Hg k).
  - intros e He. apply list_elem_of_fmap. destruct (gs !! id_of e) as [g|] eqn:Eg.
    + exists g. destruct (Hg _ _ Eg) as (Hk & Hin & _). split; [|rewrite elem_of_sort_slice, Hel; eauto].
      apply same_storage; [by apply Hes|done..].
    + rewrite Hgs in Eg. destruct (filter _ es) as [|? ?] eqn:E; [|done].
      by apply (filter_nil_not_elem_of _ _ e E) in He.
Qed.

(** ** Operations *)

Context (V : string → option node).

(** A path that may be pushed. *)
Record safe_path (r : string) : Prop := {
  sp_proper : proper_path r;
  sp_visible : blank r = false;
  sp_git : existsb (λ part, EqualFold part ".git") (Split r slash) = false }.

(** An entry that can be committed: it says what the mount shows, and lies in
    its repository. *)
Record fits (e : StagedIndexEntry) : Prop := {
  fi_records : records V (st_Path e) (st_ChangeType e) (st_Content e) (st_SymlinkTarget e);
  fi_home : home e ∈ included entries;
  fi_path : st_RepositoryPath e = wr_DisplayPath (home e);
  fi_below : ∃ r, st_Path e = wr_DisplayPath (home e) +:+ "/" +:+ r ∧ safe_path r;
  fi_target : st_ChangeType e = ChangeSymlink → blank (st_SymlinkTarget e) = false }.

(** The operation says what the mount shows at a path. *)
Inductive says (p : string) (o : LocalCommitOperation) : Prop :=
| SaysFile : op_Kind o = OperationUpsert → V p = Some (File (op_Content o)) → says p o
| SaysGone : op_Kind o = OperationDelete → V p = None → says p o
| SaysDir : op_Kind o = OperationMkdir → V p = Some Directory → says p o
| SaysLink : op_Kind o = OperationSymlink → V p = Some (Link (op_Target o)) → blank (op_Target o) = false → says p o.

Definition made_of (e : StagedIndexEntry) (o : LocalCommitOperation) : Prop :=
  st_Path e = wr_DisplayPath (home e) +:+ "/" +:+ op_Path o ∧ safe_path (op_Path o) ∧ says (st_Path e) o.

Lemma relative_run r p : mount_path r → proper_path p → commitRepositoryRelativePath r (r +:+ "/" +:+ p) = Ok p.
Proof using.
  intros [Hr _] Hp. unfold commitRepositoryRelativePath. rewrite !Trim_proper by (done || by apply proper_app).
  rewrite bool_decide_eq_false_2 by by apply proper_ne. rewrite bool_decide_eq_false_2.
  - rewrite (proj2 (HasPrefix_spec _ _)) by (exists p; by rewrite str_app_assoc). cbn [negb]. rewrite <- str_app_assoc. by rewrite TrimPrefix_app.
  - intros E. apply (f_equal String.length) in E. rewrite !str_length_app in E. cbn in E. lia.
Qed.

Lemma operation_run e : fits e → ∃ o, localCommitOperationFromStagedEntry (wr_DisplayPath (home e)) e = Ok o ∧ made_of e o.
Proof using Hwk.
  intros [Hrec Hin _ (r & Er & Hr) Ht]. pose proof (ro_path _ (wk_repos Hwk _ Hin)) as Hm. unfold localCommitOperationFromStagedEntry, made_of.
  rewrite Er in *. rewrite (relative_run _ r Hm (sp_proper _ Hr)). cbn [rbind].
  destruct Hrec as [Hty HV|Hty HV|Hty HV|Hty HV].
  - rewrite bool_decide_eq_true_2 by done. eexists. split; [done|]. split_and!; [done..|]. by apply SaysFile.
  - rewrite Hty. decide_kind. eexists. split; [done|]. split_and!; [done..|]. by apply SaysDir.
  - rewrite Hty. decide_kind. rewrite (Ht Hty). eexists. split; [done|]. split_and!; [done..|]. by apply SaysLink; auto.
  - rewrite Hty. decide_kind. eexists. split; [done|]. split_and!; [done..|]. by apply SaysGone.
Qed.

(** ** The commit *)

(** The part of a commit for [repo]: the operations of its entries. *)
Record part_of (es : list StagedIndexEntry) (repo : WorkspaceRepository) (c : LocalCommitRepository) : Prop := {
  po_storage : cr_StorageID c = wr_StorageID repo;
  po_display : cr_DisplayPath c = wr_DisplayPath repo;
  po_url : cr_RepoURL c = wr_Source repo;
  po_branch : cr_Branch c = wr_Ref repo;
  po_base : cr_BaseCommit c = wr_CommitHash repo;
  po_made o : o ∈ cr_Operations c → ∃ e, e ∈ es ∧ home e = repo ∧ made_of e o;
  po_all e : e ∈ es → home e = repo → ∃ o, o ∈ cr_Operations c ∧ made_of e o }.

Lemma repository_run es g : Forall fits es → gr_Repository g ∈ included entries →
  gr_Entries g = filter (λ e, id_of e = wr_StorageID (gr_Repository g)) es →
  ∃ c, repository_commit g = Ok c ∧ part_of es (gr_Repository g) c.
Proof using Hwk.
  intros Hes Hin Hg. rewrite Forall_forall in Hes.
  assert (∀ e, e ∈ gr_Entries g ↔ e ∈ es ∧ home e = gr_Repository g) as Hel.
  { intros e. rewrite Hg, list_elem_of_filter. split.
    - intros [Hid He]. split; [done|]. apply same_storage; [by apply (Hes e)|done..].
    - intros [? ->]. done. }
  destruct (rmap_run (localCommitOperationFromStagedEntry (wr_DisplayPath (gr_Repository g))) made_of (gr_Entries g)) as (ops & Eops & Hops).
  { intros e [He <-]%Hel. by apply operation_run, Hes. }
  eexists. unfold repository_commit. rewrite Eops. cbn. split; [done|]. split; cbn; [done..| |].
  - intros o. rewrite elem_of_sort_slice. intros [i Hi]%list_elem_of_lookup. destruct (Forall2_lookup_r _ _ _ _ _ Hops Hi) as (e & He & Hm).
    apply list_elem_of_lookup_2, Hel in He as [He Hh']. by exists e.
  - intros e He Hh'. assert (e ∈ gr_Entries g) as [i Hi]%list_elem_of_lookup by by apply Hel.
    destruct (Forall2_lookup_l _ _ _ _ _ Hops Hi) as (o & Ho & Hm). exists o. split; [|done].
    rewrite elem_of_sort_slice. by eapply list_elem_of_lookup_2.
Qed.

Record commit_of (es : list StagedIndexEntry) (c : LocalVirtualCommit) : Prop := {
  co_storage : NoDup (cr_StorageID <$> lc_Repositories c);
  co_parts r : r ∈ lc_Repositories c → ∃ repo, repo ∈ included entries ∧ part_of es repo r;
  co_all e : e ∈ es → ∃ r, r ∈ lc_Repositories c ∧ part_of es (home e) r }.

Lemma build_run w es opts random : Forall fits es →
  ∃ c n, buildLocalVirtualCommit h w es opts random = Ok (c, n) ∧ commit_of es c ∧ lc_ID c = newLocalCommitID random ∧
    lc_LogicalBranch c = sm_GetCurrentLogicalBranch w ∧ lc_CreatedAt c = Some (w_now w) ∧ lc_Pushed c = false.
Proof using Hh Hwk.
  intros Hes. destruct (groups_run es) as (groups & Eg & Hnd & Hg & Hall).
  { eapply Forall_impl; [exact Hes|]. by intros e []. }
  destruct (rmap_run repository_commit (λ g c, part_of es (gr_Repository g) c) groups) as (cs & Ecs & Hcs).
  { intros g [Hin He]%Hg. by apply repository_run. }
  eexists _, _. unfold buildLocalVirtualCommit. rewrite Eg. cbn. rewrite Ecs. cbn. split; [done|]. split_and!; [|done..]. split; cbn.
  - rewrite sort_slice_perm. replace (cr_StorageID <$> cs) with (wr_StorageID <$> (gr_Repository <$> groups)); [done|].
    rewrite <- list_fmap_compose. clear -Hcs. induction Hcs as [|g c gs cs Hc _ IH]; [done|]. cbn. by rewrite IH, (po_storage _ _ _ Hc).
  - intros r. rewrite elem_of_sort_slice. intros [i Hi]%list_elem_of_lookup. destruct (Forall2_lookup_r _ _ _ _ _ Hcs Hi) as (g & Hgi & Hp).
    exists (gr_Repository g). split; [|done]. by apply (Hg g), list_elem_of_lookup_2 with i.
  - intros e He. apply Hall, list_elem_of_fmap in He as (g & -> & [i Hi]%list_elem_of_lookup).
    destruct (Forall2_lookup_l _ _ _ _ _ Hcs Hi) as (c & Hc & Hp). exists c. split; [|done]. rewrite elem_of_sort_slice. by eapply list_elem_of_lookup_2.
Qed.

(** ** The bundle *)

Definition pushed_part (c : LocalCommitRepository) : RepositoryBundle :=
  mkRepositoryBundle (cr_StorageID c) (cr_DisplayPath c) (TrimSpace (cr_RepoURL c)) (TrimSpace (cr_Branch c)) (TrimSpace (cr_BaseCommit c))
    (operation_of <$> cr_Operations c).

Lemma from_local es repo c byDisplayPath byStorage : repo ∈ included entries → part_of es repo c →
  sourceCommitRepositoryFromLocal byDisplayPath byStorage c = pushed_part c.
Proof using Hwk.
  intros Hin [Es Ed Eu Eb Ec _ _]. destruct (wk_repos Hwk _ Hin) as [Hp Hd Hs Hi Hu Hr Hc].
  assert (blank (wr_DisplayPath repo) = false) as Hbd by (apply blank_trimmed; [done|by apply mount_ne]).
  unfold sourceCommitRepositoryFromLocal, pushed_part. rewrite Es, Ed, Eu, Eb, Ec, Hi, Hu, Hr, Hc, Hbd, Hd, Hs.
  rewrite (bool_decide_eq_false_2 (_ ∧ _)); [done|]. intros [E _]. apply blank_ne in Hi. by rewrite Hs in Hi.
Qed.

Lemma proper_shape r : proper_path r → r ≠ "." ∧ r ≠ ".." ∧ HasPrefix r "../" = false.
Proof using.
  intros (es & Hne & Hes & ->). pose proof (Split_proper es Hne Hes) as Esp. split_and!.
  - intros E. rewrite E in Esp. subst es. apply Forall_cons in Hes as [(_ & ? & _) _]. done.
  - intros E. rewrite E in Esp. subst es. apply Forall_cons in Hes as [(_ & _ & ? & _) _]. done.
  - destruct (HasPrefix _ _) eqn:E; [|done]. apply HasPrefix_spec in E as [u E]. rewrite E in Esp.
    change ("../" +:+ u) with (".." +:+ str1 slash +:+ u) in Esp. rewrite Split_app_gen in Esp. subst es.
    apply Forall_cons in Hes as [(_ & _ & ? & _) _]. done.
Qed.

Lemma safe_run r : safe_path r → isSafeRelativePath r = true.
Proof using.
  intros [Hp _ Hg]. destruct (proper_shape r Hp) as (H1 & H2 & H3). pose proof (proper_ne r Hp) as H0. pose proof (proper_relative r Hp) as H4.
  unfold isSafeRelativePath. rewrite H4, Clean_of_proper, H3, Hg by done. by rewrite !bool_decide_eq_false_2 by by intros [?|?].
Qed.

Lemma safe_no_git r : safe_path r → no_git r.
Proof using.
  intros [_ _ Hg]. apply Forall_forall. intros part Hin ->. apply not_true_iff_false in Hg. apply Hg, existsb_exists. exists ".git".
  split; [by apply list_elem_of_In|by apply bool_decide_eq_true].
Qed.

Lemma validate_op es repo c id i o : part_of es repo c → o ∈ cr_Operations c → validateOperation id i (operation_of o) = Ok tt.
Proof using.
  intros Hp Ho. destruct (po_made _ _ _ Hp o Ho) as (e & _ & _ & _ & Hs & Hsay). unfold validateOperation.
  cbn [bo_Path bo_Kind bo_Target operation_of]. rewrite (sp_visible _ Hs), (safe_run _ Hs).
  destruct Hsay as [Hk _|Hk _|Hk _|Hk _ Ht]; rewrite Hk, ?Ht; by decide_kind.
Qed.

Lemma validate_ops es repo c id i ops : part_of es repo c → ops ⊆ cr_Operations c → validate_operations id i (operation_of <$> ops) = Ok tt.
Proof using.
  intros Hp. revert i. induction ops as [|o ops IH]; intros i Hops; [done|]. cbn.
  erewrite validate_op; [|done|apply Hops; left]. cbn. apply IH. intros x Hx. apply Hops. by right.
Qed.

Lemma validate_parts es strict j seen cs :
  (∀ c, c ∈ cs → ∃ repo, repo ∈ included entries ∧ part_of es repo c) → NoDup (cr_StorageID <$> cs) →
  (∀ c, c ∈ cs → cr_StorageID c ∉ seen) → validate_repositories strict j seen (pushed_part <$> cs) = Ok tt.
Proof using Hwk.
  revert j seen. induction cs as [|c cs IH]; intros j seen Hcs Hnd Hseen; [done|]. apply NoDup_cons in Hnd as [Hx Hnd].
  destruct (Hcs c ltac:(left)) as (repo & Hin & Hp). destruct (wk_repos Hwk _ Hin) as [Hpath Hd Hs Hi Hu Hr Hc].
  assert (blank (wr_DisplayPath repo) = false) as Hbd by (apply blank_trimmed; [done|by apply mount_ne]).
  cbn [fmap list_fmap validate_repositories pushed_part rb_StorageID rb_DisplayPath rb_RepoURL rb_Branch rb_BaseCommit rb_Operations].
  rewrite !blank_trim. rewrite (po_display _ _ _ Hp), (po_url _ _ _ Hp), (po_branch _ _ _ Hp), (po_base _ _ _ Hp), Hbd, Hu, Hr, Hc, !andb_false_r.
  rewrite (po_storage _ _ _ Hp), Hi, <- (po_storage _ _ _ Hp), bool_decide_eq_false_2 by (apply Hseen; left).
  rewrite (validate_ops es repo c) by done. cbn. apply IH; [intros x Hin'; apply Hcs; by right|done|].
  intros x Hin' [Ex%elem_of_singleton|Hsx]%elem_of_union; [|by apply (Hseen x); [right|]].
  apply Hx. change (cr_StorageID c ∈ cr_StorageID <$> cs). cbn [rb_StorageID pushed_part] in Ex. rewrite <- Ex. by apply list_elem_of_fmap_2.
Qed.

Lemma bundle_run es c workspaceID branch :
  commit_of es c → es ≠ [] → blank (lc_ID c) = false → blank workspaceID = false →
  ∃ sc, buildSourceCommitBundle h workspaceID branch [c] = Ok (mkCommitBundle workspaceID (TrimSpace (vh_principal h)) branch [sc]) ∧
    so_Repositories sc = pushed_part <$> lc_Repositories c ∧
    ∀ ws p, blank ws = false → Validate (mkCommitBundle ws p branch [sc]) = Ok tt.
Proof using Hh Hwk.
  intros [Hnd Hparts Hall] Hne Hid Hw. unfold buildSourceCommitBundle. rewrite metadata_run. cbn [rbind]. set (byS := foldl _ _ _).
  exists (source_commit metadata byS c).
  assert (so_Repositories (source_commit metadata byS c) = pushed_part <$> lc_Repositories c) as Er.
  { cbn. apply list_fmap_ext. intros i r Hr%list_elem_of_lookup_2. destruct (Hparts r Hr) as (repo & Hin & Hp). by eapply from_local. }
  assert (∀ ws p, blank ws = false → Validate (mkCommitBundle ws p branch [source_commit metadata byS c]) = Ok tt) as Hv.
  { intros ws p Hws. unfold Validate. cbn [cb_WorkspaceID cb_Commits]. rewrite Hws, bool_decide_eq_false_2 by done.
    cbn [validate_commits]. rewrite Er. cbn [so_ID source_commit]. rewrite Hid, bool_decide_eq_false_2 by set_solver.
    rewrite bool_decide_eq_false_2. 2:{ intros E%fmap_nil_inv. destruct es as [|e es]; [done|]. destruct (Hall e ltac:(left)) as (r & Hr & _).
      rewrite E in Hr. by apply not_elem_of_nil in Hr. }
    erewrite validate_parts; [done|exact Hparts|done|]. intros x _. set_solver. }
  split_and!; [|done..]. cbn [fmap list_fmap]. by rewrite Hv.
Qed.

End workspace.

(** ** Plans *)

Lemma plans_of_commit sc repos : NoDup (plan_key <$> repos) →
  let m := foldl (extend_plan sc) ∅ repos in
  (∀ k plan, m !! k = Some plan → pl_repo plan ∈ repos ∧ plan_key (pl_repo plan) = k ∧ pl_operations plan = rb_Operations (pl_repo plan)) ∧
  (∀ r, r ∈ repos → ∃ plan, m !! plan_key r = Some plan ∧ pl_repo plan = r).
Proof.
  induction repos as [|r repos IH] using rev_ind; intros Hnd; cbn zeta.
  { cbn. split; [by intros k plan ?%lookup_empty_Some|by intros r ?%not_elem_of_nil]. }
  rewrite fmap_app in Hnd. apply NoDup_app in Hnd as (Hnd & Hx & _). destruct (IH Hnd) as [H1 H2]. rewrite foldl_app. cbn [foldl].
  set (m := foldl _ ∅ repos) in *. assert (m !! plan_key r = None) as Hno.
  { destruct (m !! plan_key r) as [plan|] eqn:E; [|done]. destruct (H1 _ _ E) as (Hin & Ek & _). destruct (Hx (plan_key r)); [|by left].
    rewrite <- Ek. by apply list_elem_of_fmap_2. }
  unfold extend_plan. rewrite Hno. cbn [default]. split.
  - intros k plan. rewrite lookup_insert_Some. intros [[<- <-]|[Hne Hk]]; cbn; [split_and!; [apply elem_of_app; right; left|done..]|].
    destruct (H1 _ _ Hk) as (? & ? & ?). split_and!; [apply elem_of_app; by left|done..].
  - intros x [Hin|Hin]%elem_of_app.
    + destruct (H2 x Hin) as (plan & Hp & E). exists plan. split; [|done]. rewrite lookup_insert_ne; [done|]. congruence.
    + apply list_elem_of_singleton in Hin as ->. eexists. by rewrite lookup_insert_eq.
Qed.

(** A bundle of one commit has a plan for each repository of it, with its
    operations. *)
Lemma plans_run `{Hsort : GoSort, Hrange : GoRange} ws p branch sc :
  (∀ r, r ∈ so_Repositories sc → blank (rb_StorageID r) = false) → NoDup (rb_StorageID <$> so_Repositories sc) →
  let plans := sourcePushRepositoryPlans (mkCommitBundle ws p branch [sc]) in
  NoDup ((λ plan, rb_StorageID (pl_repo plan)) <$> plans) ∧
  (∀ plan, plan ∈ plans → pl_repo plan ∈ so_Repositories sc ∧ pl_operations plan = rb_Operations (pl_repo plan)) ∧
  (∀ r, r ∈ so_Repositories sc → ∃ plan, plan ∈ plans ∧ pl_repo plan = r).
Proof.
  intros Hb Hnd. unfold sourcePushRepositoryPlans. cbn [cb_Commits]. unfold collect_plans. cbn [foldl].
  assert (∀ r, r ∈ so_Repositories sc → plan_key r = rb_StorageID r) as Hk by (intros r Hr; unfold plan_key; by rewrite (Hb r Hr)).
  destruct (plans_of_commit sc (so_Repositories sc)) as [H1 H2].
  { erewrite list_fmap_ext; [exact Hnd|]. intros i r Hr%list_elem_of_lookup_2. by apply Hk. }
  set (m := foldl _ ∅ _) in *. cbn zeta.
  assert (∀ plan, plan ∈ (range 0 m).*2 ↔ ∃ k, m !! k = Some plan) as Hel.
  { intros plan. rewrite list_elem_of_fmap. split; [intros ([k x] & -> & Hx%elem_of_range); by exists k|].
    intros [k Hx]. exists (k, plan). split; [done|by apply elem_of_range]. }
  split_and!.
  - rewrite sort_slice_perm, <- list_fmap_compose. erewrite list_fmap_ext; [apply (NoDup_range_keys 0 m)|].
    intros i [k plan] Hi%list_elem_of_lookup_2%elem_of_range. cbn. destruct (H1 _ _ Hi) as (Hin & <- & _). symmetry. by apply Hk.
  - intros plan. rewrite elem_of_sort_slice, Hel. intros [k Hp]. by destruct (H1 _ _ Hp) as (? & _ & ?).
  - intros r Hr. destruct (H2 r Hr) as (plan & Hp & E). exists plan. split; [|done]. rewrite elem_of_sort_slice, Hel. eauto.
Qed.
