(* ===== verification/Publish.v ===== *)
(** * From the mount to the repositories

    The path of a change through all the parts: a session of a mount, adding
    and committing its changes, the bundle, and the push by the fetcher.  What
    arrives in a repository are the files and links the mount shows. *)

From stdpp Require Import options.
From S2P Require Import Prelude GoStrings GoUnicode GoSort GoRange GoPath GoTree Sharding Overlay Session Mount Merge3 MountProps MountView MountReports.
From S2P Require Import MountIndex PullMerge Bundle SourcePush GitIndex Staging BundleProps SourcePushProps StagingProps CommitProps CommitBundle.

(** ** Committing *)

Definition with_commits (m : gmap string LocalVirtualCommit) (d : OverlayDB) : OverlayDB :=
  mkOverlay (files d) (deleted d) (userdirs d) (staged d) m (branches d) (conflicts d).

Section commit.
Context `{Hsort : GoSort, Hrange : GoRange, Hfold : UnicodeFold, Hlower : UnicodeLower}.
Context (h : vcs_handler) (manifest : WorkspaceManifest) (entries : list WorkspaceManifestEntry).
Context (Hh : vh_workspace h = Some (manifest, Some entries)) (Hwk : workspace_ok entries).
Context (base : string) (Hbase : rooted_path base).

Lemma put_commit_run w s d c : running w s d → TrimSpace (lc_ID c) = lc_ID c → lc_ID c ≠ "" → lc_CreatedAt c = Some (w_now w) →
  sm_PutLocalVirtualCommit c w = (with_state (with_commits (<[lc_ID c := c]> (commits d)) d) (w_disk w) w, Ok tt).
Proof using.
  intros Hr Ht Hne Hc. unfold sm_PutLocalVirtualCommit. run. eapply guarded_run; [done|]. unfold PutLocalVirtualCommit. cbn [lc_ID].
  rewrite !Ht, bool_decide_eq_false_2 by done. destruct c; cbn in *. by subst.
Qed.

Lemma clear_run w s d : running w s d → sm_ClearStagedEntries w = (with_state (ClearStagedEntries d) (w_disk w) w, Ok tt).
Proof using. intros Hr. by eapply guarded_run. Qed.

(** Committing an index whose entries stand: the commit is made of them, they
    become the baseline, and the index is empty. *)
Lemma commit_run V w s d opts random :
  running w s d → ws_BasePath s = base → well_formed (w_disk w) →
  let es := sm_ListStagedEntries w in
  es ≠ [] → NoDup (st_Path <$> es) → Forall (fits entries V) es → Forall (λ e, proper_path (st_Path e) ∧ stands base w d e) es →
  TrimSpace (newLocalCommitID random) = newLocalCommitID random →
  ∃ c n w', CommitChanges h opts random w = (w', Ok (mkCommitResult (length (lc_Repositories c)) n (lc_ID c))) ∧
    commit_of entries V es c ∧ lc_ID c = newLocalCommitID random ∧ lc_LogicalBranch c = sm_GetCurrentLogicalBranch w ∧ lc_Pushed c = false ∧
    ∃ d', w' = with_state d' (w_disk w) w ∧
      files d' = files (foldl (advance base w) d es) ∧ deleted d' = deleted (foldl (advance base w) d es) ∧
      userdirs d' = userdirs d ∧ staged d' = ∅ ∧ commits d' = <[lc_ID c := c]> (commits d) ∧ branches d' = branches d ∧ conflicts d' = conflicts d.
Proof using Hh Hwk Hbase.
  intros Hr Hb Hw es Hne Hnd Hfit Hst Hid.
  destruct (build_run h manifest entries Hh Hwk V w es opts random Hfit) as (c & n & Ec & Hc & Eid & Ebr & Eat & Epu).
  set (d1 := with_commits (<[lc_ID c := c]> (commits d)) d). set (w1 := with_state d1 (w_disk w) w).
  assert (running w1 s d1) as Hr1 by by eapply running_state.
  assert (advanceOverlayBaseline es w1 = (with_state (foldl (advance base w1) d1 es) (w_disk w1) w1, Ok tt)) as Ea.
  { eapply advance_run; [done..|]. eapply Forall_impl; [exact Hst|]. intros e [Hp Hs]. split; [done|].
    destruct Hs as [?|?|?|?]; [by apply StandsGone|by apply StandsFile|by apply StandsDir|by apply StandsLink]. }
  set (d2 := foldl (advance base w1) d1 es) in *. set (w2 := with_state d2 (w_disk w1) w1) in *.
  assert (running w2 s d2) as Hr2 by by eapply running_state.
  eexists c, n, _. split.
  - unfold CommitChanges. run. rewrite bool_decide_eq_true_2 by (destruct Hr as (_ & -> & _); by eexists). cbn [negb]. fold es.
    destruct es as [|e es'] eqn:Ees; [done|]. rewrite Ec.
    erewrite tryM_run by (eapply lift_run, put_commit_run; [exact Hr|by rewrite Eid|by rewrite Eid|done]). fold d1 w1.
    erewrite bind_run by exact Ea. cbv beta iota. erewrite tryM_run by (by eapply lift_run, clear_run). reflexivity.
  - split_and!; [done..|]. exists (ClearStagedEntries d2). cbn.
    destruct (fold_vcs base w1 d1 es) as (E0 & _ & E3 & E4 & E5). destruct (fold_same base w1 d1 d es eq_refl eq_refl) as [E1 E2].
    split_and!; [done|exact E1|exact E2|exact E0|done|exact E3|exact E4|exact E5].
Qed.

End commit.

(** ** What can be published *)

Section changes.
Context `{Hfold : UnicodeFold} (entries : list WorkspaceManifestEntry) (Hwk : workspace_ok entries).
Context (backend V : string → option node).

(** A change of a session that can be published: it lies in a repository, its
    path and the target of its link have no space around them, no conflict
    marker is left in it, no file or link becomes a directory, no link a
    file, and nothing is removed from below what has become a file. *)
Record publishable (p : string) : Prop := {
  pb_repo : ∃ repo r, repository_of entries p = Some repo ∧ p = wr_DisplayPath repo +:+ "/" +:+ r ∧ safe_path r;
  pb_trim : TrimSpace p = p;
  pb_target x : V p = Some (Link x) → TrimSpace x = x ∧ x ≠ "";
  pb_markers x : V p = Some (File x) → hasConflictMarkers x = false;
  pb_new : V p = Some Directory → no_file (backend p);
  pb_file x l : V p = Some (File x) → backend p ≠ Some (Link l);
  pb_gone : V p = None → ∀ q, q ∈ parents p → no_file (backend q) ∧ no_file (V q) }.

Context (es : list StagedIndexEntry) (Hpub : ∀ e, e ∈ es → publishable (st_Path e)) (Hfits : Forall (fits entries V) es).
Context (Hext : extends backend V) (Hall : ∀ p, mount_path p → V p ≠ backend p → p ∈ st_Path <$> es).

Lemma in_mount repo r : repo ∈ included entries → proper_path r → mount_path (wr_DisplayPath repo +:+ "/" +:+ r).
Proof using Hwk.
  intros Hin Hr. destruct (ro_path _ (wk_repos _ Hwk _ Hin)) as (Hp & Hne & Hb). split_and!.
  - by apply proper_app.
  - intros E. assert (has_byte slash (wr_DisplayPath repo +:+ "/" +:+ r) = true) as Hs by (rewrite !has_byte_app; by rewrite orb_true_r).
    by rewrite E in Hs.
  - apply not_true_is_false. intros [u E]%below_spec.
    destruct (cut_at_slash _ _ _ _ E) as [(v & Ev & _)|[[Ed _]|[v Ev]]].
    + assert (has_byte slash "overlay.db" = true) as Hs by (rewrite Ev, !has_byte_app; by rewrite orb_true_r). done.
    + by destruct Hne.
    + by rewrite (proj2 (below_spec _ _)) in Hb by by exists v.
Qed.

Lemma in_parents d r q : q ∈ parents r → d +:+ "/" +:+ q ∈ parents (d +:+ "/" +:+ r).
Proof using.
  rewrite !parents_spec. intros [Hq [u ->]]. split; [|exists u; by rewrite !str_app_assoc].
  intros E. apply (f_equal String.length) in E. rewrite !str_length_app in E. cbn in E. lia.
Qed.

Section repository.
Context (repo : WorkspaceRepository) (Hin : repo ∈ included entries).
Abbreviation in_repo f := (λ r, f (wr_DisplayPath repo +:+ "/" +:+ r)).

(** Where the mount differs from the cluster there is an entry. *)
Lemma entry_there r : proper_path r → V (wr_DisplayPath repo +:+ "/" +:+ r) ≠ backend (wr_DisplayPath repo +:+ "/" +:+ r) →
  ∃ e, e ∈ es ∧ home entries e = repo ∧ st_Path e = wr_DisplayPath repo +:+ "/" +:+ r.
Proof using Hall Hfits Hin Hwk.
  intros Hr Hne. apply Hall in Hne; [|by apply in_mount]. apply list_elem_of_fmap in Hne as (e & Ep & He).
  exists e. split_and!; [done| |done]. rewrite Forall_forall in Hfits. destruct (Hfits e He) as [_ Hhome _ (r' & Er & _) _].
  rewrite Er in Ep. by destruct (same_repository entries Hwk _ _ _ _ Hin Hhome Ep) as [-> _].
Qed.

Lemma reachable_repo : reachable (in_repo backend) (in_repo V).
Proof using Hall Hext Hfits Hin Hpub Hwk.
  destruct Hext as [Htree Hdir]. split.
  - intros r n q Hr Hn Hq. by eapply Htree; [apply in_mount| |apply in_parents].
  - intros r Hr. by apply Hdir, in_mount.
  - intros r Hr Hd. destruct (decide (V (wr_DisplayPath repo +:+ "/" +:+ r) = backend (wr_DisplayPath repo +:+ "/" +:+ r))) as [E|E].
    + right. by rewrite <- E.
    + destruct (entry_there r Hr E) as (e & He & _ & Ep). rewrite <- Ep in *. by apply (pb_new _ (Hpub e He)).
  - intros r x l Hr Hf. destruct (decide (V (wr_DisplayPath repo +:+ "/" +:+ r) = backend (wr_DisplayPath repo +:+ "/" +:+ r))) as [E|E].
    + rewrite <- E, Hf. done.
    + destruct (entry_there r Hr E) as (e & He & _ & Ep). rewrite <- Ep in *. by eapply (pb_file _ (Hpub e He)).
Qed.

Lemma describes_repo c : part_of entries V es repo c → Forall (describes (in_repo backend) (in_repo V)) (operation_of <$> cr_Operations c).
Proof using Hpub.
  intros Hp. apply Forall_fmap, Forall_forall. intros o Ho. destruct (po_made _ _ _ _ _ Hp o Ho) as (e & He & Hh & Ep & Hs & Hsay).
  cbn. rewrite Hh in Ep. split_and!; [apply (sp_proper _ Hs)|by apply safe_no_git|]. cbn. rewrite <- Ep.
  destruct Hsay as [Hk HV|Hk HV|Hk HV|Hk HV _]; rewrite Hk; [by left|right; left|by right; right; left|by right; right; right].
  split_and!; [done..|]. intros q Hq. apply (pb_gone _ (Hpub e He) HV). rewrite Ep. by apply in_parents.
Qed.

(** The operations of the commit make a clone of the cluster's content one of
    what the mount shows. *)
Lemma repository_reached c root t : rooted_path root → part_of entries V es repo c → clone_of root (in_repo backend) t →
  ∃ t', applyRepositoryOperations root (operation_of <$> cr_Operations c) ([], t) = ([], t', true) ∧ clone_of root (in_repo V) t'.
Proof using Hall Hext Hfits Hin Hpub Hwk.
  intros Hroot Hp Hc. apply (clone_reached root Hroot (in_repo backend)); [apply reachable_repo|by apply describes_repo| |done].
  intros r Hr _ Hne. destruct (entry_there r Hr Hne) as (e & He & Hh & Ep). destruct (po_all _ _ _ _ _ Hp e He Hh) as (o & Ho & Em & _).
  rewrite Hh, Ep in Em. assert (r = op_Path o) as -> by by destruct (same_repository entries Hwk _ _ _ _ Hin Hin Em).
  rewrite <- list_fmap_compose. apply (list_elem_of_fmap_2 (bo_Path ∘ operation_of) _ o Ho).
Qed.

End repository.
End changes.

(** ** Adding and committing a session *)

Section session.
Context `{Hsort : GoSort, Hrange : GoRange, Hfold : UnicodeFold, Hlower : UnicodeLower}.
Context (h : vcs_handler) (manifest : WorkspaceManifest) (entries : list WorkspaceManifestEntry).
Context (Hh : vh_workspace h = Some (manifest, Some entries)) (Hwk : workspace_ok entries) (Hmgr : vh_commitMgr h = true).
Context (backend : string → option node) (base : string) (Hbase : rooted_path base).
Context (R : gset string) (w : World) (s : WriteSession) (d : OverlayDB) (Hok : session_ok backend base ∅ R w s d).
Context (Hvcs : vcs_part d = (∅, ∅, ∅, ∅)).

Abbreviation V := (view backend base ∅ d (w_disk w)).

(** A request that names every change, and nothing without one. *)
Definition covers (paths : list string) (changes : list Change) : Prop :=
  ∃ ps, normalizeRequestedSessionPaths paths = Ok ps ∧
    (∀ p, p ∈ ps → ∃ c, c ∈ changes ∧ requested p (classifySessionChange h c) = true) ∧
    (∀ c, c ∈ changes → ∃ p, p ∈ ps ∧ requested p (classifySessionChange h c) = true).

Context (Hpub : ∀ c, c ∈ GetChanges w → publishable entries backend V (ch_Path c)).

Lemma no_user_root p : user_root ∅ p = false.
Proof using. apply bool_decide_eq_false. by intros [_ [? ?]]. Qed.

Lemma published_slash p : publishable entries backend V p → has_byte slash p = true.
Proof using. intros [(repo & r & _ & -> & _) _ _ _ _ _ _]. rewrite !has_byte_app. by rewrite orb_true_r. Qed.

Lemma change_stageable c : c ∈ GetChanges w → stageable base V (w_disk w) c ∧ is_Some (repository_of entries (ch_Path c)) ∧ mount_path (ch_Path c).
Proof using Hok Hpub.
  intros Hc. pose proof (Hpub c Hc) as Hp. pose proof (published_slash _ Hp) as Hs. pose proof Hok as (_ & _ & _ & _ & G).
  destruct (change_shown backend base ∅ R w s d Hok c Hc Hs (no_user_root _)) as [Hsh Hd].
  assert (mount_path (ch_Path c)) as Hm.
  { apply (g_keys _ _ _ _ _ _ G). destruct (GetChanges_elem base d (g_reported _ _ _ _ _ _ G) w s c) as [[? _]|[? _]]; [|done|by left|by right].
    by eapply running_active, ok_running. }
  destruct Hp as [(repo & r & Hr & _) Ht Hl Hmk _ _ _]. split_and!; [|by exists repo|done]. split; try done. by apply mount_ne.
Qed.

(** The entry of a change in the index. *)
Lemma captured_entry c e : c ∈ GetChanges w → captures base V w (classifySessionChange h c) e →
  st_Path e = ch_Path c ∧ fits entries V e ∧ mount_path (st_Path e) ∧ stands base w d e.
Proof using Hh Hok Hpub Hwk.
  intros Hc He. pose proof (Hpub c Hc) as Hp. destruct (change_stageable c Hc) as (_ & _ & Hm).
  destruct (pb_repo _ _ _ _ Hp) as (repo & r & Hrepo & Er & Hs). pose proof (classify_in h manifest entries Hh c repo Hrepo) as Ecl.
  rewrite Ecl in He. pose proof (ca_path _ _ _ _ _ He) as Ep. cbn in Ep. destruct (repository_of_spec entries _ _ Hrepo) as [Hin _].
  assert (home entries e = repo) as Ehome by (eapply home_in; [done..|apply (ca_repository _ _ _ _ _ He)]).
  split_and!; [done| |by rewrite Ep|].
  - split.
    + apply (ca_records _ _ _ _ _ He).
    + by rewrite Ehome.
    + rewrite Ehome. apply (ca_repository _ _ _ _ _ He).
    + exists r. by rewrite Ehome, Ep.
    + intros Hty. pose proof (ca_records _ _ _ _ _ He) as Hrec. rewrite Hty in Hrec.
      destruct Hrec as [[? ?]%file_not_dir|?|_ HV|?]; [naive_solver|done| |done]. rewrite Ep in HV.
      destruct (pb_target _ _ _ _ Hp _ HV). by apply blank_trimmed.
  - eapply (captured_stands backend base ∅ R w s d Hok); [..|exact He]; [done|cbn; by eapply published_slash|apply no_user_root].
Qed.

Lemma captured_entries cs es : cs ⊆ GetChanges w → Forall2 (captures base V w) (classifySessionChange h <$> cs) es →
  st_Path <$> es = ch_Path <$> cs ∧ Forall (λ e, fits entries V e ∧ mount_path (st_Path e) ∧ stands base w d e) es.
Proof using Hh Hok Hpub Hwk.
  revert es. induction cs as [|c cs IH]; intros es Hcs Hes.
  { apply Forall2_nil_inv_l in Hes as ->. done. }
  cbn in Hes. apply Forall2_cons_inv_l in Hes as (e & es' & He & Hes & ->).
  destruct (captured_entry c e (Hcs c ltac:(left)) He) as (Ep & H1 & H2 & H3).
  destruct (IH es' ltac:(intros x Hx; apply Hcs; by right) Hes) as [Eps Hall]. split; [cbn; by rewrite Ep, Eps|by constructor].
Qed.

(** After adding the changes the index has an entry for each of them. *)
Lemma changes_added paths : GetChanges w ≠ [] → covers paths (GetChanges w) →
  ∃ m infos, handleAdd h paths w = (with_state (with_index m d) (w_disk w) w, Ok infos) ∧
    let es := sm_ListStagedEntries (with_state (with_index m d) (w_disk w) w) in
    st_Path <$> es ≡ₚ ch_Path <$> GetChanges w ∧ Forall (λ e, fits entries V e ∧ mount_path (st_Path e) ∧ stands base w d e) es.
Proof using Hbase Hh Hok Hpub Hvcs Hwk.
  intros Hne (ps & Hps & Hreq & Hcov). pose proof (ok_running _ _ _ _ _ _ _ Hok) as Hr. pose proof Hok as (_ & _ & _ & _ & G).
  assert (staged d = ∅ ∧ conflicts d = ∅) as [Est Ecf] by (by injection Hvcs).
  assert (NoDup (ch_Path <$> GetChanges w)) as Hnd.
  { eapply GetChanges_NoDup; [apply (g_reported _ _ _ _ _ _ G)|apply (g_disjoint _ _ _ _ _ _ G)|by eapply running_active]. }
  destruct (add_run h manifest entries Hh base V w s d paths ps) as (cs & es & Eadd & Hcs & Hes0);
    [done|done|apply (g_wf _ _ _ _ _ _ G)|done|done|done| |done|done|done|].
  { intros c Hc. by destruct (change_stageable c Hc) as (? & ? & _). }
  destruct (captured_entries cs es) as [Ep Hes]; [intros c; by rewrite Hcs|done|]. rewrite Est in Eadd.
  eexists _, _. split; [exact Eadd|]. cbn zeta.
  assert (sm_ListStagedEntries (with_state (with_index (index_of es ∅) d) (w_disk w) w) ≡ₚ es) as Hls.
  { unfold sm_ListStagedEntries. erewrite running_active by (by eapply running_state). apply list_index; [done|by rewrite Ep, Hcs|].
    eapply Forall_impl; [exact Hes|]. intros e (_ & Hm & _). by apply mount_ne. }
  rewrite Hls. split; [by rewrite Ep, Hcs|done].
Qed.

(** The changes are added and committed: nothing is left to stage, the mount
    shows what it showed, and the commit is made of entries for exactly the
    changes. *)
Lemma session_committed paths mode opts random :
  GetChanges w ≠ [] → covers paths (GetChanges w) → TrimSpace (newLocalCommitID random) = newLocalCommitID random →
  ∃ w2 w3 infos result es c d3,
    handleAdd h paths w = (w2, Ok infos) ∧ handleCommit h mode "" opts random w2 = (w3, (mode, Ok result)) ∧
    GetChanges w3 = [] ∧ running w3 s d3 ∧ userdirs d3 = ∅ ∧ branches d3 = ∅ ∧ commits d3 = {[lc_ID c := c]} ∧
    (∀ p, view backend base ∅ d3 (w_disk w3) p = V p) ∧
    lc_ID c = newLocalCommitID random ∧ lc_LogicalBranch c = "" ∧ lc_Pushed c = false ∧
    commit_of entries V es c ∧ Forall (fits entries V) es ∧ st_Path <$> es ≡ₚ ch_Path <$> GetChanges w.
Proof using All.
  intros Hne Hcov Hid. pose proof (ok_running _ _ _ _ _ _ _ Hok) as Hr. pose proof Hok as (_ & _ & Hb & _ & G).
  assert (commits d = ∅ ∧ branches d = ∅ ∧ conflicts d = ∅) as (Eco & Ebr & Ecf) by (by injection Hvcs).
  destruct (changes_added paths Hne Hcov) as (m & infos & Eadd & Ep & Hes). set (d2 := with_index m d) in *.
  set (w2 := with_state d2 (w_disk w) w) in *. assert (running w2 s d2) as Hr2 by by eapply running_state.
  set (es := sm_ListStagedEntries w2) in *. assert (NoDup (st_Path <$> es)) as Hnd.
  { rewrite Ep. eapply GetChanges_NoDup; [apply (g_reported _ _ _ _ _ _ G)|apply (g_disjoint _ _ _ _ _ _ G)|by eapply running_active]. }
  assert (Forall (fits entries V) es ∧ Forall (stands base w d) es) as [Hfit Hst] by (split; eapply Forall_impl; try exact Hes; naive_solver).
  destruct (commit_run h manifest entries Hh Hwk base Hbase V w2 s d2 opts random)
    as (c & n & w3 & Ec & Hcm & Eid & Ebr3 & Epu & d3 & -> & Ef & Ed & Eu & _ & Ec3 & Eb3 & _); fold es;
    [done|done|apply (g_wf _ _ _ _ _ _ G)| |done|done| |done|].
  { intros E. rewrite E in Ep. symmetry in Ep. apply Permutation_nil_r, fmap_nil_inv in Ep. done. }
  { eapply Forall_impl; [exact Hes|]. intros e (_ & [Hp _] & Hs). split; [done|].
    destruct Hs; [by apply StandsGone|by apply StandsFile|by apply StandsDir|by apply StandsLink]. }
  destruct (fold_same base w d2 d es eq_refl eq_refl) as [E1 E2].
  assert (files d3 = files (foldl (advance base w) d es)) as Ef' by by rewrite Ef, <- E1.
  assert (deleted d3 = deleted (foldl (advance base w) d es)) as Ed' by by rewrite Ed, <- E2.
  exists w2, (with_state d3 (w_disk w2) w2), infos. eexists _. exists es, c, d3. split_and!; try done.
  - unfold handleCommit. rewrite Hmgr. cbn [negb]. run. unfold HasSessionConflicts. rewrite (running_active _ _ _ Hr2). cbn [conflicts d2 with_index]. rewrite Ecf.
    rewrite bool_decide_eq_false_2 by naive_solver. rewrite bool_decide_eq_true_2 by done. by run Ec.
  - eapply (no_changes_left base w d es); [done|done| |by eapply running_active, running_state|done|done].
    intros p Hp. rewrite Ep. eapply GetChanges_all; [apply (g_reported _ _ _ _ _ _ G)|by eapply running_active|done].
  - by eapply running_state.
  - rewrite Eu. apply (g_ud _ _ _ _ _ _ G).
  - by rewrite Eb3.
  - rewrite Ec3. cbn. rewrite Eco. apply insert_empty.
  - intros p. rewrite <- (view_advanced backend base ∅ w d es Hnd Hst V p); [|done|].
    + unfold view. by rewrite Ef', Ed'.
    + eapply Forall_impl; [exact Hfit|]. intros e Hf. split; [apply no_user_root|apply Hf].
  - rewrite Ebr3. unfold sm_GetCurrentLogicalBranch. rewrite (running_active _ _ _ Hr2). unfold GetCurrentLogicalBranch. cbn. by rewrite Ebr.
Qed.

End session.

(** ** Pushing *)

Section push.
Context `{Hsort : GoSort, Hrange : GoRange, Hfold : UnicodeFold, Hlower : UnicodeLower}.
Context (entries : list WorkspaceManifestEntry) (Hwk : workspace_ok entries) (backend : string → option node).

Abbreviation in_repo repo f := (λ r, f (wr_DisplayPath repo +:+ "/" +:+ r)).
Abbreviation git_of pw repo := (pw_gits pw (wr_StorageID repo) O).

(** Git does what it documents, and a clone whose head is the commit the
    cluster shows has the content the cluster shows.  [ignored] are the paths
    that git ignores, by repository. *)
Definition clones (ignored : string → string → bool) (pw : push_world) : Prop :=
  ∀ repo, repo ∈ included entries → rooted_path (ga_root (git_of pw repo)) ∧ git_documented (ignored (wr_StorageID repo)) (git_of pw repo) ∧
    ∀ t, ga_clone (git_of pw repo) = Ok t → ga_head (git_of pw repo) = Some (TrimSpace (wr_CommitHash repo)) →
         clone_of (ga_root (git_of pw repo)) (in_repo repo backend) t.

(** The files and links of a repository, where git looks. *)
Definition files_of (repo : WorkspaceRepository) (ignored : string → string → bool) (V : string → option node) (ix : index) : Prop :=
  ∀ r, proper_path r → no_git r → ignored (wr_StorageID repo) r = false → ix !! r = versioned (V (wr_DisplayPath repo +:+ "/" +:+ r)).

(** What arrives in a repository with a change. *)
Lemma repository_pushed V es c ws p sc ignored pw answer remote e :
  (∀ e, e ∈ es → publishable entries backend V (st_Path e)) → Forall (fits entries V) es → extends backend V →
  (∀ p, mount_path p → V p ≠ backend p → p ∈ st_Path <$> es) →
  commit_of entries V es c → so_Repositories sc = pushed_part <$> lc_Repositories c →
  clones ignored pw → pw_cancelled pw = (λ _, false) →
  PushWorkspaceCommitBundle pw (mkCommitBundle ws p "" [sc]) MODE_SQUASH = (Some answer, remote) → e ∈ es →
  let repo := home entries e in
  ∃ ix, files_of repo ignored V ix ∧ ((wr_StorageID repo, ix) ∈ remote ∨ ix = ga_index (git_of pw repo)).
Proof using Hwk.
  intros Hpub Hfits Hext Hall [Hnd Hparts Hco] Esc Hcl Hcan Hpush He repo.
  destruct (push_returned pw (mkCommitBundle ws p "" [sc]) MODE_SQUASH _ _ eq_refl Hcan Hpush) as (branch & b & Ec & _ & Hjob & ->).
  assert (∀ x, x ∈ so_Repositories sc → blank (rb_StorageID x) = false) as Hbl.
  { rewrite Esc. intros x (r & -> & Hr)%list_elem_of_fmap. destruct (Hparts r Hr) as (rp & Hin & Hp). cbn.
    rewrite (po_storage _ _ _ _ _ Hp). apply (ro_id _ (wk_repos _ Hwk _ Hin)). }
  destruct (plans_run ws p "" sc Hbl) as (Hids & Hpl & Hrep); [by rewrite Esc, <- list_fmap_compose|].
  assert (sourcePushRepositoryPlans b = sourcePushRepositoryPlans (mkCommitBundle ws p "" [sc])) as Eb by (unfold sourcePushRepositoryPlans; by rewrite Ec).
  rewrite <- Eb in Hids, Hpl, Hrep.
  destruct (Hco e He) as (r & Hr & Hp). fold repo in Hp. rewrite Forall_forall in Hfits.
  assert (repo ∈ included entries) as Hin by apply (Hfits e He).
  destruct (Hrep (pushed_part r)) as (plan & Hplan & Epl); [rewrite Esc; by apply list_elem_of_fmap_2|].
  destruct (Hpl plan Hplan) as [_ Eops]. rewrite Epl in Eops. cbn in Eops.
  destruct (squash_sound branch (λ id, pw_gits pw id O) (pw_rolls pw) b Hids Hjob plan Hplan) as [Hnil|(cloned & t & ix & ok & Hc & Hh & Ha & Hst & Hl)].
  { destruct (po_all _ _ _ _ _ Hp e He eq_refl) as (o & Ho & _). rewrite Hnil in Eops. symmetry in Eops. apply fmap_nil_inv in Eops.
    rewrite Eops in Ho. by apply not_elem_of_nil in Ho. }
  rewrite Epl in *. cbn [rb_StorageID rb_BaseCommit pushed_part] in *. rewrite (po_storage _ _ _ _ _ Hp), (po_base _ _ _ _ _ Hp), Eops in *.
  destruct (Hcl repo Hin) as (Hroot & Hgit & Hclone). specialize (Hclone cloned Hc Hh). rewrite <- Forall_forall in Hfits.
  destruct (repository_reached entries Hwk backend V es Hpub Hfits Hext Hall repo Hin r _ _ Hroot Hp Hclone) as (t' & Ea & Ht').
  rewrite Ea in Ha. injection Ha as <-. exists ix. split.
  - intros r' Hr' Hg' Hi. rewrite (staged_as _ _ Hgit _ _ _ _ r' Hst), Hi. unfold content. by rewrite <- (cl_at _ _ _ Ht' r').
  - destruct ok; [left; by apply Hl|right]. by apply (staged_index _ _ Hgit _ _ _ _ Hst).
Qed.

End push.

(** ** Trees that agree on the paths of the mount *)

Section agree.
Context (V V' : string → option node) (HV : ∀ q, mount_path q → V q = V' q).

Lemma publishable_same `{UnicodeFold} entries backend p : mount_path p → publishable entries backend V p → publishable entries backend V' p.
Proof using HV.
  intros Hm [Hr Ht Hl Hmk Hn Hf Hg]. rewrite (HV p Hm) in *. split; try done. intros E q Hq. rewrite <- HV by by eapply parents_mount. by apply Hg.
Qed.

Lemma extends_same backend : extends backend V → extends backend V'.
Proof using HV.
  intros [Ht Hd]. split.
  - intros p n q Hp. rewrite <- (HV p Hp). intros Hn Hq. rewrite <- HV by by eapply parents_mount. by eapply Ht.
  - intros p Hp. rewrite <- (HV p Hp). by apply Hd.
Qed.

Lemma files_same entries repo ignored ix : workspace_ok entries → repo ∈ included entries →
  files_of repo ignored V ix → files_of repo ignored V' ix.
Proof using HV. intros Hwk Hin Hf r Hp Hg Hi. rewrite (Hf r Hp Hg Hi), HV; [done|]. by eapply in_mount. Qed.

End agree.

Lemma pending_one `{Hsort : GoSort} w s d c : running w s d → commits d = {[lc_ID c := c]} → lc_ID c ≠ "" → lc_Pushed c = false →
  lc_LogicalBranch c = "" → pendingLocalCommitsForBranch w "" = [c].
Proof.
  intros Hr Hc Hid Hp Hb. unfold pendingLocalCommitsForBranch, sm_ListLocalVirtualCommits. rewrite (running_active _ _ _ Hr).
  assert (ListLocalVirtualCommits d = [c]) as ->.
  { apply Permutation_singleton_r. unfold ListLocalVirtualCommits. rewrite sort_slice_perm, entries_of_perm, Hc, map_to_list_singleton. cbn.
    by rewrite bool_decide_eq_false_2. }
  assert (sort_slice commit_before [c] = [c]) as -> by (by apply Permutation_singleton_r, sort_slice_perm).
  rewrite filter_cons_True; [done|]. by rewrite Hb.
Qed.

(** The push sends the bundle of the pending commit. *)
Lemma push_sends `{Hsort : GoSort, Hrange : GoRange, Hfold : UnicodeFold, Hlower : UnicodeLower} h w s d push bundle c w' out :
  running w s d → branches d = ∅ → pendingLocalCommitsForBranch w "" = [c] → vh_commitMgr h = true → blank (vh_principal h) = false →
  buildSourceCommitBundle h (TrimSpace (vh_principal h)) "" [c] = Ok bundle →
  handlePushSource h push MODE_SQUASH "" w = (w', Ok out) → ∃ answer, push bundle MODE_SQUASH = Some answer.
Proof.
  intros Hr Hbr Hp Hmgr Hprin Hbd. unfold handlePushSource. rewrite Hmgr. cbn [negb].
  assert (parseSourcePushMode "" = Ok MODE_UNSPECIFIED) as -> by done. rewrite bool_decide_eq_true_2 by done.
  unfold PushPendingLocalCommits. run. pose proof Hr as (_ & -> & _).
  assert (sm_GetCurrentLogicalBranch w = "") as ->.
  { unfold sm_GetCurrentLogicalBranch. rewrite (running_active _ _ _ Hr). unfold GetCurrentLogicalBranch. by rewrite Hbr. }
  rewrite Hp, Hprin, Hbd. destruct (push bundle MODE_SQUASH) as [answer|]; [by exists answer|done].
Qed.

Section pushed.
Context `{Hsort : GoSort, Hrange : GoRange, Hfold : UnicodeFold, Hlower : UnicodeLower}.
Context (h : vcs_handler) (manifest : WorkspaceManifest) (entries : list WorkspaceManifestEntry).
Context (Hh : vh_workspace h = Some (manifest, Some entries)) (Hwk : workspace_ok entries) (Hmgr : vh_commitMgr h = true).
Context (Hprin : blank (vh_principal h) = false) (backend : string → option node) (base : string) (Hbase : rooted_path base).

Lemma session_pushed R w s d paths opts random ignored pw :
  session_ok backend base ∅ R w s d → vcs_part d = (∅, ∅, ∅, ∅) →
  let V := view backend base ∅ d (w_disk w) in
  extends backend V → (∀ c, c ∈ GetChanges w → publishable entries backend V (ch_Path c)) → GetChanges w ≠ [] → covers h paths (GetChanges w) →
  TrimSpace (newLocalCommitID random) = newLocalCommitID random → clones entries backend ignored pw → pw_cancelled pw = (λ _, false) →
  ∃ w2 w3 infos result bundle,
    handleAdd h paths w = (w2, Ok infos) ∧ handleCommit h MODE_SQUASH "" opts random w2 = (w3, (MODE_SQUASH, Ok result)) ∧
    GetChanges w3 = [] ∧ (∀ p, mount_path p → node_at backend w3 p (overlay_source w3 p) = V p) ∧
    buildSourceCommitBundle h (TrimSpace (vh_principal h)) "" (pendingLocalCommitsForBranch w3 "") = Ok bundle ∧
    ∀ w4 out, handlePushSource h (λ b mode, (PushWorkspaceCommitBundle pw b mode).1) MODE_SQUASH "" w3 = (w4, Ok out) →
      let remote := (PushWorkspaceCommitBundle pw bundle MODE_SQUASH).2 in
      ∀ c repo, c ∈ GetChanges w → repository_of entries (ch_Path c) = Some repo →
        let git := pw_gits pw (wr_StorageID repo) O in
        ∃ ix, files_of repo ignored V ix ∧ ((wr_StorageID repo, ix) ∈ remote ∨ ix = ga_index git).
Proof using All.
  intros Hok Hvcs V Hext Hpub Hne Hcov Hid Hcl Hcan. pose proof Hok as (_ & _ & Hb & _ & G).
  destruct (session_committed h manifest entries Hh Hwk Hmgr backend base Hbase R w s d Hok Hvcs Hpub paths MODE_SQUASH opts random Hne Hcov Hid)
    as (w2 & w3 & infos & result & es & c & d3 & Eadd & Ecm & Enone & Hr3 & Eud & Ebr & Eco & Hview & Eid & Elb & Epu & Hcm & Hfit & Ep).
  assert (es ≠ []) as Hes by (intros ->; symmetry in Ep; by apply Permutation_nil_r, fmap_nil_inv in Ep).
  assert (lc_ID c ≠ "") as Hidne by by rewrite Eid.
  pose proof (pending_one w3 s d3 c Hr3 Eco Hidne Epu Elb) as Epend.
  destruct (bundle_run h manifest entries Hh Hwk V es c (TrimSpace (vh_principal h)) "" Hcm Hes) as (sc & Ebd & Esc & _);
    [apply blank_trimmed; by rewrite ?Eid|by rewrite blank_trim|].
  exists w2, w3, infos, result. eexists. rewrite Epend. split_and!; [done|done|done| |exact Ebd|].
  { intros p [Hp _]. erewrite (source_view backend base ∅ Hbase w3 s d3); [apply Hview|by eapply running_active|done..]. }
  intros w4 out Hpush. cbn zeta. intros x repo Hx Hrepo.
  destruct (push_sends _ _ _ _ _ _ _ _ _ Hr3 Ebr Epend Hmgr Hprin Ebd Hpush) as [answer Hans].
  destruct (PushWorkspaceCommitBundle pw _ MODE_SQUASH) as [a remote] eqn:Epush. cbn in Hans. subst a. cbn [snd].
  assert (∀ e, e ∈ es → ∃ c, c ∈ GetChanges w ∧ st_Path e = ch_Path c) as Hch.
  { intros e He. assert (st_Path e ∈ ch_Path <$> GetChanges w) as (y & Ey & Hy)%list_elem_of_fmap; [|by exists y].
    rewrite <- Ep. by apply list_elem_of_fmap_2. }
  assert (ch_Path x ∈ st_Path <$> es) as (e & Ee & He)%list_elem_of_fmap by (rewrite Ep; by apply list_elem_of_fmap_2).
  assert (home entries e = repo) as <-.
  { rewrite Forall_forall in Hfit. destruct (Hfit e He) as [_ Hin _ (r & Er & _) _].
    destruct (pb_repo _ _ _ _ (Hpub x Hx)) as (repo' & r' & Hrepo' & Er' & _). rewrite Hrepo in Hrepo'. injection Hrepo' as <-.
    rewrite Ee, Er in Er'. by destruct (same_repository entries Hwk _ _ _ _ Hin (proj1 (repository_of_spec entries _ _ Hrepo)) Er'). }
  eapply (repository_pushed entries Hwk backend V es c); [..|exact Epush|exact He]; try done.
  - intros y Hy. destruct (Hch y Hy) as (cy & Hcy & ->). by apply Hpub.
  - intros p Hp Hnp. rewrite Ep. eapply GetChanges_all; [apply (g_reported _ _ _ _ _ _ G)|by eapply running_active, ok_running|].
    unfold V, view in Hnp. rewrite no_user_root in Hnp. destruct (deleted d !! p); [right; by eexists|]. destruct (files d !! p); [left; by eexists|].
    destruct (in_user_root ∅ p) eqn:Eu; [|done]. unfold in_user_root in Eu. destruct (splitPath p) as [|? [|? ?]]; [done..|].
    apply bool_decide_eq_true in Eu as [? ?]. done.
Qed.

End pushed.

(** ** The theorem *)

(** C3: What a successful push leaves in a repository are the files and links
    the mount shows there.  After a new session and any sequence of operations
    that [admissible] covers, adding and committing the changes succeeds,
    leaves nothing to stage and the mount as it was.  When the push of the
    commit, which squashes, then returns without an error, every repository
    with a change has on its target branch, at each path outside git
    directories that git does not ignore, the file or link the operations make
    of the cluster's tree, and none where there is none: this was pushed, or
    git found nothing to commit and the commit the clone was made of has these
    files already.  The changes are [publishable], the repositories of the
    workspace are told apart, no call of the session fails, git does what it
    documents, and a clone at the commit the cluster shows has the cluster's
    content. *)
Theorem pushed_tree_is_mounted `{Hsort : GoSort, Hrange : GoRange, Hfold : UnicodeFold, Hlower : UnicodeLower}
    backend read ws attrs w os h manifest entries paths opts random ignored pw :
  fresh w → (∀ q x, backend q = Some (File x) → read q = Some x) → tree_like backend →
  all_admissible backend ws attrs (mkShown backend ∅) os →
  vh_workspace h = Some (manifest, Some entries) → workspace_ok entries → vh_commitMgr h = true → blank (vh_principal h) = false →
  TrimSpace (newLocalCommitID random) = newLocalCommitID random → clones entries backend ignored pw → pw_cancelled pw = (λ _, false) →
  let V := sh_view (foldl (apply_op backend) (mkShown backend ∅) os) in
  ∃ w1, (StartSession ≫= λ _, run_ops read ws attrs os) w = (w1, replicate (length os) Success) ∧
    ((∀ c, c ∈ GetChanges w1 → publishable entries backend V (ch_Path c)) → GetChanges w1 ≠ [] → covers h paths (GetChanges w1) →
     ∃ w2 w3 infos result bundle,
       handleAdd h paths w1 = (w2, Ok infos) ∧ handleCommit h MODE_SQUASH "" opts random w2 = (w3, (MODE_SQUASH, Ok result)) ∧
       GetChanges w3 = [] ∧ (∀ p, mount_path p → node_at backend w3 p (overlay_source w3 p) = V p) ∧
       buildSourceCommitBundle h (TrimSpace (vh_principal h)) "" (pendingLocalCommitsForBranch w3 "") = Ok bundle ∧
       ∀ w4 out, handlePushSource h (λ b mode, (PushWorkspaceCommitBundle pw b mode).1) MODE_SQUASH "" w3 = (w4, Ok out) →
         let remote := (PushWorkspaceCommitBundle pw bundle MODE_SQUASH).2 in
         ∀ c repo, c ∈ GetChanges w1 → repository_of entries (ch_Path c) = Some repo →
           let git := pw_gits pw (wr_StorageID repo) O in
           ∃ ix, files_of repo ignored V ix ∧ ((wr_StorageID repo, ix) ∈ remote ∨ ix = ga_index git)).
Proof.
  intros F Hread Htree Ha Hh Hwk Hmgr Hprin Hid Hcl Hcan V. destruct (start_shows backend w F) as (s & w0 & E0 & H0).
  pose proof (session_dir_rooted w F) as Hb.
  destruct (run_shows _ read ws attrs _ _ Hb Hread w0 s _ _ os H0 Ha) as (d & w1 & E & [Hok HV]). fold V in HV.
  exists w1. split; [by run E0|]. intros Hpub Hne Hcov. pose proof (ok_running _ _ _ _ _ _ _ Hok) as Hr. pose proof Hok as (_ & _ & _ & _ & G).
  assert (vcs_part d = (∅, ∅, ∅, ∅)) as Hvcs.
  { destruct H0 as [Hok0 _]. destruct (leaves_run_ops read ws attrs os w0 s empty_overlay) as (d' & Hd' & Ev).
    - by eapply running_active, ok_running.
    - rewrite E in Hd'. cbn in Hd'. rewrite (running_active _ _ _ Hr) in Hd'. injection Hd' as ->. by rewrite Ev. }
  assert (extends backend V) as Hext by (apply (extends_ops backend ws attrs (mkShown backend ∅)); [by split|done]).
  destruct (session_pushed h manifest entries Hh Hwk Hmgr Hprin backend _ Hb _ w1 s d paths opts random ignored pw Hok Hvcs)
    as (w2 & w3 & infos & result & bundle & Eadd & Ecm & Enone & Hview & Ebd & Hpush); [| |done..|].
  - eapply extends_same; [|exact Hext]. intros q Hq. by rewrite HV.
  - intros c Hc. eapply publishable_same; [| |by apply Hpub]; [intros q Hq; by rewrite HV|]. apply (g_keys _ _ _ _ _ _ G).
    destruct (GetChanges_elem _ d (g_reported _ _ _ _ _ _ G) w1 s c) as [[? _]|[? _]]; [by eapply running_active|done|by left|by right].
  - exists w2, w3, infos, result, bundle. split_and!; [done..| |done|].
    + intros p Hp. rewrite Hview by done. by apply HV.
    + intros w4 out Hout. cbn zeta. intros c repo Hc Hrepo. destruct (Hpush w4 out Hout c repo Hc Hrepo) as (ix & Hf & Hl).
      exists ix. split; [|done]. eapply files_same; [exact HV|exact Hwk|by eapply repository_of_spec|exact Hf].
Qed.

(** *** An instance *)

Definition pushed_ops : list op :=
  let r := "github.com/o/r" in
  [OpWrite r "a" false 3 "!"; OpUnlink r "b"; OpMkdir r "d"; OpCreate (r +:+ "/d") "n"; OpWrite (r +:+ "/d") "n" false 0 "new"; OpSymlink r "l" "d/n"].
Definition the_repository : WorkspaceRepository := mkWorkspaceRepository "s" "github.com/o/r" "url" "main" "c0".
Definition the_entries : list WorkspaceManifestEntry := [mkManifestEntry the_repository true].
Definition the_handler : vcs_handler := mkVcsHandler (Some (mkManifest false [], Some the_entries)) "me" true (λ _, None).
Definition pushed_view : string → option node := sh_view (foldl (apply_op (cluster !!.)) (mkShown (cluster !!.) ∅) pushed_ops).

Lemma worktree_clone : clone_of "/t" (λ r, cluster !! ("github.com/o/r" +:+ "/" +:+ r)) worktree.
Proof.
  split.
  - apply well_formed_iff. by apply (bool_decide_unpack _); vm_compute.
  - by vm_compute.
  - intros r Hr Hg. unfold at_root, worktree, cluster. destruct (decide (r = "a")) as [->|Ha]; [by vm_compute|].
    destruct (decide (r = "b")) as [->|Hb]; [by vm_compute|].
    assert (r ≠ ".git" ∧ r ≠ ".git/HEAD") as [Hd Hh] by (split; intros ->; apply (bool_decide_pack _) in Hg; by vm_compute in Hg).
    rewrite !lookup_insert_ne by (intros E; cbv in E; congruence).
    by rewrite !lookup_singleton_ne by (intros E; cbv in E; congruence).
Qed.

Lemma the_workspace_ok : workspace_ok the_entries.
Proof.
  assert (∀ r, r ∈ included the_entries → r = the_repository) as H.
  { intros r Hr. change (included the_entries) with [the_repository] in Hr. by apply list_elem_of_singleton in Hr. }
  split.
  - intros r ->%H. split; [by apply (bool_decide_unpack _); vm_compute|by vm_compute..].
  - apply NoDup_singleton.
  - apply NoDup_singleton.
  - intros r1 r2 ->%H ->%H. by vm_compute.
Qed.

Lemma pushed_publishable path : path ∈ ["github.com/o/r/a"; "github.com/o/r/b"; "github.com/o/r/d"; "github.com/o/r/d/n"; "github.com/o/r/l"] →
  @publishable basic_unicode_fold the_entries (cluster !!.) pushed_view path.
Proof.
  assert (∀ r, repository_of the_entries ("github.com/o/r" +:+ "/" +:+ r) = Some the_repository → @safe_path basic_unicode_fold r →
    let p := "github.com/o/r" +:+ "/" +:+ r in
    TrimSpace p = p →
    (match pushed_view p with
     | Some (Link x) => bool_decide (TrimSpace x = x ∧ x ≠ "")
     | Some (File x) => negb (hasConflictMarkers x) && match cluster !! p with Some (Link _) => false | _ => true end
     | Some Directory => bool_decide (cluster !! p = None)
     | None => forallb (λ q, bool_decide (cluster !! q = Some Directory ∧ pushed_view q = Some Directory)) (parents p)
     end = true) → @publishable basic_unicode_fold the_entries (cluster !!.) pushed_view p) as H.
  { intros r Hr Hs p Ht Hm. split; [by exists the_repository, r|done|..].
    - intros x Hx. rewrite Hx in Hm. by apply bool_decide_eq_true in Hm.
    - intros x Hx. rewrite Hx in Hm. apply andb_true_iff in Hm as [Hm _]. by apply negb_true_iff in Hm.
    - intros Hx. rewrite Hx in Hm. left. by apply bool_decide_eq_true in Hm.
    - intros x l Hx Hl. rewrite Hx, Hl in Hm. by rewrite andb_false_r in Hm.
    - intros Hx q Hq. rewrite Hx in Hm. rewrite forallb_forall in Hm. apply list_elem_of_In in Hq. specialize (Hm q Hq).
      apply bool_decide_eq_true in Hm as [-> ->]. by split; right. }
  assert (∀ r, r ∈ ["a"; "b"; "d"; "d/n"; "l"] → @safe_path basic_unicode_fold r) as Hs.
  { intros r Hr. repeat (apply elem_of_cons in Hr as [->|Hr]; [split; [by apply (bool_decide_unpack _); vm_compute|by vm_compute..]|]).
    by apply not_elem_of_nil in Hr. }
  intros Hp. repeat (apply elem_of_cons in Hp as [->|Hp]; [|]); [..|by apply not_elem_of_nil in Hp].
  - apply (H "a"); [by vm_compute|apply Hs; by apply (bool_decide_unpack _)|by vm_compute..].
  - apply (H "b"); [by vm_compute|apply Hs; by apply (bool_decide_unpack _)|by vm_compute..].
  - apply (H "d"); [by vm_compute|apply Hs; by apply (bool_decide_unpack _)|by vm_compute..].
  - apply (H "d/n"); [by vm_compute|apply Hs; by apply (bool_decide_unpack _)|by vm_compute..].
  - apply (H "l"); [by vm_compute|apply Hs; by apply (bool_decide_unpack _)|by vm_compute..].
Qed.

(** A file changed, a file removed, a file in a new directory, a link: the
    push leaves them all on the target branch. *)
Lemma pushed_tree_is_mounted_witness :
  ∃ bundle ix,
    ("s", ix) ∈ (@PushWorkspaceCommitBundle basic_unicode_fold basic_unicode_lower go_insertion_sort go_map_to_list the_push bundle MODE_SQUASH).2 ∧
    ix !! "a" = Some (File "one!") ∧ ix !! "b" = None ∧ ix !! "d/n" = Some (File "new").
Proof.
  destruct (@pushed_tree_is_mounted go_insertion_sort go_map_to_list basic_unicode_fold basic_unicode_lower (cluster !!.) cluster_read None (λ _, (420, 0))
    new_world pushed_ops the_handler (mkManifest false []) the_entries ["github.com/o/r"] (mkCommitOptions "m" "n" "e") "0123456789abcdef" (λ _, in_git_dir) the_push)
    as (w1 & E & H).
  - apply new_world_fresh.
  - intros q x Hq. unfold cluster_read. cbn in Hq. by rewrite Hq.
  - intros p n q _ Hp Hq. eapply well_formed_iff; [|exact Hp|exact Hq]. by apply (bool_decide_unpack _); vm_compute.
  - apply check_ops_sound. by vm_compute.
  - done.
  - apply the_workspace_ok.
  - done.
  - by vm_compute.
  - by vm_compute.
  - intros repo Hrepo. change (included the_entries) with [the_repository] in Hrepo. apply list_elem_of_singleton in Hrepo as ->.
    split_and!; [exists "t"; split; [by apply (bool_decide_unpack _); vm_compute|done]|apply plain_git_documented|]. intros t [= <-] _. apply worktree_clone.
  - done.
  - pose proof (f_equal fst E) as E1. cbn [fst] in E1.
    assert (Forall (λ c, ch_Path c ∈ ["github.com/o/r/a"; "github.com/o/r/b"; "github.com/o/r/d"; "github.com/o/r/d/n"; "github.com/o/r/l"] ∧
        requested "github.com/o/r" (classifySessionChange the_handler c) = true ∧ repository_of the_entries (ch_Path c) = Some the_repository)
      (@GetChanges go_insertion_sort go_map_to_list w1)) as Hch by (rewrite <- E1; apply (bool_decide_unpack _); by vm_compute).
    assert (length (@GetChanges go_insertion_sort go_map_to_list w1) = 5%nat) as Hlen by (rewrite <- E1; vm_compute; reflexivity).
    destruct (@GetChanges go_insertion_sort go_map_to_list w1) as [|c0 l]; [discriminate|].
    rewrite Forall_forall in Hch. destruct H as (w2 & w3 & infos & result & bundle & Eadd & Ecm & _ & _ & _ & Hpush).
    + intros c Hc. by apply pushed_publishable, Hch.
    + done.
    + exists ["github.com/o/r"]. split_and!; [by vm_compute| |].
      * intros p ->%list_elem_of_singleton. exists c0. split; [left|]. apply Hch. left.
      * intros c Hc. exists "github.com/o/r". split; [left|]. by apply Hch.
    + pose proof (f_equal fst Eadd) as E2. pose proof (f_equal fst Ecm) as E3. cbn [fst] in E2, E3.
      assert (is_ok (@handlePushSource go_insertion_sort go_map_to_list the_handler basic_unicode_fold basic_unicode_lower
        (λ b mode, (@PushWorkspaceCommitBundle basic_unicode_fold basic_unicode_lower go_insertion_sort go_map_to_list the_push b mode).1)
        MODE_SQUASH "" w3).2 = true) as Hout by (rewrite <- E3, <- E2, <- E1; vm_compute; reflexivity).
      destruct (handlePushSource _ _ _ _ w3) as [w4 [out|e]]; [|discriminate].
      destruct (Hpush w4 out eq_refl c0 the_repository) as (ix & Hf & Hl); [left|apply Hch; left|].
      assert (ix !! "a" = Some (File "one!")) as Ha by (etransitivity; [apply (Hf "a"); by apply (bool_decide_unpack _)|vm_compute; reflexivity]).
      exists bundle, ix. split_and!; [|exact Ha|..].
      * destruct Hl as [Hl| ->]; [exact Hl|]. vm_compute in Ha. discriminate Ha.
      * etransitivity; [apply (Hf "b"); by apply (bool_decide_unpack _)|]. vm_compute. reflexivity.
      * etransitivity; [apply (Hf "d/n"); by apply (bool_decide_unpack _)|]. vm_compute. reflexivity.
Defined.
