(* ===== verification/PublishFaults.v ===== *)
(** * Changes that do not reach a repository

    Runs of the commands of a mount, one after the other, after which a change
    can no longer be committed or pushed, or the mount does not show what was
    pulled.  Every one of them starts from a new session on the cluster of
    MountView.v. *)

From stdpp Require Import options.
From S2P Require Import Prelude GoStrings GoUnicode GoSort GoRange GoPath GoTree Overlay Session Mount Merge3 Merge3Props MountView MountFaults PullMerge.
From S2P Require Import Bundle SourcePush GitIndex Staging SourcePushProps Publish.

#[local] Existing Instances basic_unicode_fold basic_unicode_lower go_insertion_sort go_map_to_list prefix_difflib.

Definition add_and_commit (paths : list string) : M (result vcs_error CommitResult) :=
  let? _ := handleAdd the_handler paths in
  '(_, committed) ← handleCommit the_handler MODE_SQUASH "" (mkCommitOptions "m" "n" "e") "0123456789abcdef"; ret committed.
Definition push_to (pw : push_world) : M (result vcs_error (nat * nat)) :=
  handlePushSource the_handler (λ b mode, (PushWorkspaceCommitBundle pw b mode).1) MODE_SQUASH "".
Definition changed_paths (w : World) : list string := ch_Path <$> GetChanges w.
Definition the_pull (before after : string → option string) : M pull_response :=
  let answer read p := match read p with Some c => Content c | None => NotFound end in
  handlePull (mkHandler true true true) (answer before) (answer after) (mkRefresh (Some 1%nat) 1 true).

(** A new file that is staged and then removed makes the commit fail, after
    the file staged before it has become the baseline: that file's change is
    neither in a commit nor among the changes of the session, and the commit
    fails again. *)
Theorem removed_file_blocks_commit :
  let '(w, (first, second)) := on_new (
    _ ← do_ops cluster_read [OpWrite repo "a" false 3 "!"; OpCreate repo "n"];
    _ ← handleAdd the_handler [repo];
    _ ← do_ops cluster_read [OpUnlink repo "n"];
    '(_, first) ← handleCommit the_handler MODE_SQUASH "" (mkCommitOptions "m" "n" "e") "0123456789abcdef";
    '(_, second) ← handleCommit the_handler MODE_SQUASH "" (mkCommitOptions "m" "n" "e") "fedcba9876543210"; ret (first, second)) in
  first = Err (CannotStat "github.com/o/r/n") ∧ second = first ∧ finds w "github.com/o/r/a" = Some (File "one!") ∧
  changed_paths w = [] ∧ sm_ListLocalVirtualCommits w = [].
Proof. vm_compute. split_and!; reflexivity. Qed.

(** A directory of the cluster removed with its content is committed as the
    removal of the directory alone, which no push can apply. *)
Theorem removed_directory_not_pushed :
  let h := mkVcsHandler (vh_workspace the_handler) "me" true (λ p, Some (if bool_decide (p = "github.com/o/r/d") then Some true else None)) in
  let clone := <["/t/d" := Directory]> (<["/t/d/f" := File "x"]> worktree) in
  let git := plain_git "/t" clone "c0" (λ _, None) in
  let pw := mkPushWorld "" "fallback" (λ _, true) "" "job" (λ _ _, git) (λ _, mkRollback git None (λ _, None)) (λ _, false) in
  let '(w, (removed, committed, pushed)) := on_new (
    removed ← handleRemove h ["github.com/o/r/d"];
    '(_, committed) ← handleCommit h MODE_SQUASH "" (mkCommitOptions "m" "n" "e") "0123456789abcdef";
    pushed ← push_to pw; ret (is_ok removed, is_ok committed, pushed)) in
  removed = true ∧ committed = true ∧ pushed = Err PushFailed ∧ changed_paths w = [].
Proof. vm_compute. split_and!; reflexivity. Qed.

(** A new directory without files is committed, and its push reported as
    successful, although git has nothing to commit and nothing arrives. *)
Theorem empty_directory_not_pushed :
  let '(w, (committed, bundle, pushed)) := on_new (
    _ ← do_ops cluster_read [OpMkdir repo "d"];
    committed ← add_and_commit [repo];
    w ← look;
    pushed ← push_to the_push; ret (is_ok committed, buildSourceCommitBundle the_handler "me" "" (pendingLocalCommitsForBranch w ""), is_ok pushed)) in
  committed = true ∧ pushed = true ∧ changed_paths w = [] ∧
  match bundle with Ok b => (PushWorkspaceCommitBundle the_push b MODE_SQUASH).2 = [] | Err _ => False end.
Proof. vm_compute. split_and!; reflexivity. Qed.

(** After a file was changed, committed and pushed, its local copy stays: a
    pull that brings new content of the file succeeds, merges nothing, and the
    mount goes on showing the copy. *)
Theorem pushed_copy_hides_upstream :
  let upstream p := if bool_decide (p = "github.com/o/r/a") then Some "newer" else cluster_read p in
  let '(w, (pushed, pulled)) := on_new (
    _ ← do_ops cluster_read [OpWrite repo "a" false 3 "!"];
    _ ← add_and_commit [repo];
    pushed ← push_to the_push;
    pulled ← the_pull cluster_read upstream; ret (is_ok pushed, pulled)) in
  pushed = true ∧ pulled = PullDone 1 None ∧ finds w "github.com/o/r/a" = Some (File "one!").
Proof. vm_compute. split_and!; reflexivity. Qed.

(** Deleting the branch a commit was made on deletes the commit and leaves its
    changes shown by the mount, though no longer reported. *)
Theorem deleted_branch_strands_changes :
  let '(w, (committed, deleted)) := on_new (
    _ ← handleBranchCreate the_handler "topic";
    _ ← do_ops cluster_read [OpWrite repo "a" false 3 "!"];
    committed ← add_and_commit [repo];
    _ ← handleBranchCreate the_handler "other";
    deleted ← handleBranchDelete "topic"; ret (is_ok committed, deleted)) in
  committed = true ∧ deleted = Ok (1%nat, 1%nat) ∧
  finds w "github.com/o/r/a" = Some (File "one!") ∧ changed_paths w = [] ∧ sm_ListLocalVirtualCommits w = [].
Proof. vm_compute. split_and!; reflexivity. Qed.

(** A conflict on a created file survives the removal of the file: nothing can
    be committed, and the path cannot be added to resolve it. *)
Theorem removed_file_stays_in_conflict :
  let upstream p := if bool_decide (p = "github.com/o/r/n") then Some "theirs" else cluster_read p in
  let '(w, (added, resolved, committed)) := on_new (
    _ ← do_ops cluster_read [OpWrite repo "a" false 3 "!"; OpCreate repo "n"; OpWrite repo "n" true 0 "ours"];
    _ ← the_pull cluster_read upstream;
    _ ← do_ops cluster_read [OpUnlink repo "n"];
    added ← handleAdd the_handler ["github.com/o/r/a"];
    resolved ← handleAdd the_handler ["github.com/o/r/n"];
    '(_, committed) ← handleCommit the_handler MODE_SQUASH "" (mkCommitOptions "m" "n" "e") "0123456789abcdef"; ret (is_ok added, is_ok resolved, committed)) in
  added = true ∧ resolved = false ∧ committed = Err UnresolvedConflicts.
Proof. vm_compute. split_and!; reflexivity. Qed.
