(* ===== verification/WorkspacePolicy.v ===== *)
(** * The policy of workspace jobs

    Model of internal/router/workspacepolicy/policy.go: the rules that allow
    or deny a job of a workspace, and of [evalPolicy] of
    internal/router/router.go.  Decoding YAML is a parameter.  The code of a
    result, a label made of the rule's name, is left out. *)

From stdpp Require Import options.
From S2P Require Import Prelude GoStrings GoPath.

Abbreviation EffectAllow := "allow" (only parsing).
Abbreviation EffectDeny := "deny" (only parsing).
Abbreviation ActionSourcePush := "SOURCE_PUSH" (only parsing).

Definition validActions : list string := ["REFRESH"; "PUBLISH"; ActionSourcePush].
Definition validPushModes : list string := ["squash"; "preserve"].
Definition validBranchStrategies : list string := ["direct"; "workspace_branch"; "per_repo_branch"].
Definition validEffects : list string := [EffectAllow; EffectDeny].

Record MatchSet := mkMatchSet {
  ms_PrincipalIDs : list string; ms_WorkspaceIDs : list string; ms_LogicalBranches : list string; ms_RepositoryIDs : list string;
  ms_Actions : list string; ms_PushModes : list string; ms_BranchStrategies : list string }.
Record Rule := mkRule { ru_Name : string; ru_Match : MatchSet; ru_MatchNot : MatchSet; ru_Effect : string; ru_Reason : string }.
Record PolicyConfig := mkPolicyConfig { pc_Version : Z; pc_Default : string; pc_Rules : list Rule }.

Record EvaluationRequest := mkEvaluationRequest {
  er_PrincipalID : string; er_WorkspaceID : string; er_LogicalBranch : string; er_RepositoryIDs : list string;
  er_Action : string; er_PushMode : string; er_BranchStrategy : string }.
Record EvaluationResult := mkEvaluationResult { ev_Effect : string; ev_Reason : string; ev_RuleName : string }.

(** ** Reading a policy *)

Inductive policy_error :=
| EmptyPolicyPath | PolicyUnreadable | PolicyNotYAML | PolicyVersion (v : Z) | PolicyDefault (d : string)
| RuleWithoutName (i : nat) | RuleEffect (name effect : string)
| UnknownAction (name action : string) | UnknownPushMode (name mode : string) | UnknownStrategy (name strategy : string).

Fixpoint check_known (known : list string) (error : string → policy_error) (l : list string) : result policy_error unit :=
  match l with
  | [] => Ok tt
  | x :: l => if bool_decide (x ∈ known) then check_known known error l else Err (error x)
  end.
Definition check_match (name : string) (ms : MatchSet) : result policy_error unit :=
  let! _ := check_known validActions (UnknownAction name) (ms_Actions ms) in
  let! _ := check_known validPushModes (UnknownPushMode name) (ms_PushModes ms) in
  check_known validBranchStrategies (UnknownStrategy name) (ms_BranchStrategies ms).
Fixpoint check_rules (i : nat) (rules : list Rule) : result policy_error unit :=
  match rules with
  | [] => Ok tt
  | rule :: rules =>
      if bool_decide (TrimSpace (ru_Name rule) = "") then Err (RuleWithoutName i)
      else if bool_decide (ru_Effect rule ∉ validEffects) then Err (RuleEffect (ru_Name rule) (ru_Effect rule))
      else
        let! _ := check_match (ru_Name rule) (ru_Match rule) in
        let! _ := check_match (ru_Name rule) (ru_MatchNot rule) in
        check_rules (S i) rules
  end.

Section policy.
Context (unmarshal : string → option PolicyConfig).

Definition Parse (data : string) : result policy_error PolicyConfig :=
  match unmarshal data with
  | None => Err PolicyNotYAML
  | Some cfg =>
      if bool_decide (pc_Version cfg ≠ 1) then Err (PolicyVersion (pc_Version cfg))
      else if bool_decide (pc_Default cfg ∉ validEffects) then Err (PolicyDefault (pc_Default cfg))
      else let! _ := check_rules 0 (pc_Rules cfg) in Ok cfg
  end.

(** [contents] is what [os.ReadFile] finds. *)
Definition Load (contents : string → option string) (path : string) : result policy_error PolicyConfig :=
  if bool_decide (TrimSpace path = "") then Err EmptyPolicyPath
  else match contents path with None => Err PolicyUnreadable | Some data => Parse data end.

End policy.

(** ** Evaluation *)

Definition matches_glob (value pattern : string) : bool := bool_decide (Match pattern value = Some true).
Definition matchStringGlob (patterns : list string) (value : string) : bool :=
  bool_decide (patterns = []) || existsb (matches_glob value) patterns.
Definition matchAnyStringGlob (patterns values : list string) : bool :=
  bool_decide (patterns = []) || existsb (λ v, existsb (matches_glob v) patterns) values.
Definition matchStringExact (patterns : list string) (value : string) : bool :=
  bool_decide (patterns = []) || existsb (λ p, bool_decide (p = value)) patterns.

Definition isEmpty (ms : MatchSet) : bool :=
  bool_decide (ms_PrincipalIDs ms = []) && bool_decide (ms_WorkspaceIDs ms = []) && bool_decide (ms_LogicalBranches ms = []) &&
  bool_decide (ms_RepositoryIDs ms = []) && bool_decide (ms_Actions ms = []) && bool_decide (ms_PushModes ms = []) &&
  bool_decide (ms_BranchStrategies ms = []).

Definition matchesRule (ms : MatchSet) (req : EvaluationRequest) : bool :=
  if isEmpty ms then true
  else
    matchStringGlob (ms_PrincipalIDs ms) (er_PrincipalID req) && matchStringGlob (ms_WorkspaceIDs ms) (er_WorkspaceID req) &&
    matchStringGlob (ms_LogicalBranches ms) (er_LogicalBranch req) && matchAnyStringGlob (ms_RepositoryIDs ms) (er_RepositoryIDs req) &&
    matchStringExact (ms_Actions ms) (er_Action req) && matchStringExact (ms_PushModes ms) (er_PushMode req) &&
    matchStringExact (ms_BranchStrategies ms) (er_BranchStrategy req).

Fixpoint first_rule (rules : list Rule) (req : EvaluationRequest) : option Rule :=
  match rules with
  | [] => None
  | rule :: rules =>
      if negb (matchesRule (ru_Match rule) req) then first_rule rules req
      else if negb (isEmpty (ru_MatchNot rule)) && matchesRule (ru_MatchNot rule) req then first_rule rules req
      else Some rule
  end.

Definition Evaluate (cfg : option PolicyConfig) (req : EvaluationRequest) : EvaluationResult :=
  match cfg with
  | None => mkEvaluationResult EffectDeny "invalid config or request" ""
  | Some cfg =>
      match first_rule (pc_Rules cfg) req with
      | Some rule => mkEvaluationResult (ru_Effect rule) (ru_Reason rule) (ru_Name rule)
      | None =>
          if bool_decide (pc_Default cfg = EffectDeny) then mkEvaluationResult EffectDeny "no matching rule and default=deny" ""
          else mkEvaluationResult EffectAllow "no matching rule and default=allow" ""
      end
  end.

(** [enabled] is whether the gate is switched on, [cfg] the policy that was
    loaded when the router started. *)
Definition evalPolicy (enabled : bool) (cfg : option PolicyConfig) (req : EvaluationRequest) : EvaluationResult :=
  if negb enabled then mkEvaluationResult EffectAllow "" ""
  else match cfg with
       | None => mkEvaluationResult EffectDeny "policy config not loaded" ""
       | Some _ => Evaluate cfg req
       end.

(** ** What a policy says *)

(** One of the patterns of a condition, if it has any. *)
Definition condition {A} (holds : A → Prop) (patterns : list A) : Prop := patterns = [] ∨ ∃ p, p ∈ patterns ∧ holds p.

(** A set of conditions covers a request when each of them holds; the one on
    repositories holds when one of the repositories meets it. *)
Record covers (ms : MatchSet) (req : EvaluationRequest) : Prop := {
  cv_principal : condition (λ p, Match p (er_PrincipalID req) = Some true) (ms_PrincipalIDs ms);
  cv_workspace : condition (λ p, Match p (er_WorkspaceID req) = Some true) (ms_WorkspaceIDs ms);
  cv_branch : condition (λ p, Match p (er_LogicalBranch req) = Some true) (ms_LogicalBranches ms);
  cv_repositories : condition (λ p, ∃ v, v ∈ er_RepositoryIDs req ∧ Match p v = Some true) (ms_RepositoryIDs ms);
  cv_action : condition (λ p, p = er_Action req) (ms_Actions ms);
  cv_mode : condition (λ p, p = er_PushMode req) (ms_PushModes ms);
  cv_strategy : condition (λ p, p = er_BranchStrategy req) (ms_BranchStrategies ms) }.

Definition no_conditions : MatchSet := mkMatchSet [] [] [] [] [] [] [].

(** A rule with exceptions does not apply to what they cover. *)
Definition applies (rule : Rule) (req : EvaluationRequest) : Prop :=
  covers (ru_Match rule) req ∧ (ru_MatchNot rule = no_conditions ∨ ¬ covers (ru_MatchNot rule) req).

(** The first rule that applies decides, and the default where none does. *)
Inductive decides (cfg : PolicyConfig) (req : EvaluationRequest) : string → Prop :=
| DecidedByRule pre rule post :
    pc_Rules cfg = pre ++ rule :: post → (∀ x, x ∈ pre → ¬ applies x req) → applies rule req → decides cfg req (ru_Effect rule)
| DecidedByDefault : (∀ x, x ∈ pc_Rules cfg → ¬ applies x req) → decides cfg req (pc_Default cfg).

Lemma condition_true {A} (holds : A → Prop) (f : A → bool) (patterns : list A) : (∀ p, f p = true ↔ holds p) →
  bool_decide (patterns = []) || existsb f patterns = true ↔ condition holds patterns.
Proof.
  intros Hf. rewrite orb_true_iff, bool_decide_eq_true, existsb_elem. unfold condition. by setoid_rewrite Hf.
Qed.

Lemma glob_true patterns value : matchStringGlob patterns value = true ↔ condition (λ p, Match p value = Some true) patterns.
Proof. apply condition_true. intros p. apply bool_decide_eq_true. Qed.
Lemma exact_true patterns value : matchStringExact patterns value = true ↔ condition (λ p, p = value) patterns.
Proof. apply condition_true. intros p. apply bool_decide_eq_true. Qed.
Lemma any_true patterns values :
  matchAnyStringGlob patterns values = true ↔ condition (λ p, ∃ v, v ∈ values ∧ Match p v = Some true) patterns.
Proof.
  unfold matchAnyStringGlob, condition. rewrite orb_true_iff, bool_decide_eq_true, existsb_elem.
  setoid_rewrite existsb_elem. setoid_rewrite bool_decide_eq_true. naive_solver.
Qed.

Lemma isEmpty_true ms : isEmpty ms = true ↔ ms = no_conditions.
Proof.
  destruct ms. unfold isEmpty, no_conditions. cbn. rewrite !andb_true_iff, !bool_decide_eq_true. split; [naive_solver|by intros [= -> -> -> -> -> -> ->]].
Qed.

Lemma matchesRule_true ms req : matchesRule ms req = true ↔ covers ms req.
Proof.
  unfold matchesRule. destruct (isEmpty ms) eqn:E.
  - apply isEmpty_true in E as ->. split; [|done]. intros _. by split; left.
  - rewrite !andb_true_iff, !glob_true, !exact_true, any_true. split; [intros [[[[[[]]]]]]; by split|by intros []].
Qed.

Lemma first_rule_spec rules req :
  match first_rule rules req with
  | Some rule => ∃ pre post, rules = pre ++ rule :: post ∧ (∀ x, x ∈ pre → ¬ applies x req) ∧ applies rule req
  | None => ∀ x, x ∈ rules → ¬ applies x req
  end.
Proof.
  induction rules as [|rule rules IH]; cbn [first_rule]; [by intros x ?%not_elem_of_nil|].
  assert (¬ applies rule req →
    match first_rule rules req with
    | Some rule' => ∃ pre post, rule :: rules = pre ++ rule' :: post ∧ (∀ x, x ∈ pre → ¬ applies x req) ∧ applies rule' req
    | None => ∀ x, x ∈ rule :: rules → ¬ applies x req
    end) as Hskip.
  { intros Hn. destruct (first_rule rules req) as [rule'|].
    - destruct IH as (pre & post & -> & Hpre & Ha). exists (rule :: pre), post. split_and!; [done| |done].
      intros x [->|Hx]%elem_of_cons; [done|by apply Hpre].
    - intros x [->|Hx]%elem_of_cons; [done|by apply IH]. }
  destruct (matchesRule (ru_Match rule) req) eqn:E1; cbn [negb].
  - apply matchesRule_true in E1. destruct (isEmpty (ru_MatchNot rule)) eqn:E2; cbn [negb andb].
    + apply isEmpty_true in E2. exists [], rules. split_and!; [done|by intros x ?%not_elem_of_nil|by split; [|left]].
    + assert (ru_MatchNot rule ≠ no_conditions) as Hne by (rewrite <- isEmpty_true; by rewrite E2).
      destruct (matchesRule (ru_MatchNot rule) req) eqn:E3.
      * apply Hskip. apply matchesRule_true in E3. by intros [_ [?|?]].
      * exists [], rules. split_and!; [done|by intros x ?%not_elem_of_nil|]. split; [done|]. right. rewrite <- matchesRule_true. by rewrite E3.
  - apply Hskip. intros [Hc _]. apply matchesRule_true in Hc. congruence.
Qed.

(** A policy that was read decides each request, and by its rules. *)
Lemma Parse_default unmarshal data cfg : Parse unmarshal data = Ok cfg → pc_Default cfg ∈ validEffects.
Proof.
  unfold Parse. destruct (unmarshal data) as [cfg'|]; [|done]. case_bool_decide; [done|]. case_bool_decide as Hd; [done|].
  destruct (check_rules 0 (pc_Rules cfg')); [|done]. cbn. intros [= <-]. by destruct (decide (pc_Default cfg' ∈ validEffects)).
Qed.

Lemma Evaluate_decides cfg req : pc_Default cfg ∈ validEffects → decides cfg req (ev_Effect (Evaluate (Some cfg) req)).
Proof.
  intros Hd. unfold Evaluate. pose proof (first_rule_spec (pc_Rules cfg) req) as Hs. destruct (first_rule (pc_Rules cfg) req) as [rule|].
  - destruct Hs as (pre & post & E & Hpre & Ha). by eapply DecidedByRule.
  - pose proof (DecidedByDefault cfg req Hs) as H. case_bool_decide as E; cbn [ev_Effect]; [by rewrite <- E|].
    unfold validEffects in Hd. by apply elem_of_cons in Hd as [<-|Hd%list_elem_of_singleton].
Qed.
