(* ===== verification/PushGate.v ===== *)
(** * The gates of a push

    Model of the checks [PushWorkspaceCommits] of
    internal/router/workspace_source_push.go makes before a bundle goes to a
    fetcher: the policy (WorkspacePolicy.v) and, for a push that opens no pull
    request, the review gate of internal/router/authz_merge_gate.go over the
    owners of the changed paths (Ownership.v). *)

From stdpp Require Import options.
From S2P Require Import Prelude GoStrings GoUnicode GoSort GoRange Authz Codeowners Ownership Guardian Bundle SourcePush WorkspacePolicy.

(** The values that are not empty, each once, in the order they come. *)
Fixpoint distinct (seen : gset string) (l : list string) : list string :=
  match l with
  | [] => []
  | x :: l => if bool_decide (x = "" ∨ x ∈ seen) then distinct seen l else x :: distinct ({[x]} ∪ seen) l
  end.

Definition storageIDsFromSourceBundle (b : SourceCommitBundle) : list string :=
  distinct ∅ (rb_StorageID <$> (cb_Commits b ≫= so_Repositories)).

(** A path in a repository as the tree of the cluster has it. *)
Definition full_path (displayPath path : string) : string :=
  let base := Trim displayPath slash in
  let p := Trim path slash in
  if bool_decide (p = "") then base else if bool_decide (base = "") then p else base +:+ "/" +:+ p.
Definition changedPathsFromSourceBundle (b : SourceCommitBundle) : list string :=
  distinct ∅ ((cb_Commits b ≫= so_Repositories) ≫= λ repo, full_path (rb_DisplayPath repo) <$> (bo_Path <$> rb_Operations repo)).

(** ** OWNERS files of the router *)

(** The partition a path lies in, and the path in it. *)
Definition splitManagedDisplayPath (full : string) : option (string * string) :=
  match Split (Trim (TrimSpace full) slash) slash with
  | "guardian" :: partition :: rest => Some ("guardian/" +:+ partition, Join rest (str1 slash))
  | "doctor" :: version :: rest => Some ("doctor/" +:+ version, Join rest (str1 slash))
  | "guardian-system" :: rest => Some ("guardian-system", Join rest (str1 slash))
  | _ => None
  end.

(** [routerOwnersSource.LoadOwners]; [read] is what [readPipelinePath] finds
    at a logical path, and whatever cannot be read counts as absent. *)
Definition router_LoadOwners (unmarshal : string → option ownersYAML) (read : string → option string) (dir : string)
    : result authz_error (option OwnersFile) :=
  let dir := Trim (TrimSpace dir) slash in
  if bool_decide (dir = "") then Ok None
  else
    match splitManagedDisplayPath (dir +:+ "/" +:+ OwnersDir +:+ "/" +:+ OwnersFileName) with
    | None => Ok None
    | Some (displayPath, relative) =>
        match guardianLogicalPathFromPhysical displayPath relative with
        | Err _ => Ok None
        | Ok logical =>
            match read logical with
            | None => Ok None
            | Some content => let! owners := ParseOwners unmarshal content in Ok (Some owners)
            end
        end
    end.

(** ** Reviews *)

Inductive gate_error :=
| NoResolver
| OwnershipUnknown (e : authz_error)
| OwnedBy (governed owners : list string).

(** [None] for a change that may be made directly, and else the paths the
    caller does not own. *)
Definition evaluateSubtreeOwnership `{UnicodeFold} (resolver : option OwnershipResolver) (id : Identity) (paths : list string)
    : result authz_error (option (list string)) :=
  match resolver with
  | None => Ok None
  | Some r =>
      if bool_decide (paths = []) then Ok None
      else let! (ownsAll, unowned) := OwnsAll r paths id in Ok (if ownsAll then None else Some unowned)
  end.

Definition ownersForUnowned `{UnicodeFold} (r : OwnershipResolver) (paths : list string) : list string :=
  match OwnersOf r paths with Ok refs => OwnerRef_String <$> refs | Err _ => [] end.

(** A path whose governance cannot be found out counts as governed. *)
Definition needs_review `{UnicodeFold} (r : OwnershipResolver) (path : string) : bool :=
  match Governed r path with Ok g => g | Err _ => true end.

(** [None] when the push may go on.  [ConfigureOwnership] installs one
    resolver for both of its uses. *)
Definition enforceOwnershipGate `{UnicodeFold} (enabled : bool) (resolver : option OwnershipResolver) (id : Identity)
    (logicalBranch : string) (b : SourceCommitBundle) : option gate_error :=
  if negb enabled then None
  else if bool_decide (TrimSpace logicalBranch ≠ "") then None
  else
    let paths := changedPathsFromSourceBundle b in
    if bool_decide (paths = []) then None
    else
      match resolver with
      | None => Some NoResolver
      | Some r =>
          match evaluateSubtreeOwnership resolver id paths with
          | Err e => Some (OwnershipUnknown e)
          | Ok None => None
          | Ok (Some unowned) =>
              match filter (λ p, needs_review r p = true) unowned with
              | [] => None
              | governed => Some (OwnedBy governed (ownersForUnowned r governed))
              end
          end
      end.

(** ** Before a push *)

Record push_gates := mkGates {
  pg_policyEnabled : bool; pg_policy : option PolicyConfig; pg_ownershipEnabled : bool; pg_resolver : option OwnershipResolver }.

Inductive push_refusal := BranchMismatch | PolicyDenied (result : EvaluationResult) | ReviewRequired (e : gate_error).

(** The request as it is put to the policy. *)
Definition push_request (clientID workspaceID logicalBranch pushMode : string) (b : SourceCommitBundle) : EvaluationRequest :=
  mkEvaluationRequest clientID workspaceID logicalBranch (storageIDsFromSourceBundle b) ActionSourcePush pushMode "".

(** [id] is the identity of the caller, [clientID] the one the call names,
    [config] the push mode of the router.  The workspace of the request is
    that of the bundle, whose upload compares them. *)
Definition PushWorkspaceCommits `{UnicodeFold, UnicodeLower} (g : push_gates) (id : Identity) (clientID : string) (mode : SourcePushMode) (config : string)
    (requested : string) (b : SourceCommitBundle) : option push_refusal :=
  match resolveSourcePushLogicalBranch requested b with
  | None => Some BranchMismatch
  | Some logicalBranch =>
      let policyResult := evalPolicy (pg_policyEnabled g) (pg_policy g)
        (push_request clientID (cb_WorkspaceID b) logicalBranch (resolveSourcePushMode mode config) b) in
      if bool_decide (ev_Effect policyResult ≠ EffectAllow) then Some (PolicyDenied policyResult)
      else ReviewRequired <$> enforceOwnershipGate (pg_ownershipEnabled g) (pg_resolver g) id logicalBranch b
  end.

(** The router of a push that has these gates. *)
Definition gated `{UnicodeFold, UnicodeLower} (g : push_gates) (id : Identity) (clientID : string) (mode : SourcePushMode) (pw : push_world) : Prop :=
  ∀ b, pw_allowed pw b = bool_decide (PushWorkspaceCommits g id clientID mode (pw_config pw) (cb_LogicalBranch b) b = None).
