(* ===== verification/PushGateProps.v ===== *)
(** * What the gates of a push protect

    A push that goes directly to the branch of a repository changes only
    files the caller owns or nobody does, when its operations name files by
    clean paths and neither link nor rename.  The theorems after that show
    what such operations can do. *)

From stdpp Require Import options.
From S2P Require Import Prelude GoStrings GoUnicode GoSort GoRange GoPath GoTree Authz Codeowners Ownership OwnershipProps.
From S2P Require Import Bundle SourcePush GitIndex BundleProps SourcePushProps BundleSafety WorkspacePolicy PushGate MountView CommitBundle.

(** ** The gate *)

Lemma distinct_elem seen l x : x ∈ distinct seen l ↔ x ≠ "" ∧ x ∉ seen ∧ x ∈ l.
Proof.
  revert seen. induction l as [|y l IH]; intros seen; cbn [distinct]; [by rewrite elem_of_nil; naive_solver|].
  case_bool_decide as Hy; rewrite !elem_of_cons, IH.
  - destruct (decide (x = y)) as [->|]; naive_solver.
  - rewrite not_elem_of_union, not_elem_of_singleton. destruct (decide (x = y)) as [->|]; naive_solver.
Qed.

Section gate.
Context `{Hfold : UnicodeFold}.

(** A change of a path that needs no review by somebody else. *)
Definition permitted (r : OwnershipResolver) (id : Identity) (p : string) : Prop :=
  (∃ d, IsOwner r p id = Ok (true, d)) ∨ Governed r p = Ok false.

Lemma gate_passed resolver id branch b : enforceOwnershipGate true resolver id branch b = None → TrimSpace branch = "" →
  ∀ p, p ∈ changedPathsFromSourceBundle b → ∃ r, resolver = Some r ∧ permitted r id p.
Proof using.
  intros E Hb p Hp. unfold enforceOwnershipGate in E. cbn [negb] in E. rewrite bool_decide_eq_false_2 in E by (intros H; by apply H).
  rewrite bool_decide_eq_false_2 in E by (by intros En; rewrite En in Hp; apply not_elem_of_nil in Hp).
  destruct resolver as [r|]; [|done]. exists r. split; [done|]. unfold evaluateSubtreeOwnership in E.
  rewrite bool_decide_eq_false_2 in E by (by intros En; rewrite En in Hp; apply not_elem_of_nil in Hp). unfold OwnsAll in E.
  destruct (owns_loop r _ id []) as [un|] eqn:Eo; [|done]. cbn [rbind] in E. destruct (owns_loop_spec _ _ _ _ _ Eo) as (rest & -> & Hs). cbn [app] in *.
  destruct (Hs p Hp) as [Hu|?]; [|by left]. right. case_bool_decide as Hl.
  { by destruct rest; [apply not_elem_of_nil in Hu|]. }
  destruct (filter (λ p, needs_review r p = true) rest) as [|x l] eqn:Ef; [|done].
  assert (needs_review r p = false) as Hn.
  { apply not_true_is_false. intros Ht. assert (p ∈ filter (λ p, needs_review r p = true) rest) as Hin by (by apply list_elem_of_filter).
    rewrite Ef in Hin. by apply not_elem_of_nil in Hin. }
  unfold needs_review in Hn. destruct (Governed r p) as [[]|]; by rewrite ?Hn.
Qed.

(** A change that was asked for passed the gate. *)
Lemma operation_permitted resolver id branch b repo op :
  enforceOwnershipGate true resolver id branch b = None → TrimSpace branch = "" →
  repo ∈ cb_Commits b ≫= so_Repositories → op ∈ rb_Operations repo → proper_path (bo_Path op) →
  ∃ r, resolver = Some r ∧ permitted r id (full_path (rb_DisplayPath repo) (bo_Path op)).
Proof using.
  intros E Hb Hr Hop Hp. eapply gate_passed; [exact E|done|]. unfold changedPathsFromSourceBundle. apply distinct_elem. split_and!.
  - unfold full_path. rewrite (Trim_proper _ Hp), bool_decide_eq_false_2 by (by apply proper_ne). case_bool_decide; [by apply proper_ne|].
    intros En%(f_equal String.length). rewrite !str_length_app in En. cbn in En. lia.
  - set_solver.
  - apply list_elem_of_bind. exists repo. split; [|done]. rewrite <- list_fmap_compose. apply list_elem_of_fmap. by exists op.
Qed.

End gate.

(** ** Files changed by operations *)

Definition is_file (n : option node) : Prop := n ≠ None ∧ n ≠ Some Directory.

(** A file or link appeared, disappeared, or has another content. *)
Definition file_changed (t t' : tree) (x : string) : Prop := t' !! x ≠ t !! x ∧ (is_file (t !! x) ∨ is_file (t' !! x)).

Lemma file_changed_trans t1 t2 t3 x : file_changed t1 t3 x → file_changed t1 t2 x ∨ file_changed t2 t3 x.
Proof.
  intros [Hne [H|H]]; destruct (decide (t2 !! x = t1 !! x)) as [E|E].
  - right. split; [congruence|]. left. by rewrite E.
  - left. split; [done|by left].
  - right. split; [congruence|by right].
  - destruct (decide (t3 !! x = t2 !! x)) as [E'|E']; [left; split; [done|right; by rewrite <- E']|right; split; [done|by right]].
Qed.

Section changes.
Context (root : string) (Hroot : rooted_path root).

(** A call that changes no files but those of [P], in a worktree without links. *)
Definition changes {A} (P : string → Prop) (m : disk A) : Prop :=
  ∀ os t os' t' a x, plain root t → m (os, t) = (os', t', a) → file_changed t t' x → P x.

Lemma changes_ret {A} P (a : A) : changes P (dret a).
Proof using. intros os t os' t' b x _ [= <- <- <-] [Hne _]. done. Qed.

Lemma changes_bind {A B} P (m : disk A) (f : A → disk B) :
  contained root m → changes P m → (∀ a, changes P (f a)) → changes P (m ≫= f).
Proof using.
  intros Hc Hm Hf os t os' t' b x Hp. unfold mbind, disk_bind. destruct (m (os, t)) as [[os1 t1] a] eqn:E. intros E' Hx.
  destruct (Hc _ _ _ _ _ Hp E) as [Hp1 _]. destruct (file_changed_trans _ t1 _ _ Hx) as [H|H]; [exact (Hm _ _ _ _ _ _ Hp E H)|exact (Hf _ _ _ _ _ _ _ Hp1 E' H)].
Qed.

Lemma changes_andthen P m k : contained root m → changes P m → changes P k → changes P (andthen m k).
Proof using. intros Hc Hm Hk. apply changes_bind; [done..|]. intros []; [done|apply changes_ret]. Qed.

Lemma changes_weaken {A} (P Q : string → Prop) (m : disk A) : (∀ x, P x → Q x) → changes P m → changes Q m.
Proof using. intros H Hm os t os' t' a x Hp E Hx. eapply H, Hm; done. Qed.

Lemma changes_call {A} P (f : io → tree → tree * A) :
  (∀ o t x, plain root t → file_changed t (f o t).1 x → P x) → changes P (call f).
Proof using.
  intros Hf os t os' t' a x Hp. unfold call. destruct (match os with [] => _ | _ => _ end) as [o os1]. specialize (Hf o t x Hp).
  destruct (f o t) as [t1 a1]. by intros [= <- <- <-].
Qed.

Lemma changes_mkdir P p : changes P (call (λ o, MkdirAll o p)).
Proof using.
  apply changes_call. intros o t x _ [Hne Hf]. exfalso. destruct (MkdirAll_shape o p t) as [E|(l & _ & E)]; rewrite E in Hne, Hf; [done|].
  rewrite lookup_with_dirs in Hne, Hf. destruct (t !! x) as [n|] eqn:Ex; [done|]. case_bool_decide; [|done].
  by destruct Hf as [[? Hf]|[? Hf]].
Qed.

Lemma changes_write P p c : below root p = true → P p → changes P (call (λ o, WriteFile o p c)).
Proof using.
  intros Hb HP. apply changes_call. intros o t x Hp [Hne _]. destruct (decide (x = p)) as [->|Hxp]; [done|]. exfalso. apply Hne.
  destruct (WriteFile_shape o p c t) as [->|[y ->]]; [intros l; by apply (pl_links _ _ Hp)|done|by rewrite lookup_insert_ne].
Qed.

Lemma changes_remove_all (P : string → Prop) p : (∀ x, x = p ∨ below p x = true → P x) → changes P (call (λ o, RemoveAll o p)).
Proof using.
  intros HP. apply changes_call. intros o t x _ [Hne _]. destruct (RemoveAll_shape o p t x) as [?|[? _]]; [done|by apply HP].
Qed.

Lemma changes_remove (P : string → Prop) p : P p → changes P (call (λ o, Remove o p)).
Proof using. intros HP. apply changes_call. intros o t x _ [Hne _]. by destruct (Remove_shape o p t x) as [?|[-> _]]. Qed.

Context `{Hfold : UnicodeFold}.

(** An operation that names its file by a clean path, and is no link and no
    renaming. *)
Definition direct (op : Operation) : Prop :=
  Clean (bo_Path op) = bo_Path op ∧ bo_Kind op ≠ OperationSymlink ∧ bo_Kind op ≠ OperationRename.

(** The path of the operation, and what is below it when it is removed. *)
Definition named (op : Operation) (x : string) : Prop :=
  x = at_root root (bo_Path op) ∨ (bo_Kind op = OperationDelete ∧ below (at_root root (bo_Path op)) x = true).

Lemma validated_path id i op : validateOperation id i op = Ok tt → direct op → proper_path (bo_Path op) ∧ no_git (bo_Path op).
Proof using.
  unfold validateOperation. destruct (negb (bool_decide (bo_Kind op ∈ _))); [done|]. destruct (blank (bo_Path op)); [done|].
  destruct (isSafeRelativePath (bo_Path op)) eqn:Hs; [|done]. intros _ [Hc _]. rewrite <- Hc. by apply Clean_safe.
Qed.

Lemma operation_changes id i op : validateOperation id i op = Ok tt → direct op → changes (named op) (apply_operation root op).
Proof using Hroot.
  intros Hv Hd. destruct (validated_path _ _ _ Hv Hd) as [Hr Hg]. destruct Hd as (Hc & Hsym & Hren). unfold apply_operation. rewrite Hc.
  assert (PathJoin root (bo_Path op) = at_root root (bo_Path op)) as -> by by apply PathJoin_rooted.
  case_bool_decide; [apply changes_andthen; [by apply contained_mkdir, reaches_parent|apply changes_mkdir|]|].
  { apply changes_write; [by apply in_worktree_path|by left]. }
  case_bool_decide; [apply changes_remove_all; intros x [->|Hx]; [by left|by right]|]. case_bool_decide; [apply changes_mkdir|].
  case_bool_decide; [apply changes_bind; [by apply contained_remove|apply changes_remove; by left|intros a; apply changes_ret]|].
  rewrite (bool_decide_eq_false_2 _ Hsym), (bool_decide_eq_false_2 _ Hren). case_bool_decide; [|apply changes_ret].
  apply changes_call. intros o t x _ [Hne _]. done.
Qed.

Lemma operations_change ops id : Forall (λ op, (∃ i, validateOperation id i op = Ok tt) ∧ direct op) ops →
  contained root (applyRepositoryOperations root ops) ∧ changes (λ x, ∃ op, op ∈ ops ∧ named op x) (applyRepositoryOperations root ops).
Proof using Hroot.
  induction 1 as [|op ops [[i Hv] Hd] _ [IHc IHm]]; cbn [applyRepositoryOperations]; [split; [apply contained_ret|apply changes_ret]|].
  assert (contained root (apply_operation root op)) as Hc by (eapply operation_contained; [done..|apply Hd]).
  split; [by apply contained_andthen|]. apply changes_andthen; [done|..].
  - eapply changes_weaken; [|by eapply operation_changes]. intros x Hx. exists op. split; [left|done].
  - eapply changes_weaken; [|exact IHm]. intros x (op' & Hin & Hx). exists op'. split; [by right|done].
Qed.

End changes.

Lemma content_changed root t t' rel : content root t' rel ≠ content root t rel → file_changed t t' (at_root root rel).
Proof.
  unfold content, versioned, file_changed, is_file, at_root. intros Hne.
  split; [by intros E; rewrite E in Hne|]. destruct (t !! _) as [[]|], (t' !! _) as [[]|]; naive_solver.
Qed.

(** ** A push through the gates *)

Section push.
Context `{Hfold : UnicodeFold, Hlower : UnicodeLower, Hsort : GoSort, Hrange : GoRange}.
Context (g : push_gates) (id : Identity) (clientID : string) (mode : SourcePushMode) (pw : push_world).
Context (Hgated : gated g id clientID mode pw) (Hmode : resolveSourcePushMode mode (pw_config pw) = "squash").

(** The content is one a failed push was undone with. *)
Definition undone (branch : string) (x : string * index) : Prop :=
  ∃ repo, x.1 = rb_StorageID repo ∧ (rollbackSourcePushRepository branch (pw_rolls pw (rb_StorageID repo)) repo None).2 = Some x.2.

(** Where what is on a target branch comes from. *)
Lemma remote_origin b x : x ∈ (PushWorkspaceCommitBundle pw b mode).2 →
  ∃ branch b', normalizeSourceCommitBundleForPush (pw_clientID pw) (pw_fallbackID pw) b = Ok b' ∧ cb_Commits b' = cb_Commits b ∧
    TrimSpace (cb_LogicalBranch b') = TrimSpace (cb_LogicalBranch b) ∧ Validate b' = Ok tt ∧ resolveSourcePushLogicalBranch (cb_LogicalBranch b') b' = Some branch ∧
    PushWorkspaceCommits g id clientID mode (pw_config pw) (cb_LogicalBranch b') b' = None ∧
    (undone branch x ∨ ∃ plan, plan ∈ sourcePushRepositoryPlans b' ∧ x.1 = rb_StorageID (pl_repo plan) ∧
       (pushSourceCommitRepository branch (pw_gits pw x.1 O) plan).2 = Some x.2).
Proof using Hgated Hmode.
  destruct (push_runs pw b mode Hmode) as [E|(branch & b' & En & Ec & El & Hv & Eb & Hal & E)]; rewrite E; [by intros ?%not_elem_of_nil|].
  cbn [snd]. intros Hx. exists branch, b'. rewrite Hgated in Hal. apply bool_decide_eq_true in Hal. split_and!; [done..|].
  unfold push_squash in Hx.
  assert (∀ y, y ∈ pd_remote (squash_loop branch (λ id, pw_gits pw id O) (pw_cancelled pw) 0 (sourcePushRepositoryPlans b') (mkPushed [] [] [] false)) →
    ∃ plan, plan ∈ sourcePushRepositoryPlans b' ∧ y.1 = rb_StorageID (pl_repo plan) ∧
       (pushSourceCommitRepository branch (pw_gits pw y.1 O) plan).2 = Some y.2) as Hs.
  { intros y [?%not_elem_of_nil|(plan & Hp & Ey & Ep)]%squash_remote; [done|]. exists plan. by rewrite Ey. }
  destruct (pd_failed _); [|right; by apply Hs]. apply rollback_remote in Hx as [Hx|(repo & _ & Er & Ex)]; [right; by apply Hs|].
  left. exists repo. split; [done|]. by rewrite lookup_empty in Ex.
Qed.

Lemma resolved_branch b branch : resolveSourcePushLogicalBranch (cb_LogicalBranch b) b = Some branch → branch = TrimSpace (cb_LogicalBranch b).
Proof using. unfold resolveSourcePushLogicalBranch. case_bool_decide; [done|]. case_bool_decide; by intros [= <-]. Qed.

(** C6: With the ownership gate switched on, whatever a direct push leaves in a
    repository, succeeding or not, differs from the clone it started from only
    in files that an operation of the bundle names (or that lie below a path
    it removes) and whose named path the caller owns or nobody governs; what is
    pushed to undo a push apart.  The operations name clean paths, link and
    rename nothing, the clone has no symbolic links, the commits are squashed,
    and git does what it documents. *)
Theorem direct_push_respects_owners b sid ix cloned ignored :
  pg_ownershipEnabled g = true → TrimSpace (cb_LogicalBranch b) = "" →
  (∀ repo op, repo ∈ cb_Commits b ≫= so_Repositories → op ∈ rb_Operations repo → direct op) →
  let git := pw_gits pw sid O in
  rooted_path (ga_root git) → ga_clone git = Ok cloned → plain (ga_root git) cloned → git_documented ignored git →
  (sid, ix) ∈ (PushWorkspaceCommitBundle pw b mode).2 →
  (∃ branch, undone branch (sid, ix)) ∨
  ∀ rel, ix !! rel ≠ ga_index git !! rel →
    ∃ repo op r, repo ∈ cb_Commits b ≫= so_Repositories ∧ rb_StorageID repo = sid ∧ op ∈ rb_Operations repo ∧
      named (ga_root git) op (at_root (ga_root git) rel) ∧
      pg_resolver g = Some r ∧ permitted r id (full_path (rb_DisplayPath repo) (bo_Path op)).
Proof using Hgated Hmode.
  intros Hen Hb Hdir git Hroot Hclone Hplain Hgit Hx.
  destruct (remote_origin b _ Hx) as (branch & b' & _ & Ec & El & Hv & Eb & Hg & [Hu|(plan & Hp & Es & Ep)]); [left; by exists branch|right].
  cbn [fst snd] in *. destruct (push_sends_applied _ _ _ _ Ep) as (cl & os & t & Ecl & Ea & Est). fold git in Ecl, Ea, Est.
  rewrite Hclone in Ecl. injection Ecl as <-. rewrite Hb in El.
  assert (enforceOwnershipGate true (pg_resolver g) id branch b' = None) as Hgate.
  { unfold PushWorkspaceCommits in Hg. rewrite Eb, Hen in Hg. case_bool_decide; [done|]. by destruct (enforceOwnershipGate _ _ _ _ _). }
  assert (∀ op, op ∈ pl_operations plan → ∃ repo i, repo ∈ cb_Commits b' ≫= so_Repositories ∧ rb_StorageID repo = sid ∧ op ∈ rb_Operations repo ∧
    direct op ∧ validateOperation sid i op = Ok tt) as Hops.
  { intros op Hop. destruct (plan_operations b' plan op Hv Hp Hop) as (repo & Hr & Ei & Ho).
    destruct (validated_operation b' repo op Hv Hr Ho) as [i Hi]. exists repo, i. rewrite Ec in Hr |- *. rewrite Es, <- Ei.
    split_and!; [done..|by eapply Hdir|done]. }
  destruct (operations_change (ga_root git) Hroot (pl_operations plan) sid) as [_ Hch].
  { apply Forall_forall. intros op Hop. destruct (Hops op Hop) as (repo & i & _ & _ & _ & Hd & Hi). by split; [exists i|]. }
  intros rel Hrel. assert (file_changed cloned t (at_root (ga_root git) rel)) as Hxc.
  { apply content_changed. rewrite (staged_as _ _ Hgit _ _ _ _ rel Est) in Hrel. destruct (ignored rel) eqn:Ei; [done|].
    by rewrite (gd_clone _ _ Hgit cloned rel Hclone Ei) in Hrel. }
  destruct (Hch _ _ _ _ _ _ Hplain Ea Hxc) as (op & Hop & Hn). destruct (Hops op Hop) as (repo & i & Hr & Ei & Ho & Hd & Hi).
  destruct (operation_permitted (pg_resolver g) id branch b' repo op Hgate) as (r & Er & Hperm); [by rewrite (resolved_branch _ _ Eb), TrimSpace_idem|done..| |].
  - by eapply validated_path.
  - exists repo, op, r. rewrite <- Ec. by split_and!.
Qed.

(** C7: With the policy gate switched on and a policy that was read from its
    file, whatever reaches a repository by a push that squashes the commits
    was allowed: the first rule that applies to the request says so, or none
    applies and the default does. *)
Theorem push_follows_policy unmarshal data cfg b x :
  pg_policyEnabled g = true → Parse unmarshal data = Ok cfg → pg_policy g = Some cfg →
  x ∈ (PushWorkspaceCommitBundle pw b mode).2 →
  ∃ b', normalizeSourceCommitBundleForPush (pw_clientID pw) (pw_fallbackID pw) b = Ok b' ∧
    decides cfg (push_request clientID (cb_WorkspaceID b') (TrimSpace (cb_LogicalBranch b)) "squash" b) "allow".
Proof using Hgated Hmode.
  intros Hen Hparse Hcfg Hx. destruct (remote_origin b x Hx) as (branch & b' & En & Ec & El & _ & Eb & Hg & _). exists b'. split; [done|].
  unfold PushWorkspaceCommits in Hg. rewrite Eb, Hen, Hcfg, Hmode in Hg. case_bool_decide as Ha; [done|].
  replace (push_request clientID (cb_WorkspaceID b') branch "squash" b') with
    (push_request clientID (cb_WorkspaceID b') (TrimSpace (cb_LogicalBranch b)) "squash" b) in Ha.
  2: { apply resolved_branch in Eb as ->. rewrite El. unfold push_request, storageIDsFromSourceBundle. by rewrite Ec. }
  rewrite <- Ha. by eapply Evaluate_decides, Parse_default.
Qed.

End push.

(** *** An instance *)

(** The router has one OWNERS file, of a directory [d/own] of the partition
    [p], with one maintainer. *)
Definition owners_doc (data : string) : option ownersYAML :=
  if bool_decide (data = "owners") then Some (mkOwnersYAML 1 [] [] ["ann"]) else None.
Definition stored_files (logical : string) : option string :=
  if bool_decide (logical = "/partitions/p/d/own/.guardian/OWNERS") then Some "owners" else None.
Definition the_resolver : OwnershipResolver := NewOwnershipResolver (router_LoadOwners owners_doc stored_files) ∅.

Definition ann : Identity := mkIdentity "ann" "" [] "".
Definition bob : Identity := mkIdentity "bob" "" [] "".
Definition owned_clone : tree :=
  {["/t" := Directory; "/t/.git" := Directory; "/t/a" := File "one"; "/t/d" := Directory; "/t/d/own" := Directory; "/t/d/own/f" := File "two"]}.
Definition owned_git : git_answers :=
  plain_git "/t" owned_clone "c0" (λ _, None).

(** Pushes are allowed to one client, except to one repository. *)
Definition the_rules : PolicyConfig :=
  let only principals repos := mkMatchSet principals [] [] repos [] [] [] in
  mkPolicyConfig 1 "deny"
    [mkRule "sealed" (only [] ["sealed-*"]) no_conditions "deny" "sealed"; mkRule "client" (only ["cli*"] []) no_conditions "allow" ""].
Definition the_gates : push_gates := mkGates true (Some the_rules) true (Some the_resolver).
Definition gated_push (id : Identity) : push_world :=
  mkPushWorld "" "fallback"
    (λ b, bool_decide (@PushWorkspaceCommits basic_unicode_fold basic_unicode_lower the_gates id "client" MODE_SQUASH "" (cb_LogicalBranch b) b = None))
    "" "job" (λ _ _, owned_git) (λ _, mkRollback owned_git None (λ _, None)) (λ _, false).
Definition direct_bundle (ops : list Operation) : SourceCommitBundle :=
  mkCommitBundle "w" "me" "" [mkSourceCommit "local-1" "" "m" "n" "e" "me" 5 [mkRepositoryBundle "s" "guardian/p" "url" "main" "c0" ops]].
Definition sent (id : Identity) (ops : list Operation) : list (string * index) :=
  (@PushWorkspaceCommitBundle basic_unicode_fold basic_unicode_lower go_insertion_sort go_map_to_list (gated_push id) (direct_bundle ops) MODE_SQUASH).2.

(** The owner of a directory changes a file in it. *)
Lemma direct_push_respects_owners_witness :
  ∃ ix op, ("s", ix) ∈ sent ann [mkOperation OperationUpsert "d/own/f" 420 "new" ""] ∧ ix !! "d/own/f" = Some (File "new") ∧
    named "/t" op "/t/d/own/f" ∧ @permitted basic_unicode_fold the_resolver ann (full_path "guardian/p" (bo_Path op)).
Proof.
  set (ops := [mkOperation OperationUpsert "d/own/f" 420 "new" ""]).
  destruct (sent ann ops) as [|[sid ix] l] eqn:E; [vm_compute in E; discriminate|].
  assert (sid = "s" ∧ ix !! "d/own/f" = Some (File "new")) as [-> Hx] by (vm_compute in E; injection E as <- <- _; split; vm_compute; reflexivity).
  exists ix. unfold sent in E.
  destruct (@direct_push_respects_owners basic_unicode_fold basic_unicode_lower go_insertion_sort go_map_to_list the_gates ann "client" MODE_SQUASH
    (gated_push ann) ltac:(by intros b) eq_refl (direct_bundle ops) "s" ix owned_clone in_git_dir) as [[branch (repo & _ & Hu)]|H].
  - reflexivity.
  - vm_compute. reflexivity.
  - intros repo op Hr Hop. change (cb_Commits (direct_bundle ops) ≫= so_Repositories) with [mkRepositoryBundle "s" "guardian/p" "url" "main" "c0" ops] in Hr.
    apply list_elem_of_singleton in Hr as ->. apply list_elem_of_singleton in Hop as ->. split_and!; [vm_compute; reflexivity|discriminate..].
  - exists "t". split; [apply (bool_decide_unpack _); vm_compute; reflexivity|reflexivity].
  - reflexivity.
  - apply plain_top; vm_compute; reflexivity.
  - apply plain_git_documented.
  - rewrite E. left.
  - vm_compute in Hu. discriminate Hu.
  - destruct (H "d/own/f") as (repo & op & r & Hr & _ & _ & Hn & [= <-] & Hp); [rewrite Hx; vm_compute; discriminate|].
    change (cb_Commits (direct_bundle ops) ≫= so_Repositories) with [mkRepositoryBundle "s" "guardian/p" "url" "main" "c0" ops] in Hr.
    apply list_elem_of_singleton in Hr as ->. exists op. split_and!; [left|exact Hx|exact Hn|exact Hp].
Defined.

Definition rules_doc (data : string) : option PolicyConfig := if bool_decide (data = "rules") then Some the_rules else None.

Lemma push_follows_policy_witness :
  ∃ workspace, decides the_rules (push_request "client" workspace "" "squash" (direct_bundle [write "new"])) "allow".
Proof.
  destruct (sent bob [write "new"]) as [|x l] eqn:E; [vm_compute in E; discriminate|]. unfold sent in E.
  destruct (@push_follows_policy basic_unicode_fold basic_unicode_lower go_insertion_sort go_map_to_list the_gates bob "client" MODE_SQUASH
    (gated_push bob) ltac:(by intros b) eq_refl rules_doc "rules" the_rules (direct_bundle [write "new"]) x) as (b' & _ & H).
  - done.
  - vm_compute. reflexivity.
  - done.
  - rewrite E. left.
  - exists (cb_WorkspaceID b'). exact H.
Defined.

(** ** Around the gate *)

(** A file of an owned directory cannot be changed directly by others. *)
Example owned_file_protected : sent bob [mkOperation OperationUpsert "d/own/f" 420 "new" ""] = [].
Proof. vm_compute. reflexivity. Qed.

(** The gate looks at the path of an operation, not at its target: a file is
    moved into the directory of another owner, over one of its files. *)
Theorem rename_evades_review :
  (λ x, x.2 !! "d/own/f") <$> sent bob [mkOperation OperationRename "a" 0 "" "d/own/f"] = [Some (File "one")].
Proof. vm_compute. reflexivity. Qed.

(** It looks at the directories above a path, not below it: an owned directory
    is removed with the one it lies in. *)
Theorem removal_evades_review :
  (λ x, x.2 !! "d/own/f") <$> sent bob [mkOperation OperationDelete "d" 0 "" ""] = [None].
Proof. vm_compute. reflexivity. Qed.
