(* ===== verification/GoTime.v ===== *)
(** * The calendar of package time

    Times are nanoseconds since 1970 in UTC.  [civil] is the proleptic
    Gregorian date of a day. *)

From stdpp Require Import options.
From S2P Require Import Prelude GoFmt.

Abbreviation Hour := 3600000000000 (only parsing).
Abbreviation Day := 86400000000000 (only parsing).

(** [t.UTC().Truncate(time.Hour)], as a number of hours: the zero time of the
    language is a whole number of hours before 1970. *)
Definition hour_of (t : Z) : Z := t / Hour.

(** The date of a day counted from 1970-01-01; years begin in March until the
    last step, so that the leap day is the last of a year. *)
Definition civil (days : Z) : Z * Z * Z :=
  let z := days + 719468 in
  let '(era, doe) := (z / 146097, z `mod` 146097) in
  let yoe := (doe - doe / 1460 + doe / 36524 - doe / 146096) / 365 in
  let doy := doe - (365 * yoe + yoe / 4 - yoe / 100) in
  let mp := (5 * doy + 2) / 153 in
  let d := doy - (153 * mp + 2) / 5 + 1 in
  let m := if bool_decide (mp < 10) then mp + 3 else mp - 9 in
  (yoe + era * 400 + (if bool_decide (m ≤ 2) then 1 else 0), m, d).

(** [Format("2006-01-02")] and [Format("15")] of the start of an hour. *)
Definition format_date (hour : Z) : string :=
  let '(y, m, d) := civil (hour / 24) in dec_pad 4 y +:+ "-" +:+ dec_pad 2 m +:+ "-" +:+ dec_pad 2 d.
Definition format_hour (hour : Z) : string := dec_pad 2 (hour `mod` 24).
(** The elements of [Format("2006/01/02/15")]. *)
Definition format_bucket (hour : Z) : list string :=
  let '(y, m, d) := civil (hour / 24) in [dec_pad 4 y; dec_pad 2 m; dec_pad 2 d; format_hour hour].

(** The calendar repeats every 400 years. *)
Lemma civil_era days k : civil (days + 146097 * k) = (let '(y, m, d) := civil days in (y + 400 * k, m, d)).
Proof.
  unfold civil. replace (days + 146097 * k + 719468) with (days + 719468 + k * 146097) by lia.
  rewrite Z.div_add, Z_mod_plus_full by lia. f_equal. f_equal. lia.
Qed.

(** The epoch, leap days, and years of centuries. *)
Lemma civil_days :
  (civil <$> [-1; 0; 58; 59; 789; 790; 11015; 11016; 11017; 19782; 20773; 47540; 47541]) =
  [(1969, 12, 31); (1970, 1, 1); (1970, 2, 28); (1970, 3, 1); (1972, 2, 29); (1972, 3, 1); (2000, 2, 28); (2000, 2, 29);
   (2000, 3, 1); (2024, 2, 29); (2026, 11, 16); (2100, 2, 28); (2100, 3, 1)].
Proof. done. Qed.
