(* ===== verification/ChunkStore.v ===== *)
(** * The chunks of a signal in the object store

    Model of the chunk layout of internal/storage/logengine: the directories
    of a signal and their listing by time range (storage.go), writing a chunk
    (ingester.go, partition.go) and retention ([DeleteBefore] of engine.go).

    A path below [chunks/<signal>/] is the list of its elements.  A chunk
    directory holds a data file and a manifest, each possibly missing or cut
    short by a crash; a side index is written between the two and is not
    recorded.  The objects are those of the backend: the caches of
    [CachedStore], which its writes and deletions invalidate, are left out.

    Operations run in a monad that stops after a given number of writes and
    deletions, as a crash or a failing backend would: the code returns the
    first error it meets and undoes nothing. *)

From stdpp Require Import options.
From S2P Require Import Prelude GoStrings GoUnicode GoFmt GoSort GoRange GoPath GoTime LogEngine.

(** ** Records *)

Record MetricRecord := mkMetric {
  mr_Timestamp : Z; mr_Service : string; mr_MetricName : string; mr_Value : Z; mr_Labels : gmap string string }.
Record SpanRecord := mkSpan {
  sp_Timestamp : Z; sp_EndTime : Z; sp_TraceID : string; sp_SpanID : string; sp_ParentSpanID : string;
  sp_Service : string; sp_Name : string; sp_StatusCode : string; sp_Attributes : gmap string string }.

Definition len (s : string) : Z := Z.of_nat (String.length s).
Definition labels_size (labels : gmap string string) : Z := map_fold (λ k v size, size + len k + len v) 0 labels.
Definition estimateLogRecordSize (r : LogRecord) : Z :=
  len (Level r) + len (Service r) + len (TraceID r) + len (SpanID r) + len (RawMessage r) + 96 + labels_size (Labels r).
Definition estimateMetricRecordSize (r : MetricRecord) : Z := len (mr_Service r) + len (mr_MetricName r) + 80 + labels_size (mr_Labels r).
Definition estimateSpanRecordSize (r : SpanRecord) : Z :=
  len (sp_TraceID r) + len (sp_SpanID r) + len (sp_ParentSpanID r) + len (sp_Service r) + len (sp_Name r) + len (sp_StatusCode r) + 96 +
  labels_size (sp_Attributes r).

(** What the three signals share: a start and an end, labels, the name their
    rows are grouped by, a size, and what the manifest says of the rows. *)
Class Telemetry (T : Type) := {
  rec_time : T → Z; rec_end : T → Z; rec_labels : T → gmap string string; rec_name : T → string; rec_size : T → Z;
  Dictionary : Type; dictionary : list T → Dictionary }.

Definition names {T} (f : T → string) (records : list T) : list string :=
  sortedKeys (foldl (λ s r, if bool_decide (f r = "") then s else {[f r]} ∪ s) ∅ records).
Definition collectMetricServices : list MetricRecord → list string := names mr_Service.
Definition collectMetricNames : list MetricRecord → list string := names mr_MetricName.
Definition collectTraceServices : list SpanRecord → list string := names sp_Service.

(** Of the dictionaries of metrics and spans only the names are modelled. *)
#[export] Instance log_telemetry `{GoRange} : Telemetry LogRecord :=
  {| rec_time := Timestamp; rec_end := Timestamp; rec_labels := Labels; rec_name := Service; rec_size := estimateLogRecordSize;
     dictionary logs := fst <$> LogEngine.flushLogs logs |}.
#[export] Instance metric_telemetry : Telemetry MetricRecord :=
  {| rec_time := mr_Timestamp; rec_end := mr_Timestamp; rec_labels := mr_Labels; rec_name := mr_MetricName; rec_size := estimateMetricRecordSize;
     dictionary metrics := (collectMetricServices metrics, collectMetricNames metrics) |}.
#[export] Instance span_telemetry : Telemetry SpanRecord :=
  {| rec_time := sp_Timestamp; rec_end := sp_EndTime; rec_labels := sp_Attributes; rec_name := sp_Service; rec_size := estimateSpanRecordSize;
     dictionary := collectTraceServices |}.

(** ** Paths *)

Abbreviation path := (list string) (only parsing).
Definition path_string (p : path) : string := Join p "/".

Definition partition_rune (r : Z) : ascii :=
  if bool_decide (97 ≤ r ≤ 122 ∨ 65 ≤ r ≤ 90 ∨ 48 ≤ r ≤ 57 ∨ r = 46 ∨ r = 45 ∨ r = 95) then byte_of_Z r else "_".
Fixpoint drop_edge (bs : bytes) : bytes :=
  match bs with b :: bs' => if bool_decide (b = "."%char ∨ b = "-"%char) then drop_edge bs' else bs | [] => [] end.
Definition partitionDir (partition : string) : string :=
  let partition := TrimSpace partition in
  if bool_decide (partition = "") then "partition=_unpartitioned"
  else
    let value := string_of_bytes (rev (drop_edge (rev (drop_edge (partition_rune <$> runes partition))))) in
    if bool_decide (value = "") then "partition=_unpartitioned" else "partition=" +:+ value.

Definition hive_dir (partition : string) (hour : Z) : path := [partition; "date=" +:+ format_date hour; "hour=" +:+ format_hour hour].
Definition relativeChunkPath (chunkID : string) (minTime : Z) (partition : string) : path :=
  hive_dir (partitionDir partition) (hour_of minTime) ++ [chunkID].
Definition chunkPartition (values : list string) : string :=
  match values with [] => "" | [value] => value | _ => "_mixed" end.

Definition isTimeBucketName (name : string) (width : nat) : bool :=
  bool_decide (String.length name = width) && forallb (λ b, bool_decide (48 ≤ Z_of_byte b ≤ 57)) (bytes_of_string name).
Definition looksLikeChunkID (name : string) : bool :=
  HasPrefix name "chunk-" || HasPrefix name "compact-" || HasPrefix name "ts_".
Definition chunkPathOverlaps (p : path) (from to : option Z) : bool :=
  match ParseChunkTimeRangeFromID (path_string p) with
  | None => true
  | Some (minTime, maxTime) => negb (outside from to minTime maxTime)
  end.
Definition validChunkID (chunkID : string) : bool :=
  negb (bool_decide (chunkID = "" ∨ chunkID = "." ∨ chunkID = "..")) && bool_decide (Base chunkID = chunkID) &&
  negb (has_byte slash chunkID) && negb (has_byte backslash chunkID).

(** ** The store *)

(** A file: complete, or cut short while it was written. *)
Inductive stored (A : Type) := Whole (a : A) | Torn.
Arguments Whole {A} a.
Arguments Torn {A}.

(** The part of a [ChunkManifest] that all signals have. *)
Record Manifest {T} `{Telemetry T} := mkMeta {
  mf_ChunkID : string; mf_MinTime : Z; mf_MaxTime : Z; mf_Partitions : list string; mf_RecordCount : Z; mf_Dictionary : Dictionary;
  mf_CompactionLevel : Z; mf_CompactionGroup : string; mf_CompactionSources : list path }.
Arguments Manifest T {_}.
Arguments mkMeta {T _}.

Record compactionRunMarker := mkMarker {
  mk_Group : string; mk_From : Z; mk_To : Z; mk_Sources : list path; mk_Outputs : list path; mk_CreatedAt : Z }.

Record chunk_dir {T} `{Telemetry T} := mkDir { data : option (stored (list T)); manifest : option (stored (Manifest T)) }.
Arguments chunk_dir T {_}.
Arguments mkDir {T _}.

(** The chunk directories and the markers under [compaction-runs]. *)
Record chunk_store {T} `{Telemetry T} := mkChunks { dirs : gmap path (chunk_dir T); runs : gmap string (stored compactionRunMarker) }.
Arguments chunk_store T {_}.
Arguments mkChunks {T _}.

Record ChunkWriteOptions := mkWriteOptions { CompactionSources : list path; CompactionLevel : Z; CompactionGroup : string }.

Inductive chunk_error := GhostChunk | Undecodable | InvalidChunkID | EmptyRange.

(** How many writes and deletions are still carried out ([None]: all), and
    whether a write that is cut off leaves a torn file. *)
Record supply := mkSupply { remaining : option nat; tears : bool }.
Definition unlimited : supply := mkSupply None false.

Inductive outcome {T} `{Telemetry T} (A : Type) :=
| Stopped (st : chunk_store T)
| Failed (st : chunk_store T) (s : supply) (e : chunk_error)
| Done (st : chunk_store T) (s : supply) (a : A).
Arguments outcome T {_} A.
Arguments Stopped {T _ A} st.
Arguments Failed {T _ A} st s e.
Arguments Done {T _ A} st s a.

Section store.
Context {T : Type} `{Telemetry T}.

Definition run (A : Type) : Type := chunk_store T → supply → outcome T A.
Definition rret {A} (a : A) : run A := λ st s, Done st s a.
Definition rfail {A} (e : chunk_error) : run A := λ st s, Failed st s e.
Definition rseq {A B} (m : run A) (k : A → run B) : run B := λ st s,
  match m st s with Stopped st' => Stopped st' | Failed st' s' e => Failed st' s' e | Done st' s' a => k a st' s' end.
Definition rlook : run (chunk_store T) := λ st s, Done st s st.

(** A write or deletion; [torn] is what a write leaves that is cut off. *)
Definition mutate (f torn : chunk_store T → chunk_store T) : run unit := λ st s,
  match remaining s with
  | None => Done (f st) s tt
  | Some (S n) => Done (f st) (mkSupply (Some n) (tears s)) tt
  | Some O => Stopped (if tears s then torn st else st)
  end.

Definition final {A} (o : outcome T A) : chunk_store T := match o with Stopped st => st | Failed st _ _ => st | Done st _ _ => st end.

Definition dir_at (st : chunk_store T) (p : path) : chunk_dir T := default (mkDir None None) (dirs st !! p).
Definition set_dir (p : path) (d : chunk_dir T) (st : chunk_store T) : chunk_store T := mkChunks (<[p := d]> (dirs st)) (runs st).
Definition write_data (p : path) (rows : list T) : run unit :=
  let put x st := set_dir p (mkDir (Some x) (manifest (dir_at st p))) st in mutate (put (Whole rows)) (put Torn).
Definition write_manifest (p : path) (m : Manifest T) : run unit :=
  let put x st := set_dir p (mkDir (data (dir_at st p)) (Some x)) st in mutate (put (Whole m)) (put Torn).
Definition write_marker (group : string) (m : compactionRunMarker) : run unit :=
  let put x st := mkChunks (dirs st) (<[group := x]> (runs st)) in mutate (put (Whole m)) (put Torn).

(** [Delete] of a path below the root of the signal, and of a marker. *)
Definition Delete (p : path) : run unit :=
  let f st := mkChunks (filter (λ qd, ¬ p `prefix_of` qd.1) (dirs st)) (runs st) in mutate f (λ st, st).
Definition delete_marker (group : string) : run unit :=
  let f st := mkChunks (dirs st) (delete group (runs st)) in mutate f (λ st, st).

Definition ReadManifest (st : chunk_store T) (p : path) : result chunk_error (Manifest T) :=
  match manifest (dir_at st p) with None => Err GhostChunk | Some Torn => Err Undecodable | Some (Whole m) => Ok m end.
(** The rows a scan without conditions yields. *)
Definition scan (st : chunk_store T) (p : path) : result chunk_error (list T) :=
  match data (dir_at st p) with None => Err GhostChunk | Some Torn => Err Undecodable | Some (Whole rows) => Ok rows end.

(** ** Listing *)

(** The name below [rel] on the way to [p]. *)
Fixpoint below (rel p : path) : option string :=
  match rel, p with
  | [], name :: _ => Some name
  | a :: rel, b :: p => if bool_decide (a = b) then below rel p else None
  | _, [] => None
  end.
Definition ListChunks (st : chunk_store T) (rel : path) : list string :=
  let names : gset string := list_to_set (omap (below rel) (map_to_list (dirs st)).*1) in
  sort_Strings (elements (if bool_decide (rel = [] ∧ runs st ≠ ∅) then {["compaction-runs"]} ∪ names else names)).

Definition add (paths : list path) (p : path) : list path := if bool_decide (p ∈ paths) then paths else paths ++ [p].

Definition walkPartitionBuckets (st : chunk_store T) (paths : list path) (partition : string) : list path :=
  foldl (λ paths date,
    if negb (HasPrefix date "date=") then paths
    else foldl (λ paths hour,
      if negb (HasPrefix hour "hour=") then paths
      else foldl (λ paths chunkID, if looksLikeChunkID chunkID then add paths [partition; date; hour; chunkID] else paths)
             paths (ListChunks st [partition; date; hour]))
    paths (ListChunks st [partition; date]))
  paths (ListChunks st [partition]).

(** [levels] more levels of names to come: 3 below a year. *)
Fixpoint walkTimeBuckets (levels : nat) (st : chunk_store T) (paths : list path) (relative : path) : list path :=
  match levels with
  | O => foldl (λ paths chunkID, if looksLikeChunkID chunkID then add paths (relative ++ [chunkID]) else paths) paths (ListChunks st relative)
  | S levels =>
      foldl (λ paths entry, if isTimeBucketName entry 2 then walkTimeBuckets levels st paths (relative ++ [entry]) else paths)
        paths (ListChunks st relative)
  end.

Definition bucketed (from to : option Z) : bool :=
  match from, to with Some f, Some t => bool_decide (t - f ≤ 90 * Day) | _, _ => false end.
(** The hours a bounded range enumerates. *)
Definition bucket_hours (from to : option Z) : list Z :=
  match from, to with Some f, Some t => seqZ (hour_of f - 1) (hour_of t - (hour_of f - 1) + 1) | _, _ => [] end.

Definition list_partition (st : chunk_store T) (from to : option Z) (paths : list path) (partition : string) : list path :=
  if bucketed from to then
    foldl (λ paths hour,
      foldl (λ paths chunkID, if looksLikeChunkID chunkID then add paths (hive_dir partition hour ++ [chunkID]) else paths)
        paths (ListChunks st (hive_dir partition hour)))
    paths (bucket_hours from to)
  else walkPartitionBuckets st paths partition.
Definition list_years (st : chunk_store T) (from to : option Z) (paths : list path) (years : list string) : list path :=
  if bucketed from to then
    if bool_decide (years = []) then paths
    else foldl (λ paths hour, foldl (λ paths chunkID, add paths (format_bucket hour ++ [chunkID])) paths (ListChunks st (format_bucket hour)))
           paths (bucket_hours from to)
  else foldl (λ paths year, walkTimeBuckets 3 st paths [year]) paths years.

Definition path_le (p q : path) : Prop := String.le (path_string p) (path_string q).
#[global] Instance path_le_dec : RelDecision path_le.
Proof. intros p q. unfold path_le. apply _. Defined.

Definition ListChunkPaths (st : chunk_store T) (from to : option Z) : list path :=
  let entries := ListChunks st [] in
  let is_partition entry := HasPrefix entry "partition=" in
  let is_year entry := negb (is_partition entry) && isTimeBucketName entry 4 in
  let is_flat entry := negb (is_partition entry) && negb (isTimeBucketName entry 4) && looksLikeChunkID entry in
  let paths := foldl add [] ((λ entry, [entry]) <$> filter (λ entry, is_flat entry = true) entries) in
  let paths := foldl (list_partition st from to) paths (filter (λ entry, is_partition entry = true) entries) in
  let paths := list_years st from to paths (filter (λ entry, is_year entry = true) entries) in
  let paths := match from, to with None, None => paths | _, _ => filter (λ p, chunkPathOverlaps p from to = true) paths end in
  merge_sort path_le paths.

(** ** Writing a chunk *)

(** The order of the rows of a chunk. *)
Definition record_less (a b : T) : bool :=
  let '(pa, pb) := (recordPartition (rec_labels a), recordPartition (rec_labels b)) in
  if bool_decide (pa ≠ pb) then str_lt pa pb
  else if bool_decide (rec_name a ≠ rec_name b) then str_lt (rec_name a) (rec_name b)
  else bool_decide (rec_time a < rec_time b).
Definition sort_records (records : list T) : list T := sort_stable record_less records.

Definition collect_partitions (records : list T) : list string := names (λ r, recordPartition (rec_labels r)) records.
Definition min_time (r0 : T) (records : list T) : Z :=
  foldl (λ t r, if bool_decide (rec_time r < t) then rec_time r else t) (rec_time r0) records.
Definition max_time (f : T → Z) (r0 : T) (records : list T) : Z :=
  foldl (λ t r, if bool_decide (t < f r) then f r else t) (rec_time r0) records.

(** [rows] are the sorted records; the dictionaries do not depend on their
    order, and [LogEngine.flushLogs] sorts them itself. *)
Definition chunk_manifest (chunkID : string) (r0 : T) (records rows : list T) (opts : ChunkWriteOptions) : Manifest T :=
  mkMeta chunkID (min_time r0 rows) (max_time rec_end r0 rows) (collect_partitions rows) (Z.of_nat (length rows)) (dictionary records)
    (CompactionLevel opts) (CompactionGroup opts) (CompactionSources opts).

(** [flushLogs], [flushMetrics] and [flushTraces]: the manifest is written
    last. *)
Definition flush_records (chunkID : string) (records : list T) (opts : ChunkWriteOptions) : run path :=
  match sort_records records with
  | [] => rret []
  | (r0 :: _) as rows =>
      let m := chunk_manifest chunkID r0 records rows opts in
      let p := relativeChunkPath chunkID (mf_MinTime m) (chunkPartition (mf_Partitions m)) in
      rseq (write_data p rows) (λ _, rseq (write_manifest p m) (λ _, rret p))
  end.
Definition FlushChunkWithOptions (chunkID : string) (records : list T) (opts : ChunkWriteOptions) : run path :=
  if negb (validChunkID chunkID) then rfail InvalidChunkID else flush_records chunkID records opts.
Definition FlushChunk (chunkID : string) (records : list T) : run path :=
  FlushChunkWithOptions chunkID records (mkWriteOptions [] 0 "").

(** ** Retention *)

Fixpoint delete_expired (cutoff : Z) (paths : list path) (deleted : nat) : run nat :=
  match paths with
  | [] => rret deleted
  | p :: paths =>
      rseq rlook (λ st,
      match ReadManifest st p with
      | Err GhostChunk => delete_expired cutoff paths deleted
      | Err e => rfail e
      | Ok m => if bool_decide (cutoff < mf_MaxTime m) then delete_expired cutoff paths deleted
                else rseq (Delete p) (λ _, delete_expired cutoff paths (S deleted))
      end)
  end.
Definition DeleteBefore (cutoff : option Z) : run nat :=
  match cutoff with
  | None => rret O
  | Some t => rseq rlook (λ st, delete_expired t (ListChunkPaths st None (Some t)) O)
  end.

End store.
