(* ===== verification/Compaction.v ===== *)
(** * Compaction

    Model of internal/storage/logengine/compactor.go: many small chunks of a
    time range are rewritten into fewer, larger ones.  The outputs of a run
    carry its group; once all are written a marker names them and the
    sources, which are then deleted.  The next run finishes or rolls back
    what its predecessor left.  Log output and metrics are left out, and so
    are concurrent writers: a run holds the compactor's lock. *)

From stdpp Require Import options.
From S2P Require Import Prelude GoStrings GoUnicode GoFmt GoSort GoRange GoPath GoTime LogEngine ChunkStore.

Record CompactionOptions := mkCompactionOptions { MaxRecords : Z; MaxBytes : Z }.
Abbreviation defaultCompactionMaxRecords := 1000000 (only parsing).
Abbreviation defaultCompactionMaxBytes := 268435456 (only parsing).

Record CompactionResult := mkCompactionResult {
  InputChunks : nat; OutputChunks : nat; Records : nat; DeletedChunks : nat }.

(** [%d]. *)
Definition itoa (n : Z) : string := if bool_decide (n < 0) then "-" +:+ dec (- n) else dec n.
Definition compacted_id (minTime maxTime : Z) (group : string) (seq : nat) : string :=
  "compact-" +:+ Join [itoa minTime; itoa maxTime; group; itoa (Z.of_nat seq)] "-".
Definition isCompactedChunkPath (p : path) : bool := HasPrefix (default "" (last p)) "compact-".

Section compaction.
Context {T : Type} `{Telemetry T}.

(** ** Writing the outputs *)

(** The paths written so far and the number of the next output. *)
Record outputs := mkOutputs { out_paths : list path; out_seq : nat }.

Definition group_key (r : T) : string := recordPartition (rec_labels r) +:+ String "000" (rec_name r).
Definition count_group_keys (records : list T) : nat :=
  (foldl (λ '(count, previous) r, let key := group_key r in if bool_decide (key ≠ previous) then (S count, key) else (count, previous))
     (O, String "000" "") records).1.

(** The end of the run that starts with [first]: at most [n] more rows. *)
Fixpoint run_end (grouped : bool) (first : T) (n : nat) (records : list T) : nat :=
  match n, records with
  | S n, r :: records =>
      if negb grouped || bool_decide (rec_name r = rec_name first ∧ recordPartition (rec_labels r) = recordPartition (rec_labels first))
      then S (run_end grouped first n records) else O
  | _, _ => O
  end.
(** Every run has a row, so as many steps as rows are enough. *)
Fixpoint cut_runs (fuel : nat) (grouped : bool) (maxRecords : nat) (records : list T) : list (T * list T) :=
  match fuel, records with
  | S fuel, first :: rest =>
      let n := run_end grouped first (maxRecords - 1) rest in
      (first, take n rest) :: cut_runs fuel grouped maxRecords (drop n rest)
  | _, _ => []
  end.

Fixpoint write_runs (group : string) (sources : list path) (batches : list (T * list T)) (o : outputs) : run outputs :=
  match batches with
  | [] => rret o
  | (r, rs) :: batches =>
      let '(minTime, maxTime) := (min_time r (r :: rs), max_time rec_time r (r :: rs)) in
      let chunkID := compacted_id minTime maxTime group (out_seq o) in
      rseq (FlushChunkWithOptions chunkID (r :: rs) (mkWriteOptions sources 1 group)) (λ p,
      write_runs group sources batches (mkOutputs (out_paths o ++ [p]) (S (out_seq o))))
  end.

Definition write_compacted (group : string) (sources : list path) (maxRecords : Z) (records : list T) (o : outputs) : run outputs :=
  let maxRecords := if bool_decide (maxRecords ≤ 0) then defaultCompactionMaxRecords else maxRecords in
  let records := sort_records records in
  let grouped := bool_decide (count_group_keys records ≤ 128)%nat in
  write_runs group sources (cut_runs (length records) grouped (Z.to_nat maxRecords) records) o.

(** ** The accumulator *)

(** [acc_span] is the first and the last time and the hour, once there is a
    record. *)
Record compactAccumulator := mkAcc { acc_records : list T; acc_bytes : Z; acc_span : option (Z * Z * Z) }.
Definition no_records : compactAccumulator := mkAcc [] 0 None.

Section accumulate.
Context (opts : CompactionOptions) (flush : list T → outputs → run outputs).

Definition Flush (a : compactAccumulator) (o : outputs) : run (compactAccumulator * outputs) :=
  if bool_decide (acc_records a = []) then rret (a, o)
  else rseq (flush (acc_records a) o) (λ o, rret (no_records, o)).

Definition Add (record : T) (ao : compactAccumulator * outputs) : run (compactAccumulator * outputs) :=
  let '(ts, bucket) := (rec_time record, hour_of (rec_time record)) in
  rseq (match acc_span ao.1 with
        | Some (_, _, b) => if bool_decide (bucket ≠ b) then Flush ao.1 ao.2 else rret ao
        | None => rret ao
        end) (λ '(a, o),
  let '(lo, hi, b) := default (ts, ts, bucket) (acc_span a) in
  let a := mkAcc (acc_records a ++ [record]) (acc_bytes a + rec_size record) (Some (Z.min ts lo, Z.max ts hi, b)) in
  if bool_decide (MaxRecords opts ≤ Z.of_nat (length (acc_records a)) ∨ MaxBytes opts ≤ acc_bytes a) then Flush a o else rret (a, o)).

Fixpoint add_records (records : list T) (ao : compactAccumulator * outputs) : run (compactAccumulator * outputs) :=
  match records with
  | [] => rret ao
  | r :: records => rseq (Add r ao) (add_records records)
  end.

(** The loop over the sources; [n] counts the records read. *)
Fixpoint read_sources (raw : list path) (n : nat) (ao : compactAccumulator * outputs) : run (nat * (compactAccumulator * outputs)) :=
  match raw with
  | [] => rret (n, ao)
  | p :: raw =>
      rseq rlook (λ st,
      match scan st p with
      | Err GhostChunk => read_sources raw n ao
      | Err e => rfail e
      | Ok rows => rseq (add_records rows ao) (read_sources raw (n + length rows))
      end)
  end.
End accumulate.

(** ** Markers *)

Fixpoint outputs_complete (st : chunk_store T) (paths : list path) : result chunk_error bool :=
  match paths with
  | [] => Ok true
  | p :: paths =>
      match ReadManifest st p with
      | Ok _ => outputs_complete st paths
      | Err GhostChunk => Ok false
      | Err e => Err e
      end
  end.
Fixpoint delete_all (paths : list path) : run unit :=
  match paths with [] => rret tt | p :: paths => rseq (Delete p) (λ _, delete_all paths) end.
Fixpoint delete_present (paths : list path) : run unit :=
  match paths with
  | [] => rret tt
  | p :: paths =>
      rseq rlook (λ st,
      match ReadManifest st p with
      | Err GhostChunk => delete_present paths
      | Err e => rfail e
      | Ok _ => rseq (Delete p) (λ _, delete_present paths)
      end)
  end.

Definition cleanup_marker (group : string) (valid : gset string) : run (gset string) :=
  let group := TrimSpace group in
  if bool_decide (group = "") then rret valid
  else
    rseq rlook (λ st,
    match runs st !! group with
    | None => rret valid
    | Some Torn => rseq (delete_marker group) (λ _, rret valid)
    | Some (Whole marker) =>
        match outputs_complete st (mk_Outputs marker) with
        | Err e => rfail e
        | Ok false => rseq (delete_all (mk_Outputs marker)) (λ _, rseq (delete_marker group) (λ _, rret valid))
        | Ok true => rseq (delete_present (mk_Sources marker)) (λ _, rseq (delete_marker group) (λ _, rret ({[group]} ∪ valid)))
        end
    end).
Fixpoint cleanup_markers (groups : list string) (valid : gset string) : run (gset string) :=
  match groups with [] => rret valid | group :: groups => rseq (cleanup_marker group valid) (cleanup_markers groups) end.
Definition cleanupCompactionMarkers : run (gset string) :=
  rseq rlook (λ st, cleanup_markers (sort_Strings (elements (dom (runs st)))) ∅).

(** ** A run *)

(** The chunks of the range: the raw ones, how many compacted ones stay,
    whether one of them is from before there were groups, and how many were
    deleted because their group has no marker. *)
Record classes := mkClasses { cl_raw : list path; cl_compacted : nat; cl_legacy : bool; cl_deleted : nat }.
Fixpoint classify (valid : gset string) (paths : list path) (c : classes) : run classes :=
  match paths with
  | [] => rret c
  | p :: paths =>
      if negb (isCompactedChunkPath p)
      then classify valid paths (mkClasses (cl_raw c ++ [p]) (cl_compacted c) (cl_legacy c) (cl_deleted c))
      else
        rseq rlook (λ st,
        match ReadManifest st p with
        | Err GhostChunk => classify valid paths c
        | Err e => rfail e
        | Ok m =>
            if bool_decide (mf_CompactionGroup m = "")
            then classify valid paths (mkClasses (cl_raw c) (S (cl_compacted c)) true (cl_deleted c))
            else if bool_decide (mf_CompactionGroup m ∈ valid)
            then classify valid paths (mkClasses (cl_raw c) (S (cl_compacted c)) (cl_legacy c) (cl_deleted c))
            else rseq (Delete p) (λ _, classify valid paths (mkClasses (cl_raw c) (cl_compacted c) (cl_legacy c) (S (cl_deleted c))))
        end)
  end.

Definition rewrite_sources (now from to : Z) (opts : CompactionOptions) (c : classes) : run CompactionResult :=
  let group := itoa now in
  let sources := cl_raw c in
  let flush := write_compacted group sources (MaxRecords opts) in
  rseq (read_sources opts flush sources O (no_records, mkOutputs [] O)) (λ '(n, (a, o)),
  rseq (Flush flush a o) (λ '(_, o),
  let result := mkCompactionResult (length sources) (length (out_paths o)) n (cl_deleted c) in
  if bool_decide (out_paths o = []) then rret result
  else
    rseq (write_marker group (mkMarker group from to sources (out_paths o) now)) (λ _,
    rseq (delete_all sources) (λ _,
    rret (mkCompactionResult (length sources) (length (out_paths o)) n (cl_deleted c + length sources)))))).

(** A run once the markers are dealt with. *)
Definition compact_chunks (now from to : Z) (opts : CompactionOptions) (valid : gset string) : run CompactionResult :=
  rseq rlook (λ st,
  rseq (classify valid (ListChunkPaths st (Some from) (Some to)) (mkClasses [] O false O)) (λ c,
  let result := mkCompactionResult (length (cl_raw c)) O O (cl_deleted c) in
  if bool_decide (0 < cl_compacted c)%nat && cl_legacy c && bool_decide (cl_raw c ≠ []) then rret result
  else if bool_decide (length (cl_raw c) < 2)%nat then rret result
  else rewrite_sources now from to opts c)).

(** [now] is the time in nanoseconds; the clock is read once. *)
Definition CompactRange (now : Z) (from to : option Z) (opts : CompactionOptions) : run CompactionResult :=
  match from, to with
  | Some f, Some t =>
      if bool_decide (t ≤ f) then rfail EmptyRange
      else
        let opts := mkCompactionOptions (if bool_decide (MaxRecords opts ≤ 0) then defaultCompactionMaxRecords else MaxRecords opts)
                      (if bool_decide (MaxBytes opts ≤ 0) then defaultCompactionMaxBytes else MaxBytes opts) in
        rseq cleanupCompactionMarkers (compact_chunks now f t opts)
  | _, _ => rfail EmptyRange
  end.

(** ** The background loop *)

(** The windows of one tick, newest first, each with the time at which its
    run starts. *)
Definition recent_windows (window minAge now : Z) : list (Z * Z) :=
  let last := (now - minAge) / window * window in
  (λ i, let to := last - i * window in (to - window, to)) <$> seqZ 0 ((24 * Hour + window - 1) / window).

(** A run that fails is logged; the next window follows. *)
Fixpoint compact_windows (opts : CompactionOptions) (windows : list (Z * Z)) (clock : Z) : run unit := λ st s,
  match windows with
  | [] => Done st s tt
  | (from, to) :: windows =>
      match CompactRange clock (Some from) (Some to) opts st s with
      | Stopped st' => Stopped st'
      | Failed st' s' _ | Done st' s' _ => compact_windows opts windows (clock + 1) st' s'
      end
  end.

End compaction.

(** ** The three signals *)

Inductive Signal := SignalLogs | SignalMetrics | SignalTraces.
#[export] Instance Signal_eq_dec : EqDecision Signal.
Proof. solve_decision. Defined.

Definition compactionWindow (signal : Signal) : Z :=
  match signal with SignalMetrics => 15 * 60000000000 | SignalTraces => 30 * 60000000000 | SignalLogs => Hour end.
Definition compactionOptions (signal : Signal) : CompactionOptions :=
  if bool_decide (signal = SignalMetrics) then mkCompactionOptions 2000000 268435456
  else mkCompactionOptions defaultCompactionMaxRecords defaultCompactionMaxBytes.

(** The part of a tick for one signal; the clock moves between runs. *)
Definition compactRecent {T} `{Telemetry T} (signal : Signal) (minAge now : Z) : run (T:=T) unit :=
  compact_windows (compactionOptions signal) (recent_windows (compactionWindow signal) minAge now) now.

Definition writeLogCompacted `{GoRange} := write_compacted (T:=LogRecord).
Definition writeMetricCompacted := write_compacted (T:=MetricRecord).
Definition writeSpanCompacted := write_compacted (T:=SpanRecord).
Definition countLogGroupKeys `{GoRange} : list LogRecord → nat := count_group_keys.
Definition countMetricGroupKeys : list MetricRecord → nat := count_group_keys.
Definition countSpanGroupKeys : list SpanRecord → nat := count_group_keys.
Definition flushMetrics := flush_records (T:=MetricRecord).
Definition flushTraces := flush_records (T:=SpanRecord).
Definition sortMetricRecords : list MetricRecord → list MetricRecord := sort_records.
Definition sortSpanRecords : list SpanRecord → list SpanRecord := sort_records.

(** ** The compactor's counters *)

Record Compactor := mkCompactor {
  c_running : bool; c_level : Z; c_lastRun : option Z; c_lastResult : CompactionResult;
  c_runs : Z; c_inputChunks : Z; c_outputChunks : Z; c_deletedChunks : Z; c_records : Z }.
(** The deferred part of [CompactRange]; the counters are 64-bit. *)
Definition record_run (c : Compactor) (finished : Z) (ok : bool) (r : CompactionResult) : Compactor :=
  let add n k := if ok then wrap 64 (n + Z.of_nat k) else n in
  mkCompactor false 0 (Some finished) r (add (c_runs c) 1%nat) (add (c_inputChunks c) (InputChunks r)) (add (c_outputChunks c) (OutputChunks r))
    (add (c_deletedChunks c) (DeletedChunks r)) (add (c_records c) (Records r)).
