(* ===== verification/ChunkStoreProps.v ===== *)
(** * Chunks: reasoning about runs, listings and names

    A weakest precondition for operations that may be stopped at any write or
    deletion, the exact listing of a store in the partitioned layout, and the
    time range in the names of compacted chunks. *)

From stdpp Require Import options.
From S2P Require Import Prelude GoStrings GoUnicode GoFmt GoSort GoRange GoPath GoTime LogEngine ChunkStore Compaction.

(** ** Runs *)

Section wp.
Context {T : Type} `{Telemetry T}.

(** The run does not fail; where it is stopped [I] holds, and where it ends
    [Q].  Only a limited run is stopped. *)
Definition wp {A} (m : run A) (I : chunk_store T → Prop) (Q : A → chunk_store T → Prop) (st : chunk_store T) : Prop :=
  ∀ s, match m st s with
       | Stopped st' => remaining s ≠ None ∧ I st'
       | Failed _ _ _ => False
       | Done st' s' a => (remaining s = None → remaining s' = None) ∧ Q a st'
       end.

Lemma wp_ret {A} (a : A) I Q st : Q a st → wp (rret a) I Q st.
Proof. by intros HQ s. Qed.

Lemma wp_look I Q st : Q st st → wp rlook I Q st.
Proof. by intros HQ s. Qed.

Lemma wp_seq {A B} (m : run A) (k : A → run B) I Q st : wp m I (λ a, wp (k a) I Q) st → wp (rseq m k) I Q st.
Proof.
  intros Hm s. specialize (Hm s). unfold rseq. destruct (m st s) as [| |st' s' a]; [done..|].
  destruct Hm as [Hs Hk]. specialize (Hk s'). destruct (k a st' s'); naive_solver.
Qed.

Lemma wp_mutate f torn (I : chunk_store T → Prop) Q st : I st → I (torn st) → Q tt (f st) → wp (mutate f torn) I Q st.
Proof. intros HI HT HQ s. unfold mutate. destruct (remaining s) as [[|n]|] eqn:E; [destruct (tears s)|..]; naive_solver. Qed.

Lemma wp_mono {A} (m : run A) (I I' : chunk_store T → Prop) (Q Q' : A → chunk_store T → Prop) st :
  wp m I Q st → (∀ st', I st' → I' st') → (∀ a st', Q a st' → Q' a st') → wp m I' Q' st.
Proof. intros Hm HI HQ s. specialize (Hm s). destruct (m st s); naive_solver. Qed.

(** What is known of the last store of a run that may be stopped, and of a
    run that is not. *)
Lemma wp_final {A} (m : run A) (I : chunk_store T → Prop) Q st s : wp m I Q st → (∀ a st', Q a st' → I st') → I (final (m st s)).
Proof. intros Hm HQ. specialize (Hm s). destruct (m st s); naive_solver. Qed.

Lemma wp_unlimited {A} (m : run A) I Q st s : wp m I Q st → remaining s = None → ∃ st' s' a, m st s = Done st' s' a ∧ Q a st'.
Proof. intros Hm Hs. specialize (Hm s). destruct (m st s); naive_solver. Qed.

End wp.

(** ** Listings *)

Lemma elem_sort_Strings l x : x ∈ sort_Strings l ↔ x ∈ l.
Proof. unfold sort_Strings. by rewrite merge_sort_Permutation. Qed.

Lemma below_Some rel p name : below rel p = Some name ↔ ∃ q, p = rel ++ name :: q.
Proof.
  revert p. induction rel as [|a rel IH]; intros [|b p]; cbn.
  - split; [done|by intros [q ?]].
  - split; [intros [= ->]; by exists p|by intros [q [= -> ->]]].
  - split; [done|by intros [q ?]].
  - case_bool_decide as E; [rewrite IH|]; naive_solver.
Qed.

Section listing.
Context {T : Type} `{Telemetry T}.
Implicit Type st : chunk_store T.

Lemma elem_ListChunks st rel name :
  name ∈ ListChunks st rel ↔ (∃ q, is_Some (dirs st !! (rel ++ name :: q))) ∨ (rel = [] ∧ runs st ≠ ∅ ∧ name = "compaction-runs").
Proof.
  unfold ListChunks. rewrite elem_sort_Strings, elem_of_elements.
  assert (name ∈ (list_to_set (omap (below rel) (map_to_list (dirs st)).*1) : gset string) ↔ ∃ q, is_Some (dirs st !! (rel ++ name :: q))) as E.
  { rewrite elem_of_list_to_set, list_elem_of_omap. setoid_rewrite below_Some. setoid_rewrite list_elem_of_fmap. split.
    - intros (p & ((p', d) & -> & Hd%elem_of_map_to_list) & q & Ep). cbn in Ep. subst p'. exists q. by exists d.
    - intros (q & d & Hd). eexists. split; [|by exists q]. exists (rel ++ name :: q, d). split; [done|]. by apply elem_of_map_to_list. }
  case_bool_decide as B; [rewrite elem_of_union, elem_of_singleton|]; rewrite E; naive_solver.
Qed.

Lemma elem_add l p q : q ∈ add l p ↔ q ∈ l ∨ q = p.
Proof. unfold add. case_bool_decide; [set_solver|]. rewrite elem_of_app, list_elem_of_singleton. done. Qed.

Lemma NoDup_add l p : NoDup l → NoDup (add l p).
Proof. unfold add. case_bool_decide; [done|]. intros Hl. apply NoDup_app. split_and!; [done|set_solver|apply NoDup_singleton]. Qed.

(** A step that adds the paths with [P], without repetition. *)
Definition adds {A} (f : list path → A → list path) (P : A → path → Prop) : Prop :=
  ∀ l a, (∀ q, q ∈ f l a ↔ q ∈ l ∨ P a q) ∧ (NoDup l → NoDup (f l a)).

Lemma adds_foldl {A} (f : list path → A → list path) P l xs : adds f P →
  (∀ q, q ∈ foldl f l xs ↔ q ∈ l ∨ ∃ a, a ∈ xs ∧ P a q) ∧ (NoDup l → NoDup (foldl f l xs)).
Proof.
  intros Hf. revert l. induction xs as [|x xs IH]; intros l; cbn [foldl].
  - split; [|done]. intros q. split; [by left|]. intros [?|(a & ?%not_elem_of_nil & _)]; done.
  - destruct (IH (f l x)) as [IH1 IH2], (Hf l x) as [Hf1 Hf2]. split; [|by intros ?%Hf2%IH2].
    intros q. rewrite IH1, Hf1. setoid_rewrite elem_of_cons. naive_solver.
Qed.

Lemma adds_add_if {A} (g : A → path) (ok : A → bool) : adds (λ l a, if ok a then add l (g a) else l) (λ a q, ok a = true ∧ q = g a).
Proof. intros l a. destruct (ok a); (split; [intros q; rewrite ?elem_add; naive_solver|]); [apply NoDup_add|done]. Qed.

Lemma adds_nested {A B} (f : list path → B → list path) P (xs : A → list B) : adds f P →
  adds (λ l a, foldl f l (xs a)) (λ a q, ∃ b, b ∈ xs a ∧ P b q).
Proof. intros Hf l a. by apply adds_foldl. Qed.

Lemma adds_if {A} (ok : A → bool) (f : list path → A → list path) P : adds f P →
  adds (λ l a, if negb (ok a) then l else f l a) (λ a q, ok a = true ∧ P a q).
Proof. intros Hf l a. destruct (Hf l a) as [H1 H2]. destruct (ok a); cbn; split; [|done| |done]; intros q; rewrite ?H1; naive_solver. Qed.

(** Every chunk is in the partitioned layout. *)
Definition hive st : Prop :=
  ∀ p, is_Some (dirs st !! p) → ∃ part hour id, p = hive_dir ("partition=" +:+ part) hour ++ [id].

(** The chunks of a listing. *)
Definition listed (from to : option Z) (p : path) : Prop :=
  ∃ part hour id, p = hive_dir part hour ++ [id] ∧ looksLikeChunkID id = true ∧ chunkPathOverlaps p from to = true ∧
    (bucketed from to = true → hour ∈ bucket_hours from to).


Section hive.
Context (st : chunk_store T) (Hst : hive st).

Lemma hive_root name : name ∈ ListChunks st [] → (∃ part, name = "partition=" +:+ part) ∨ name = "compaction-runs".
Proof using Hst.
  rewrite elem_ListChunks. intros [[q Hq]|(_ & _ & ->)]; [left|by right].
  destruct (Hst _ Hq) as (part & hour & id & [= -> _]). by exists part.
Qed.

Lemma hive_leaf part date hour name : name ∈ ListChunks st [part; date; hour] ↔ is_Some (dirs st !! [part; date; hour; name]).
Proof using Hst.
  rewrite elem_ListChunks. cbn [app]. split.
  - intros [[q Hq]|[? _]]; [|done]. destruct (Hst _ Hq) as (? & ? & ? & [= _ _ _ _ ->]). done.
  - intros Hd. left. by exists [].
Qed.

(** What one partition contributes. *)
Definition in_partition (from to : option Z) (part : string) (q : path) : Prop :=
  ∃ hour id, q = hive_dir part hour ++ [id] ∧ is_Some (dirs st !! q) ∧ looksLikeChunkID id = true ∧
    (bucketed from to = true → hour ∈ bucket_hours from to).

Lemma list_partition_adds from to : adds (list_partition st from to) (in_partition from to).
Proof using Hst.
  unfold list_partition, in_partition. destruct (bucketed from to).
  - intros l part. edestruct (adds_foldl (λ l hour, foldl (λ l id, if looksLikeChunkID id then add l (hive_dir part hour ++ [id]) else l) l
      (ListChunks st (hive_dir part hour)))) as [E1 E2].
    { intros l' hour. apply (adds_foldl _ (λ id q, looksLikeChunkID id = true ∧ q = hive_dir part hour ++ [id])), adds_add_if. }
    split; [|apply E2]. intros q. rewrite E1. f_equiv. cbn. setoid_rewrite hive_leaf. naive_solver.
  - intros l part. unfold walkPartitionBuckets.
    edestruct (adds_foldl (λ l date, if negb (HasPrefix date "date=") then l else
       foldl (λ l hour, if negb (HasPrefix hour "hour=") then l else
         foldl (λ l id, if looksLikeChunkID id then add l [part; date; hour; id] else l) l (ListChunks st [part; date; hour]))
       l (ListChunks st [part; date]))) as [E1 E2].
    { apply adds_if. intros l' date. apply adds_foldl, adds_if. intros l'' hour. apply adds_foldl, adds_add_if. }
    split; [|apply E2]. intros q. rewrite E1. f_equiv. cbn. setoid_rewrite hive_leaf. split.
    + intros (date & _ & _ & hour & _ & _ & id & Hd & Hl & ->). destruct (Hst _ Hd) as (? & h & ? & [= -> -> -> ->]).
      by eexists h, _.
    + intros (hour & id & -> & Hd & Hl & _). cbn in Hd.
      eexists. split; [apply elem_ListChunks; left; cbn; by exists ["hour=" +:+ format_hour hour; id]|]. split; [apply HasPrefix_app|].
      eexists. split; [apply elem_ListChunks; left; cbn; by exists [id]|]. split; [apply HasPrefix_app|]. by exists id.
Qed.

End hive.

(** In the partitioned layout a listing has every listed chunk once. *)
Lemma elem_ListChunkPaths st from to : hive st →
  NoDup (ListChunkPaths st from to) ∧ ∀ p, p ∈ ListChunkPaths st from to ↔ is_Some (dirs st !! p) ∧ listed from to p.
Proof.
  intros Hst. unfold ListChunkPaths.
  assert (∀ P : string → bool, P "compaction-runs" = false → (∀ part, P ("partition=" +:+ part) = false) →
    filter (λ e, P e = true) (ListChunks st []) = []) as Hnone.
  { intros P H1 H2. apply elem_of_nil_inv. intros e [HP [[part ->]| ->]%(hive_root st Hst)]%list_elem_of_filter; congruence. }
  rewrite (Hnone (λ e, negb (HasPrefix e "partition=") && negb (isTimeBucketName e 4) && looksLikeChunkID e)) by (done || intros; by rewrite HasPrefix_app).
  rewrite (Hnone (λ e, negb (HasPrefix e "partition=") && isTimeBucketName e 4)) by (done || intros; by rewrite HasPrefix_app).
  cbn [fmap list_fmap foldl].
  set (parts := filter (λ e, HasPrefix e "partition=" = true) (ListChunks st [])). destruct (adds_foldl (list_partition st from to) _ [] parts (list_partition_adds st Hst from to)) as [E1 E2].
  set (l := foldl (list_partition st from to) [] parts) in *. specialize (E2 (NoDup_nil_2)).
  assert (list_years st from to l [] = l) as -> by (unfold list_years; by destruct (bucketed from to)).
  assert (∀ q, q ∈ l ↔ ∃ part, in_partition st from to part q) as Hl.
  { intros q. rewrite E1. split.
    - intros [?%not_elem_of_nil|(part & _ & Hq)]; [done|by exists part].
    - intros (part & Hq). right. exists part. split; [|done]. destruct Hq as (hour & id & -> & Hd & _).
      destruct (Hst _ Hd) as (part' & ? & ? & [= -> _]). apply list_elem_of_filter. split; [apply HasPrefix_app|].
      apply elem_ListChunks. left. eexists. exact Hd. }
  set (l' := match from with Some _ => _ | None => _ end).
  assert (NoDup l' ∧ ∀ q, q ∈ l' ↔ q ∈ l ∧ chunkPathOverlaps q from to = true) as [Hn Hl'].
  { subst l'. destruct from, to; [split; [by apply NoDup_filter|intros q; rewrite list_elem_of_filter; tauto]..|].
    split; [done|]. intros q. split; [|tauto]. intros Hq. split; [done|]. unfold chunkPathOverlaps. by destruct (ParseChunkTimeRangeFromID _) as [[??]|]. }
  split; [by rewrite merge_sort_Permutation|]. intros p. rewrite merge_sort_Permutation, Hl', Hl. unfold in_partition, listed. naive_solver.
Qed.

End listing.

(** ** Names of compacted chunks *)

Definition is_digit (b : ascii) : Prop := 48 ≤ Z_of_byte b ≤ 57.

Lemma dec_aux_digits fuel n acc : Forall is_digit (bytes_of_string acc) → Forall is_digit (bytes_of_string (dec_aux fuel n acc)).
Proof.
  revert n acc. induction fuel as [|fuel IH]; intros n acc Hacc; [done|]. cbn [dec_aux].
  assert (Forall is_digit (bytes_of_string (String (digit (n `mod` 10)) acc))) as Hd.
  { constructor; [|done]. unfold is_digit, digit. rewrite Z_of_byte_of_Z. pose proof (Z.mod_pos_bound n 10). rewrite Z.mod_small; lia. }
  case_bool_decide; [done|]. by apply IH.
Qed.
Lemma dec_digits n : Forall is_digit (bytes_of_string (dec n)).
Proof. by apply dec_aux_digits. Qed.

Lemma digits_no_byte s c : Forall is_digit (bytes_of_string s) → ¬ is_digit c → has_byte c s = false.
Proof. intros Hs Hc. apply not_true_iff_false. rewrite has_byte_elem. intros Hin. rewrite Forall_forall in Hs. by apply Hc, Hs. Qed.

Ltac not_digit := let H1 := fresh in let H2 := fresh in
  intros [H1 H2]; vm_compute in H1; vm_compute in H2; first [by apply H1|by apply H2].
Lemma dec_no_sep n : has_byte "-" (dec n) = false ∧ has_byte slash (dec n) = false ∧ has_byte backslash (dec n) = false.
Proof. split_and!; (apply digits_no_byte; [apply dec_digits|not_digit]). Qed.

Lemma dec_inj n m : 0 ≤ n → 0 ≤ m → dec n = dec m → n = m.
Proof. intros Hn Hm E. apply (f_equal (parse_digits 0)) in E. rewrite !parse_dec in E by done. congruence. Qed.

Lemma itoa_dec n : 0 ≤ n → itoa n = dec n.
Proof. intros Hn. unfold itoa. by rewrite bool_decide_eq_false_2 by lia. Qed.

Lemma TrimSpace_itoa n : 0 ≤ n → TrimSpace (itoa n) = itoa n ∧ itoa n ≠ "".
Proof.
  intros Hn. rewrite itoa_dec by done. pose proof (dec_digits n) as Hd. split; [|apply dec_ne].
  destruct (bytes_of_string (dec n)) as [|b l] eqn:E; [by destruct (dec n) eqn:E'; [apply dec_ne in E'|]|].
  destruct (exists_last (l := b :: l)) as (l' & c & E'); [done|].
  assert (∀ x, is_digit x → visible x = true) as Hv by (intros x Hx; apply bool_decide_eq_true; unfold is_digit in Hx; lia).
  rewrite Forall_forall in Hd. apply (TrimSpace_visible _ b l c l'); [done|congruence|apply Hv, Hd; left|].
  apply Hv, Hd. rewrite E'. apply elem_of_app. right. left.
Qed.

Lemma ParseInt_dec n : 0 ≤ n < 2 ^ 63 → ParseInt (dec n) = Some n.
Proof.
  intros Hn. unfold ParseInt. pose proof (dec_digits n) as Hd. pose proof (parse_dec n ltac:(lia)) as Hp.
  destruct (dec n) as [|a s] eqn:E; [by apply dec_ne in E|]. inversion Hd as [|?? Ha _]; subst.
  assert (∀ X (x y z : X), match a with "+"%char => x | "-"%char => y | _ => z end = z) as Hm.
  { intros X x y z. destruct a as [[][][][][][][][]]; try done; exfalso; unfold is_digit in Ha; vm_compute in Ha; by destruct Ha as [[] []]. }
  assert (match String a s with String "+" s => (false, s) | String "-" s => (true, s) | _ => (false, String a s) end = (false, String a s)) as ->
    by apply Hm.
  rewrite Hp. cbn. by rewrite bool_decide_eq_true_2 by lia.
Qed.

Lemma HasSuffix_no_byte s e c : e ≠ "" → has_byte c e = false → HasSuffix (s +:+ e) (str1 c) = false.
Proof.
  intros He Hc. apply not_true_iff_false. intros [r Hr]%HasSuffix_spec. apply (f_equal bytes_of_string) in Hr. rewrite !bytes_of_app in Hr.
  destruct (bytes_of_string e) as [|b bs _] eqn:Eb using rev_ind; [by destruct e|].
  rewrite app_assoc in Hr. apply app_inj_tail in Hr as [_ ->].
  assert (has_byte c e = true) by (apply has_byte_elem; rewrite Eb; set_solver). congruence.
Qed.

Lemma Base_last l e : l ≠ [] → e ≠ "" → has_byte slash e = false → Base (path_string (l ++ [e])) = e.
Proof.
  intros Hl He Hs. unfold path_string. rewrite Join_app by done.
  change (Join [e] "/") with e. unfold Base.
  assert (Join l "/" +:+ "/" +:+ e ≠ "") as Hne by (intros [_ [E _]%str_app_empty]%str_app_empty; done).
  rewrite bool_decide_eq_false_2 by done. rewrite TrimRight_id.
  - rewrite bool_decide_eq_false_2 by done. rewrite LastIndexByte_app by done.
    rewrite <- str_app_assoc. replace (String.length (Join l "/") + 1)%nat with (String.length (Join l "/" +:+ "/")) by (rewrite str_length_app; done).
    by rewrite str_drop_app.
  - rewrite <- str_app_assoc. by apply HasSuffix_no_byte.
Qed.

Lemma compacted_fields a b now k : 0 ≤ a → 0 ≤ b → 0 ≤ now →
  Split (Join [itoa a; itoa b; itoa now; itoa (Z.of_nat k)] "-") "-" = [dec a; dec b; dec now; dec (Z.of_nat k)].
Proof.
  intros. rewrite !itoa_dec by lia. apply Split_Join; [done|].
  repeat constructor; apply dec_no_sep.
Qed.

(** The group and the number are in the name. *)
Lemma compacted_id_inj a b now k a' b' now' k' : 0 ≤ a → 0 ≤ b → 0 ≤ now → 0 ≤ a' → 0 ≤ b' → 0 ≤ now' →
  compacted_id a b (itoa now) k = compacted_id a' b' (itoa now') k' → now = now' ∧ k = k'.
Proof.
  intros Ha Hb Hn Ha' Hb' Hn' E. unfold compacted_id in E. apply (f_equal (λ s, Split (TrimPrefix s "compact-") "-")) in E.
  rewrite !TrimPrefix_app, !compacted_fields in E by done. injection E as _ _ En Ek.
  apply dec_inj in En; [|lia..]. apply dec_inj in Ek; [|lia..]. split; [done|lia].
Qed.

Lemma compacted_id_bytes a b now k : 0 ≤ a → 0 ≤ b → 0 ≤ now →
  has_byte slash (compacted_id a b (itoa now) k) = false ∧ has_byte backslash (compacted_id a b (itoa now) k) = false ∧
  ∃ l c, bytes_of_string (compacted_id a b (itoa now) k) = l ++ [c] ∧ is_digit c.
Proof.
  intros. unfold compacted_id. rewrite !itoa_dec by lia. cbn [Join String.concat]. rewrite !has_byte_app, !bytes_of_app.
  destruct (dec_no_sep a) as (_ & -> & ->), (dec_no_sep b) as (_ & -> & ->), (dec_no_sep now) as (_ & -> & ->), (dec_no_sep (Z.of_nat k)) as (_ & -> & ->).
  split; [done|]. split; [done|].
  pose proof (dec_digits (Z.of_nat k)) as Hd. destruct (bytes_of_string (dec (Z.of_nat k))) as [|c l _] eqn:E using rev_ind.
  - destruct (dec (Z.of_nat k)) eqn:E'; [by apply dec_ne in E'|done].
  - apply Forall_app in Hd as [_ Hc%Forall_inv]. eexists _, c. split; [by rewrite !app_assoc|done].
Qed.

Lemma parse_compacted part hour a b now k : 0 ≤ a ≤ b → b < 2 ^ 63 → 0 ≤ now →
  ParseChunkTimeRangeFromID (path_string (hive_dir ("partition=" +:+ part) hour ++ [compacted_id a b (itoa now) k])) = Some (a, b).
Proof.
  intros Hab Hb Hn. destruct (compacted_id_bytes a b now k) as (Hs & _ & l & c & El & Hc); [lia..|].
  set (id := compacted_id a b (itoa now) k) in *. set (p := path_string _).
  assert (id ≠ "") as Hne by done.
  assert (∃ pre, p = String "p" pre +:+ id) as [pre Ep].
  { subst p. unfold path_string. rewrite Join_app by done. cbn [hive_dir Join String.concat]. rewrite <- !str_app_assoc.
    eexists. cbn [String.append]. reflexivity. }
  unfold ParseChunkTimeRangeFromID.
  rewrite (TrimSpace_visible p "p" (bytes_of_string (pre +:+ id)) c (bytes_of_string (String "p" pre) ++ l)).
  - assert (TrimSuffix p "/" = p) as ->.
    { unfold TrimSuffix. by rewrite Ep, HasSuffix_no_byte. }
    subst p. rewrite Base_last by done. subst id. unfold compacted_id.
    replace (HasPrefix ("compact-" +:+ _) "ts_") with false by done. rewrite HasPrefix_app, TrimPrefix_app, compacted_fields by lia.
    cbn [mbind option_bind]. rewrite !ParseInt_dec by lia. cbn [mbind option_bind]. by rewrite bool_decide_eq_false_2 by lia.
  - by rewrite Ep.
  - rewrite Ep, bytes_of_app, El. by rewrite app_assoc.
  - done.
  - unfold visible. apply bool_decide_eq_true. unfold is_digit in Hc. lia.
Qed.
