(* ===== verification/CompactionProps.v ===== *)
(** * Compaction loses no record, until it runs again

    From a store whose range has only complete raw chunks, runs that are
    stopped before their marker is written change nothing that is not undone,
    a run that is stopped later is finished by the next one, and in between
    no record is missing.  Once a marker has been cleaned up, however, the
    next run over the range takes the outputs for left-overs of a run without
    marker and deletes them. *)

From stdpp Require Import options.
From S2P Require Import Prelude GoStrings GoUnicode GoFmt GoSort GoRange GoPath GoTime LogEngine ChunkStore Compaction ChunkStoreProps.

Section content.
Context {T : Type} `{Telemetry T}.
Implicit Type st : chunk_store T.

(** ** The records of a store *)

(** The rows readers see in a directory: those of a complete chunk. *)
Definition rows_of (d : chunk_dir T) : list T :=
  match data d, manifest d with Some (Whole rows), Some (Whole _) => rows | _, _ => [] end.
Definition records_of (m : gmap path (chunk_dir T)) : list T := map_to_list m ≫= λ pd, rows_of pd.2.
Definition rows_at (m : gmap path (chunk_dir T)) (p : path) : list T := rows_of (default (mkDir None None) (m !! p)).

Lemma records_of_delete m p : records_of m ≡ₚ rows_at m p ++ records_of (delete p m).
Proof.
  unfold records_of, rows_at. destruct (m !! p) as [d|] eqn:E.
  - rewrite <- (map_to_list_delete m p d E). by rewrite bind_cons.
  - by rewrite delete_id.
Qed.

(** The records are those at the paths that have any. *)
Lemma records_of_paths m l : NoDup l → (∀ p, rows_at m p ≠ [] → p ∈ l) → records_of m ≡ₚ l ≫= rows_at m.
Proof.
  revert m. induction l as [|p l IH]; intros m Hn Hl.
  - unfold records_of. assert (∀ pd, pd ∈ map_to_list m → rows_of pd.2 = []) as Hpd.
    { intros [p d] Hp%elem_of_map_to_list. cbn. destruct (rows_of d) eqn:E; [done|]. exfalso. apply (not_elem_of_nil p), Hl.
      unfold rows_at. rewrite Hp. cbn. congruence. }
    rewrite (bind_ext_in _ (λ _, []) _ Hpd). clear. by induction (map_to_list m).
  - apply NoDup_cons in Hn as [Hp Hn]. rewrite (records_of_delete m p), bind_cons. f_equiv. rewrite IH.
    + apply reflexive_eq, bind_ext_in. intros q Hq. unfold rows_at. rewrite lookup_delete_ne; [done|congruence].
    + done.
    + intros q Hq. unfold rows_at in *. destruct (decide (q = p)) as [->|Hne]; [by rewrite lookup_delete_eq in Hq|].
      rewrite lookup_delete_ne in Hq by done. apply Hl, elem_of_cons in Hq as [?|?]; done.
Qed.

Lemma records_of_filter m l : NoDup l → records_of m ≡ₚ (l ≫= rows_at m) ++ records_of (filter (λ qd, qd.1 ∉ l) m).
Proof.
  revert m. induction l as [|p l IH]; intros m Hl.
  - cbn. rewrite map_filter_id; [done|]. intros q d _. apply not_elem_of_nil.
  - apply NoDup_cons in Hl as [Hp Hl]. rewrite (records_of_delete m p), bind_cons, <- app_assoc. f_equiv. rewrite (IH (delete p m) Hl).
    f_equiv; [apply reflexive_eq, bind_ext_in; intros q Hq; unfold rows_at; rewrite lookup_delete_ne; [done|congruence]|].
    apply reflexive_eq. f_equal. apply map_eq. intros q. apply option_eq. intros d.
    rewrite !map_lookup_filter_Some, lookup_delete_Some. cbn. rewrite not_elem_of_cons. naive_solver.
Qed.

Lemma records_of_ext m m' : (∀ p, rows_at m p = rows_at m' p) → records_of m ≡ₚ records_of m'.
Proof.
  intros E. assert (∀ m'' : gmap path (chunk_dir T), (∀ p, rows_at m'' p = rows_at m p) → records_of m'' ≡ₚ elements (dom m) ≫= rows_at m) as Hm.
  { intros m'' E'. rewrite (records_of_paths m'' (elements (dom m))).
    - apply reflexive_eq, bind_ext_in. intros p _. apply E'.
    - apply NoDup_elements.
    - intros p Hp. rewrite E' in Hp. apply elem_of_elements, elem_of_dom. unfold rows_at in Hp. by destruct (m !! p); [eexists|]. }
  by rewrite (Hm m), (Hm m').
Qed.

(** ** Deletions *)

Definition drop_dirs (l : list path) st : chunk_store T := mkChunks (filter (λ qd, qd.1 ∉ l) (dirs st)) (runs st).

Lemma lookup_drop l st p : dirs (drop_dirs l st) !! p = if bool_decide (p ∈ l) then None else dirs st !! p.
Proof.
  cbn. case_bool_decide.
  - apply map_lookup_filter_None. right. intros d _ Hn. by apply Hn.
  - destruct (dirs st !! p) as [d|] eqn:E.
    + by apply map_lookup_filter_Some.
    + apply map_lookup_filter_None. by left.
Qed.

Lemma store_eq st st' : (∀ p, dirs st !! p = dirs st' !! p) → runs st = runs st' → st = st'.
Proof. destruct st, st'. cbn. intros E ->. f_equal. by apply map_eq. Qed.

Lemma drop_drop l l' st : drop_dirs l (drop_dirs l' st) = drop_dirs (l' ++ l) st.
Proof.
  apply store_eq; [|done]. intros p. rewrite !lookup_drop. repeat case_bool_decide; set_solver.
Qed.

Lemma drop_absent l st : (∀ p, p ∈ l → dirs st !! p = None) → drop_dirs l st = st.
Proof. intros Hl. apply store_eq; [|done]. intros p. rewrite lookup_drop. case_bool_decide; [by rewrite Hl|done]. Qed.

Lemma drop_nil st : drop_dirs [] st = st.
Proof. apply drop_absent. by intros p ?%not_elem_of_nil. Qed.

Lemma hive_drop l st : hive st → hive (drop_dirs l st).
Proof. intros Hst p. rewrite lookup_drop. case_bool_decide; [by intros []|apply Hst]. Qed.

Lemma drop_prefix p st : hive st → length p = 4%nat →
  mkChunks (filter (λ qd, ¬ p `prefix_of` qd.1) (dirs st)) (runs st) = drop_dirs [p] st.
Proof.
  intros Hst Hp. unfold drop_dirs. f_equal. apply map_filter_ext. intros q d Hq. cbn. rewrite list_elem_of_singleton.
  destruct (Hst q) as (part & hour & id & ->); [by exists d|]. split; intros Hn He; apply Hn.
  - by rewrite He.
  - destruct He as [k E]. assert (k = []) as -> by (destruct k; [done|]; apply (f_equal length) in E; rewrite !length_app, Hp in E; cbn in E; lia).
    by rewrite app_nil_r in E.
Qed.

Section deletions.
Context (I : chunk_store T → Prop).

Lemma wp_Delete p Q st : hive st → length p = 4%nat → I st → Q tt (drop_dirs [p] st) → wp (Delete p) I Q st.
Proof. intros Hst Hp HI HQ. apply wp_mutate; [done..|]. by rewrite drop_prefix. Qed.

Lemma wp_delete_all l Q st : hive st → Forall (λ p, length p = 4%nat) l →
  (∀ l', l' ⊆ l → I (drop_dirs l' st)) → Q tt (drop_dirs l st) → wp (delete_all l) I Q st.
Proof.
  revert st. induction l as [|p l IH]; intros st Hst Hl HI HQ; cbn [delete_all].
  - apply wp_ret. by rewrite drop_nil in HQ.
  - apply Forall_cons in Hl as [Hp Hl]. apply wp_seq, wp_Delete; [done..| |].
    + rewrite <- (drop_nil st). apply HI. set_solver.
    + apply IH; [by apply hive_drop|done| |by rewrite drop_drop]. intros l' Hl'. rewrite drop_drop. apply HI. set_solver.
Qed.

Lemma wp_delete_present l Q st : hive st → Forall (λ p, length p = 4%nat) l →
  (∀ p, p ∈ l → dirs st !! p = None ∨ ∃ m, manifest (dir_at st p) = Some (Whole m)) →
  (∀ l', l' ⊆ l → I (drop_dirs l' st)) → Q tt (drop_dirs l st) → wp (delete_present l) I Q st.
Proof.
  revert st. induction l as [|p l IH]; intros st Hst Hl Hm HI HQ; cbn [delete_present].
  - apply wp_ret. by rewrite drop_nil in HQ.
  - apply Forall_cons in Hl as [Hp Hl]. apply wp_seq, wp_look. unfold ReadManifest.
    assert (∀ q, q ∈ l → dirs (drop_dirs [p] st) !! q = None ∨ ∃ m, manifest (dir_at (drop_dirs [p] st) q) = Some (Whole m)) as Hm'.
    { intros q Hq. unfold dir_at. rewrite lookup_drop. case_bool_decide; [by left|]. apply Hm. by right. }
    destruct (Hm p ltac:(left)) as [Hd|[m Hd]].
    + unfold dir_at. rewrite Hd. cbn. rewrite <- (drop_absent [p] st) by (intros q ->%list_elem_of_singleton; done).
      apply IH; [by apply hive_drop|done..| |by rewrite drop_drop]. intros l' Hl'. rewrite drop_drop. apply HI. set_solver.
    + rewrite Hd. apply wp_seq, wp_Delete; [done..| |].
      * rewrite <- (drop_nil st). apply HI. set_solver.
      * apply IH; [by apply hive_drop|done..| |by rewrite drop_drop]. intros l' Hl'. rewrite drop_drop. apply HI. set_solver.
Qed.

(** *** Sorting out the chunks of the range *)

(** A compacted chunk whose group is not among the [valid] ones. *)
Definition orphaned (valid : gset string) st (p : path) : bool :=
  isCompactedChunkPath p &&
  match manifest (dir_at st p) with Some (Whole m) => bool_decide (mf_CompactionGroup m ∉ valid) | _ => false end.

Lemma orphaned_drop valid st p (paths : list path) : p ∉ paths →
  filter (λ q, orphaned valid (drop_dirs [p] st) q = true) paths = filter (λ q, orphaned valid st q = true) paths.
Proof.
  intros Hp. induction paths as [|q paths IH]; [done|]. apply not_elem_of_cons in Hp as [Hq Hp].
  assert (orphaned valid (drop_dirs [p] st) q = orphaned valid st q) as E.
  { unfold orphaned, dir_at. by rewrite lookup_drop, bool_decide_eq_false_2 by (rewrite list_elem_of_singleton; congruence). }
  rewrite !filter_cons, E, IH by done. done.
Qed.

Lemma wp_classify valid paths c Q st : hive st → NoDup paths → Forall (λ p, length p = 4%nat) paths →
  (∀ p, p ∈ paths → isCompactedChunkPath p = true →
     manifest (dir_at st p) = None ∨ ∃ m, manifest (dir_at st p) = Some (Whole m) ∧ mf_CompactionGroup m ≠ "") →
  (∀ l, l ⊆ filter (λ p, orphaned valid st p = true) paths → I (drop_dirs l st)) →
  (∀ c', cl_raw c' = cl_raw c ++ filter (λ p, isCompactedChunkPath p = false) paths → cl_legacy c' = cl_legacy c →
     Q c' (drop_dirs (filter (λ p, orphaned valid st p = true) paths) st)) →
  wp (classify valid paths c) I Q st.
Proof.
  revert c st. induction paths as [|p paths IH]; intros c st Hst Hn Hl Hm HI HQ; cbn [classify].
  - apply wp_ret. specialize (HQ c). rewrite drop_nil in HQ. apply HQ; [by rewrite app_nil_r|done].
  - apply NoDup_cons in Hn as [Hp Hn]. apply Forall_cons in Hl as [Hlp Hl].
    assert (filter (λ q, orphaned valid st q = true) (p :: paths) =
      if orphaned valid st p then p :: filter (λ q, orphaned valid st q = true) paths else filter (λ q, orphaned valid st q = true) paths) as Eo.
    { destruct (orphaned valid st p) eqn:E; [by apply filter_cons_True|apply filter_cons_False; by rewrite E]. }
    rewrite Eo in HI, HQ. clear Eo.
    assert (orphaned valid st p = false → filter (λ p, isCompactedChunkPath p = false) [p] = [] →
      ∀ c', cl_raw c' = cl_raw c → cl_legacy c' = cl_legacy c → wp (classify valid paths c') I Q st) as Hskip.
    { intros Ho Hr c' Ec El. apply IH; [done..| | |].
      - intros q Hq. apply Hm. by right.
      - intros l Hsub. apply HI. by rewrite Ho.
      - intros c'' Ec' El'. rewrite Ho in HQ. apply HQ; [|congruence].
        rewrite Ec', Ec. f_equal. rewrite (filter_app _ [p] paths), Hr. done. }
    destruct (isCompactedChunkPath p) eqn:Ep; cbn [negb].
    + apply wp_seq, wp_look. unfold ReadManifest. destruct (Hm p ltac:(left) Ep) as [E|(m & E & Hg)]; rewrite E.
      * apply Hskip; [by unfold orphaned; rewrite Ep, E|by rewrite filter_cons_False by (cbv beta; congruence)|done..].
      * rewrite bool_decide_eq_false_2 by done. case_bool_decide as Hv.
        { apply Hskip; [by unfold orphaned; rewrite Ep, E, bool_decide_eq_false_2 by (intros Hn'; by apply Hn')|by rewrite filter_cons_False by (cbv beta; congruence)|done..]. }
        assert (orphaned valid st p = true) as Ho by (unfold orphaned; by rewrite Ep, E, bool_decide_eq_true_2).
        rewrite Ho in HI, HQ. apply wp_seq, wp_Delete; [done..| |].
        { rewrite <- (drop_nil st). apply HI. set_solver. }
        apply IH; [by apply hive_drop|done..| | |].
        { intros q Hq. unfold dir_at. rewrite lookup_drop, bool_decide_eq_false_2 by (rewrite list_elem_of_singleton; congruence). apply Hm. by right. }
        { rewrite orphaned_drop by done. intros l Hsub. rewrite drop_drop. apply HI. set_solver. }
        intros c' Ec El. rewrite orphaned_drop, drop_drop by done. apply HQ; [|done]. rewrite Ec. cbn [cl_raw]. by rewrite filter_cons_False by (cbv beta; congruence).
    + assert (orphaned valid st p = false) as Ho by (unfold orphaned; by rewrite Ep).
      rewrite Ho in HI, HQ. apply IH; [done..| |done|].
      * intros q Hq. apply Hm. by right.
      * intros c' Ec El. apply HQ; [|done]. rewrite Ec. cbn [cl_raw]. rewrite filter_cons_True by done. by rewrite <- app_assoc.
Qed.

End deletions.
End content.

(** ** Writing a chunk *)

Section chunk.
Context {T : Type} `{Telemetry T}.

Lemma min_time_spec (r : T) l x : let m := foldl (λ t r, if bool_decide (rec_time r < t) then rec_time r else t) x l in
  m ≤ x ∧ (∀ r, r ∈ l → m ≤ rec_time r) ∧ (m = x ∨ ∃ r, r ∈ l ∧ m = rec_time r).
Proof.
  revert x. induction l as [|y l IH]; intros x; cbn [foldl]; [split_and!; [lia|by intros ? ?%not_elem_of_nil|by left]|].
  specialize (IH (if bool_decide (rec_time y < x) then rec_time y else x)). cbn zeta in IH. destruct IH as (I1 & I2 & I3).
  set (m := foldl _ _ _) in *. clearbody m. setoid_rewrite elem_of_cons. case_bool_decide; split_and!; try lia.
  1,3: intros r' [->|Hr']; [lia|by apply I2].
  1: right; destruct I3 as [?|(r' & ? & ?)]; [exists y|exists r']; naive_solver.
  destruct I3 as [?|(r' & ? & ?)]; [by left|right; exists r'; naive_solver].
Qed.

Lemma min_time_perm (r r' : T) l l' : r ∈ l → r' ∈ l' → l ≡ₚ l' → min_time r l = min_time r' l'.
Proof.
  intros Hr Hr' Hl. unfold min_time. pose proof (min_time_spec r l (rec_time r)) as (A1 & A2 & A3). pose proof (min_time_spec r' l' (rec_time r')) as (B1 & B2 & B3).
  set (a := foldl _ _ l) in *. set (b := foldl _ _ l') in *. clearbody a b.
  assert (b ≤ a) by (destruct A3 as [->|(x & Hx & ->)]; [apply B2; by rewrite <- Hl|apply B2; by rewrite <- Hl]).
  assert (a ≤ b) by (destruct B3 as [->|(x & Hx & ->)]; [apply A2; by rewrite Hl|apply A2; by rewrite Hl]). lia.
Qed.

Lemma max_time_spec l x y : (∀ r : T, r ∈ l → x ≤ rec_time r ≤ y) → ∀ z, x ≤ z ≤ y →
  z ≤ foldl (λ t r, if bool_decide (t < rec_time r) then rec_time r else t) z l ≤ y.
Proof.
  induction l as [|r l IH]; intros Hl z Hz; cbn [foldl]; [lia|]. specialize (IH (λ q Hq, Hl q (list_elem_of_further _ _ _ Hq))).
  pose proof (Hl r ltac:(left)). case_bool_decide; [pose proof (IH (rec_time r))|pose proof (IH z)]; lia.
Qed.

Lemma times_range f t (r : T) l : r ∈ l → Forall (λ r, f ≤ rec_time r ≤ t) l → f ≤ min_time r l ≤ max_time rec_time r l ∧ max_time rec_time r l ≤ t.
Proof.
  intros Hr Hl. rewrite Forall_forall in Hl. pose proof (Hl r Hr) as Hr'. cbv beta in Hr'. unfold min_time, max_time.
  pose proof (min_time_spec r l (rec_time r)) as (A1 & A2 & A3). pose proof (max_time_spec l f t Hl (rec_time r) Hr').
  set (a := foldl _ _ l) in *. assert (f ≤ a) by (destruct A3 as [->|(x & Hx & ->)]; [lia|]; specialize (Hl x Hx); lia). lia.
Qed.

Lemma sort_records_perm (l : list T) : sort_records l ≡ₚ l.
Proof. apply sort_stable_perm. Qed.

Lemma partitionDir_form s : ∃ part, partitionDir s = "partition=" +:+ part.
Proof. unfold partitionDir. repeat case_bool_decide; by eexists. Qed.

Lemma validChunkID_compacted a b n k : 0 ≤ a → 0 ≤ b → 0 ≤ n → validChunkID (compacted_id a b (itoa n) k) = true.
Proof.
  intros Ha Hb Hn. destruct (compacted_id_bytes a b n k Ha Hb Hn) as (Hs & Hbs & _). unfold validChunkID. rewrite Hs, Hbs.
  assert (Base (compacted_id a b (itoa n) k) = compacted_id a b (itoa n) k) as ->; [|by rewrite bool_decide_eq_false_2, bool_decide_eq_true_2 by (done || by intros [|[|]])].
  unfold Base. rewrite bool_decide_eq_false_2 by done. rewrite TrimRight_id.
  - rewrite bool_decide_eq_false_2 by done. by rewrite LastIndexByte_none.
  - apply (HasSuffix_no_byte "" _ slash); done.
Qed.

Lemma cut_runs_concat fuel grouped k (records : list T) : (length records ≤ fuel)%nat →
  (cut_runs fuel grouped k records ≫= λ b, b.1 :: b.2) = records.
Proof.
  revert records. induction fuel as [|fuel IH]; intros [|r rest] Hl; cbn [cut_runs length] in *; [done|lia|done|].
  rewrite bind_cons. cbn [fst snd app]. f_equal. rewrite IH by (rewrite length_drop; lia). apply take_drop.
Qed.

(** What a chunk that is written contains. *)
Lemma flush_records_spec chunkID r rs opts : validChunkID chunkID = true → ∃ rows m p part,
  (FlushChunkWithOptions chunkID (r :: rs) opts : run (T:=T) path) = rseq (write_data p rows) (λ _, rseq (write_manifest p m) (λ _, rret p)) ∧
  rows ≡ₚ r :: rs ∧ p = hive_dir ("partition=" +:+ part) (hour_of (min_time r (r :: rs))) ++ [chunkID] ∧ mf_CompactionGroup m = CompactionGroup opts.
Proof.
  intros Hv. unfold FlushChunkWithOptions, flush_records. rewrite Hv. cbn [negb]. pose proof (sort_records_perm (r :: rs)) as Hp.
  destruct (sort_records (r :: rs)) as [|r0 rows] eqn:E; [by apply Permutation_nil_l in Hp|].
  destruct (partitionDir_form (chunkPartition (collect_partitions (r0 :: rows)))) as [part Hpart].
  eexists (r0 :: rows), _, _, part. split_and!; [done|done| |done].
  cbn [chunk_manifest mf_MinTime mf_Partitions]. unfold relativeChunkPath. rewrite Hpart.
  rewrite (min_time_perm r0 r (r0 :: rows) (r :: rs)); [done|left|left|done].
Qed.

End chunk.

(** ** Runs over a range *)

Lemma hour_mono a b : a ≤ b → hour_of a ≤ hour_of b.
Proof. intros. apply Z.div_le_mono; lia. Qed.

Section range.
Context {T : Type} `{Telemetry T}.
Implicit Type st : chunk_store T.
Context (B : gmap path (chunk_dir T)) (f t : Z).

(** The chunks before the first run: in the partitioned layout, and in the
    range only raw and complete ones with times in the range. *)
Record base : Prop := {
  base_range : 0 ≤ f < t ∧ t < 2 ^ 63;
  base_hive : hive (mkChunks B ∅);
  base_listed p : is_Some (B !! p) → listed (Some f) (Some t) p →
    isCompactedChunkPath p = false ∧
    ∃ rows m, B !! p = Some (mkDir (Some (Whole rows)) (Some (Whole m))) ∧ Forall (λ r, f ≤ rec_time r ≤ t) rows }.

(** The paths that the runs started at the times [ns] may write. *)
Definition made (ns : list Z) (p : path) : Prop :=
  ∃ part n a b k, n ∈ ns ∧ 0 ≤ n ∧ f ≤ a ≤ b ∧ b ≤ t ∧
    p = hive_dir ("partition=" +:+ part) (hour_of a) ++ [compacted_id a b (itoa n) k].

Context (Hbase : base).

Lemma made_listed ns p : made ns p → listed (Some f) (Some t) p.
Proof using Hbase.
  destruct (base_range Hbase) as [Hf Ht]. intros (part & n & a & b & k & _ & Hn & Ha & Hb & ->).
  eexists _, _, _. split_and!; [done|unfold looksLikeChunkID, compacted_id; by rewrite HasPrefix_app, orb_true_r| |].
  - unfold chunkPathOverlaps. rewrite parse_compacted by lia. unfold outside. rewrite !bool_decide_eq_false_2 by lia. done.
  - intros _. cbn [bucket_hours]. apply elem_of_seqZ. pose proof (hour_mono f a). pose proof (hour_mono a t). lia.
Qed.

Lemma made_compacted ns p : made ns p → isCompactedChunkPath p = true.
Proof. intros (part & n & a & b & k & _ & _ & _ & _ & ->). unfold isCompactedChunkPath, compacted_id. rewrite last_snoc. apply HasPrefix_app. Qed.

Lemma made_length ns p : made ns p → length p = 4%nat.
Proof. by intros (part & n & a & b & k & _ & _ & _ & _ & ->). Qed.

Lemma made_mono ns ns' p : ns ⊆ ns' → made ns p → made ns' p.
Proof. intros Hns (part & n & a & b & k & Hn & Hm). exists part, n, a, b, k. split; [by apply Hns|done]. Qed.

Lemma made_id part hour a b n k ns : f ≤ a → f ≤ b → 0 ≤ n →
  made ns (hive_dir part hour ++ [compacted_id a b (itoa n) k]) → n ∈ ns.
Proof using Hbase.
  destruct (base_range Hbase) as [Hf Ht]. intros Ha Hb Hn (part' & n' & a' & b' & k' & Hin & Hn' & Ha' & Hb' & E).
  apply app_inj_tail in E as [_ E]. apply compacted_id_inj in E as [-> _]; [done|lia..].
Qed.

(** The times of the markers that are there before the first run. *)
Context (old : Z → Prop).

(** No chunk and no marker has a name with one of these times. *)
Definition unused (ns : list Z) : Prop := (∀ p, made ns p → B !! p = None) ∧ ∀ n, n ∈ ns → ¬ old n.

(** *** Before a marker *)

(** A marker whose run has nothing left to do. *)
Definition settled (mk : compactionRunMarker) : Prop :=
  (∀ p, p ∈ mk_Outputs mk → ∃ d m, B !! p = Some (mkDir d (Some (Whole m)))) ∧
  (∀ p, p ∈ mk_Sources mk → length p = 4%nat ∧ B !! p = None ∧ isCompactedChunkPath p = false).

(** The store is [B] with left-overs of the runs started at [ns]. *)
Record Ready (ns : list Z) st : Prop := {
  ready_dirs p : dirs st !! p = B !! p ∨ made ns p;
  ready_group p m : made ns p → manifest (dir_at st p) = Some (Whole m) → ∃ n, n ∈ ns ∧ 0 ≤ n ∧ mf_CompactionGroup m = itoa n;
  ready_runs g x : runs st !! g = Some x →
    ∃ n, 0 ≤ n ∧ g = itoa n ∧ (x = Torn ∨ ∃ mk, x = Whole mk ∧ old n ∧ settled mk) }.

Definition no_torn st : Prop := ∀ p, manifest (dir_at st p) ≠ Some Torn.

Lemma ready_base ns st p : unused ns → Ready ns st → is_Some (B !! p) → dirs st !! p = B !! p.
Proof. intros Hu Hst [d Hd]. destruct (ready_dirs ns st Hst p) as [|Hm]; [done|]. by rewrite (proj1 Hu p Hm) in Hd. Qed.

Lemma ready_hive ns st : Ready ns st → hive st.
Proof using Hbase.
  intros Hst p [d Hd]. destruct (ready_dirs ns st Hst p) as [E|(part & n & a & b & k & _ & _ & _ & _ & ->)].
  - apply (base_hive Hbase). rewrite E in Hd. by exists d.
  - by eexists _, _, _.
Qed.

Lemma ready_mono ns n st : unused (n :: ns) → Ready ns st → Ready (n :: ns) st.
Proof.
  intros Hu [H1 H2 H3]. split; [| |done].
  - intros p. destruct (H1 p) as [?|Hm]; [by left|right]. eapply made_mono; [|done]. intros n' ?. by right.
  - intros p m Hp Hm. destruct (H1 p) as [E|Hm'].
    + unfold dir_at in Hm. by rewrite E, (proj1 Hu p Hp) in Hm.
    + destruct (H2 p m Hm' Hm) as (n' & ? & ?). exists n'. split; [by right|done].
Qed.

(** *** Cleaning up markers *)

Lemma outputs_complete_ok st l : (∀ p, p ∈ l → ∃ m, ReadManifest st p = Ok m) → outputs_complete st l = Ok true.
Proof.
  induction l as [|p l IH]; intros Hl; [done|]. cbn. destruct (Hl p) as [m ->]; [left|]. apply IH. intros q Hq. apply Hl. by right.
Qed.

Lemma ready_delete_marker ns st g : Ready ns st → Ready ns (mkChunks (dirs st) (delete g (runs st))).
Proof. intros [H1 H2 H3]. split; [done..|]. cbn. intros g' x [_ Hg]%lookup_delete_Some. by apply H3. Qed.

Lemma cleanup_marker_ready ns st n valid I : unused ns → Ready ns st → 0 ≤ n → I st → (∀ n', n' ∈ ns → 0 ≤ n' → itoa n' ∉ valid) →
  wp (cleanup_marker (itoa n) valid) I (λ valid st', Ready ns st' ∧ dirs st' = dirs st ∧ runs st' = delete (itoa n) (runs st) ∧
    ∀ n', n' ∈ ns → 0 ≤ n' → itoa n' ∉ valid) st.
Proof using Hbase.
  intros Hu Hst Hn HI Hv. unfold cleanup_marker. destruct (TrimSpace_itoa n Hn) as [-> Hne].
  rewrite bool_decide_eq_false_2 by done. apply wp_seq, wp_look.
  destruct (runs st !! itoa n) as [x|] eqn:Hr; [|apply wp_ret; split_and!; [done..|by rewrite delete_id|done]].
  assert (wp (delete_marker (itoa n)) I (λ _ st', Ready ns st' ∧ dirs st' = dirs st ∧ runs st' = delete (itoa n) (runs st)) st) as Hdel.
  { apply wp_mutate; [done..|]. split_and!; [by apply ready_delete_marker|done..]. }
  destruct (ready_runs ns st Hst _ _ Hr) as (n' & Hn' & Hg & [->|(mk & -> & Hold & Hout & Hsrc)]).
  - apply wp_seq. eapply wp_mono; [apply Hdel|done|]. intros _ st' (? & ? & ?). by apply wp_ret.
  - rewrite outputs_complete_ok.
    2:{ intros p Hp. destruct (Hout p Hp) as (d & m & Hd). exists m. unfold ReadManifest, dir_at.
        by rewrite (ready_base ns st p Hu Hst), Hd by (rewrite Hd; by eexists). }
    assert (∀ p, p ∈ mk_Sources mk → dirs st !! p = None) as Habs.
    { intros p Hp. destruct (Hsrc p Hp) as (_ & HB & Hc). destruct (ready_dirs ns st Hst p) as [->|Hm%made_compacted]; [done|congruence]. }
    apply wp_seq, wp_delete_present; [by eapply ready_hive| | | |].
    + apply Forall_forall. intros p Hp. by apply Hsrc.
    + intros p Hp. left. by apply Habs.
    + intros l' Hl'. rewrite drop_absent; [done|]. intros p Hp. by apply Habs, Hl'.
    + rewrite drop_absent by done. apply wp_seq. eapply wp_mono; [apply Hdel|done|].
      intros _ st' (? & ? & ?). apply wp_ret. split_and!; [done..|]. intros n'' Hn'' Hp''. rewrite not_elem_of_union, not_elem_of_singleton. split; [|by apply Hv].
      intros E. rewrite !itoa_dec in E by done. apply dec_inj in E; [|done..]. rewrite !itoa_dec in Hg by done. apply dec_inj in Hg; [|done..].
      apply (proj2 Hu n''); [done|]. congruence.
Qed.

Lemma cleanup_ready ns st I : unused ns → Ready ns st → (∀ st', Ready ns st' → dirs st' = dirs st → I st') →
  wp cleanupCompactionMarkers I (λ valid st', Ready ns st' ∧ dirs st' = dirs st ∧ runs st' = ∅ ∧ ∀ n, n ∈ ns → 0 ≤ n → itoa n ∉ valid) st.
Proof using Hbase.
  intros Hu Hst HI. unfold cleanupCompactionMarkers. apply wp_seq, wp_look.
  set (groups := sort_Strings _).
  assert (∀ g, is_Some (runs st !! g) → g ∈ groups) as Hdom by (intros g Hg; apply elem_sort_Strings, elem_of_elements, elem_of_dom; done).
  assert (∀ g, g ∈ groups → ∃ n, 0 ≤ n ∧ g = itoa n) as Hg.
  { intros g [x Hx]%elem_sort_Strings%elem_of_elements%elem_of_dom. destruct (ready_runs ns st Hst g x Hx) as (n & ? & ? & _). by exists n. }
  assert (∀ n, n ∈ ns → 0 ≤ n → itoa n ∉ (∅ : gset string)) as Hv by (intros; apply not_elem_of_empty).
  clearbody groups. revert Hv. generalize (∅ : gset string). revert st Hst HI Hdom.
  induction groups as [|g groups IH]; intros st Hst HI Hdom valid Hv; cbn [cleanup_markers].
  - apply wp_ret. split_and!; [done..| |done]. apply map_eq. intros g. rewrite lookup_empty.
    destruct (runs st !! g) eqn:E; [|done]. exfalso. apply (not_elem_of_nil g), Hdom. by rewrite E.
  - destruct (Hg g ltac:(left)) as (n & Hn & ->). apply wp_seq. eapply wp_mono; [apply (cleanup_marker_ready ns st n valid I); try done; by apply HI|done|].
    intros valid' st' (Hst' & Hd & Hr & Hv'). eapply wp_mono; [apply IH; try done|done|].
    + intros g Hin. apply Hg. by right.
    + intros st'' Hst'' Hd''. apply HI; [done|congruence].
    + intros g [x Hx]. rewrite Hr in Hx. apply lookup_delete_Some in Hx as [Hne Hx].
      by pose proof (Hdom g ltac:(by exists x)) as [->|?]%elem_of_cons.
    + cbn. intros v s2 (? & ? & ? & ?). split_and!; [done|congruence|done..].
Qed.

(** *** Writing the outputs *)

Section writing.
Context (ns : list Z) (n : Z) (Hn : 0 ≤ n) (Hnew : n ∉ ns) (Hu : unused (n :: ns)).

Definition output_path (k : nat) (p : path) : Prop :=
  ∃ part a b, f ≤ a ≤ b ∧ b ≤ t ∧ p = hive_dir ("partition=" +:+ part) (hour_of a) ++ [compacted_id a b (itoa n) k].

Lemma output_made k p : output_path k p → made (n :: ns) p.
Proof using Hn. intros (part & a & b & Ha & Hb & ->). exists part, n, a, b, k. split_and!; [left|lia..|done]. Qed.

(** The outputs [o] hold the records [recs]; nothing else is visible of this
    run and of the earlier ones. *)
Record Written (o : outputs) (recs : list T) st : Prop := {
  written_runs : runs st = ∅;
  written_paths : NoDup (out_paths o);
  written_outs p : p ∈ out_paths o → (∃ k, (k < out_seq o)%nat ∧ output_path k p) ∧
    ∃ rows m, dirs st !! p = Some (mkDir (Some (Whole rows)) (Some (Whole m))) ∧ mf_CompactionGroup m = itoa n;
  written_rest p : p ∉ out_paths o → dirs st !! p = B !! p ∨ (made ns p ∧ manifest (dir_at st p) = None);
  written_recs : out_paths o ≫= rows_at (dirs st) ≡ₚ recs }.

Lemma written_ready o recs st : Written o recs st → Ready (n :: ns) st.
Proof using Hn Hu.
  intros [H1 _ H3 H4 _]. split.
  - intros p. destruct (decide (p ∈ out_paths o)) as [Hp|Hp].
    + right. destruct (H3 p Hp) as [(k & _ & Hk) _]. by eapply output_made.
    + destruct (H4 p Hp) as [?|[? _]]; [by left|right]. eapply made_mono; [|done]. intros n' ?. by right.
  - intros p m Hp Hm. destruct (decide (p ∈ out_paths o)) as [Ho|Ho].
    + destruct (H3 p Ho) as (_ & rows & m' & E & Hg). exists n. split_and!; [left|done|]. unfold dir_at in Hm. rewrite E in Hm. cbn in Hm. congruence.
    + destruct (H4 p Ho) as [E|[_ E]]; [|congruence]. unfold dir_at in Hm. by rewrite E, (proj1 Hu p Hp) in Hm.
  - intros g x. by rewrite H1, lookup_empty.
Qed.

(** A new output path is free. *)
Lemma output_free o recs st p : Written o recs st → output_path (out_seq o) p → dirs st !! p = None ∧ p ∉ out_paths o.
Proof using Hbase Hn Hnew Hu.
  intros Hw Hp. pose proof (base_range Hbase) as [Hf Ht].
  assert (p ∉ out_paths o) as Ho.
  { intros Hin. destruct (written_outs _ _ _ Hw p Hin) as [(k & Hk & Hk') _].
    destruct Hp as (part & a & b & Ha & Hb & ->), Hk' as (part' & a' & b' & Ha' & Hb' & E).
    apply app_inj_tail in E as [_ E]. apply compacted_id_inj in E as [_ E]; lia. }
  split; [|done]. destruct (written_rest _ _ _ Hw p Ho) as [->|[Hm _]].
  - apply (proj1 Hu). by eapply output_made.
  - destruct Hp as (part & a & b & Ha & Hb & ->). apply made_id in Hm; [done|lia..].
Qed.

Lemma ready_insert st p d : Ready (n :: ns) st → made (n :: ns) p →
  (∀ m, manifest d = Some (Whole m) → mf_CompactionGroup m = itoa n) → Ready (n :: ns) (set_dir p d st).
Proof using Hn.
  intros [H1 H2 H3] Hp Hd. split; [| |done].
  - intros q. cbn. destruct (decide (p = q)) as [->|Hne]; [by right|]. rewrite lookup_insert_ne by done. apply H1.
  - intros q m Hq. unfold dir_at. cbn. destruct (decide (p = q)) as [->|Hne].
    + rewrite lookup_insert_eq. cbn. intros Hm. exists n. split_and!; [left|done|by apply Hd].
    + rewrite lookup_insert_ne by done. by apply H2.
Qed.

Lemma written_insert o recs st p rows m : Written o recs st → output_path (out_seq o) p → mf_CompactionGroup m = itoa n →
  Written (mkOutputs (out_paths o ++ [p]) (S (out_seq o))) (recs ++ rows) (set_dir p (mkDir (Some (Whole rows)) (Some (Whole m))) st).
Proof using Hbase Hn Hnew Hu.
  intros Hw Hp Hm. destruct (output_free _ _ _ _ Hw Hp) as [Hfree Hin]. split; cbn [out_paths out_seq].
  - apply (written_runs _ _ _ Hw).
  - apply NoDup_app. split_and!; [apply (written_paths _ _ _ Hw)| |apply NoDup_singleton]. intros q Hq ->%list_elem_of_singleton. done.
  - intros q [Hq| ->%list_elem_of_singleton]%elem_of_app; cbn.
    + destruct (written_outs _ _ _ Hw q Hq) as [(k & Hk & Hk') Hd]. split; [exists k; split; [lia|done]|]. rewrite lookup_insert_ne by congruence. done.
    + split; [exists (out_seq o); split; [lia|done]|]. rewrite lookup_insert_eq. by exists rows, m.
  - intros q [Hq Hne%not_elem_of_cons]%not_elem_of_app. unfold dir_at. cbn. rewrite lookup_insert_ne by naive_solver.
    by apply (written_rest _ _ _ Hw).
  - cbn. rewrite bind_app, <- (written_recs _ _ _ Hw). f_equiv.
    + apply reflexive_eq, bind_ext_in. intros q Hq. unfold rows_at. rewrite lookup_insert_ne; [done|congruence].
    + cbn. rewrite app_nil_r. unfold rows_at. by rewrite lookup_insert_eq.
Qed.

Lemma written_perm o recs recs' st : recs ≡ₚ recs' → Written o recs st → Written o recs' st.
Proof. intros Hp [? ? ? ? Hr]. split; [done..|]. by rewrite Hr. Qed.

Context (I : chunk_store T → Prop) (HIr : ∀ st, Ready (n :: ns) st → I st).
Abbreviation in_range := (Forall (λ r, f ≤ rec_time r ≤ t)).

Lemma wp_flush_output o recs st r rs sources : in_range (r :: rs) → Written o recs st →
  wp (FlushChunkWithOptions (compacted_id (min_time r (r :: rs)) (max_time rec_time r (r :: rs)) (itoa n) (out_seq o)) (r :: rs)
        (mkWriteOptions sources 1 (itoa n))) I
    (λ p, Written (mkOutputs (out_paths o ++ [p]) (S (out_seq o))) (recs ++ r :: rs)) st.
Proof using Hbase Hn Hnew Hu HIr.
  intros Hr Hw. pose proof (base_range Hbase) as [Hf Ht]. pose proof (times_range f t r (r :: rs) ltac:(left) Hr) as [Hmin Hmax].
  set (a := min_time _ _) in *. set (b := max_time _ _ _) in *.
  destruct (flush_records_spec (compacted_id a b (itoa n) (out_seq o)) r rs (mkWriteOptions sources 1 (itoa n))) as (rows & m & p & part & -> & Hrows & Hp & Hg).
  { apply validChunkID_compacted; lia. }
  assert (output_path (out_seq o) p) as Ho by (exists part, a, b; done). pose proof (output_made _ _ Ho) as Hmade.
  destruct (output_free _ _ _ _ Hw Ho) as [Hfree _]. pose proof (written_ready _ _ _ Hw) as Hst.
  assert (manifest (dir_at st p) = None) as Hm0 by (unfold dir_at; by rewrite Hfree).
  apply wp_seq, wp_mutate; [by apply HIr|apply HIr, ready_insert; [done..|cbn; by rewrite Hm0]|].
  rewrite Hm0. apply wp_seq, wp_mutate; [apply HIr, ready_insert; done| |].
  - apply HIr, ready_insert; [by apply ready_insert|done..].
  - apply wp_ret. unfold dir_at. cbn. rewrite lookup_insert_eq. cbn [data default from_option id].
    unfold set_dir at 1. cbn. rewrite insert_insert_eq. apply written_perm with (recs ++ rows); [by rewrite Hrows|].
    by apply (written_insert o recs st p rows m).
Qed.

Lemma wp_write_runs sources batches o recs st : in_range (batches ≫= λ b, b.1 :: b.2) → Written o recs st →
  wp (write_runs (itoa n) sources batches o) I (λ o', Written o' (recs ++ (batches ≫= λ b, b.1 :: b.2))) st.
Proof using Hbase Hn Hnew Hu HIr.
  revert o recs st. induction batches as [|[r rs] batches IH]; intros o recs st Hr Hw; cbn [write_runs].
  - apply wp_ret. by rewrite app_nil_r.
  - rewrite bind_cons in Hr. apply Forall_app in Hr as [Hr1 Hr2]. apply wp_seq. eapply wp_mono; [by apply (wp_flush_output o recs st r rs)|done|].
    intros p st' Hw'. eapply wp_mono; [apply IH; [done|exact Hw']|done|]. intros o' st''. rewrite bind_cons, <- app_assoc. done.
Qed.

Lemma wp_write_compacted sources k records o recs st : in_range records → Written o recs st →
  wp (write_compacted (itoa n) sources k records o) I (λ o', Written o' (recs ++ records)) st.
Proof using Hbase Hn Hnew Hu HIr.
  intros Hr Hw. unfold write_compacted. pose proof (sort_records_perm records) as Hp.
  eapply wp_mono; [apply wp_write_runs; [|done]|done|]; [rewrite cut_runs_concat by done; by rewrite Hp|].
  intros o' st'. cbn. rewrite cut_runs_concat by done. by apply written_perm; rewrite Hp.
Qed.

(** The records read so far are those written and those accumulated. *)
Definition Accumulated (ao : compactAccumulator * outputs) (recs : list T) st : Prop :=
  ∃ flushed, Written ao.2 flushed st ∧ flushed ++ acc_records ao.1 ≡ₚ recs ∧ in_range (acc_records ao.1).

Section accumulator.
Context (opts : CompactionOptions) (sources : list path) (k : Z).
Abbreviation flush := (write_compacted (itoa n) sources k).

Lemma wp_Flush ao recs st : Accumulated ao recs st →
  wp (Flush flush ao.1 ao.2) I (λ ao', λ st', Accumulated ao' recs st' ∧ acc_records ao'.1 = []) st.
Proof using Hbase Hn Hnew Hu HIr.
  intros (flushed & Hw & Hp & Hr). destruct ao as [a o]. cbn in *. unfold Flush. case_bool_decide as E.
  - apply wp_ret. split; [by exists flushed|done].
  - apply wp_seq. eapply wp_mono; [by apply (wp_write_compacted sources k (acc_records a) o flushed)|done|].
    intros o' st' Hw'. apply wp_ret. split; [|done]. exists (flushed ++ acc_records a). split_and!; [done|by rewrite app_nil_r|by constructor].
Qed.

Lemma wp_Add r ao recs st : f ≤ rec_time r ≤ t → Accumulated ao recs st → wp (Add opts flush r ao) I (λ ao', Accumulated ao' (recs ++ [r])) st.
Proof using Hbase Hn Hnew Hu HIr.
  intros Hr Ha. unfold Add. apply wp_seq.
  assert (wp (match acc_span ao.1 with Some (_, _, b) => if bool_decide (hour_of (rec_time r) ≠ b) then Flush flush ao.1 ao.2 else rret ao | None => rret ao end)
    I (λ ao', Accumulated ao' recs) st) as Hfirst.
  { destruct (acc_span ao.1) as [[[??] b]|]; [case_bool_decide|]; [|by apply wp_ret..].
    eapply wp_mono; [by apply wp_Flush|done|]. by intros ao' st' [? _]. }
  eapply wp_mono; [apply Hfirst|done|]. intros [a o] st' (flushed & Hw & Hp & Hall). cbn in Hw, Hp, Hall |- *.
  destruct (default _ (acc_span a)) as [[lo hi] b]. set (a' := mkAcc _ _ _).
  assert (Accumulated (a', o) (recs ++ [r]) st') as Ha'.
  { exists flushed. split_and!; [done|cbn; by rewrite app_assoc, Hp|]. cbn. apply Forall_app. split; [done|by constructor]. }
  case_bool_decide; [|by apply wp_ret]. eapply wp_mono; [by apply (wp_Flush (a', o))|done|]. by intros ao' st'' [? _].
Qed.

Lemma wp_add_records rows ao recs st : in_range rows → Accumulated ao recs st → wp (add_records opts flush rows ao) I (λ ao', Accumulated ao' (recs ++ rows)) st.
Proof using Hbase Hn Hnew Hu HIr.
  revert ao recs st. induction rows as [|r rows IH]; intros ao recs st Hr Ha; cbn [add_records].
  - apply wp_ret. by rewrite app_nil_r.
  - apply Forall_cons in Hr as [Hr Hrows]. apply wp_seq. eapply wp_mono; [by apply wp_Add|done|].
    intros ao' st' Ha'. eapply wp_mono; [apply IH; [done|exact Ha']|done|]. intros ao'' st''. by rewrite <- app_assoc.
Qed.

(** A raw chunk of the range is still there. *)
Lemma accumulated_raw ao recs st p : Accumulated ao recs st → is_Some (B !! p) → listed (Some f) (Some t) p → dirs st !! p = B !! p.
Proof using Hbase Hn Hu.
  intros (flushed & Hw & _) Hp _. eapply (ready_base (n :: ns)); [done|by eapply written_ready|done].
Qed.

Lemma wp_read_sources raw c ao recs st : (∀ p, p ∈ raw → is_Some (B !! p) ∧ listed (Some f) (Some t) p) → Accumulated ao recs st →
  wp (read_sources opts flush raw c ao) I (λ r, Accumulated r.2 (recs ++ (raw ≫= rows_at B))) st.
Proof using Hbase Hn Hnew Hu HIr.
  revert c ao recs st. induction raw as [|p raw IH]; intros c ao recs st Hraw Ha; cbn [read_sources].
  - apply wp_ret. by rewrite app_nil_r.
  - destruct (Hraw p ltac:(left)) as [Hp Hl]. destruct (base_listed Hbase p Hp Hl) as (_ & rows & m & HB & Hr).
    apply wp_seq, wp_look. unfold scan, dir_at. rewrite (accumulated_raw _ _ _ _ Ha Hp Hl), HB. cbn [default from_option id data].
    apply wp_seq. eapply wp_mono; [by apply wp_add_records|done|]. intros ao' st' Ha'.
    eapply wp_mono; [apply IH; [intros q Hq; apply Hraw; by right|exact Ha']|done|]. intros [c' ao''] st''. cbn [snd].
    rewrite <- app_assoc, bind_cons. unfold rows_at at 2. by rewrite HB.
Qed.

End accumulator.
(** *** After the marker *)

(** The raw chunks of the range. *)
Definition is_raw (raw : list path) : Prop := NoDup raw ∧ ∀ p, p ∈ raw ↔ is_Some (B !! p) ∧ listed (Some f) (Some t) p.

(** The outputs hold the records of the sources, of which those in [gone]
    have been deleted. *)
Definition Committed (raw : list path) (o : outputs) st : Prop :=
  ∃ gone st0 mk, NoDup gone ∧ gone ⊆ raw ∧ Written o (raw ≫= rows_at B) st0 ∧ mk_Sources mk = raw ∧ mk_Outputs mk = out_paths o ∧
    st = mkChunks (dirs (drop_dirs gone st0)) {[itoa n := Whole mk]}.

Lemma records_written o recs st : Written o recs st → records_of (dirs st) ≡ₚ recs ++ records_of B.
Proof using Hn Hu.
  intros Hw. pose proof (written_ready _ _ _ Hw) as Hst.
  assert (∀ p, p ∈ elements (dom B) ↔ is_Some (B !! p)) as Hdom by (intros p; by rewrite elem_of_elements, elem_of_dom).
  rewrite (records_of_paths (dirs st) (out_paths o ++ elements (dom B))).
  - rewrite bind_app, (written_recs _ _ _ Hw). f_equiv. rewrite (records_of_paths B (elements (dom B))).
    + apply reflexive_eq, bind_ext_in. intros p Hp%Hdom. unfold rows_at. by rewrite (ready_base (n :: ns) st).
    + apply NoDup_elements.
    + intros p Hp. apply Hdom. unfold rows_at in Hp. destruct (B !! p); [by eexists|done].
  - apply NoDup_app. split_and!; [apply (written_paths _ _ _ Hw)| |apply NoDup_elements].
    intros p Hp [d Hd]%Hdom. destruct (written_outs _ _ _ Hw p Hp) as [(k & _ & Hk%output_made) _]. by rewrite (proj1 Hu p Hk) in Hd.
  - intros p Hp. rewrite elem_of_app, Hdom. destruct (decide (p ∈ out_paths o)) as [|Ho]; [by left|right].
    unfold rows_at in Hp. destruct (written_rest _ _ _ Hw p Ho) as [E|[_ E]].
    + rewrite <- E. destruct (dirs st !! p); [by eexists|done].
    + unfold dir_at in E. unfold rows_of in Hp. rewrite E in Hp. by destruct (data _) as [[]|].
Qed.

(** The same with all sources deleted. *)
Definition Compacted (raw : list path) (o : outputs) st : Prop :=
  ∃ st0, Written o (raw ≫= rows_at B) st0 ∧
    st = mkChunks (dirs (drop_dirs raw st0)) {[itoa n := Whole (mkMarker (itoa n) f t raw (out_paths o) n)]}.

Lemma compacted_committed raw o st : is_raw raw → Compacted raw o st → Committed raw o st.
Proof. intros [Hnd _] (st0 & Hw & ->). eexists raw, st0, _. split_and!; [done|done|done| | |reflexivity]; done. Qed.

Lemma raw_in_base raw o recs st p : is_raw raw → Written o recs st → p ∈ raw → dirs st !! p = B !! p.
Proof using Hn Hu. intros [_ Hraw] Hw [Hp _]%Hraw. eapply (ready_base (n :: ns)); [done|by eapply written_ready|done]. Qed.

(** No record is missing. *)
Lemma records_committed raw o st : is_raw raw → Committed raw o st → records_of B ⊆+ records_of (dirs st).
Proof using Hn Hu.
  intros Hraw (gone & st0 & mk & Hnd & Hsub & Hw & _ & _ & ->). cbn [dirs].
  pose proof (records_of_filter (dirs st0) gone Hnd) as Hg. rewrite (records_written _ _ _ Hw) in Hg.
  assert (gone ≫= rows_at (dirs st0) = gone ≫= rows_at B) as Eg.
  { apply bind_ext_in. intros p Hp. unfold rows_at. by rewrite (raw_in_base raw o _ st0 p Hraw Hw) by by apply Hsub. }
  rewrite Eg in Hg. assert (∃ left, raw ≡ₚ gone ++ left) as [left Hl].
  { apply submseteq_Permutation, NoDup_submseteq; [done|]. intros p Hp. by apply Hsub. }
  rewrite Hl, bind_app, <- app_assoc in Hg. apply Permutation_app_inv_l in Hg. rewrite <- Hg. by apply submseteq_inserts_l.
Qed.

(** Once all sources are deleted, every record is there once. *)
Lemma records_dropped raw o st : is_raw raw → Written o (raw ≫= rows_at B) st → records_of (dirs (drop_dirs raw st)) ≡ₚ records_of B.
Proof using Hn Hu.
  intros Hraw Hw. pose proof (records_of_filter (dirs st) raw (proj1 Hraw)) as Hg. rewrite (records_written _ _ _ Hw) in Hg.
  assert (raw ≫= rows_at (dirs st) = raw ≫= rows_at B) as Eg.
  { apply bind_ext_in. intros p Hp. unfold rows_at. by rewrite (raw_in_base raw o _ st p Hraw Hw). }
  rewrite Eg in Hg. by apply Permutation_app_inv_l in Hg.
Qed.

(** Without the outputs, the records of the sources are lost. *)
Lemma records_deleted raw o recs st : is_raw raw → Written o recs st →
  records_of (dirs (drop_dirs (raw ++ out_paths o) st)) ≡ₚ records_of (filter (λ qd, qd.1 ∉ raw) B).
Proof using Hn Hu.
  intros Hraw Hw. apply records_of_ext. intros p. unfold rows_at.
  change (filter (λ qd, qd.1 ∉ raw) B) with (dirs (drop_dirs raw (mkChunks B ∅))). rewrite !lookup_drop. cbn [dirs].
  destruct (decide (p ∈ raw)) as [Hp|Hp]; [by rewrite !bool_decide_eq_true_2 by (rewrite ?elem_of_app; tauto)|].
  rewrite (bool_decide_eq_false_2 (p ∈ raw)) by done. destruct (decide (p ∈ out_paths o)) as [Ho|Ho].
  - rewrite bool_decide_eq_true_2 by (apply elem_of_app; by right). destruct (written_outs _ _ _ Hw p Ho) as [(k & _ & Hk%output_made) _].
    by rewrite (proj1 Hu p Hk).
  - rewrite bool_decide_eq_false_2 by (by rewrite elem_of_app; intros []). destruct (written_rest _ _ _ Hw p Ho) as [->|[Hm E]]; [done|].
    unfold dir_at in E. unfold rows_of. rewrite E. rewrite (proj1 Hu p) by (eapply made_mono; [|done]; intros n' ?; by right). by destruct (data _) as [[]|].
Qed.

(** *** A run from a store without marker *)

Lemma ready_drop l st : Ready ns st → (∀ p, p ∈ l → made ns p) → Ready ns (drop_dirs l st).
Proof.
  intros [H1 H2 H3] Hl. split; [| |done].
  - intros p. rewrite lookup_drop. case_bool_decide; [right; by apply Hl|apply H1].
  - intros p m Hp. unfold dir_at. rewrite lookup_drop. case_bool_decide; [done|by apply H2].
Qed.

Lemma unused_ns : unused ns.
Proof using Hu.
  split; [|intros n' ?; apply (proj2 Hu); by right]. intros p Hp. apply (proj1 Hu). eapply made_mono; [|done]. intros n' ?. by right.
Qed.

Section listing.
Context (st : chunk_store T) (Hst : Ready ns st) (Htorn : no_torn st) (valid : gset string) (Hvalid : ∀ n, n ∈ ns → 0 ≤ n → itoa n ∉ valid).
Abbreviation paths := (ListChunkPaths st (Some f) (Some t)).

Lemma elem_paths p : p ∈ paths ↔ is_Some (dirs st !! p) ∧ listed (Some f) (Some t) p.
Proof using Hbase Hst. apply elem_ListChunkPaths. by eapply ready_hive. Qed.

Lemma compacted_paths p : p ∈ paths → isCompactedChunkPath p = true → made ns p.
Proof using Hbase Hst.
  intros [Hp Hl]%elem_paths Hc. destruct (ready_dirs ns st Hst p) as [E|]; [|done].
  rewrite E in Hp. destruct (base_listed Hbase p Hp Hl) as [? _]. congruence.
Qed.

Lemma made_manifest p : made ns p → manifest (dir_at st p) = None ∨
  ∃ m, manifest (dir_at st p) = Some (Whole m) ∧ mf_CompactionGroup m ≠ "" ∧ mf_CompactionGroup m ∉ valid.
Proof using Hst Htorn Hvalid.
  intros Hp. destruct (manifest (dir_at st p)) as [[m|]|] eqn:E; [right|by apply Htorn in E|by left].
  exists m. destruct (ready_group ns st Hst p m Hp E) as (n' & Hin & Hn' & ->). split_and!; [done|by apply TrimSpace_itoa|by apply Hvalid].
Qed.

Lemma raw_paths : is_raw (filter (λ p, isCompactedChunkPath p = false) paths).
Proof using Hbase Hu Hst.
  split; [apply NoDup_filter, elem_ListChunkPaths; by eapply ready_hive|].
  intros p. rewrite list_elem_of_filter, elem_paths. split.
  - intros (Hc & Hp & Hl). split; [|done]. destruct (ready_dirs ns st Hst p) as [<-|Hm%made_compacted]; [done|congruence].
  - intros [Hp Hl]. split_and!; [by destruct (base_listed Hbase p Hp Hl)| |done]. by rewrite (ready_base ns st p unused_ns Hst Hp).
Qed.

Lemma quiet_paths : runs st = ∅ → Written (mkOutputs [] O) [] (drop_dirs (filter (λ p, orphaned valid st p = true) paths) st).
Proof using Hbase Hst Htorn Hvalid.
  intros Hr. split; cbn [out_paths]; [done|constructor|by intros p ?%not_elem_of_nil| |done].
  intros p _. unfold dir_at. rewrite lookup_drop. case_bool_decide as Hp.
  - apply list_elem_of_filter in Hp as [[Hc _]%andb_true_iff Hp]. right. split; [by apply compacted_paths|done].
  - destruct (ready_dirs ns st Hst p) as [?|Hm]; [by left|right]. split; [done|]. change (manifest (dir_at st p) = None).
    destruct (made_manifest p Hm) as [?|(m & E & _ & Hv)]; [done|]. exfalso. apply Hp, list_elem_of_filter. split.
    + unfold orphaned. rewrite (made_compacted _ _ Hm), E. by rewrite bool_decide_eq_true_2.
    + apply elem_paths. split; [|by eapply made_listed]. unfold dir_at in E. by destruct (dirs st !! p); [eexists|].
Qed.

Lemma wp_classify_ready : runs st = ∅ →
  wp (classify valid paths (mkClasses [] O false O)) I (λ c st', is_raw (cl_raw c) ∧ cl_legacy c = false ∧ Written (mkOutputs [] O) [] st') st.
Proof using Hbase Hu HIr Hst Htorn Hvalid.
  intros Hr. apply wp_classify.
  - by eapply ready_hive.
  - apply elem_ListChunkPaths. by eapply ready_hive.
  - apply Forall_forall. intros p [Hp _]%elem_paths. by destruct (ready_hive _ _ Hst p Hp) as (? & ? & ? & ->).
  - intros p Hp Hc. destruct (made_manifest p) as [?|(m & ? & ? & _)]; [by apply compacted_paths|by left|right; by exists m].
  - intros l Hl. apply HIr, ready_mono; [done|]. apply ready_drop; [done|].
    intros p [[Hc _]%andb_true_iff Hin]%Hl%list_elem_of_filter. by apply compacted_paths.
  - intros c' Ec El. cbn in Ec, El. rewrite Ec. split_and!; [apply raw_paths|done|by apply quiet_paths].
Qed.

End listing.

Lemma wp_rewrite_sources opts c st : (∀ raw o st, is_raw raw → Committed raw o st → I st) → is_raw (cl_raw c) → Written (mkOutputs [] O) [] st →
  wp (rewrite_sources n f t opts c) I (λ _ st', (∃ k, Written (mkOutputs [] k) [] st' ∧ (cl_raw c ≫= rows_at B) = []) ∨
    ∃ o, Compacted (cl_raw c) o st') st.
Proof using Hbase Hn Hnew Hu HIr.
  intros HIc Hraw Hw. unfold rewrite_sources. apply wp_seq. eapply wp_mono; [apply (wp_read_sources opts (cl_raw c) (MaxRecords opts) (cl_raw c))|done|].
  { intros p Hp. by apply Hraw. }
  { exists []. split_and!; [exact Hw|done|by constructor]. }
  intros [c' [a o]] st1 Ha. apply wp_seq. eapply wp_mono; [apply (wp_Flush (cl_raw c) (MaxRecords opts) (a, o)); exact Ha|done|].
  intros [a' o'] st2 [(flushed & Hw' & Hp & _) Ea]. cbn in Hw', Hp, Ea. rewrite Ea, app_nil_r in Hp.
  apply (written_perm _ _ _ _ Hp) in Hw'. clear Hp. case_bool_decide as Eo.
  - apply wp_ret. left. destruct o' as [ps k]. cbn in Eo. subst ps. exists k. pose proof (written_recs _ _ _ Hw') as Hr. cbn in Hr.
    apply Permutation_nil_l in Hr. by rewrite <- Hr in *.
  - pose proof (written_ready _ _ _ Hw') as Hst'. pose proof (written_runs _ _ _ Hw') as Hrs.
    set (mk := mkMarker _ _ _ _ _ _). apply wp_seq, wp_mutate; [by apply HIr| |].
    + apply HIr. destruct Hst' as [H1 H2 _]. split; [done..|]. cbn. intros g x. rewrite Hrs, insert_empty.
      intros [<- <-]%lookup_singleton_Some. exists n. split_and!; [done..|by left].
    + rewrite Hrs, insert_empty. apply wp_seq. set (st3 := mkChunks (dirs st2) {[itoa n := Whole mk]}).
      apply wp_delete_all.
      * intros p Hp. by apply (ready_hive _ _ Hst' p).
      * apply Forall_forall. intros p [Hp _]%Hraw. by destruct (base_hive Hbase p Hp) as (? & ? & ? & ->).
      * intros l Hl. apply (HIc (cl_raw c) o'); [done|]. exists (filter (λ p, p ∈ l) (cl_raw c)), st2, mk.
        split_and!; [apply NoDup_filter, Hraw|by intros p [_ ?]%list_elem_of_filter|done..|].
        apply store_eq; [|done]. intros p. unfold st3. rewrite lookup_drop. cbn [dirs]. change (filter _ (dirs st2)) with (dirs (drop_dirs (filter (λ p, p ∈ l) (cl_raw c)) st2)).
        rewrite lookup_drop. erewrite bool_decide_ext; [done|]. rewrite list_elem_of_filter. naive_solver.
      * apply wp_ret. right. by exists o', st2.
Qed.

Lemma wp_run_ready opts st : (∀ raw o st, is_raw raw → Committed raw o st → I st) →
  Ready ns st → no_torn st →
  wp (CompactRange n (Some f) (Some t) opts) I (λ _ st', ∃ raw, is_raw raw ∧
    ((∃ k, Written (mkOutputs [] k) [] st' ∧ ((length raw < 2)%nat ∨ (raw ≫= rows_at B) = [])) ∨ ∃ o, Compacted raw o st')) st.
Proof using Hbase Hn Hnew Hu HIr.
  intros HIc Hst Htorn. pose proof (base_range Hbase) as [Hf _]. cbn [CompactRange]. rewrite bool_decide_eq_false_2 by lia.
  apply wp_seq. eapply wp_mono; [apply (cleanup_ready ns st I unused_ns Hst)|done|].
  { intros st' Hst' _. by apply HIr, ready_mono. }
  intros valid st1 (Hst1 & Hd & Hr & Hv). apply wp_seq, wp_look, wp_seq.
  assert (no_torn st1) as Htorn1 by (intros p; unfold dir_at; rewrite Hd; apply Htorn).
  eapply wp_mono; [by apply (wp_classify_ready st1 Hst1 Htorn1 valid Hv)|done|]. intros c st2 (Hraw & Hleg & Hw).
  rewrite Hleg, andb_false_r. cbn [andb]. case_bool_decide as Hlen.
  - apply wp_ret. exists (cl_raw c). split; [done|left]. exists O. split; [done|by left].
  - eapply wp_mono; [by apply wp_rewrite_sources|done|]. intros res st3 Hst3. exists (cl_raw c). split; [done|].
    destruct Hst3 as [(k & Hw' & Hnil)|?]; [left; exists k; split; [done|by right]|by right].
Qed.

(** *** Runs after a marker *)

Section finishing.
Context (raw : list path) (o : outputs) (st0 : chunk_store T) (Hraw : is_raw raw) (Hw : Written o (raw ≫= rows_at B) st0).

Lemma output_not_raw p : p ∈ out_paths o → p ∉ raw.
Proof using Hn Hu Hraw Hw.
  intros Hp [[d Hd] _]%Hraw. destruct (written_outs _ _ _ Hw p Hp) as [(k & _ & Hk%output_made) _]. by rewrite (proj1 Hu p Hk) in Hd.
Qed.

Lemma hive_written : hive st0.
Proof using Hbase Hn Hu Hw. by eapply ready_hive, written_ready. Qed.

Lemma raw_length : Forall (λ p, length p = 4%nat) raw.
Proof using Hbase Hraw. apply Forall_forall. intros p [Hp _]%Hraw. by destruct (base_hive Hbase p Hp) as (? & ? & ? & ->). Qed.

(** The next run deletes what is left of the sources and the marker. *)
Lemma wp_finish_marker gone mk : gone ⊆ raw → mk_Sources mk = raw → mk_Outputs mk = out_paths o →
  wp cleanupCompactionMarkers (λ _, True) (λ valid st', valid = {[itoa n]} ∧ st' = drop_dirs raw st0)
    (mkChunks (dirs (drop_dirs gone st0)) {[itoa n := Whole mk]}).
Proof using Hbase Hn Hu Hraw Hw.
  intros Hgone Hsrc Hout. unfold cleanupCompactionMarkers. apply wp_seq, wp_look. cbn [runs]. rewrite dom_singleton_L, elements_singleton.
  change (sort_Strings [itoa n]) with [itoa n]. cbn [cleanup_markers]. apply wp_seq. unfold cleanup_marker. destruct (TrimSpace_itoa n Hn) as [-> Hne].
  rewrite bool_decide_eq_false_2 by done. apply wp_seq, wp_look. cbn [runs]. rewrite lookup_singleton_eq, Hsrc, Hout.
  set (st1 := mkChunks _ _). assert (∀ p, dirs st1 !! p = if bool_decide (p ∈ gone) then None else dirs st0 !! p) as Hd by apply lookup_drop.
  rewrite outputs_complete_ok.
  2:{ intros p Hp. destruct (written_outs _ _ _ Hw p Hp) as (_ & rows & m & E & _). exists m. unfold ReadManifest, dir_at.
      rewrite Hd, bool_decide_eq_false_2, E; [done|]. intros Hin%Hgone. by apply (output_not_raw p). }
  apply wp_seq, wp_delete_present; [apply (hive_drop gone st0), hive_written|apply raw_length| |done|].
  - intros p Hp. unfold dir_at. rewrite Hd. case_bool_decide; [by left|right]. pose proof Hp as [HB Hl]%Hraw.
    destruct (base_listed Hbase p HB Hl) as (_ & rows & m & E & _). exists m. by rewrite (raw_in_base _ _ _ _ p Hraw Hw Hp), E.
  - apply wp_seq, wp_mutate; [done..|]. apply wp_ret, wp_ret. split; [by rewrite union_empty_r_L|].
    apply store_eq; [|cbn; rewrite delete_singleton_eq; by rewrite (written_runs _ _ _ Hw)].
    intros p. change (dirs (drop_dirs raw st1) !! p = dirs (drop_dirs raw st0) !! p). rewrite !lookup_drop. case_bool_decide as Hp; [done|].
    rewrite Hd, bool_decide_eq_false_2; [done|]. intros ?%Hgone. done.
Qed.

(** In the range there are then the outputs and what has no manifest. *)
Lemma finished_dirs p : is_Some (dirs (drop_dirs raw st0) !! p) → listed (Some f) (Some t) p →
  isCompactedChunkPath p = true ∧
  ((p ∉ out_paths o ∧ manifest (dir_at (drop_dirs raw st0) p) = None) ∨
   (p ∈ out_paths o ∧ ∃ m, manifest (dir_at (drop_dirs raw st0) p) = Some (Whole m) ∧ mf_CompactionGroup m = itoa n)).
Proof using Hn Hu Hraw Hw.
  unfold dir_at. rewrite !lookup_drop. case_bool_decide as Hp; [by intros []|]. intros Hd Hl. destruct (decide (p ∈ out_paths o)) as [Ho|Ho].
  - destruct (written_outs _ _ _ Hw p Ho) as [(k & _ & Hk%output_made) (rows & m & -> & Hg)].
    split; [by eapply made_compacted|]. right. split; [done|]. by exists m.
  - destruct (written_rest _ _ _ Hw p Ho) as [E|[Hm E]].
    + exfalso. apply Hp, Hraw. by rewrite <- E.
    + split; [by eapply made_compacted|]. by left.
Qed.

(** The rest of a run on such a store: outputs whose group is not [valid]
    are deleted, and there is nothing to compact. *)
Lemma wp_finished_run n' opts valid (kept := bool_decide (itoa n ∈ valid)) Q :
  (∀ res, Q res (drop_dirs (if kept then raw else raw ++ out_paths o) st0)) →
  wp (compact_chunks n' f t opts valid) (λ _, True) Q (drop_dirs raw st0).
Proof using Hbase Hn Hu Hraw Hw.
  intros HQ. apply wp_seq, wp_look, wp_seq. pose proof (hive_drop raw st0 hive_written) as Hh.
  destruct (elem_ListChunkPaths (drop_dirs raw st0) (Some f) (Some t) Hh) as [Hnd Hin]. set (paths := ListChunkPaths _ _ _) in *.
  apply wp_classify; [done|done| | |done|].
  - apply Forall_forall. intros p [Hp _]%Hin. by destruct (Hh p Hp) as (? & ? & ? & ->).
  - intros p [Hp Hl]%Hin _. destruct (finished_dirs p Hp Hl) as [_ [[_ ?]|[_ (m & ? & Hg)]]]; [by left|right].
    exists m. split; [done|]. rewrite Hg. by apply TrimSpace_itoa.
  - intros c Ec El. cbn in Ec, El. assert (cl_raw c = []) as Er.
    { rewrite Ec. apply elem_of_nil_inv. intros p [Hc [Hp Hl]%Hin]%list_elem_of_filter. destruct (finished_dirs p Hp Hl) as [? _]. congruence. }
    rewrite El, Er, andb_false_r. cbn [andb length]. apply wp_ret.
    assert (drop_dirs (filter (λ p, orphaned valid (drop_dirs raw st0) p = true) paths) (drop_dirs raw st0) =
            drop_dirs (if kept then raw else raw ++ out_paths o) st0) as ->; [|done].
    rewrite drop_drop. apply store_eq; [|done]. intros p. rewrite !lookup_drop.
    assert (p ∈ filter (λ p, orphaned valid (drop_dirs raw st0) p = true) paths ↔ kept = false ∧ p ∈ out_paths o) as Ho.
    { rewrite list_elem_of_filter. split.
      - intros [Hor [Hp Hl]%Hin]. destruct (finished_dirs p Hp Hl) as [Hc [[_ E]|[Ho (m & E & Hg)]]]; unfold orphaned in Hor; rewrite Hc, E in Hor; [done|].
        rewrite Hg in Hor. split; [|done]. subst kept. apply bool_decide_eq_false. by apply bool_decide_eq_true in Hor.
      - intros [Hk Hp]. destruct (written_outs _ _ _ Hw p Hp) as [(j & _ & Hj%output_made) (rows & m & E & Hg)].
        assert (dirs (drop_dirs raw st0) !! p = dirs st0 !! p) as Ed by (rewrite lookup_drop, bool_decide_eq_false_2; [done|by apply output_not_raw]).
        split; [|apply Hin; split; [rewrite Ed, E; by eexists|by eapply made_listed]].
        unfold orphaned, dir_at. rewrite Ed, E, (made_compacted _ _ Hj). cbn. rewrite Hg. subst kept. apply bool_decide_eq_false in Hk. by rewrite bool_decide_eq_true_2. }
    erewrite bool_decide_ext; [done|]. rewrite elem_of_app, Ho. destruct kept; [|rewrite elem_of_app]; naive_solver.
Qed.

End finishing.

Lemma wp_run_committed raw o n' opts st : is_raw raw → Committed raw o st →
  wp (CompactRange n' (Some f) (Some t) opts) (λ _, True) (λ _ st', ∃ st0, Written o (raw ≫= rows_at B) st0 ∧ st' = drop_dirs raw st0) st.
Proof using Hbase Hn Hu.
  intros Hraw (gone & st0 & mk & _ & Hgone & Hw & Hsrc & Hout & ->). pose proof (base_range Hbase) as [Hf _].
  cbn [CompactRange]. rewrite bool_decide_eq_false_2 by lia. apply wp_seq.
  eapply wp_mono; [by apply (wp_finish_marker raw o st0 Hraw Hw gone mk)|done|]. intros valid st' [-> ->].
  apply (wp_finished_run raw o st0 Hraw Hw). intros res. rewrite bool_decide_eq_true_2 by by apply elem_of_singleton. by exists st0.
Qed.

Lemma wp_run_settled raw o n' opts st0 : is_raw raw → Written o (raw ≫= rows_at B) st0 →
  wp (CompactRange n' (Some f) (Some t) opts) (λ _, True) (λ _ st', st' = drop_dirs (raw ++ out_paths o) st0) (drop_dirs raw st0).
Proof using Hbase Hn Hu.
  intros Hraw Hw. pose proof (base_range Hbase) as [Hf _]. cbn [CompactRange]. rewrite bool_decide_eq_false_2 by lia. apply wp_seq.
  unfold cleanupCompactionMarkers. apply wp_seq, wp_look. cbn [runs drop_dirs]. rewrite (written_runs _ _ _ Hw), dom_empty_L, elements_empty.
  change (sort_Strings []) with (@nil string). apply wp_ret, (wp_finished_run raw o st0 Hraw Hw). intros res.
  by rewrite bool_decide_eq_false_2 by apply not_elem_of_empty.
Qed.

End writing.
End range.
