(* ===== verification/CompactionSafety.v ===== *)
(** * Interrupted and repeated compaction

    The theorems on whole runs: any number of interrupted runs over a range
    and the one that completes them keep every record exactly once, and two
    further complete runs delete what was compacted. *)

From stdpp Require Import options.
From S2P Require Import Prelude GoStrings GoUnicode GoFmt GoSort GoRange GoPath GoTime LogEngine ChunkStore Compaction ChunkStoreProps CompactionProps.

Section safety.
Context {T : Type} `{Telemetry T}.
Implicit Type st : chunk_store T.
Context (f t : Z) (opts : CompactionOptions).

Abbreviation compact n := (CompactRange n (Some f) (Some t) opts).

(** A store on which the range can be compacted by runs started at the times
    [ns]: its chunks are in the partitioned layout, those of the range are
    complete, raw and within the range, every marker is torn or of a run that
    is finished, and no name has one of the times. *)
Record compactable (ns : list Z) st : Prop := {
  able_base : base (dirs st) f t;
  able_markers g x : runs st !! g = Some x → ∃ n, 0 ≤ n ∧ g = itoa n ∧ (x = Torn ∨ ∃ mk, x = Whole mk ∧ settled (dirs st) mk);
  able_torn : no_torn st;
  able_times : NoDup ns ∧ Forall (λ n, 0 ≤ n) ns;
  able_unused p : made f t ns p → dirs st !! p = None;
  able_fresh n : n ∈ ns → runs st !! itoa n = None }.

(** A run that may be stopped. *)
Definition attempt st (try : Z * supply) : chunk_store T := final (compact try.1 st try.2).


Section runs.
Context (st0 : chunk_store T) (all : list Z) (Hable : compactable all st0).
Abbreviation old := (λ n, is_Some (runs st0 !! itoa n)).
Abbreviation ready := (Ready (dirs st0) f t old).

Lemma unused_all ns : ns ⊆ all → unused (dirs st0) f t old ns.
Proof using Hable.
  intros Hns. split.
  - intros p Hp. apply (able_unused _ _ Hable). by eapply made_mono.
  - intros n Hn. rewrite (able_fresh _ _ Hable) by by apply Hns. by intros [].
Qed.

Lemma ready_start : ready [] st0.
Proof using Hable.
  split; [by left|by intros p m (? & ? & ? & ? & ? & ?%not_elem_of_nil & _)|].
  intros g x Hg. destruct (able_markers _ _ Hable g x Hg) as (n & Hn & -> & Hx). exists n. split_and!; [done..|].
  destruct Hx as [?|(mk & -> & Hs)]; [by left|right]. exists mk. split_and!; [done| |done]. by rewrite Hg.
Qed.






End runs.


Lemma is_raw_unique B raw raw' : is_raw B f t raw → is_raw B f t raw' → raw ≡ₚ raw'.
Proof. intros [Hn1 H1] [Hn2 H2]. apply NoDup_Permutation; [done..|]. intros p. by rewrite H1, H2. Qed.

(** The third compaction of a range deletes what the first compacted.
    From every store as above with at least two chunks and a record in the
    range, three complete runs, started at whatever times, leave exactly the
    records outside the range; after the second all are still there. *)
Theorem third_compaction_deletes st0 n1 n2 n3
    (st1 := attempt st0 (n1, unlimited)) (st2 := attempt st1 (n2, unlimited)) (st3 := attempt st2 (n3, unlimited))
    (range := ListChunkPaths st0 (Some f) (Some t)) :
  compactable [n1] st0 → (2 ≤ length range)%nat → (range ≫= rows_at (dirs st0)) ≠ [] →
  records_of (dirs st2) ≡ₚ records_of (dirs st0) ∧ records_of (dirs st3) ≡ₚ records_of (filter (λ qd, qd.1 ∉ range) (dirs st0)).
Proof.
  intros Hable Hlen Hrec. pose proof (able_base _ _ Hable) as Hb. pose proof (unused_all st0 _ Hable [n1] ltac:(done)) as Hu.
  assert (0 ≤ n1) as Hp by (destruct (able_times _ _ Hable) as [_ [? _]%Forall_cons]; done).
  assert (is_raw (dirs st0) f t range) as Hrange.
  { destruct (elem_ListChunkPaths st0 (Some f) (Some t)) as [? ?]; [apply (base_hive _ _ _ Hb)|]. by split. }
  destruct (wp_unlimited (compact n1) (λ _, True) _ st0 unlimited (wp_run_ready (dirs st0) f t Hb _ [] n1 Hp (not_elem_of_nil _) Hu (λ _, True) ltac:(done)
    opts st0 ltac:(done) (ready_start st0 _ Hable) (able_torn _ _ Hable)) eq_refl) as (st1' & s1 & r1 & E1 & raw & Hraw & Hst1).
  assert (st1 = st1') as <- by (unfold st1, attempt; cbn [fst snd]; by rewrite E1).
  pose proof (is_raw_unique _ _ _ Hraw Hrange) as Hperm. destruct Hst1 as [(k & _ & [Hl|Hnil])|(o & Hc)].
  - rewrite Hperm in Hl. lia.
  - exfalso. apply Hrec. symmetry. apply Permutation_nil_l. by rewrite <- Hnil, Hperm.
  - apply compacted_committed in Hc; [|done].
    destruct (wp_unlimited (compact n2) _ _ st1 unlimited (wp_run_committed (dirs st0) f t Hb _ [] n1 Hp Hu raw o n2 opts st1 Hraw Hc) eq_refl)
      as (st2' & s2 & r2 & E2 & stw & Hw & Est2).
    assert (st2 = st2') as <- by (unfold st2, attempt; cbn [fst snd]; by rewrite E2). rewrite Est2.
    destruct (wp_unlimited (compact n3) _ _ st2 unlimited (eq_ind_r (wp _ _ _) (wp_run_settled (dirs st0) f t Hb _ [] n1 Hp Hu raw o n3 opts stw Hraw Hw) Est2) eq_refl)
      as (st3' & s3 & r3 & E3 & Est3).
    assert (st3 = st3') as <- by (unfold st3, attempt; cbn [fst snd]; by rewrite E3). rewrite Est3. split.
    + by eapply (records_dropped (dirs st0) f t _ [] n1).
    + rewrite (records_deleted (dirs st0) f t _ [] n1 Hp Hu raw o _ stw Hraw Hw). apply reflexive_eq. f_equal. apply map_filter_ext.
      intros p d _. cbn. by rewrite Hperm.
Qed.

End safety.

(** ** Examples *)

Lemma no_torn_check {T} `{Telemetry T} (st : chunk_store T) :
  forallb (λ pd, match manifest pd.2 with Some Torn => false | _ => true end) (map_to_list (dirs st)) = true → no_torn st.
Proof.
  intros Hc p E. rewrite forallb_forall in Hc. unfold dir_at in E. destruct (dirs st !! p) as [d|] eqn:Ed; [|done].
  apply elem_of_map_to_list in Ed. specialize (Hc (p, d)). rewrite <- list_elem_of_In in Hc. specialize (Hc Ed). cbn in *. by rewrite E in Hc.
Qed.

Definition demo_metric (i : Z) (name : string) : MetricRecord := mkMetric (1700000000000000000 + i) "api" name i ∅.
Definition demo_id (i j : Z) : string := "chunk-" +:+ dec (1700000000000000000 + i) +:+ "-" +:+ dec (1700000000000000000 + j).
Definition demo_from : Z := 1699999200000000000.
Definition demo_to : Z := 1700002800000000000.
Definition demo_time (i : Z) : Z := 1700010800000000000 + i.
Definition demo_options : CompactionOptions := mkCompactionOptions 0 0.

Definition demo_path (i j : Z) : path := hive_dir ("partition=" +:+ "_unpartitioned") 472222 ++ [demo_id i j].
Definition demo_dir (i j : Z) (r : MetricRecord) (rows : list MetricRecord) : chunk_dir MetricRecord :=
  mkDir (Some (Whole rows)) (Some (Whole (chunk_manifest (demo_id i j) r rows rows (mkWriteOptions [] 0 "")))).

(** Two chunks with three records of two metrics. *)
Definition demo_store : chunk_store MetricRecord :=
  mkChunks (<[demo_path 0 5 := demo_dir 0 5 (demo_metric 0 "load") [demo_metric 0 "load"; demo_metric 5 "up"]]>
             {[demo_path 7 7 := demo_dir 7 7 (demo_metric 7 "up") [demo_metric 7 "up"]]}) ∅.

Lemma demo_dirs p d : dirs demo_store !! p = Some d → isCompactedChunkPath p = false ∧
  (∃ part hour id, p = hive_dir ("partition=" +:+ part) hour ++ [id]) ∧
  ∃ rows m, d = mkDir (Some (Whole rows)) (Some (Whole m)) ∧ Forall (λ r, demo_from ≤ rec_time r ≤ demo_to) rows.
Proof.
  unfold demo_store. cbn [dirs]. intros [[<- <-]|[_ [<- <-]%lookup_singleton_Some]]%lookup_insert_Some;
    (split; [vm_compute; reflexivity|]; split; [by eexists _, _, _|]; eexists _, _; split; [reflexivity|];
     repeat (constructor; [vm_compute; split; discriminate|]); constructor).
Qed.

Lemma demo_compactable ns : NoDup ns → Forall (λ n, 0 ≤ n) ns → compactable demo_from demo_to ns demo_store.
Proof.
  intros Hnd Hpos. split.
  - split; [unfold demo_from, demo_to; lia| |].
    + intros p [d Hd]. exact (proj1 (proj2 (demo_dirs p d Hd))).
    + intros p [d Hd] _. destruct (demo_dirs p d Hd) as (Hc & _ & rows & m & E & Hr). split; [exact Hc|]. exists rows, m. rewrite <- E. exact (conj Hd Hr).
  - intros g x. change (runs demo_store !! g) with ((∅ : gmap string (stored compactionRunMarker)) !! g). rewrite lookup_empty. discriminate.
  - apply no_torn_check. vm_compute. reflexivity.
  - split; assumption.
  - intros p Hp%made_compacted. destruct (dirs demo_store !! p) as [d|] eqn:Hd; [|reflexivity]. destruct (demo_dirs p d Hd) as [Hc _]. rewrite Hp in Hc. discriminate Hc.
  - intros n _. exact (lookup_empty (itoa n)).
Qed.



Lemma third_compaction_deletes_witness :
  let st2 := attempt demo_from demo_to demo_options (attempt demo_from demo_to demo_options demo_store (demo_time 0, unlimited)) (demo_time 1, unlimited) in
  length (records_of (dirs demo_store)) = 3%nat ∧ records_of (dirs st2) ≡ₚ records_of (dirs demo_store) ∧
  records_of (dirs (attempt demo_from demo_to demo_options st2 (demo_time 2, unlimited))) ≡ₚ [].
Proof.
  destruct (third_compaction_deletes demo_from demo_to demo_options demo_store (demo_time 0) (demo_time 1) (demo_time 2)) as [H1 H2].
  - apply demo_compactable; [by apply (bool_decide_unpack _); vm_compute|by apply (bool_decide_unpack _); vm_compute].
  - vm_compute. repeat constructor.
  - vm_compute. discriminate.
  - split; [vm_compute; reflexivity|]. split; [exact H1|]. etransitivity; [exact H2|]. apply reflexive_eq. vm_compute. reflexivity.
Defined.

(** The background loop does it within two ticks: the run over the next
    window removes the marker, and the next tick deletes the outputs. *)
Theorem second_tick_deletes :
  let tick i st := final (compactRecent SignalMetrics 3600000000000 (demo_time i) st unlimited) in
  let st1 := tick 0 demo_store in let st2 := tick 600000000000 st1 in
  length (records_of (dirs st1)) = 3%nat ∧ bool_decide (runs st1 = ∅) = true ∧ length (records_of (dirs st2)) = O.
Proof. vm_compute. repeat constructor. Qed.

(** A manifest that is cut off while it is written makes every later run over
    the range fail. *)
Theorem torn_manifest_blocks_runs :
  let st := attempt demo_from demo_to demo_options demo_store (demo_time 0, mkSupply (Some 1%nat) true) in
  match CompactRange (demo_time 1) (Some demo_from) (Some demo_to) demo_options st unlimited with
  | Failed _ _ e => e = Undecodable
  | _ => False
  end.
Proof. vm_compute. reflexivity. Qed.

(** When retention has deleted an output before the marker is cleaned up, the
    run counts as incomplete and its other outputs are deleted as well,
    although the sources are gone. *)
Theorem expired_output_rolls_back :
  let st1 := attempt demo_from demo_to demo_options demo_store (demo_time 0, unlimited) in
  let st2 := final (DeleteBefore (Some (1700000000000000002)) st1 unlimited) in
  let st3 := attempt demo_from demo_to demo_options st2 (demo_time 1, unlimited) in
  length (records_of (dirs st1)) = 3%nat ∧ length (records_of (dirs st2)) = 2%nat ∧ length (records_of (dirs st3)) = O.
Proof. vm_compute. repeat constructor. Qed.
