(* ===== verification/CompactionBounds.v ===== *)
(** * The size of compacted chunks

    Whatever a run of the compactor finds and wherever it is stopped, the
    data files it writes have at most the configured number of rows, and all
    rows of a file are of one hour. *)

From stdpp Require Import options.
From S2P Require Import Prelude GoStrings GoUnicode GoFmt GoSort GoRange GoPath GoTime LogEngine ChunkStore Compaction ChunkStoreProps CompactionProps CompactionSafety.

Section bounds.
Context {T : Type} `{Telemetry T}.
Implicit Type st : chunk_store T.

(** ** Invariants of a run that may also fail *)

Definition keeps {A} (J : chunk_store T → Prop) (m : run A) (Q : A → Prop) : Prop :=
  ∀ st s, J st → match m st s with Stopped st' => J st' | Failed st' _ _ => J st' | Done st' _ a => J st' ∧ Q a end.

Section rules.
Context (J : chunk_store T → Prop).

Lemma keeps_ret {A} (a : A) (Q : A → Prop) : Q a → keeps J (rret a) Q.
Proof. by intros HQ st s HJ. Qed.
Lemma keeps_fail {A} e (Q : A → Prop) : keeps J (rfail e) Q.
Proof. by intros st s HJ. Qed.
Lemma keeps_look : keeps J rlook J.
Proof. by intros st s HJ. Qed.
Lemma keeps_seq {A B} (m : run A) (k : A → run B) Q R : keeps J m Q → (∀ a, Q a → keeps J (k a) R) → keeps J (rseq m k) R.
Proof.
  intros Hm Hk st s HJ. specialize (Hm st s HJ). unfold rseq. destruct (m st s) as [| |st' s' a]; [done..|].
  destruct Hm as [HJ' Ha]. exact (Hk a Ha st' s' HJ').
Qed.
Lemma keeps_mutate f torn : (∀ st, J st → J (f st) ∧ J (torn st)) → keeps J (mutate f torn) (λ _, True).
Proof. intros Hf st s HJ. unfold mutate. destruct (Hf st HJ). destruct (remaining s) as [[|n]|]; [destruct (tears s)|..]; done. Qed.
Lemma keeps_weaken {A} (m : run A) (Q R : A → Prop) : keeps J m Q → (∀ a, Q a → R a) → keeps J m R.
Proof. intros Hm HQ st s HJ. specialize (Hm st s HJ). destruct (m st s); naive_solver. Qed.

Context (Hdel : ∀ st p, J st → J (mkChunks (filter (λ qd, ¬ p `prefix_of` qd.1) (dirs st)) (runs st))).
Context (Hruns : ∀ st r, J st → J (mkChunks (dirs st) r)).

Lemma keeps_Delete p : keeps J (Delete p) (λ _, True).
Proof using Hdel. apply keeps_mutate. intros st HJ. split; [by apply Hdel|done]. Qed.
Lemma keeps_delete_marker g : keeps J (delete_marker g) (λ _, True).
Proof using Hruns. apply keeps_mutate. intros st HJ. split; [by apply Hruns|done]. Qed.
Lemma keeps_write_marker g m : keeps J (write_marker g m) (λ _, True).
Proof using Hruns. apply keeps_mutate. intros st HJ. split; by apply Hruns. Qed.

Lemma keeps_delete_all l : keeps J (delete_all l) (λ _, True).
Proof using Hdel. induction l as [|p l IH]; [by apply keeps_ret|]. eapply keeps_seq; [apply keeps_Delete|]. by intros. Qed.
Lemma keeps_delete_present l : keeps J (delete_present l) (λ _, True).
Proof using Hdel.
  induction l as [|p l IH]; [by apply keeps_ret|]. eapply keeps_seq; [apply keeps_look|]. intros st _.
  destruct (ReadManifest st p) as [m|[]]; [|done|apply keeps_fail..]. eapply keeps_seq; [apply keeps_Delete|]. by intros.
Qed.

Lemma keeps_cleanup : keeps J cleanupCompactionMarkers (λ _, True).
Proof using Hdel Hruns.
  eapply keeps_seq; [apply keeps_look|]. intros st _. generalize (∅ : gset string). generalize (sort_Strings (elements (dom (runs st)))).
  intros groups. induction groups as [|g groups IH]; intros valid; [by apply keeps_ret|]. eapply (keeps_seq _ _ (λ _, True)); [|intros v _; apply IH].
  unfold cleanup_marker. case_bool_decide; [by apply keeps_ret|]. eapply keeps_seq; [apply keeps_look|]. intros st' _.
  assert (∀ v : gset string, keeps J (rseq (delete_marker (TrimSpace g)) (λ _, rret v)) (λ _, True)) as Hm
    by (intros v; eapply keeps_seq; [apply keeps_delete_marker|intros; by apply keeps_ret]).
  destruct (runs st' !! TrimSpace g) as [[mk|]|]; [|apply Hm|by apply keeps_ret].
  destruct (outputs_complete st' (mk_Outputs mk)) as [[]|]; [| |apply keeps_fail].
  - eapply keeps_seq; [apply keeps_delete_present|]. intros _ _. apply Hm.
  - eapply keeps_seq; [apply keeps_delete_all|]. intros _ _. apply Hm.
Qed.

Lemma keeps_classify valid paths c : keeps J (classify valid paths c) (λ _, True).
Proof using Hdel.
  revert c. induction paths as [|p paths IH]; intros c; cbn [classify]; [by apply keeps_ret|]. destruct (isCompactedChunkPath p); cbn [negb]; [|apply IH].
  eapply keeps_seq; [apply keeps_look|]. intros st _. destruct (ReadManifest st p) as [m|[]]; [|apply IH|apply keeps_fail..].
  case_bool_decide; [apply IH|]. case_bool_decide; [apply IH|]. eapply keeps_seq; [apply keeps_Delete|]. intros. apply IH.
Qed.

End rules.

(** ** The data files *)

Definition data_at st (p : path) : option (stored (list T)) := data (dir_at st p).

Section files.
Context (limit : Z) (Hlimit : 0 < limit) (st0 : chunk_store T).

Definition one_hour (rows : list T) : Prop := ∃ hour, Forall (λ r, hour_of (rec_time r) = hour) rows.
Definition bounded (rows : list T) : Prop := Z.of_nat (length rows) ≤ limit ∧ one_hour rows.
(** Every data file is one of the start, or bounded. *)
Definition small st : Prop :=
  ∀ p rows, data_at st p = Some (Whole rows) → data_at st0 p = Some (Whole rows) ∨ bounded rows.

Lemma small_delete st p : small st → small (mkChunks (filter (λ qd, ¬ p `prefix_of` qd.1) (dirs st)) (runs st)).
Proof.
  intros HJ q rows. unfold data_at, dir_at. cbn. destruct (filter _ (dirs st) !! q) as [d|] eqn:E; [|done].
  apply map_lookup_filter_Some in E as [E _]. intros Hd. apply HJ. unfold data_at, dir_at. by rewrite E.
Qed.
Lemma small_runs st r : small st → small (mkChunks (dirs st) r).
Proof. done. Qed.
Lemma small_set st p d : small st → (∀ rows, data d = Some (Whole rows) → data_at st p = Some (Whole rows) ∨ bounded rows) → small (set_dir p d st).
Proof.
  intros HJ Hd q rows. unfold data_at, dir_at. cbn. destruct (decide (p = q)) as [<-|Hne].
  - rewrite lookup_insert_eq. cbn. intros [E|?]%Hd; [by apply HJ|by right].
  - rewrite lookup_insert_ne by done. apply HJ.
Qed.

Lemma keeps_FlushChunk id r rs opts : bounded (r :: rs) → keeps small (FlushChunkWithOptions id (r :: rs) opts) (λ _, True).
Proof.
  intros [Hl [hour Hh]]. destruct (validChunkID id) eqn:E; [|unfold FlushChunkWithOptions; rewrite E; apply keeps_fail].
  destruct (flush_records_spec id r rs opts E) as (rows & m & p & part & -> & Hp & _). eapply keeps_seq.
  - apply keeps_mutate. intros st HJ. split; (apply small_set; [done|]); cbn; intros rows'; [|done]. intros [= <-]. right.
    split; [by rewrite Hp|exists hour; by rewrite Hp].
  - intros _ _. eapply keeps_seq; [|intros; by apply keeps_ret]. apply keeps_mutate. intros st HJ.
    split; (apply small_set; [done|]); cbn; intros rows' Hd; by left.
Qed.

Lemma keeps_write_runs g sources batches o : Forall (λ b : T * list T, bounded (b.1 :: b.2)) batches → keeps small (write_runs g sources batches o) (λ _, True).
Proof.
  intros Hb. revert o. induction Hb as [|[r rs] batches Hr Hb IH]; intros o; cbn [write_runs]; [by apply keeps_ret|].
  eapply keeps_seq; [by apply keeps_FlushChunk|]. intros p _. apply IH.
Qed.

Lemma run_end_le grouped (first : T) n l : (run_end grouped first n l ≤ n)%nat.
Proof. revert l. induction n as [|n IH]; intros [|r l]; cbn [run_end]; [lia..|]. destruct (_ || _); [|lia]. specialize (IH l). lia. Qed.

Lemma cut_runs_bounded fuel grouped (records : list T) : one_hour records →
  Forall (λ b : T * list T, bounded (b.1 :: b.2)) (cut_runs fuel grouped (Z.to_nat limit) records).
Proof using Hlimit.
  intros [hour Hh]. revert records Hh. induction fuel as [|fuel IH]; intros [|r rest] Hh; cbn [cut_runs]; [constructor..|].
  apply Forall_cons in Hh as [Hr Hh]. constructor; [|apply IH; by apply Forall_drop]. cbn [fst snd]. split.
  - cbn [length]. rewrite length_take. pose proof (run_end_le grouped r (Z.to_nat limit - 1) rest). lia.
  - exists hour. constructor; [done|by apply Forall_take].
Qed.

Lemma keeps_write_compacted g sources records o : one_hour records → keeps small (write_compacted g sources limit records o) (λ _, True).
Proof using Hlimit.
  intros [hour Hh]. unfold write_compacted. rewrite (bool_decide_eq_false_2 (limit ≤ 0)) by lia. apply keeps_write_runs, cut_runs_bounded.
  exists hour. by rewrite sort_records_perm.
Qed.

(** The accumulated records are of the hour of the accumulator. *)
Definition accumulates (a : compactAccumulator (T:=T)) : Prop :=
  match acc_span a with
  | Some (_, _, hour) => acc_records a ≠ [] ∧ Forall (λ r, hour_of (rec_time r) = hour) (acc_records a)
  | None => acc_records a = []
  end.

Context (opts : CompactionOptions) (sources : list path) (g : string).
Abbreviation flush := (write_compacted g sources limit).

Lemma keeps_Flush a o : accumulates a → keeps small (Flush flush a o) (λ ao, accumulates ao.1 ∧ acc_span ao.1 = None).
Proof using Hlimit.
  intros Ha. unfold Flush, accumulates in *. case_bool_decide as E; [|eapply keeps_seq; [apply keeps_write_compacted|intros; by apply keeps_ret]].
  - apply keeps_ret. cbn. destruct (acc_span a) as [[[??]?]|]; [by destruct Ha|done].
  - destruct (acc_span a) as [[[??] hour]|]; [by exists hour; apply Ha|by exists 0; rewrite Ha].
Qed.

Lemma keeps_Add r ao : accumulates ao.1 → keeps small (Add opts flush r ao) (λ ao, accumulates ao.1).
Proof using Hlimit.
  intros Ha. unfold Add. eapply (keeps_seq _ _ _ (λ ao', accumulates ao'.1 ∧ ∀ lo hi b, acc_span ao'.1 = Some (lo, hi, b) → b = hour_of (rec_time r))).
  - destruct (acc_span ao.1) as [[[lo hi] b]|] eqn:E; [case_bool_decide as Eb|].
    + eapply keeps_weaken; [by apply keeps_Flush|]. intros ao' [? ->]. done.
    + apply keeps_ret. split; [done|]. rewrite E. intros ??? [= <- <- <-]. by destruct (decide (b = hour_of (rec_time r))).
    + apply keeps_ret. split; [done|]. by rewrite E.
  - intros [a o] [Ha' Hb]. cbn in Ha', Hb |- *. destruct (default _ (acc_span a)) as [[lo hi] b] eqn:E. set (a' := mkAcc _ _ _).
    assert (accumulates a') as Ha2.
    { unfold accumulates in *. cbn. split; [by destruct (acc_records a)|]. apply Forall_app. destruct (acc_span a) as [[[??]?]|]; cbn in E; injection E as <- <- <-.
      - split; [apply Ha'|constructor; [symmetry; by eapply Hb|done]].
      - rewrite Ha'. split; [done|by constructor]. }
    case_bool_decide; [|by apply keeps_ret]. eapply keeps_weaken; [by apply keeps_Flush|]. by intros ao' [? _].
Qed.

Lemma keeps_add_records rows ao : accumulates ao.1 → keeps small (add_records opts flush rows ao) (λ ao, accumulates ao.1).
Proof using Hlimit.
  revert ao. induction rows as [|r rows IH]; intros ao Ha; cbn [add_records]; [by apply keeps_ret|]. eapply keeps_seq; [by apply keeps_Add|]. apply IH.
Qed.

Lemma keeps_read_sources raw n ao : accumulates ao.1 → keeps small (read_sources opts flush raw n ao) (λ r, accumulates r.2.1).
Proof using Hlimit.
  revert n ao. induction raw as [|p raw IH]; intros n ao Ha; cbn [read_sources]; [by apply keeps_ret|].
  eapply keeps_seq; [apply keeps_look|]. intros st _. destruct (scan st p) as [rows|[]]; [|by apply IH|apply keeps_fail..].
  eapply keeps_seq; [by apply keeps_add_records|]. intros ao' Ha'. by apply IH.
Qed.

End files.

(** C40: No data file that a run writes has more rows than the limit of the
    options, or the default where they have none, nor rows of two hours,
    whatever the store holds and wherever the run is stopped or fails. *)
Theorem compacted_files_bounded now from to opts st s p rows
    (limit := if bool_decide (MaxRecords opts ≤ 0) then 1000000 else MaxRecords opts) :
  data_at (final (CompactRange now from to opts st s)) p = Some (Whole rows) → data_at st p ≠ Some (Whole rows) →
  Z.of_nat (length rows) ≤ limit ∧ one_hour rows.
Proof.
  intros Hp Hnew. assert (0 < limit) as Hlimit by (subst limit; case_bool_decide; lia).
  assert (keeps (small limit st) (CompactRange now from to opts) (λ _, True)) as Hk.
  { destruct from as [f|], to as [t|]; [cbn [CompactRange]|apply keeps_fail..]. case_bool_decide; [apply keeps_fail|]. cbn [MaxRecords].
    eapply keeps_seq; [apply keeps_cleanup; [apply small_delete|apply small_runs]|]. intros valid _.
    eapply keeps_seq; [apply keeps_look|]. intros st' _. eapply keeps_seq; [apply keeps_classify, small_delete|]. intros c _.
    destruct (_ && _); [by apply keeps_ret|]. case_bool_decide; [by apply keeps_ret|]. unfold rewrite_sources. fold limit.
    eapply keeps_seq; [by apply (keeps_read_sources limit Hlimit)|]. intros [n [a o]] Ha. cbn in Ha.
    eapply keeps_seq; [by apply (keeps_Flush limit Hlimit)|]. intros [a' o'] _. case_bool_decide; [by apply keeps_ret|].
    eapply keeps_seq; [apply keeps_write_marker, small_runs|]. intros _ _. eapply keeps_seq; [apply keeps_delete_all, small_delete|].
    intros. by apply keeps_ret. }
  specialize (Hk st s (λ _ _ Hq, or_introl Hq)).
  assert (small limit st (final (CompactRange now from to opts st s))) as Hs by (destruct (CompactRange now from to opts st s); naive_solver).
  destruct (Hs p rows Hp) as [?|[? ?]]; done.
Qed.

End bounds.

(** With a limit of one row, the three records are written to three files. *)
Lemma compacted_files_bounded_witness :
  let p := hive_dir "partition=_unpartitioned" 472222 ++ [compacted_id 1700000000000000005 1700000000000000005 (itoa (demo_time 0)) 1] in
  Z.of_nat (length [demo_metric 5 "up"]) ≤ 1 ∧ one_hour [demo_metric 5 "up"] ∧
  data_at (final (CompactRange (demo_time 0) (Some demo_from) (Some demo_to) (mkCompactionOptions 1 0) demo_store unlimited)) p = Some (Whole [demo_metric 5 "up"]).
Proof.
  cbv zeta. set (p := hive_dir _ _ ++ _).
  assert (data_at (final (CompactRange (demo_time 0) (Some demo_from) (Some demo_to) (mkCompactionOptions 1 0) demo_store unlimited)) p =
    Some (Whole [demo_metric 5 "up"])) as Hp by (vm_compute; reflexivity).
  destruct (compacted_files_bounded (demo_time 0) (Some demo_from) (Some demo_to) (mkCompactionOptions 1 0) demo_store unlimited p [demo_metric 5 "up"] Hp)
    as [H1 H2]; [vm_compute; discriminate|]. exact (conj H1 (conj H2 Hp)).
Defined.
