(* ===== verification/LogStore.v ===== *)
(** * The store that log queries read

    The [CachedStore] of the query engine over the objects of ChunkStore.v: its
    listing is [ChunkStore.ListChunkPaths], its manifests, row groups and text
    index are those that [flushLogs] writes (ingester.go, parquet_batched.go).
    The engine names a chunk by its path below [chunks/logs].  The theorems
    compare the batches that were ingested, one chunk each, with what a query
    over the resulting store returns: every record of every batch that the
    query and the time range want. *)

From stdpp Require Import options.
From S2P Require Import Prelude GoStrings GoUnicode GoFmt GoSort GoRange GoPath LogQuery LogEngine LogEngineProps LogEngineExact GoTime ChunkStore ChunkStoreProps CompactionProps.

(** The terms the analyzer of Bluge finds in a text. *)
Class Analyzer := analyze : string → list string.

(** [writeLogParquetBatched] closes a row group every [size] rows, and the last
    one at the end; every round takes a row, so that their number is fuel
    enough. *)
Fixpoint row_groups {A} (fuel size : nat) (rows : list A) : list (list A) :=
  match fuel, rows with
  | S fuel, _ :: _ => take size rows :: row_groups fuel size (drop size rows)
  | _, _ => []
  end.
Definition defaultParquetRowGroupRows : nat := Z.to_nat 256000.
Definition parquetRowGroupRows (rowGroupRows : Z) : nat :=
  if bool_decide (0 < rowGroupRows) then Z.to_nat rowGroupRows else defaultParquetRowGroupRows.
Definition writeLogParquetBatched (rowGroupRows : Z) (logs : list LogRecord) : list (list LogRecord) :=
  row_groups (length logs) (parquetRowGroupRows rowGroupRows) logs.

Section store.
Context `{GoRange, Analyzer}.

(** A match query finds the documents that have one of its terms; the queries
    of several filters must all match. *)
Definition match_query (filter message : string) : bool := existsb (λ term, bool_decide (term ∈ analyze message)) (analyze filter).
Definition buildBlugeLineFilterQuery (filters : list string) (message : string) : bool :=
  match filters with
  | [filter] => match_query filter message
  | _ => forallb (λ filter, match_query filter message) filters
  end.
(** The row numbers stored with the matching documents: the index has one
    document for each row. *)
Definition indexed_rows (filters : list string) (rows : list LogRecord) : gset nat :=
  list_to_set (omap (λ ir, if buildBlugeLineFilterQuery filters (RawMessage ir.2) then Some ir.1 else None) (imap pair rows)).

Definition chunk_error_of (e : chunk_error) : store_error := match e with GhostChunk => ErrGhostChunk | _ => StoreFailed end.
(** Reading a chunk by its name. *)
Definition lift {A} (r : result chunk_error A) : result store_error A := match r with Ok a => Ok a | Err e => Err (chunk_error_of e) end.

Definition log_store (rowGroupRows : Z) (objects : chunk_store LogRecord) : CachedStore :=
  {| LogEngine.ListChunkPaths from to := Ok (path_string <$> ListChunkPaths objects from to);
     LogEngine.ReadManifest id :=
       let! m := lift (ReadManifest objects (Split id slash)) in
       match mf_Dictionary m with Some manifest => Ok manifest | None => Err StoreFailed end;
     SearchIndex id filters := let! rows := lift (scan objects (Split id slash)) in Ok (Some (indexed_rows filters rows));
     ReadRowGroups id := let! rows := lift (scan objects (Split id slash)) in Ok (writeLogParquetBatched rowGroupRows rows) |}.

(** [IngestLogs] for each batch in turn, without a failing write. *)
Definition IngestLogs (objects : chunk_store LogRecord) (batch : string * list LogRecord) : chunk_store LogRecord :=
  final (FlushChunk batch.1 batch.2 objects unlimited).
Definition ingested (batches : list (string * list LogRecord)) : chunk_store LogRecord := foldl IngestLogs (mkChunks ∅ ∅) batches.

End store.

(** ** Names of chunks *)

Lemma row_groups_concat {A} fuel size (rows : list A) : (0 < size)%nat → (length rows ≤ fuel)%nat → concat (row_groups fuel size rows) = rows.
Proof.
  intros Hs. revert rows. induction fuel as [|fuel IH]; intros [|r rows] Hl; cbn [length] in Hl; [done|lia|done|]. cbn [row_groups concat].
  rewrite IH; [apply take_drop|]. rewrite length_drop. cbn [length]. lia.
Qed.

Lemma written_groups_concat n logs : concat (writeLogParquetBatched n logs) = logs.
Proof.
  apply row_groups_concat; [|done]. unfold parquetRowGroupRows. case_bool_decide; [lia|]. unfold defaultParquetRowGroupRows. lia.
Qed.

Lemma digits_pad w n : Forall is_digit (bytes_of_string (dec_pad w n)).
Proof.
  unfold dec_pad. rewrite bytes_of_app. apply Forall_app. split; [|apply dec_digits].
  generalize (w - String.length (dec n))%nat. intros k. induction k; [constructor|]. constructor; [|done]. unfold is_digit. vm_compute. split; congruence.
Qed.

Lemma dec_pad_slash w n : has_byte slash (dec_pad w n) = false.
Proof. apply digits_no_byte; [apply digits_pad|not_digit]. Qed.

Lemma partition_rune_slash r : partition_rune r ≠ slash.
Proof.
  unfold partition_rune. case_bool_decide as Hr; [|done]. intros E. apply (f_equal Z_of_byte) in E. rewrite Z_of_byte_of_Z in E.
  change (Z_of_byte slash) with 47 in E. rewrite Z.mod_small in E by lia. lia.
Qed.

Lemma drop_edge_sub bs b : b ∈ drop_edge bs → b ∈ bs.
Proof. induction bs as [|a bs IH]; [done|]. cbn [drop_edge]. case_bool_decide; [|done]. intros Hb. right. by apply IH. Qed.

Lemma partitionDir_slash s : has_byte slash (partitionDir s) = false.
Proof.
  unfold partitionDir. case_bool_decide; [done|]. case_bool_decide; [done|]. rewrite has_byte_app. apply orb_false_iff. split; [done|].
  apply not_true_iff_false. rewrite has_byte_elem, bytes_of_string_of_bytes. rewrite <- Permutation_rev. intros Hb%drop_edge_sub.
  rewrite <- Permutation_rev in Hb. apply drop_edge_sub in Hb. apply list_elem_of_fmap in Hb as (r & E & _). by eapply partition_rune_slash.
Qed.

Lemma hive_slash partition hour id : has_byte slash partition = false → has_byte slash id = false →
  Forall (λ e, has_byte slash e = false) (hive_dir partition hour ++ [id]).
Proof.
  intros Hp Hi. unfold hive_dir, format_date, format_hour. destruct (civil _) as [[y m] d].
  repeat constructor; [done|..|done]; rewrite ?has_byte_app, ?dec_pad_slash; done.
Qed.

(** ** What ingestion leaves *)

Section ingestion.
Context `{GoRange, Analyzer}.

(** Where the chunk of a batch is. *)
Definition chunk_path (id : string) (batch : list LogRecord) : path :=
  match sort_records batch with
  | [] => []
  | (r0 :: _) as rows => relativeChunkPath id (min_time r0 rows) (chunkPartition (collect_partitions rows))
  end.
Definition flushed_dir (id : string) (batch : list LogRecord) : chunk_dir LogRecord :=
  match sort_records batch with
  | [] => mkDir None None
  | (r0 :: _) as rows => mkDir (Some (Whole rows)) (Some (Whole (chunk_manifest id r0 batch rows (mkWriteOptions [] 0 ""))))
  end.

Lemma sort_records_logs batch : sort_records batch = sortLogRecords batch.
Proof. done. Qed.

Lemma sort_records_cons (batch : list LogRecord) : batch ≠ [] → ∃ r0 rows, sort_records batch = r0 :: rows.
Proof.
  intros Hne. pose proof (sort_records_perm batch) as Hp. destruct (sort_records batch) as [|r0 rows]; [by apply Permutation_nil_l in Hp|eauto].
Qed.

Lemma IngestLogs_dirs st id batch : validChunkID id = true →
  dirs (IngestLogs st (id, batch)) = if bool_decide (batch = []) then dirs st else <[chunk_path id batch := flushed_dir id batch]> (dirs st).
Proof.
  intros Hv. unfold IngestLogs, FlushChunk, FlushChunkWithOptions, flush_records. cbn [fst snd]. rewrite Hv. cbn [negb]. case_bool_decide as Hb.
  - by subst batch.
  - unfold chunk_path, flushed_dir. destruct (sort_records_cons batch Hb) as (r0 & rows & ->). cbn. unfold dir_at. cbn.
    by rewrite lookup_insert_eq, insert_insert_eq.
Qed.

Lemma ingested_snoc batches id batch : ingested (batches ++ [(id, batch)]) = IngestLogs (ingested batches) (id, batch).
Proof. unfold ingested. by rewrite foldl_app. Qed.

(** The path of a chunk that is not empty. *)
Lemma chunk_path_form id batch : batch ≠ [] → ∃ part r0, r0 ∈ batch ∧
  chunk_path id batch = hive_dir ("partition=" +:+ part) (hour_of (min_time r0 batch)) ++ [id] ∧
  has_byte slash ("partition=" +:+ part) = false.
Proof.
  intros Hne. pose proof (sort_records_perm batch) as Hp. destruct (sort_records_cons batch Hne) as (r0 & rows & E). unfold chunk_path. rewrite E in *.
  destruct (partitionDir_form (chunkPartition (collect_partitions (r0 :: rows)))) as [part Hpart]. exists part, r0.
  split_and!; [rewrite <- Hp; by left| |rewrite <- Hpart; apply partitionDir_slash].
  unfold relativeChunkPath. rewrite Hpart. rewrite (min_time_perm r0 r0 (r0 :: rows) batch); [done|left|rewrite <- Hp; left|done].
Qed.

(** *** The chunks of the batches *)

(** Chunks with names of their own that listings recognize, whose bounds are
    those of their records; and a chunk with a record in a range of which the
    hours are listed one by one starts at most an hour before the hour in
    which the range does. *)
Record ingestible (from to : option Z) (batches : list (string * list LogRecord)) : Prop := {
  ing_ids : NoDup batches.*1;
  ing_names id batch : (id, batch) ∈ batches → validChunkID id = true ∧ looksLikeChunkID id = true;
  ing_bounds id batch r lo hi : (id, batch) ∈ batches → r ∈ batch →
    ParseChunkTimeRangeFromID (path_string (chunk_path id batch)) = Some (lo, hi) → lo ≤ Timestamp r ≤ hi;
  ing_hours id batch r r' f : bucketed from to = true → from = Some f → (id, batch) ∈ batches → r ∈ batch → r' ∈ batch →
    outside from to (Timestamp r) (Timestamp r) = false → hour_of f - 1 ≤ hour_of (Timestamp r') }.

Context (from to : option Z) (batches : list (string * list LogRecord)) (Hok : ingestible from to batches).

Definition chunk_of (ib : string * list LogRecord) : string * list LogRecord := (path_string (chunk_path ib.1 ib.2), ib.2).
Definition nonempty : list (string * list LogRecord) := filter (λ ib, ib.2 ≠ []) batches.
Definition ingested_chunks : gmap string (list LogRecord) := list_to_map (chunk_of <$> nonempty).

Lemma ingested_dirs l p d : (∀ id batch, (id, batch) ∈ l → validChunkID id = true) → NoDup l.*1 →
  dirs (ingested l) !! p = Some d ↔ ∃ id batch, (id, batch) ∈ l ∧ batch ≠ [] ∧ p = chunk_path id batch ∧ d = flushed_dir id batch.
Proof.
  intros Hv Hnd. induction l as [|[id batch] l IH] using rev_ind; [split; [done|by intros (? & ? & ?%not_elem_of_nil & _)]|].
  rewrite ingested_snoc, IngestLogs_dirs by (eapply Hv, elem_of_app; right; by left).
  rewrite fmap_app in Hnd. apply NoDup_app in Hnd as (Hnd & Hid & _).
  assert (∀ id' batch', (id', batch') ∈ l → validChunkID id' = true) as Hv' by (intros ?? Hin; eapply Hv, elem_of_app; by left).
  setoid_rewrite elem_of_app. setoid_rewrite list_elem_of_singleton. case_bool_decide as Hb.
  - rewrite IH by done. split; [intros (id' & batch' & ? & ?); exists id', batch'; auto|].
    intros (id' & batch' & [Hin|[= -> ->]] & Hne & ?); [by exists id', batch'|done].
  - rewrite lookup_insert_Some, IH by done. split.
    + intros [[<- <-]|[_ (id' & batch' & ? & ?)]]; [exists id, batch; auto|exists id', batch'; auto].
    + intros (id' & batch' & [Hin|[= -> ->]] & Hne & -> & ->); [|by left]. right. split; [|by eauto 10]. intros E.
      destruct (chunk_path_form id batch Hb) as (? & ? & _ & E1 & _), (chunk_path_form id' batch' Hne) as (? & ? & _ & E2 & _).
      rewrite E1, E2 in E. apply app_inj_tail in E as [_ ->]. apply (Hid id'); [|by left]. apply list_elem_of_fmap. by exists (id', batch').
Qed.

Lemma valid_no_slash id : validChunkID id = true → has_byte slash id = false.
Proof. unfold validChunkID. intros. by bool_hyps. Qed.

Lemma Split_chunk_path id batch : batch ≠ [] → validChunkID id = true → Split (path_string (chunk_path id batch)) slash = chunk_path id batch.
Proof.
  intros Hne Hv. destruct (chunk_path_form id batch Hne) as (part & r0 & _ & -> & Hp).
  apply (Split_Join (hive_dir ("partition=" +:+ part) (hour_of (min_time r0 batch)) ++ [id]) slash); [done|].
  by apply hive_slash, valid_no_slash.
Qed.

Lemma chunk_of_keys : NoDup (chunk_of <$> nonempty).*1.
Proof using Hok.
  rewrite <- list_fmap_compose. apply NoDup_fmap_2_strong.
  - intros [id b] [id' b'] [Hb Hin]%list_elem_of_filter [Hb' Hin']%list_elem_of_filter E. cbn in *.
    apply (f_equal (λ s, Split s slash)) in E. rewrite !Split_chunk_path in E by (done || by eapply ing_names).
    destruct (chunk_path_form id b Hb) as (? & ? & _ & E1 & _), (chunk_path_form id' b' Hb') as (? & ? & _ & E2 & _).
    rewrite E1, E2 in E. apply app_inj_tail in E as [_ <-]. pose proof (ing_ids _ _ _ Hok) as Hnd. 
    pose proof (elem_of_list_to_map_1 (M:=gmap string) _ _ _ Hnd Hin). pose proof (elem_of_list_to_map_1 (M:=gmap string) _ _ _ Hnd Hin'). congruence.
  - apply NoDup_filter. by eapply NoDup_fmap_1, ing_ids.
Qed.

Lemma ingested_chunks_Some p batch : ingested_chunks !! p = Some batch ↔
  ∃ id, (id, batch) ∈ batches ∧ batch ≠ [] ∧ p = path_string (chunk_path id batch).
Proof using Hok.
  unfold ingested_chunks. rewrite <- elem_of_list_to_map by apply chunk_of_keys. rewrite list_elem_of_fmap. unfold nonempty, chunk_of. split.
  - intros ([id b] & [= -> ->] & [Hb Hin]%list_elem_of_filter). eauto.
  - intros (id & Hin & Hb & ->). exists (id, batch). split; [done|]. by apply list_elem_of_filter.
Qed.

Lemma ingested_lookup p batch : ingested_chunks !! p = Some batch → ∃ id,
  (id, batch) ∈ batches ∧ batch ≠ [] ∧ Split p slash = chunk_path id batch ∧ p = path_string (chunk_path id batch) ∧
  dirs (ingested batches) !! chunk_path id batch = Some (flushed_dir id batch).
Proof using Hok.
  rewrite ingested_chunks_Some. intros (id & Hin & Hb & ->). exists id. split_and!; [done..| |done|].
  - by apply Split_chunk_path, (ing_names _ _ _ Hok _ _ Hin).
  - apply ingested_dirs; [intros; by eapply ing_names|apply (ing_ids _ _ _ Hok)|by exists id, batch].
Qed.

Lemma ingested_path p : is_Some (dirs (ingested batches) !! p) →
  ∃ id batch, (id, batch) ∈ batches ∧ batch ≠ [] ∧ p = chunk_path id batch ∧ Split (path_string p) slash = p.
Proof using Hok.
  intros [d (id & batch & Hin & Hb & -> & _)%ingested_dirs]; [|intros; by eapply ing_names|apply (ing_ids _ _ _ Hok)].
  exists id, batch. split_and!; [done..|]. by apply Split_chunk_path, (ing_names _ _ _ Hok _ _ Hin).
Qed.

Lemma ingested_hive : hive (ingested batches).
Proof using Hok.
  intros p (id & batch & _ & Hb & -> & _)%ingested_path. destruct (chunk_path_form id batch Hb) as (part & r0 & _ & -> & _). by eexists _, _, _.
Qed.

(** A chunk with a record in the range is listed. *)
Lemma ingested_listed id batch r : (id, batch) ∈ batches → r ∈ batch → outside from to (Timestamp r) (Timestamp r) = false →
  listed from to (chunk_path id batch).
Proof using Hok.
  intros Hin Hr Ho. assert (batch ≠ []) as Hb by (intros ->; by apply not_elem_of_nil in Hr).
  assert (chunkPathOverlaps (chunk_path id batch) from to = true) as Hov.
  { unfold chunkPathOverlaps. destruct (ParseChunkTimeRangeFromID _) as [[lo hi]|] eqn:E; [|done].
    pose proof (ing_bounds _ _ _ Hok id batch r lo hi Hin Hr E). by rewrite (outside_false from to lo hi (Timestamp r)). }
  destruct (chunk_path_form id batch Hb) as (part & r0 & Hr0 & E & _). exists ("partition=" +:+ part), (hour_of (min_time r0 batch)), id.
  split_and!; [done|by apply (ing_names _ _ _ Hok _ _ Hin)|done|]. intros Hbk.
  unfold min_time. destruct (min_time_spec r0 batch (rec_time r0)) as (H1 & H2 & H3). set (m := foldl _ _ batch) in *.
  assert (∃ r', r' ∈ batch ∧ m = Timestamp r') as (r' & Hr' & Em) by (destruct H3 as [?|(r' & ? & ?)]; eauto).
  unfold bucketed in Hbk. destruct from as [f|], to as [t|]; try done. cbn [bucket_hours]. apply elem_of_seqZ.
  pose proof (ing_hours _ _ _ Hok id batch r r' f Hbk eq_refl Hin Hr Hr' Ho). specialize (H2 r Hr). cbn in H2. unfold outside in Ho. bool_hyps.
  pose proof (hour_mono m t ltac:(lia)). rewrite Em in *. lia.
Qed.

Lemma flushed_dir_spec id batch : batch ≠ [] → ∃ m d, flushed_dir id batch = mkDir (Some (Whole (sortLogRecords batch))) (Some (Whole m)) ∧
  mf_Dictionary m = Some d ∧ flushLogs batch = Some (d, sortLogRecords batch).
Proof.
  intros Hb. unfold flushed_dir. destruct (sort_records_cons batch Hb) as (r0 & rows & E). rewrite E, <- sort_records_logs, E.
  eexists _, _. split_and!; [done|cbn|]; unfold LogEngine.flushLogs; rewrite <- sort_records_logs, E; done.
Qed.

Lemma ingested_holds n : holds (log_store n (ingested batches)) from to ingested_chunks.
Proof using Hok.
  split.
  - destruct (elem_ListChunkPaths (ingested batches) from to ingested_hive) as [Hnd Hel]. eexists. split_and!; [done| |].
    + apply NoDup_fmap_2_strong; [|done]. intros p q [Hp _]%Hel [Hq _]%Hel E.
      apply ingested_path in Hp as (_ & _ & _ & _ & _ & <-), Hq as (_ & _ & _ & _ & _ & <-). by rewrite E.
    + intros p batch r (id & Hin & Hb & _ & -> & Hd)%ingested_lookup Hr Ho. apply list_elem_of_fmap. exists (chunk_path id batch). split; [done|].
      apply Hel. split; [by eexists|]. by eapply ingested_listed.
  - intros p batch (id & Hin & Hb & Hs & _ & Hd)%ingested_lookup. destruct (flushed_dir_spec id batch Hb) as (m & d & Ed & Em & Ef).
    exists d, (sortLogRecords batch), (writeLogParquetBatched n (sortLogRecords batch)). split_and!; [done| | |apply written_groups_concat];
      cbn; unfold ChunkStore.ReadManifest, scan, dir_at; rewrite Hs, Hd, Ed; cbn; [by rewrite Em|done].
  - intros p Hp. cbn. unfold ChunkStore.ReadManifest, dir_at. destruct (dirs (ingested batches) !! Split p slash) as [d|] eqn:E; [exfalso|done].
    destruct (ingested_path (Split p slash)) as (id & batch & Hin & Hb & Es & Es'); [by eexists|].
    assert (ingested_chunks !! p = Some batch); [|congruence]. apply ingested_chunks_Some. exists id. split_and!; [done..|].
    rewrite <- Es. symmetry. apply (Join_Split p slash).
  - intros p filters. cbn. unfold scan, dir_at. destruct (dirs (ingested batches) !! Split p slash) as [d|] eqn:E; [|done].
    apply ingested_dirs in E as (id & batch & Hin & Hb & _ & ->); [|intros; by eapply ing_names|apply (ing_ids _ _ _ Hok)].
    destruct (flushed_dir_spec id batch Hb) as (m & d & -> & _). done.
  - intros p batch r lo hi (id & Hin & _ & _ & -> & _)%ingested_lookup Hr E. by eapply ing_bounds.
Qed.

Lemma chunk_hits_batches `{Regexp} c : chunk_hits c from to ingested_chunks ≡ₚ filter (λ r, wanted c from to r = true) (batches ≫= snd).
Proof using Hok.
  unfold chunk_hits, ingested_chunks. rewrite map_to_list_to_map by apply chunk_of_keys. rewrite bind_fmap. unfold nonempty. cbn [chunk_of snd].
  clear Hok. induction batches as [|[id b] l IH]; [done|]. rewrite bind_cons, filter_app, filter_cons. cbn [snd].
  assert (hits c from to b ≡ₚ filter (λ r, wanted c from to r = true) b) as Hb by (unfold hits; by rewrite sortLogRecords_perm).
  case_decide as Hne; [by rewrite bind_cons, IH, Hb|]. rewrite IH. by subst b.
Qed.

End ingestion.

(** Every record that the query and the time range want. *)
Definition full_scan `{Regexp} (c : compiledLogQuery) (from to : option Z) (batches : list (string * list LogRecord)) : list LogRecord :=
  filter (λ r, wanted c from to r = true) (batches ≫= snd).

(** Where the index is asked, each filter shares a term with every message that
    contains it, as it does when it is made of whole words. *)
Definition searchable `{UnicodeWord, Analyzer} (filters : list string) (batches : list (string * list LogRecord)) : Prop :=
  forallb lineFilterIndexable filters = true →
  ∀ id batch r f, (id, batch) ∈ batches → r ∈ batch → f ∈ filters → Contains (RawMessage r) f = true → match_query f (RawMessage r) = true.

Lemma indexed_rows_spec `{Analyzer} filters rows i r : rows !! i = Some r → (∀ f, f ∈ filters → match_query f (RawMessage r) = true) →
  i ∈ indexed_rows filters rows.
Proof.
  intros Hi Hf. unfold indexed_rows. apply elem_of_list_to_set, list_elem_of_omap. exists (i, r). split; [apply elem_of_lookup_imap; by exists i, r|].
  cbn [fst snd]. assert (buildBlugeLineFilterQuery filters (RawMessage r) = true) as ->; [|done].
  assert (forallb (λ f, match_query f (RawMessage r)) filters = true) as Hall by (apply forallb_forall; intros f Hin; apply Hf; by apply list_elem_of_In).
  unfold buildBlugeLineFilterQuery. destruct filters as [|f [|g l]]; [done| |done]. apply Hf. by left.
Qed.

(** C14: a log query answers what scanning every record of every ingested
    batch would.  The batches are written by [IngestLogs] as chunks with names
    of their own, recognized by listings and with honest bounds, and no chunk
    with a record in a range of at most 90 days starts more than an hour
    before the hour in which the range does.  The query is well formed, the
    listing is within the budget, no batch mixes spellings of a label the
    query names, and each positive line filter shares a term with every
    message that contains it.  Without a limit the answer is all wanted
    records the caller may see, newest first, or [QueryTooBroad] when there
    are more than the budget allows; with a limit it is what the caller may
    see of the newest [limit] wanted records. *)
Theorem log_query_exact `{Regexp, UnicodeWord, GoSort, GoRange, Analyzer} rowGroupRows maxChunks maxRecords batches
    scope queryStr service from to limit parsed c
    (q := mkEngine (log_store rowGroupRows (ingested batches)) maxChunks maxRecords) :
  Parse queryStr = Ok parsed → compileLogQuery (with_service service parsed) = Ok c →
  ingestible from to batches →
  Z.of_nat (length (ListChunkPaths (ingested batches) from to)) ≤ chunkLimit q →
  (∀ id batch mt, (id, batch) ∈ batches → mt ∈ Matchers (with_service service parsed) → one_spelling batch (m_Name mt)) →
  searchable (PositiveLineContainsFilters (with_service service parsed)) batches →
  let all := full_scan c from to batches in
  let answer := QueryLogs q scope queryStr service from to limit in
  (limit ≤ 0 → Z.of_nat (length all) ≤ recordLimit q → ∃ out, out ≡ₚ all ∧ newest_first out ∧ answer = Ok (permitted scope out)) ∧
  (limit ≤ 0 → recordLimit q < Z.of_nat (length all) → answer = Err QueryTooBroad) ∧
  (0 < limit ≤ recordLimit q → ∃ top, newest (Z.to_nat limit) all top ∧ newest_first top ∧ answer = Ok (permitted scope top)).
Proof.
  intros Hparse Hc Hok Hbudget Hone Hsearch all answer0.
  pose proof (chunk_hits_batches from to batches Hok c) as Hall. change (filter _ _) with all in Hall.
  destruct (log_query_held q scope queryStr service from to limit parsed c (ingested_chunks batches)) as (H1' & H2' & H3'); [done|done|by apply ingested_holds|..].
  - intros ids [= <-]. by rewrite length_fmap.
  - intros p batch mt (id & Hin & _)%(ingested_chunks_Some from to); [|done]. by eapply Hone.
  - intros Hf p batch valid i r (id & Hin & Hb & Hs & _ & Hd)%(ingested_lookup from to) E Hi Hcon; [|done].
    destruct (flushed_dir_spec id batch Hb) as (m & d & Ed & _). revert E. cbn. unfold scan, dir_at. rewrite Hs, Hd, Ed. cbn. intros [= <-].
    eapply indexed_rows_spec; [done|]. intros f Hin'. eapply Hsearch; [done..| |done|by apply Hcon].
    rewrite <- sortLogRecords_perm. by eapply list_elem_of_lookup_2.
  - rewrite Hall in H1', H2'. split_and!; [|done|].
    + intros Hl Hr. destruct (H1' Hl Hr) as (out & Ho & Hrest). exists out. by rewrite <- Hall.
    + intros Hl. destruct (H3' Hl) as (top & (rest & Hp & Hlen & Hle) & Hrest). exists top. split; [|done]. exists rest. by rewrite <- Hall.
Qed.

(** ** Examples *)

Definition no_regexp : Regexp := λ _, None.
Definition ascii_words : UnicodeWord := λ r, bool_decide (48 ≤ r ≤ 57 ∨ 65 ≤ r ≤ 90 ∨ 97 ≤ r ≤ 122).
(** Terms are what lies between blanks. *)
Definition blank_terms : Analyzer := λ s, Split s " ".

Definition demo_log (t : Z) (service message : string) (labels : gmap string string) : LogRecord := mkLog t "info" service "" "" message labels.
Definition demo_batches : list (string * list LogRecord) :=
  [("chunk-10-30", [demo_log 30 "web" "start" ∅; demo_log 10 "api" "start" ∅]);
   ("chunk-20-50", [demo_log 20 "api" "full stop" ∅; demo_log 40 "api" "stop debug" ∅; demo_log 50 "api" "stop" ∅])].
Definition everyone : QueryScope := mkScope [] false.
Definition demo_query : string := "{service=`api`} |= `stop` != `debug`".

Definition demo_engine (batches : list (string * list LogRecord)) : QueryEngine :=
  mkEngine (@log_store go_map_to_list blank_terms 2 (@ingested go_map_to_list batches)) 0 0.
Definition ask (batches : list (string * list LogRecord)) (scope : QueryScope) (query : string) (from to : option Z) (limit : Z)
    : result query_error (list LogRecord) :=
  @QueryLogs no_regexp ascii_words go_insertion_sort (demo_engine batches) scope query "" from to limit.

(** Every record of the example. *)
Lemma demo_batches_elem id batch r : (id, batch) ∈ demo_batches → r ∈ batch →
  (id = "chunk-10-30" ∧ batch = [demo_log 30 "web" "start" ∅; demo_log 10 "api" "start" ∅] ∧ 10 ≤ Timestamp r ≤ 30 ∨
   id = "chunk-20-50" ∧ batch = [demo_log 20 "api" "full stop" ∅; demo_log 40 "api" "stop debug" ∅; demo_log 50 "api" "stop" ∅] ∧ 20 ≤ Timestamp r ≤ 50) ∧
  Labels r = ∅ ∧ RawMessage r ∈ ["start"; "full stop"; "stop debug"; "stop"].
Proof.
  unfold demo_batches. rewrite !elem_of_cons, elem_of_nil. intros [[= -> ->]|[[= -> ->]|[]]]; rewrite !elem_of_cons, elem_of_nil.
  - intros [->|[->|[]]]; (split; [left; split_and!; [done..|cbn; lia|cbn; lia]|]); (split; [done|]); cbn; auto.
  - intros [->|[->|[->|[]]]]; (split; [right; split_and!; [done..|cbn; lia|cbn; lia]|]); (split; [done|]); cbn; auto 10.
Qed.

Lemma demo_ingestible : @ingestible go_map_to_list (Some 15) (Some 60) demo_batches.
Proof.
  split.
  - vm_compute. repeat constructor; rewrite ?elem_of_cons, ?elem_of_nil; intros HH; repeat destruct HH as [HH|HH]; discriminate || done.
  - intros id batch. unfold demo_batches. rewrite !elem_of_cons, elem_of_nil. intros [[= -> _]|[[= -> _]|[]]]; split; vm_compute; reflexivity.
  - intros id batch r lo hi Hin Hr. destruct (demo_batches_elem _ _ _ Hin Hr) as [[(-> & -> & Ht)|(-> & -> & Ht)] _]; clear -Ht.
    + assert (ParseChunkTimeRangeFromID (path_string (@chunk_path go_map_to_list "chunk-10-30" [demo_log 30 "web" "start" ∅; demo_log 10 "api" "start" ∅]))
        = Some (10, 30)) as -> by (vm_compute; reflexivity). by intros [= <- <-].
    + match goal with |- ParseChunkTimeRangeFromID ?x = _ → _ => assert (ParseChunkTimeRangeFromID x = Some (20, 50)) as -> by (vm_compute; reflexivity) end.
      by intros [= <- <-].
  - intros id batch r r' f _ [= <-] Hin _ Hr' _. destruct (demo_batches_elem _ _ _ Hin Hr') as [[(_ & _ & Ht)|(_ & _ & Ht)] _];
      (assert (hour_of (Timestamp r') = 0) as -> by (apply Z.div_small; lia)); vm_compute; discriminate.
Qed.

Lemma demo_searchable : @searchable ascii_words blank_terms ["stop"] demo_batches.
Proof.
  intros _ id batch r f Hin Hr Hf. apply list_elem_of_singleton in Hf as ->.
  destruct (demo_batches_elem _ _ _ Hin Hr) as (_ & _ & Hm). rewrite !elem_of_cons, elem_of_nil in Hm.
  destruct Hm as [->|[->|[->|[->|[]]]]]; vm_compute; congruence.
Qed.

Lemma permitted_everyone l : permitted everyone l = l.
Proof. induction l as [|r l IH]; [done|]. unfold permitted. rewrite filter_cons, decide_True by done. f_equal. exact IH. Qed.

Lemma log_query_exact_witness :
  ∃ top, newest_first top ∧ length top = 2%nat ∧ ask demo_batches everyone demo_query (Some 15) (Some 60) 5 = Ok top.
Proof.
  edestruct (@log_query_exact no_regexp ascii_words go_insertion_sort go_map_to_list blank_terms 2 0 0 demo_batches everyone demo_query ""
    (Some 15) (Some 60) 5) as (_ & _ & H).
  - vm_compute. reflexivity.
  - vm_compute. reflexivity.
  - exact demo_ingestible.
  - vm_compute. discriminate.
  - intros id batch mt Hin _ r r' k k' v v' Hr _ _ _ Hk. exfalso. apply (demo_batches_elem id) in Hr as (_ & Hl & _); [|done]. by rewrite Hl in Hk.
  - exact demo_searchable.
  - destruct H as (top & (rest & Hp & Hl & _) & Hs & E); [vm_compute; split; congruence|]. exists (permitted everyone top).
    rewrite permitted_everyone in *. split_and!; [done| |done]. rewrite Hl. vm_compute. reflexivity.
Defined.

(** ** Where an answer is not complete *)

(** The caller may see partition [p1] only. *)
Definition p1_only : QueryScope := mkScope ["p1"] true.
Definition scoped_batches : list (string * list LogRecord) :=
  [("chunk-a", [demo_log 10 "api" "mine" {["partition" := "p1"]}; demo_log 20 "api" "theirs" {["partition" := "p2"]}])].

(** The limit is applied before the caller's scope.  A restricted caller
    who asks for the newest record gets nothing when a newer record of a
    partition hidden from the caller exists, although an unlimited query
    shows that there is a record to return. *)
Theorem limit_before_scope :
  ask scoped_batches p1_only "{service=`api`}" None None 1 = Ok [] ∧
  ask scoped_batches p1_only "{service=`api`}" None None 0 = Ok [demo_log 10 "api" "mine" {["partition" := "p1"]}].
Proof. split; vm_compute; reflexivity. Qed.

(** Sixty-four values of [k.v], and one of [k_v]. *)
Definition mixed_batch : list LogRecord :=
  demo_log 0 "api" "m" {["k_v" := "x"]} :: ((λ i, demo_log (Z.of_nat i) "api" "m" {["k.v" := dec (Z.of_nat i)]}) <$> seq 0 64).

(** A truncated dictionary prunes a matching record.  In a chunk with
    too many values of [k.v] and a value of [k_v], the dictionary of the first
    is left out of the manifest and that of the second stands for both: the
    query for [k_v = 7] is answered with nothing, although the same rows
    without the record that has [k_v] are searched and the record is found. *)
Theorem truncated_dictionary_prunes :
  ask [("chunk-a", mixed_batch)] everyone "{k_v=`7`}" None None 0 = Ok [] ∧
  ask [("chunk-a", tail mixed_batch)] everyone "{k_v=`7`}" None None 0 = Ok [demo_log 7 "api" "m" {["k.v" := "7"]}].
Proof. split; vm_compute; reflexivity. Qed.

(** A part of a word is not found.  The message contains the filter, but
    the index has no such term; the whole word is found. *)
Theorem part_of_word_missed :
  ask [("chunk-a", [demo_log 10 "api" "restarted" ∅])] everyone "{service=`api`} |= `start`" None None 0 = Ok [] ∧
  ask [("chunk-a", [demo_log 10 "api" "restarted" ∅])] everyone "{service=`api`} |= `restarted`" None None 0 = Ok [demo_log 10 "api" "restarted" ∅].
Proof. split; vm_compute; reflexivity. Qed.

(** A chunk that starts two hours before the range is not listed, although
    its last record is in the range. *)
Theorem long_chunk_missed :
  let batch := [demo_log 0 "api" "first" ∅; demo_log (3 * Hour) "api" "last" ∅] in
  ask [("chunk-a", batch)] everyone "{service=`api`}" (Some (2 * Hour)) (Some (4 * Hour)) 0 = Ok [] ∧
  ask [("chunk-a", batch)] everyone "{service=`api`}" (Some (2 * Hour)) None 0 = Ok [demo_log (3 * Hour) "api" "last" ∅].
Proof. split; vm_compute; reflexivity. Qed.
